(** * wasi_glk.c: a Glk display-and-io adapter over standard input/output

    A shallow embedding of [src/wasi-glk/wasi_glk.c].  Every C function is
    a computation in a state monad over the process state: the three object
    heaps with their intrusive lists, the global variables, the JSON output
    buffer, the caller's memory and the standard streams.  A computation
    returns, terminates the process ([exit(0)]) or has no defined result
    (a dereference of freed memory, a walk that never ends).  *)

From Stdlib Require Import ZArith Ascii String List Lia.
From stdpp Require Import base tactics option gmap list strings.
Import ListNotations.
Local Open Scope Z_scope.

(** ** Machine integers and characters *)

(** [glui32] arithmetic: a result is reduced modulo 2^32. *)
Definition wrap32 (x : Z) : Z := x mod 2 ^ 32.

Definition NULL : Z := 0.

(** C truth of an integer or a pointer. *)
Definition truthy (x : Z) : bool := bool_decide (x ≠ 0).

(** [(unsigned char) c] as an integer. *)
Definition uchar (c : ascii) : Z := Z.of_N (N_of_ascii c).

Definition NUL : ascii := ascii_of_N 0.
Definition newline : ascii := ascii_of_N 10.
Definition dquote : ascii := ascii_of_N 34.
Definition backslash : ascii := ascii_of_N 92.

(** The C string held by an array: the characters before the first NUL. *)
Fixpoint cstr (a : list ascii) : list ascii :=
  match a with
  | [] => []
  | c :: rest => if decide (c = NUL) then [] else c :: cstr rest
  end.

(** A C string literal.  The JSON literals of the source are written here
    with an apostrophe where the source has an escaped double quote. *)
Definition lit (s : string) : list ascii :=
  map (fun c => if decide (c = "'"%char) then dquote else c)
      (list_ascii_of_string s).

(** [printf]'s [%u] on a [glui32]: at most ten decimal digits. *)
Fixpoint dec_digits (fuel : nat) (n : Z) : list ascii :=
  match fuel with
  | O => []
  | S fuel' =>
      (if decide (n < 10) then [] else dec_digits fuel' (n / 10))
        ++ [ascii_of_N (Z.to_N (48 + n mod 10))]
  end.

Definition fmt_u (n : Z) : list ascii := dec_digits 10 n.
Arguments fmt_u : simpl never.

Definition hex_digit (d : Z) : ascii :=
  ascii_of_N (Z.to_N (if decide (d < 10) then 48 + d else 87 + d)).

(** [printf]'s [%04x] on a value below 65536. *)
Definition fmt_04x (n : Z) : list ascii :=
  [hex_digit (n / 4096 mod 16); hex_digit (n / 256 mod 16);
   hex_digit (n / 16 mod 16); hex_digit (n mod 16)].

(** ** glk.h

    The header is not part of the sources at hand, so the constants the
    code takes from it are parameters.  The labels of one [switch] are
    distinct, as C demands. *)

Class glk_h := {
  gestalt_Version : Z; gestalt_CharInput : Z; gestalt_LineInput : Z;
  gestalt_CharOutput : Z; gestalt_MouseInput : Z; gestalt_Timer : Z;
  gestalt_Graphics : Z; gestalt_DrawImage : Z; gestalt_Sound : Z;
  gestalt_SoundVolume : Z; gestalt_SoundNotify : Z; gestalt_Hyperlinks : Z;
  gestalt_HyperlinkInput : Z; gestalt_SoundMusic : Z;
  gestalt_GraphicsTransparency : Z; gestalt_Unicode : Z;
  gestalt_UnicodeNorm : Z; gestalt_LineInputEcho : Z;
  gestalt_LineTerminators : Z; gestalt_LineTerminatorKey : Z;
  gestalt_DateTime : Z; gestalt_Sound2 : Z; gestalt_ResourceStream : Z;
  gestalt_GraphicsCharInput : Z; gestalt_DrawImageScale : Z;
  gestalt_CharOutput_CannotPrint : Z; gestalt_CharOutput_ExactPrint : Z;
  keycode_Return : Z; keycode_MAXVAL : Z;
  evtype_None : Z; evtype_CharInput : Z; evtype_LineInput : Z;
  seekmode_Start : Z; seekmode_Current : Z; seekmode_End : Z;
  filemode_Write : Z; filemode_Read : Z; filemode_ReadWrite : Z;
  filemode_WriteAppend : Z;
  fileusage_TextMode : Z;
  gestalt_labels :
    NoDup [gestalt_Version; gestalt_CharInput; gestalt_LineInput;
           gestalt_CharOutput; gestalt_Unicode; gestalt_UnicodeNorm;
           gestalt_Timer; gestalt_Graphics; gestalt_DrawImage;
           gestalt_GraphicsTransparency; gestalt_GraphicsCharInput;
           gestalt_DrawImageScale; gestalt_Sound; gestalt_SoundVolume;
           gestalt_SoundNotify; gestalt_SoundMusic; gestalt_Sound2;
           gestalt_Hyperlinks; gestalt_HyperlinkInput; gestalt_MouseInput;
           gestalt_DateTime; gestalt_LineInputEcho; gestalt_LineTerminators;
           gestalt_LineTerminatorKey; gestalt_ResourceStream];
  filemode_labels :
    NoDup [filemode_Write; filemode_Read; filemode_ReadWrite;
           filemode_WriteAppend];
  seekmode_labels : NoDup [seekmode_Start; seekmode_Current; seekmode_End]
}.

Definition MAGIC_WINDOW_NUM : Z := 0x474C4B57.
Definition MAGIC_STREAM_NUM : Z := 0x474C4B53.
Definition MAGIC_FILEREF_NUM : Z := 0x474C4B46.

(** ** The object structures

    Pointers are addresses, [NULL] is 0.  The structures are those of the
    source, field by field; a setter stands for an assignment to a field. *)

Record glk_window_struct := Build_window {
  win_magicnum : Z;
  win_rock : Z;
  win_type : Z;
  win_id : Z;
  win_char_request : Z;
  win_line_request : Z;
  win_char_request_uni : Z;
  win_line_request_uni : Z;
  win_line_buffer : Z;  (* char *, borrowed from the caller *)
  win_line_buffer_uni : Z;  (* glui32 * *)
  win_line_buflen : Z;
  win_str : Z;  (* strid_t *)
  win_echostr : Z;  (* strid_t *)
  win_parent : Z;
  win_child1 : Z;
  win_child2 : Z;
  win_prev : Z;
  win_next : Z
}.

Definition set_win_char_request (v : Z) (x : glk_window_struct) : glk_window_struct :=
  Build_window (win_magicnum x) (win_rock x) (win_type x) (win_id x) v
  (win_line_request x) (win_char_request_uni x) (win_line_request_uni x)
  (win_line_buffer x) (win_line_buffer_uni x) (win_line_buflen x) (win_str x)
  (win_echostr x) (win_parent x) (win_child1 x) (win_child2 x) (win_prev x)
  (win_next x).
Definition set_win_line_request (v : Z) (x : glk_window_struct) : glk_window_struct :=
  Build_window (win_magicnum x) (win_rock x) (win_type x) (win_id x)
  (win_char_request x) v (win_char_request_uni x) (win_line_request_uni x)
  (win_line_buffer x) (win_line_buffer_uni x) (win_line_buflen x) (win_str x)
  (win_echostr x) (win_parent x) (win_child1 x) (win_child2 x) (win_prev x)
  (win_next x).
Definition set_win_char_request_uni (v : Z) (x : glk_window_struct) : glk_window_struct :=
  Build_window (win_magicnum x) (win_rock x) (win_type x) (win_id x)
  (win_char_request x) (win_line_request x) v (win_line_request_uni x)
  (win_line_buffer x) (win_line_buffer_uni x) (win_line_buflen x) (win_str x)
  (win_echostr x) (win_parent x) (win_child1 x) (win_child2 x) (win_prev x)
  (win_next x).
Definition set_win_line_request_uni (v : Z) (x : glk_window_struct) : glk_window_struct :=
  Build_window (win_magicnum x) (win_rock x) (win_type x) (win_id x)
  (win_char_request x) (win_line_request x) (win_char_request_uni x) v
  (win_line_buffer x) (win_line_buffer_uni x) (win_line_buflen x) (win_str x)
  (win_echostr x) (win_parent x) (win_child1 x) (win_child2 x) (win_prev x)
  (win_next x).
Definition set_win_line_buffer (v : Z) (x : glk_window_struct) : glk_window_struct :=
  Build_window (win_magicnum x) (win_rock x) (win_type x) (win_id x)
  (win_char_request x) (win_line_request x) (win_char_request_uni x)
  (win_line_request_uni x) v (win_line_buffer_uni x) (win_line_buflen x)
  (win_str x) (win_echostr x) (win_parent x) (win_child1 x) (win_child2 x)
  (win_prev x) (win_next x).
Definition set_win_line_buffer_uni (v : Z) (x : glk_window_struct) : glk_window_struct :=
  Build_window (win_magicnum x) (win_rock x) (win_type x) (win_id x)
  (win_char_request x) (win_line_request x) (win_char_request_uni x)
  (win_line_request_uni x) (win_line_buffer x) v (win_line_buflen x) (win_str
  x) (win_echostr x) (win_parent x) (win_child1 x) (win_child2 x) (win_prev x)
  (win_next x).
Definition set_win_line_buflen (v : Z) (x : glk_window_struct) : glk_window_struct :=
  Build_window (win_magicnum x) (win_rock x) (win_type x) (win_id x)
  (win_char_request x) (win_line_request x) (win_char_request_uni x)
  (win_line_request_uni x) (win_line_buffer x) (win_line_buffer_uni x) v
  (win_str x) (win_echostr x) (win_parent x) (win_child1 x) (win_child2 x)
  (win_prev x) (win_next x).
Definition set_win_str (v : Z) (x : glk_window_struct) : glk_window_struct :=
  Build_window (win_magicnum x) (win_rock x) (win_type x) (win_id x)
  (win_char_request x) (win_line_request x) (win_char_request_uni x)
  (win_line_request_uni x) (win_line_buffer x) (win_line_buffer_uni x)
  (win_line_buflen x) v (win_echostr x) (win_parent x) (win_child1 x)
  (win_child2 x) (win_prev x) (win_next x).
Definition set_win_echostr (v : Z) (x : glk_window_struct) : glk_window_struct :=
  Build_window (win_magicnum x) (win_rock x) (win_type x) (win_id x)
  (win_char_request x) (win_line_request x) (win_char_request_uni x)
  (win_line_request_uni x) (win_line_buffer x) (win_line_buffer_uni x)
  (win_line_buflen x) (win_str x) v (win_parent x) (win_child1 x) (win_child2
  x) (win_prev x) (win_next x).
Definition set_win_prev (v : Z) (x : glk_window_struct) : glk_window_struct :=
  Build_window (win_magicnum x) (win_rock x) (win_type x) (win_id x)
  (win_char_request x) (win_line_request x) (win_char_request_uni x)
  (win_line_request_uni x) (win_line_buffer x) (win_line_buffer_uni x)
  (win_line_buflen x) (win_str x) (win_echostr x) (win_parent x) (win_child1
  x) (win_child2 x) v (win_next x).
Definition set_win_next (v : Z) (x : glk_window_struct) : glk_window_struct :=
  Build_window (win_magicnum x) (win_rock x) (win_type x) (win_id x)
  (win_char_request x) (win_line_request x) (win_char_request_uni x)
  (win_line_request_uni x) (win_line_buffer x) (win_line_buffer_uni x)
  (win_line_buflen x) (win_str x) (win_echostr x) (win_parent x) (win_child1
  x) (win_child2 x) (win_prev x) v.

Record glk_stream_struct := Build_stream {
  str_magicnum : Z;
  str_rock : Z;
  str_id : Z;
  str_type : Z;  (* 0=window, 1=memory, 2=file *)
  str_readable : Z;
  str_writable : Z;
  str_buf : Z;  (* char *, borrowed from the caller *)
  str_buf_uni : Z;  (* glui32 * *)
  str_buflen : Z;
  str_bufptr : Z;
  str_is_unicode : Z;
  str_file : Z;  (* FILE * *)
  str_win : Z;  (* winid_t *)
  str_readcount : Z;
  str_writecount : Z;
  str_prev : Z;
  str_next : Z
}.

Definition set_str_buf (v : Z) (x : glk_stream_struct) : glk_stream_struct :=
  Build_stream (str_magicnum x) (str_rock x) (str_id x) (str_type x)
  (str_readable x) (str_writable x) v (str_buf_uni x) (str_buflen x)
  (str_bufptr x) (str_is_unicode x) (str_file x) (str_win x) (str_readcount x)
  (str_writecount x) (str_prev x) (str_next x).
Definition set_str_buf_uni (v : Z) (x : glk_stream_struct) : glk_stream_struct :=
  Build_stream (str_magicnum x) (str_rock x) (str_id x) (str_type x)
  (str_readable x) (str_writable x) (str_buf x) v (str_buflen x) (str_bufptr
  x) (str_is_unicode x) (str_file x) (str_win x) (str_readcount x)
  (str_writecount x) (str_prev x) (str_next x).
Definition set_str_buflen (v : Z) (x : glk_stream_struct) : glk_stream_struct :=
  Build_stream (str_magicnum x) (str_rock x) (str_id x) (str_type x)
  (str_readable x) (str_writable x) (str_buf x) (str_buf_uni x) v (str_bufptr
  x) (str_is_unicode x) (str_file x) (str_win x) (str_readcount x)
  (str_writecount x) (str_prev x) (str_next x).
Definition set_str_bufptr (v : Z) (x : glk_stream_struct) : glk_stream_struct :=
  Build_stream (str_magicnum x) (str_rock x) (str_id x) (str_type x)
  (str_readable x) (str_writable x) (str_buf x) (str_buf_uni x) (str_buflen x)
  v (str_is_unicode x) (str_file x) (str_win x) (str_readcount x)
  (str_writecount x) (str_prev x) (str_next x).
Definition set_str_is_unicode (v : Z) (x : glk_stream_struct) : glk_stream_struct :=
  Build_stream (str_magicnum x) (str_rock x) (str_id x) (str_type x)
  (str_readable x) (str_writable x) (str_buf x) (str_buf_uni x) (str_buflen x)
  (str_bufptr x) v (str_file x) (str_win x) (str_readcount x) (str_writecount
  x) (str_prev x) (str_next x).
Definition set_str_file (v : Z) (x : glk_stream_struct) : glk_stream_struct :=
  Build_stream (str_magicnum x) (str_rock x) (str_id x) (str_type x)
  (str_readable x) (str_writable x) (str_buf x) (str_buf_uni x) (str_buflen x)
  (str_bufptr x) (str_is_unicode x) v (str_win x) (str_readcount x)
  (str_writecount x) (str_prev x) (str_next x).
Definition set_str_win (v : Z) (x : glk_stream_struct) : glk_stream_struct :=
  Build_stream (str_magicnum x) (str_rock x) (str_id x) (str_type x)
  (str_readable x) (str_writable x) (str_buf x) (str_buf_uni x) (str_buflen x)
  (str_bufptr x) (str_is_unicode x) (str_file x) v (str_readcount x)
  (str_writecount x) (str_prev x) (str_next x).
Definition set_str_readcount (v : Z) (x : glk_stream_struct) : glk_stream_struct :=
  Build_stream (str_magicnum x) (str_rock x) (str_id x) (str_type x)
  (str_readable x) (str_writable x) (str_buf x) (str_buf_uni x) (str_buflen x)
  (str_bufptr x) (str_is_unicode x) (str_file x) (str_win x) v (str_writecount
  x) (str_prev x) (str_next x).
Definition set_str_writecount (v : Z) (x : glk_stream_struct) : glk_stream_struct :=
  Build_stream (str_magicnum x) (str_rock x) (str_id x) (str_type x)
  (str_readable x) (str_writable x) (str_buf x) (str_buf_uni x) (str_buflen x)
  (str_bufptr x) (str_is_unicode x) (str_file x) (str_win x) (str_readcount x)
  v (str_prev x) (str_next x).
Definition set_str_prev (v : Z) (x : glk_stream_struct) : glk_stream_struct :=
  Build_stream (str_magicnum x) (str_rock x) (str_id x) (str_type x)
  (str_readable x) (str_writable x) (str_buf x) (str_buf_uni x) (str_buflen x)
  (str_bufptr x) (str_is_unicode x) (str_file x) (str_win x) (str_readcount x)
  (str_writecount x) v (str_next x).
Definition set_str_next (v : Z) (x : glk_stream_struct) : glk_stream_struct :=
  Build_stream (str_magicnum x) (str_rock x) (str_id x) (str_type x)
  (str_readable x) (str_writable x) (str_buf x) (str_buf_uni x) (str_buflen x)
  (str_bufptr x) (str_is_unicode x) (str_file x) (str_win x) (str_readcount x)
  (str_writecount x) (str_prev x) v.

Record glk_fileref_struct := Build_fileref {
  fref_magicnum : Z;
  fref_rock : Z;
  fref_id : Z;
  fref_filename : list ascii;  (* char *, an owned copy *)
  fref_usage : Z;
  fref_textmode : Z;
  fref_prev : Z;
  fref_next : Z
}.

Definition set_fref_prev (v : Z) (x : glk_fileref_struct) : glk_fileref_struct :=
  Build_fileref (fref_magicnum x) (fref_rock x) (fref_id x) (fref_filename x)
  (fref_usage x) (fref_textmode x) v (fref_next x).
Definition set_fref_next (v : Z) (x : glk_fileref_struct) : glk_fileref_struct :=
  Build_fileref (fref_magicnum x) (fref_rock x) (fref_id x) (fref_filename x)
  (fref_usage x) (fref_textmode x) (fref_prev x) v.

Record event_t := Build_event {
  ev_type : Z;
  ev_win : Z;  (* winid_t *)
  ev_val1 : Z;
  ev_val2 : Z
}.

Definition set_ev_type (v : Z) (x : event_t) : event_t :=
  Build_event v (ev_win x) (ev_val1 x) (ev_val2 x).
Definition set_ev_win (v : Z) (x : event_t) : event_t :=
  Build_event (ev_type x) v (ev_val1 x) (ev_val2 x).
Definition set_ev_val1 (v : Z) (x : event_t) : event_t :=
  Build_event (ev_type x) (ev_win x) v (ev_val2 x).
Definition set_ev_val2 (v : Z) (x : event_t) : event_t :=
  Build_event (ev_type x) (ev_win x) (ev_val1 x) v.

Record stream_result_t := Build_result {
  res_readcount : Z;
  res_writecount : Z
}.

(** An open [FILE]: the path it was opened on, the file position and
    whether it was opened for appending. *)
Record FILE := Build_FILE {
  file_path : list ascii;
  file_pos : Z;
  file_append : bool
}.

(** ** The process state

    The global variables of the source, the heap of each object kind, the
    caller's memory, the standard streams and the file system. A heap maps
    the address of a live object to its value: [malloc] hands out addresses
    that were never used before, [free] removes the object, and an access
    through an address that holds no object has no defined result. *)

Record State := Build_State {
  windows : gmap Z glk_window_struct;  (* live window objects by address *)
  streams : gmap Z glk_stream_struct;  (* live stream objects by address *)
  filerefs : gmap Z glk_fileref_struct;  (* live file references by address *)
  heap_next : Z;  (* the next address malloc hands out *)
  heap_script : list bool;  (* outcomes of the coming allocations, true: succeeds *)
  gli_rootwin : Z;
  gli_windowlist : Z;
  gli_streamlist : Z;
  gli_currentstr : Z;
  gli_filereflist : Z;
  gli_window_id_counter : Z;
  gli_stream_id_counter : Z;
  gli_fileref_id_counter : Z;
  json_buffer : list ascii;  (* the C string held in json_buffer *)
  json_pos : Z;
  mem : gmap Z ascii;  (* caller memory, byte cells *)
  words : gmap Z Z;  (* caller memory, glui32 cells *)
  events : gmap Z event_t;  (* caller memory, event_t objects *)
  results : gmap Z stream_result_t;  (* caller memory, stream_result_t objects *)
  stdin : list ascii;  (* bytes not yet read *)
  stdout : list (list ascii);  (* one entry per line printed *)
  files : gmap Z FILE;  (* open FILE objects by address *)
  fs : gmap (list ascii) (list ascii)  (* file contents by path *)
}.

Definition put_windows (v : gmap Z glk_window_struct) (x : State) : State :=
  Build_State v (streams x) (filerefs x) (heap_next x) (heap_script x)
  (gli_rootwin x) (gli_windowlist x) (gli_streamlist x) (gli_currentstr x)
  (gli_filereflist x) (gli_window_id_counter x) (gli_stream_id_counter x)
  (gli_fileref_id_counter x) (json_buffer x) (json_pos x) (mem x) (words x)
  (events x) (results x) (stdin x) (stdout x) (files x) (fs x).
Definition put_streams (v : gmap Z glk_stream_struct) (x : State) : State :=
  Build_State (windows x) v (filerefs x) (heap_next x) (heap_script x)
  (gli_rootwin x) (gli_windowlist x) (gli_streamlist x) (gli_currentstr x)
  (gli_filereflist x) (gli_window_id_counter x) (gli_stream_id_counter x)
  (gli_fileref_id_counter x) (json_buffer x) (json_pos x) (mem x) (words x)
  (events x) (results x) (stdin x) (stdout x) (files x) (fs x).
Definition put_filerefs (v : gmap Z glk_fileref_struct) (x : State) : State :=
  Build_State (windows x) (streams x) v (heap_next x) (heap_script x)
  (gli_rootwin x) (gli_windowlist x) (gli_streamlist x) (gli_currentstr x)
  (gli_filereflist x) (gli_window_id_counter x) (gli_stream_id_counter x)
  (gli_fileref_id_counter x) (json_buffer x) (json_pos x) (mem x) (words x)
  (events x) (results x) (stdin x) (stdout x) (files x) (fs x).
Definition put_heap_next (v : Z) (x : State) : State :=
  Build_State (windows x) (streams x) (filerefs x) v (heap_script x)
  (gli_rootwin x) (gli_windowlist x) (gli_streamlist x) (gli_currentstr x)
  (gli_filereflist x) (gli_window_id_counter x) (gli_stream_id_counter x)
  (gli_fileref_id_counter x) (json_buffer x) (json_pos x) (mem x) (words x)
  (events x) (results x) (stdin x) (stdout x) (files x) (fs x).
Definition put_heap_script (v : list bool) (x : State) : State :=
  Build_State (windows x) (streams x) (filerefs x) (heap_next x) v
  (gli_rootwin x) (gli_windowlist x) (gli_streamlist x) (gli_currentstr x)
  (gli_filereflist x) (gli_window_id_counter x) (gli_stream_id_counter x)
  (gli_fileref_id_counter x) (json_buffer x) (json_pos x) (mem x) (words x)
  (events x) (results x) (stdin x) (stdout x) (files x) (fs x).
Definition put_gli_rootwin (v : Z) (x : State) : State :=
  Build_State (windows x) (streams x) (filerefs x) (heap_next x) (heap_script
  x) v (gli_windowlist x) (gli_streamlist x) (gli_currentstr x)
  (gli_filereflist x) (gli_window_id_counter x) (gli_stream_id_counter x)
  (gli_fileref_id_counter x) (json_buffer x) (json_pos x) (mem x) (words x)
  (events x) (results x) (stdin x) (stdout x) (files x) (fs x).
Definition put_gli_windowlist (v : Z) (x : State) : State :=
  Build_State (windows x) (streams x) (filerefs x) (heap_next x) (heap_script
  x) (gli_rootwin x) v (gli_streamlist x) (gli_currentstr x) (gli_filereflist
  x) (gli_window_id_counter x) (gli_stream_id_counter x)
  (gli_fileref_id_counter x) (json_buffer x) (json_pos x) (mem x) (words x)
  (events x) (results x) (stdin x) (stdout x) (files x) (fs x).
Definition put_gli_streamlist (v : Z) (x : State) : State :=
  Build_State (windows x) (streams x) (filerefs x) (heap_next x) (heap_script
  x) (gli_rootwin x) (gli_windowlist x) v (gli_currentstr x) (gli_filereflist
  x) (gli_window_id_counter x) (gli_stream_id_counter x)
  (gli_fileref_id_counter x) (json_buffer x) (json_pos x) (mem x) (words x)
  (events x) (results x) (stdin x) (stdout x) (files x) (fs x).
Definition put_gli_currentstr (v : Z) (x : State) : State :=
  Build_State (windows x) (streams x) (filerefs x) (heap_next x) (heap_script
  x) (gli_rootwin x) (gli_windowlist x) (gli_streamlist x) v (gli_filereflist
  x) (gli_window_id_counter x) (gli_stream_id_counter x)
  (gli_fileref_id_counter x) (json_buffer x) (json_pos x) (mem x) (words x)
  (events x) (results x) (stdin x) (stdout x) (files x) (fs x).
Definition put_gli_filereflist (v : Z) (x : State) : State :=
  Build_State (windows x) (streams x) (filerefs x) (heap_next x) (heap_script
  x) (gli_rootwin x) (gli_windowlist x) (gli_streamlist x) (gli_currentstr x)
  v (gli_window_id_counter x) (gli_stream_id_counter x)
  (gli_fileref_id_counter x) (json_buffer x) (json_pos x) (mem x) (words x)
  (events x) (results x) (stdin x) (stdout x) (files x) (fs x).
Definition put_gli_window_id_counter (v : Z) (x : State) : State :=
  Build_State (windows x) (streams x) (filerefs x) (heap_next x) (heap_script
  x) (gli_rootwin x) (gli_windowlist x) (gli_streamlist x) (gli_currentstr x)
  (gli_filereflist x) v (gli_stream_id_counter x) (gli_fileref_id_counter x)
  (json_buffer x) (json_pos x) (mem x) (words x) (events x) (results x) (stdin
  x) (stdout x) (files x) (fs x).
Definition put_gli_stream_id_counter (v : Z) (x : State) : State :=
  Build_State (windows x) (streams x) (filerefs x) (heap_next x) (heap_script
  x) (gli_rootwin x) (gli_windowlist x) (gli_streamlist x) (gli_currentstr x)
  (gli_filereflist x) (gli_window_id_counter x) v (gli_fileref_id_counter x)
  (json_buffer x) (json_pos x) (mem x) (words x) (events x) (results x) (stdin
  x) (stdout x) (files x) (fs x).
Definition put_gli_fileref_id_counter (v : Z) (x : State) : State :=
  Build_State (windows x) (streams x) (filerefs x) (heap_next x) (heap_script
  x) (gli_rootwin x) (gli_windowlist x) (gli_streamlist x) (gli_currentstr x)
  (gli_filereflist x) (gli_window_id_counter x) (gli_stream_id_counter x) v
  (json_buffer x) (json_pos x) (mem x) (words x) (events x) (results x) (stdin
  x) (stdout x) (files x) (fs x).
Definition put_json_buffer (v : list ascii) (x : State) : State :=
  Build_State (windows x) (streams x) (filerefs x) (heap_next x) (heap_script
  x) (gli_rootwin x) (gli_windowlist x) (gli_streamlist x) (gli_currentstr x)
  (gli_filereflist x) (gli_window_id_counter x) (gli_stream_id_counter x)
  (gli_fileref_id_counter x) v (json_pos x) (mem x) (words x) (events x)
  (results x) (stdin x) (stdout x) (files x) (fs x).
Definition put_json_pos (v : Z) (x : State) : State :=
  Build_State (windows x) (streams x) (filerefs x) (heap_next x) (heap_script
  x) (gli_rootwin x) (gli_windowlist x) (gli_streamlist x) (gli_currentstr x)
  (gli_filereflist x) (gli_window_id_counter x) (gli_stream_id_counter x)
  (gli_fileref_id_counter x) (json_buffer x) v (mem x) (words x) (events x)
  (results x) (stdin x) (stdout x) (files x) (fs x).
Definition put_mem (v : gmap Z ascii) (x : State) : State :=
  Build_State (windows x) (streams x) (filerefs x) (heap_next x) (heap_script
  x) (gli_rootwin x) (gli_windowlist x) (gli_streamlist x) (gli_currentstr x)
  (gli_filereflist x) (gli_window_id_counter x) (gli_stream_id_counter x)
  (gli_fileref_id_counter x) (json_buffer x) (json_pos x) v (words x) (events
  x) (results x) (stdin x) (stdout x) (files x) (fs x).
Definition put_words (v : gmap Z Z) (x : State) : State :=
  Build_State (windows x) (streams x) (filerefs x) (heap_next x) (heap_script
  x) (gli_rootwin x) (gli_windowlist x) (gli_streamlist x) (gli_currentstr x)
  (gli_filereflist x) (gli_window_id_counter x) (gli_stream_id_counter x)
  (gli_fileref_id_counter x) (json_buffer x) (json_pos x) (mem x) v (events x)
  (results x) (stdin x) (stdout x) (files x) (fs x).
Definition put_events (v : gmap Z event_t) (x : State) : State :=
  Build_State (windows x) (streams x) (filerefs x) (heap_next x) (heap_script
  x) (gli_rootwin x) (gli_windowlist x) (gli_streamlist x) (gli_currentstr x)
  (gli_filereflist x) (gli_window_id_counter x) (gli_stream_id_counter x)
  (gli_fileref_id_counter x) (json_buffer x) (json_pos x) (mem x) (words x) v
  (results x) (stdin x) (stdout x) (files x) (fs x).
Definition put_results (v : gmap Z stream_result_t) (x : State) : State :=
  Build_State (windows x) (streams x) (filerefs x) (heap_next x) (heap_script
  x) (gli_rootwin x) (gli_windowlist x) (gli_streamlist x) (gli_currentstr x)
  (gli_filereflist x) (gli_window_id_counter x) (gli_stream_id_counter x)
  (gli_fileref_id_counter x) (json_buffer x) (json_pos x) (mem x) (words x)
  (events x) v (stdin x) (stdout x) (files x) (fs x).
Definition put_stdin (v : list ascii) (x : State) : State :=
  Build_State (windows x) (streams x) (filerefs x) (heap_next x) (heap_script
  x) (gli_rootwin x) (gli_windowlist x) (gli_streamlist x) (gli_currentstr x)
  (gli_filereflist x) (gli_window_id_counter x) (gli_stream_id_counter x)
  (gli_fileref_id_counter x) (json_buffer x) (json_pos x) (mem x) (words x)
  (events x) (results x) v (stdout x) (files x) (fs x).
Definition put_stdout (v : list (list ascii)) (x : State) : State :=
  Build_State (windows x) (streams x) (filerefs x) (heap_next x) (heap_script
  x) (gli_rootwin x) (gli_windowlist x) (gli_streamlist x) (gli_currentstr x)
  (gli_filereflist x) (gli_window_id_counter x) (gli_stream_id_counter x)
  (gli_fileref_id_counter x) (json_buffer x) (json_pos x) (mem x) (words x)
  (events x) (results x) (stdin x) v (files x) (fs x).
Definition put_files (v : gmap Z FILE) (x : State) : State :=
  Build_State (windows x) (streams x) (filerefs x) (heap_next x) (heap_script
  x) (gli_rootwin x) (gli_windowlist x) (gli_streamlist x) (gli_currentstr x)
  (gli_filereflist x) (gli_window_id_counter x) (gli_stream_id_counter x)
  (gli_fileref_id_counter x) (json_buffer x) (json_pos x) (mem x) (words x)
  (events x) (results x) (stdin x) (stdout x) v (fs x).
Definition put_fs (v : gmap (list ascii) (list ascii)) (x : State) : State :=
  Build_State (windows x) (streams x) (filerefs x) (heap_next x) (heap_script
  x) (gli_rootwin x) (gli_windowlist x) (gli_streamlist x) (gli_currentstr x)
  (gli_filereflist x) (gli_window_id_counter x) (gli_stream_id_counter x)
  (gli_fileref_id_counter x) (json_buffer x) (json_pos x) (mem x) (words x)
  (events x) (results x) (stdin x) (stdout x) (files x) v.

(** ** Computations *)

Inductive outcome (A : Type) : Type :=
| Ret (a : A) (s : State)  (* the call returns [a] *)
| Exit (s : State)         (* the process has terminated through [exit] *)
| Undef.                   (* no defined result *)
Arguments Ret {A} a s.
Arguments Exit {A} s.
Arguments Undef {A}.

Definition M (A : Type) : Type := State -> outcome A.

Definition ret {A} (a : A) : M A := fun s => Ret a s.

Definition bind {A B} (m : M A) (k : A -> M B) : M B :=
  fun s =>
    match m s with
    | Ret a s' => k a s'
    | Exit s' => Exit s'
    | Undef => Undef
    end.

Notation "x <- c1 ;; c2" := (bind c1 (fun x => c2))
  (at level 100, c1 at next level, right associativity).
Notation "c1 ;; c2" := (bind c1 (fun _ => c2))
  (at level 100, right associativity).

Definition get {A} (f : State -> A) : M A := fun s => Ret (f s) s.
Definition modify (f : State -> State) : M unit := fun s => Ret tt (f s).
Definition undef {A} : M A := fun _ => Undef.
Definition when (b : bool) (m : M unit) : M unit := if b then m else ret tt.

(** *** The object heaps *)

(** [malloc]: a fresh address, or [NULL] when the allocation fails. *)
Definition malloc : M Z :=
  fun s =>
    match heap_script s with
    | false :: rest => Ret NULL (put_heap_script rest s)
    | true :: rest =>
        Ret (heap_next s) (put_heap_next (heap_next s + 1) (put_heap_script rest s))
    | [] => Ret (heap_next s) (put_heap_next (heap_next s + 1) s)
    end.

(** [*p] for a window pointer [p]. *)
Definition load_win (p : Z) : M glk_window_struct :=
  fun s => match windows s !! p with Some w => Ret w s | None => Undef end.

Definition new_win (p : Z) (w : glk_window_struct) : M unit :=
  modify (fun s => put_windows (<[p := w]> (windows s)) s).

(** [p->field = v], with the setter of the field for [f]. *)
Definition update_win (p : Z) (f : glk_window_struct -> glk_window_struct) : M unit :=
  w <- load_win p ;; new_win p (f w).

Definition free_win (p : Z) : M unit :=
  _ <- load_win p ;; modify (fun s => put_windows (delete p (windows s)) s).

Definition load_str (p : Z) : M glk_stream_struct :=
  fun s => match streams s !! p with Some x => Ret x s | None => Undef end.

Definition new_str (p : Z) (x : glk_stream_struct) : M unit :=
  modify (fun s => put_streams (<[p := x]> (streams s)) s).

Definition update_str (p : Z) (f : glk_stream_struct -> glk_stream_struct) : M unit :=
  x <- load_str p ;; new_str p (f x).

Definition free_str (p : Z) : M unit :=
  _ <- load_str p ;; modify (fun s => put_streams (delete p (streams s)) s).

Definition load_fref (p : Z) : M glk_fileref_struct :=
  fun s => match filerefs s !! p with Some x => Ret x s | None => Undef end.

Definition new_fref (p : Z) (x : glk_fileref_struct) : M unit :=
  modify (fun s => put_filerefs (<[p := x]> (filerefs s)) s).

Definition update_fref (p : Z) (f : glk_fileref_struct -> glk_fileref_struct) : M unit :=
  x <- load_fref p ;; new_fref p (f x).

Definition free_fref (p : Z) : M unit :=
  _ <- load_fref p ;; modify (fun s => put_filerefs (delete p (filerefs s)) s).

(** *** The caller's memory *)

Definition load_byte (a : Z) : M ascii :=
  get (fun s => default NUL (mem s !! a)).

Definition store_byte (a : Z) (c : ascii) : M unit :=
  modify (fun s => put_mem (<[a := c]> (mem s)) s).

Fixpoint memcpy (dst : Z) (src : list ascii) : M unit :=
  match src with
  | [] => ret tt
  | c :: rest => store_byte dst c ;; memcpy (dst + 1) rest
  end.

Definition store_word (a : Z) (v : Z) : M unit :=
  modify (fun s => put_words (<[a := v]> (words s)) s).

Definition zero_event : event_t := Build_event 0 0 0 0.

(** [event->field = v]. *)
Definition update_event (p : Z) (f : event_t -> event_t) : M unit :=
  modify (fun s => put_events (<[p := f (default zero_event (events s !! p))]> (events s)) s).

Definition store_result (p : Z) (r : stream_result_t) : M unit :=
  modify (fun s => put_results (<[p := r]> (results s)) s).

(** *** Standard input and output *)

(** The characters [fgets] takes: at most [n], through the first newline. *)
Fixpoint take_line (n : nat) (input : list ascii) : list ascii * list ascii :=
  match n, input with
  | O, _ => ([], input)
  | _, [] => ([], [])
  | S n', c :: rest =>
      if decide (c = newline) then ([c], rest)
      else let '(l, r) := take_line n' rest in (c :: l, r)
  end.

(** [fgets(buf, size, stdin)]: the array read, or [None] at end of input. *)
Definition fgets_stdin (size : Z) : M (option (list ascii)) :=
  fun s =>
    match stdin s with
    | [] => Ret None s
    | _ :: _ =>
        let '(l, r) := take_line (Z.to_nat (size - 1)) (stdin s) in
        Ret (Some l) (put_stdin r s)
    end.

(** [printf("%s\n", str); fflush(stdout)]. *)
Definition print_line (str : list ascii) : M unit :=
  modify (fun s => put_stdout (stdout s ++ [cstr str]) s).

(** *** Files *)

Inductive whence := SEEK_SET | SEEK_CUR | SEEK_END.

Definition file_content (f : FILE) (s : State) : list ascii :=
  default [] (fs s !! file_path f).

Definition load_FILE (p : Z) : M FILE :=
  fun s => match files s !! p with Some f => Ret f s | None => Undef end.

Definition new_FILE (f : FILE) : M Z :=
  p <- malloc ;;
  if truthy p then modify (fun s => put_files (<[p := f]> (files s)) s) ;; ret p
  else ret NULL.

Definition fopen (path mode : list ascii) : M Z :=
  content <- get (fun s => fs s !! path) ;;
  let m := hd NUL mode in
  if decide (m = "r"%char) then
    match content with
    | Some _ => new_FILE (Build_FILE path 0 false)
    | None => ret NULL
    end
  else if decide (m = "w"%char) then
    modify (fun s => put_fs (<[path := []]> (fs s)) s) ;;
    new_FILE (Build_FILE path 0 false)
  else if decide (m = "a"%char) then
    modify (fun s => put_fs (<[path := default [] content]> (fs s)) s) ;;
    new_FILE (Build_FILE path (Z.of_nat (length (default [] content))) true)
  else ret NULL.

Definition fclose (p : Z) : M unit :=
  _ <- load_FILE p ;; modify (fun s => put_files (delete p (files s)) s).

Definition write_at (content : list ascii) (pos : nat) (c : ascii) : list ascii :=
  if decide (pos < length content)%nat then <[pos := c]> content
  else content ++ replicate (pos - length content) NUL ++ [c].

Definition fputc (c : ascii) (p : Z) : M unit :=
  f <- load_FILE p ;;
  content <- get (file_content f) ;;
  let pos := if file_append f then length content else Z.to_nat (file_pos f) in
  modify (fun s => put_fs (<[file_path f := write_at content pos c]> (fs s)) s) ;;
  modify (fun s => put_files (<[p := Build_FILE (file_path f) (Z.of_nat pos + 1) (file_append f)]> (files s)) s).

Definition fgetc (p : Z) : M Z :=
  f <- load_FILE p ;;
  content <- get (file_content f) ;;
  match content !! Z.to_nat (file_pos f) with
  | Some c =>
      modify (fun s => put_files (<[p := Build_FILE (file_path f) (file_pos f + 1) (file_append f)]> (files s)) s) ;;
      ret (uchar c)
  | None => ret (-1)
  end.

Definition fseek (p : Z) (offset : Z) (w : whence) : M unit :=
  f <- load_FILE p ;;
  content <- get (file_content f) ;;
  let base := match w with
              | SEEK_SET => 0
              | SEEK_CUR => file_pos f
              | SEEK_END => Z.of_nat (length content)
              end in
  when (bool_decide (0 <= base + offset))
    (modify (fun s => put_files (<[p := Build_FILE (file_path f) (base + offset) (file_append f)]> (files s)) s)).

Definition ftell (p : Z) : M Z :=
  f <- load_FILE p ;; ret (file_pos f).

(** ** The program *)

Section Program.
Context `{glk_h}.

(** *** JSON output helpers *)

Definition json_buffer_size : Z := 65536.

Definition json_reset : M unit :=
  modify (put_json_pos 0) ;;
  modify (put_json_buffer []).

(** [json_append(fmt, ...)], with the formatted text for [text]:
    [vsnprintf] writes at [json_buffer + json_pos] what fits in the rest of
    the array and returns the length of the whole text. *)
Definition json_append (text : list ascii) : M unit :=
  pos <- get json_pos ;;
  if decide (json_buffer_size < pos) then undef
  else
    modify (fun s => put_json_buffer
      (take (Z.to_nat pos) (json_buffer s)
         ++ take (Z.to_nat (json_buffer_size - pos - 1)) text) s) ;;
    modify (put_json_pos (pos + Z.of_nat (length text))).

Definition json_flush : M unit :=
  pos <- get json_pos ;;
  when (bool_decide (pos > 0))
    (buf <- get json_buffer ;;
     print_line buf ;;
     json_reset).

Definition json_escape_char (c : ascii) : M unit :=
  if decide (c = dquote) then json_append (lit "\'")
  else if decide (c = backslash) then json_append (lit "\\")
  else if decide (c = newline) then json_append (lit "\n")
  else if decide (uchar c = 13) then json_append (lit "\r")
  else if decide (uchar c = 9) then json_append (lit "\t")
  else if decide (uchar c < 32) then json_append (lit "\u" ++ fmt_04x (uchar c))
  else json_append [c].

Fixpoint json_escape_loop (s : list ascii) : M unit :=
  match s with
  | [] => ret tt
  | c :: rest => json_escape_char c ;; json_escape_loop rest
  end.

(** Escape a string for JSON output; [s] is the C string passed. *)
Definition json_append_escaped_string (s : list ascii) : M unit :=
  json_append (lit "'") ;;
  json_escape_loop s ;;
  json_append (lit "'").

(** *** Core functions *)

(** [exit(0)]. *)
Definition exit_process : M unit := fun s => Exit s.

Definition glk_exit : M unit :=
  json_reset ;;
  json_append (lit "{'type':'exit'}") ;;
  json_flush ;;
  exit_process.

Definition latin1_printable (val : Z) : bool :=
  bool_decide (val <= 0x7F ∨ (val >= 0xA0 ∧ val <= 0xFF)).

Definition glk_gestalt_ext (sel val arr arrlen : Z) : M Z :=
  if decide (sel = gestalt_Version) then ret 0x00000706
  else if decide (sel = gestalt_CharInput) then
    if latin1_printable val then ret 1
    else if decide (val >= 0x100000000 - keycode_MAXVAL) then ret 1
    else ret 0
  else if decide (sel = gestalt_LineInput) then
    if latin1_printable val then ret 1
    else ret 0
  else if decide (sel = gestalt_CharOutput) then
    if latin1_printable val then
      when (truthy arr && bool_decide (arrlen >= 1)) (store_word arr 1) ;;
      ret gestalt_CharOutput_ExactPrint
    else
      when (truthy arr && bool_decide (arrlen >= 1)) (store_word arr 0) ;;
      ret gestalt_CharOutput_CannotPrint
  else if decide (sel = gestalt_Unicode) then ret 1
  else if decide (sel = gestalt_UnicodeNorm) then ret 1
  else if decide (sel = gestalt_Timer) then ret 0
  else if decide (sel = gestalt_Graphics ∨ sel = gestalt_DrawImage
                  ∨ sel = gestalt_GraphicsTransparency
                  ∨ sel = gestalt_GraphicsCharInput
                  ∨ sel = gestalt_DrawImageScale) then ret 0
  else if decide (sel = gestalt_Sound ∨ sel = gestalt_SoundVolume
                  ∨ sel = gestalt_SoundNotify ∨ sel = gestalt_SoundMusic
                  ∨ sel = gestalt_Sound2) then ret 0
  else if decide (sel = gestalt_Hyperlinks ∨ sel = gestalt_HyperlinkInput)
    then ret 1
  else if decide (sel = gestalt_MouseInput) then ret 0
  else if decide (sel = gestalt_DateTime) then ret 1
  else if decide (sel = gestalt_LineInputEcho) then ret 1
  else if decide (sel = gestalt_LineTerminators) then ret 1
  else if decide (sel = gestalt_LineTerminatorKey) then ret 0
  else if decide (sel = gestalt_ResourceStream) then ret 1
  else ret 0.

Definition glk_gestalt (sel val : Z) : M Z :=
  glk_gestalt_ext sel val NULL 0.

(** *** Stream functions *)

Definition gli_stream_new (type readable writable rock : Z) : M Z :=
  str <- malloc ;;
  if negb (truthy str) then ret NULL
  else
    id <- get gli_stream_id_counter ;;
    modify (put_gli_stream_id_counter (wrap32 (id + 1))) ;;
    new_str str
      {| str_magicnum := MAGIC_STREAM_NUM; str_rock := rock; str_id := id;
         str_type := type; str_readable := readable;
         str_writable := writable;
         str_buf := 0; str_buf_uni := 0; str_buflen := 0; str_bufptr := 0;
         str_is_unicode := 0; str_file := 0; str_win := 0;
         str_readcount := 0; str_writecount := 0;
         str_prev := 0; str_next := 0 |} ;;
    head <- get gli_streamlist ;;
    update_str str (set_str_next head) ;;
    when (truthy head) (update_str head (set_str_prev str)) ;;
    modify (put_gli_streamlist str) ;;
    ret str.

Definition gli_stream_open_window (win : Z) : M Z :=
  str <- gli_stream_new 0 0 1 0 ;;
  when (truthy str) (update_str str (set_str_win win)) ;;
  ret str.

Definition glk_stream_open_file (fileref fmode rock : Z) : M Z :=
  if negb (truthy fileref) then ret NULL
  else
    f <- load_fref fileref ;;
    let text := truthy (fref_textmode f) in
    let open (modestr : list ascii) (readable writable : Z) : M Z :=
      file <- fopen (fref_filename f) modestr ;;
      if negb (truthy file) then ret NULL
      else
        str <- gli_stream_new 2 readable writable rock ;;
        if negb (truthy str) then fclose file ;; ret NULL
        else update_str str (set_str_file file) ;; ret str in
    if decide (fmode = filemode_Write) then
      open (if text then lit "w" else lit "wb") 0 1
    else if decide (fmode = filemode_Read) then
      open (if text then lit "r" else lit "rb") 1 0
    else if decide (fmode = filemode_ReadWrite) then
      open (if text then lit "r+" else lit "r+b") 1 1
    else if decide (fmode = filemode_WriteAppend) then
      open (if text then lit "a" else lit "ab") 0 1
    else ret NULL.

Definition fmode_flags (fmode : Z) : Z * Z :=
  if decide (fmode = filemode_Read) then (1, 0)
  else if decide (fmode = filemode_Write) then (0, 1)
  else if decide (fmode = filemode_ReadWrite) then (1, 1)
  else (0, 0).

Definition glk_stream_open_memory (buf buflen fmode rock : Z) : M Z :=
  let '(readable, writable) := fmode_flags fmode in
  str <- gli_stream_new 1 readable writable rock ;;
  if negb (truthy str) then ret NULL
  else
    update_str str (set_str_buf buf) ;;
    update_str str (set_str_buflen buflen) ;;
    update_str str (set_str_bufptr 0) ;;
    update_str str (set_str_is_unicode 0) ;;
    ret str.

Definition glk_stream_open_memory_uni (buf buflen fmode rock : Z) : M Z :=
  let '(readable, writable) := fmode_flags fmode in
  str <- gli_stream_new 1 readable writable rock ;;
  if negb (truthy str) then ret NULL
  else
    update_str str (set_str_buf_uni buf) ;;
    update_str str (set_str_buflen buflen) ;;
    update_str str (set_str_bufptr 0) ;;
    update_str str (set_str_is_unicode 1) ;;
    ret str.

Definition glk_stream_close (str result : Z) : M unit :=
  if negb (truthy str) then ret tt
  else
    x <- load_str str ;;
    when (truthy result)
      (store_result result (Build_result (str_readcount x) (str_writecount x))) ;;
    when (truthy (str_file x))
      (fclose (str_file x) ;; update_str str (set_str_file NULL)) ;;
    cur <- get gli_currentstr ;;
    when (bool_decide (cur = str)) (modify (put_gli_currentstr NULL)) ;;
    (if truthy (str_prev x) then update_str (str_prev x) (set_str_next (str_next x))
     else modify (put_gli_streamlist (str_next x))) ;;
    when (truthy (str_next x)) (update_str (str_next x) (set_str_prev (str_prev x))) ;;
    free_str str.

Definition glk_stream_iterate (str rockptr : Z) : M Z :=
  str' <- (if negb (truthy str) then get gli_streamlist
           else x <- load_str str ;; ret (str_next x)) ;;
  (if truthy str' && truthy rockptr
   then x <- load_str str' ;; store_word rockptr (str_rock x)
   else ret tt) ;;
  ret str'.

Definition glk_stream_get_rock (str : Z) : M Z :=
  if negb (truthy str) then ret 0
  else x <- load_str str ;; ret (str_rock x).

(** [pos] is a [glsi32]; the cursor is a [glui32]. *)
Definition glk_stream_set_position (str pos seekmode : Z) : M unit :=
  if negb (truthy str) then ret tt
  else
    x <- load_str str ;;
    if bool_decide (str_type x = 2) && truthy (str_file x) then
      fseek (str_file x) pos
        (if decide (seekmode = seekmode_Current) then SEEK_CUR
         else if decide (seekmode = seekmode_End) then SEEK_END
         else SEEK_SET)
    else if decide (str_type x = 1) then
      (if decide (seekmode = seekmode_Current) then
         update_str str (set_str_bufptr (wrap32 (str_bufptr x + pos)))
       else if decide (seekmode = seekmode_End) then
         update_str str (set_str_bufptr (wrap32 (str_buflen x + pos)))
       else update_str str (set_str_bufptr (wrap32 pos))) ;;
      x <- load_str str ;;
      when (bool_decide (str_bufptr x > str_buflen x))
        (update_str str (set_str_bufptr (str_buflen x)))
    else ret tt.

Definition glk_stream_get_position (str : Z) : M Z :=
  if negb (truthy str) then ret 0
  else
    x <- load_str str ;;
    if bool_decide (str_type x = 2) && truthy (str_file x) then
      pos <- ftell (str_file x) ;; ret (wrap32 pos)
    else if decide (str_type x = 1) then ret (str_bufptr x)
    else ret 0.

Definition glk_stream_set_current (str : Z) : M unit :=
  modify (put_gli_currentstr str).

Definition glk_stream_get_current : M Z := get gli_currentstr.

(** *** Window functions *)

Definition glk_window_get_root : M Z := get gli_rootwin.

Definition glk_window_open (split method size wintype rock : Z) : M Z :=
  win <- malloc ;;
  if negb (truthy win) then ret NULL
  else
    id <- get gli_window_id_counter ;;
    modify (put_gli_window_id_counter (wrap32 (id + 1))) ;;
    new_win win
      {| win_magicnum := MAGIC_WINDOW_NUM; win_rock := rock;
         win_type := wintype; win_id := id;
         win_char_request := 0; win_line_request := 0;
         win_char_request_uni := 0; win_line_request_uni := 0;
         win_line_buffer := 0; win_line_buffer_uni := 0;
         win_line_buflen := 0; win_str := 0; win_echostr := 0;
         win_parent := 0; win_child1 := 0; win_child2 := 0;
         win_prev := 0; win_next := 0 |} ;;
    (* Add to list *)
    head <- get gli_windowlist ;;
    update_win win (set_win_next head) ;;
    when (truthy head) (update_win head (set_win_prev win)) ;;
    modify (put_gli_windowlist win) ;;
    (* Create window stream *)
    str <- gli_stream_open_window win ;;
    update_win win (set_win_str str) ;;
    root <- get gli_rootwin ;;
    when (negb (truthy root)) (modify (put_gli_rootwin win)) ;;
    (* Output window creation as JSON *)
    w <- load_win win ;;
    json_reset ;;
    json_append (lit "{'type':'update','content':[{'id':" ++ fmt_u (win_id w)
                   ++ lit ",'win':" ++ fmt_u (win_id w)
                   ++ lit ",'op':'create','wintype':" ++ fmt_u wintype
                   ++ lit "}]}") ;;
    json_flush ;;
    ret win.

Definition glk_window_close (win result : Z) : M unit :=
  if negb (truthy win) then ret tt
  else
    w <- load_win win ;;
    (if truthy result then
       x <- (if truthy (win_str w) then load_str (win_str w)
             else ret (Build_stream 0 0 0 0 0 0 0 0 0 0 0 0 0 0 0 0 0)) ;;
       store_result result (Build_result (str_readcount x) (str_writecount x))
     else ret tt) ;;
    (* Close associated stream *)
    (if truthy (win_str w) then
       update_str (win_str w) (set_str_win NULL) ;;
       glk_stream_close (win_str w) NULL ;;
       update_win win (set_win_str NULL)
     else ret tt) ;;
    (* Remove from list *)
    (if truthy (win_prev w) then update_win (win_prev w) (set_win_next (win_next w))
     else modify (put_gli_windowlist (win_next w))) ;;
    when (truthy (win_next w)) (update_win (win_next w) (set_win_prev (win_prev w))) ;;
    root <- get gli_rootwin ;;
    when (bool_decide (root = win)) (modify (put_gli_rootwin NULL)) ;;
    free_win win.

Definition glk_window_iterate (win rockptr : Z) : M Z :=
  win' <- (if negb (truthy win) then get gli_windowlist
           else w <- load_win win ;; ret (win_next w)) ;;
  (if truthy win' && truthy rockptr
   then w <- load_win win' ;; store_word rockptr (win_rock w)
   else ret tt) ;;
  ret win'.

Definition glk_window_get_rock (win : Z) : M Z :=
  if negb (truthy win) then ret 0
  else w <- load_win win ;; ret (win_rock w).

Definition glk_window_get_type (win : Z) : M Z :=
  if negb (truthy win) then ret 0
  else w <- load_win win ;; ret (win_type w).

Definition glk_window_clear (win : Z) : M unit :=
  if negb (truthy win) then ret tt
  else
    w <- load_win win ;;
    json_reset ;;
    json_append (lit "{'type':'update','content':[{'id':" ++ fmt_u (win_id w)
                   ++ lit ",'op':'clear'}]}") ;;
    json_flush.

Definition glk_window_get_stream (win : Z) : M Z :=
  if negb (truthy win) then ret NULL
  else w <- load_win win ;; ret (win_str w).

Definition glk_window_set_echo_stream (win str : Z) : M unit :=
  if negb (truthy win) then ret tt
  else update_win win (set_win_echostr str).

Definition glk_window_get_echo_stream (win : Z) : M Z :=
  if negb (truthy win) then ret NULL
  else w <- load_win win ;; ret (win_echostr w).

Definition glk_set_window (win : Z) : M unit :=
  if truthy win then w <- load_win win ;; modify (put_gli_currentstr (win_str w))
  else modify (put_gli_currentstr NULL).

(** *** Output functions *)

Definition gli_put_char_to_stream (str : Z) (ch : ascii) : M unit :=
  if negb (truthy str) then ret tt
  else
    x <- load_str str ;;
    if negb (truthy (str_writable x)) then ret tt
    else
      update_str str (set_str_writecount (wrap32 (str_writecount x + 1))) ;;
      if bool_decide (str_type x = 0) && truthy (str_win x) then
        (* Window stream - output as JSON *)
        w <- load_win (str_win x) ;;
        json_reset ;;
        json_append (lit "{'type':'update','content':[{'id':"
                       ++ fmt_u (win_id w) ++ lit ",'text':") ;;
        json_append_escaped_string (cstr [ch; NUL]) ;;
        json_append (lit "}]}") ;;
        json_flush
      else if bool_decide (str_type x = 1) && truthy (str_buf x) then
        (* Memory stream *)
        if decide (str_bufptr x < str_buflen x) then
          store_byte (str_buf x + str_bufptr x) ch ;;
          update_str str (set_str_bufptr (wrap32 (str_bufptr x + 1)))
        else ret tt
      else if bool_decide (str_type x = 2) && truthy (str_file x) then
        (* File stream *)
        fputc ch (str_file x)
      else ret tt.

Definition glk_put_char (ch : ascii) : M unit :=
  cur <- get gli_currentstr ;; gli_put_char_to_stream cur ch.

Definition glk_put_char_stream (str : Z) (ch : ascii) : M unit :=
  gli_put_char_to_stream str ch.

Fixpoint gli_put_chars (str : Z) (l : list ascii) : M unit :=
  match l with
  | [] => ret tt
  | ch :: rest => gli_put_char_to_stream str ch ;; gli_put_chars str rest
  end.

(** [s] is the array the pointer leads to, [None] for a null pointer; the
    loop runs over its C string. *)
Definition glk_put_string_stream (str : Z) (s : option (list ascii)) : M unit :=
  match s with
  | None => ret tt
  | Some a => gli_put_chars str (cstr a)
  end.

Definition glk_put_string (s : option (list ascii)) : M unit :=
  cur <- get gli_currentstr ;; glk_put_string_stream cur s.

(** [buf] is the array the pointer leads to; it holds [len] characters at
    least (a read beyond it has no defined result). *)
Definition glk_put_buffer_stream (str : Z) (buf : option (list ascii)) (len : Z) : M unit :=
  match buf with
  | None => ret tt
  | Some a =>
      if decide (Z.of_nat (length a) < len) then undef
      else gli_put_chars str (take (Z.to_nat len) a)
  end.

Definition glk_put_buffer (buf : option (list ascii)) (len : Z) : M unit :=
  cur <- get gli_currentstr ;; glk_put_buffer_stream cur buf len.

(** *** Input functions *)

Definition glk_get_char_stream (str : Z) : M Z :=
  if negb (truthy str) then ret (-1)
  else
    x <- load_str str ;;
    if negb (truthy (str_readable x)) then ret (-1)
    else
      update_str str (set_str_readcount (wrap32 (str_readcount x + 1))) ;;
      if bool_decide (str_type x = 1) && truthy (str_buf x) then
        if decide (str_bufptr x < str_buflen x) then
          c <- load_byte (str_buf x + str_bufptr x) ;;
          update_str str (set_str_bufptr (wrap32 (str_bufptr x + 1))) ;;
          ret (uchar c)
        else ret (-1)
      else if bool_decide (str_type x = 2) && truthy (str_file x) then
        fgetc (str_file x)
      else ret (-1).

(** *** File reference functions *)

Definition gli_fileref_new (filename : list ascii) (usage rock : Z) : M Z :=
  fref <- malloc ;;
  if negb (truthy fref) then ret NULL
  else
    id <- get gli_fileref_id_counter ;;
    modify (put_gli_fileref_id_counter (wrap32 (id + 1))) ;;
    new_fref fref
      {| fref_magicnum := MAGIC_FILEREF_NUM; fref_rock := rock; fref_id := id;
         fref_filename := filename; fref_usage := usage;
         fref_textmode := if decide (Z.land usage fileusage_TextMode ≠ 0) then 1 else 0;
         fref_prev := 0; fref_next := 0 |} ;;
    (* strdup *)
    copy <- malloc ;;
    if negb (truthy copy) then free_fref fref ;; ret NULL
    else
      head <- get gli_filereflist ;;
      update_fref fref (set_fref_next head) ;;
      when (truthy head) (update_fref head (set_fref_prev fref)) ;;
      modify (put_gli_filereflist fref) ;;
      ret fref.

Definition glk_fileref_create_temp (usage rock : Z) : M Z :=
  id <- get gli_fileref_id_counter ;;
  gli_fileref_new (lit "/tmp/glktmp_" ++ fmt_u id) usage rock.

Definition glk_fileref_create_by_name (usage : Z) (name : option (list ascii)) (rock : Z) : M Z :=
  match name with
  | None => ret NULL
  | Some a => gli_fileref_new (cstr a) usage rock
  end.

(** A trailing newline of a line read is removed. *)
Definition strip_newline (input : list ascii) : list ascii :=
  if decide (last input = Some newline) then removelast input else input.

Definition glk_fileref_create_by_prompt (usage fmode rock : Z) : M Z :=
  json_reset ;;
  json_append (lit "{'type':'fileref_prompt','usage':" ++ fmt_u usage
                 ++ lit ",'fmode':" ++ fmt_u fmode ++ lit "}") ;;
  json_flush ;;
  r <- fgets_stdin 256 ;;
  match r with
  | Some filename => gli_fileref_new (strip_newline (cstr filename)) usage rock
  | None => ret NULL
  end.

Definition glk_fileref_create_from_fileref (usage fref rock : Z) : M Z :=
  if negb (truthy fref) then ret NULL
  else f <- load_fref fref ;; gli_fileref_new (cstr (fref_filename f)) usage rock.

Definition glk_fileref_destroy (fref : Z) : M unit :=
  if negb (truthy fref) then ret tt
  else
    f <- load_fref fref ;;
    (if truthy (fref_prev f) then update_fref (fref_prev f) (set_fref_next (fref_next f))
     else modify (put_gli_filereflist (fref_next f))) ;;
    when (truthy (fref_next f)) (update_fref (fref_next f) (set_fref_prev (fref_prev f))) ;;
    free_fref fref.

Definition glk_fileref_iterate (fref rockptr : Z) : M Z :=
  fref' <- (if negb (truthy fref) then get gli_filereflist
            else f <- load_fref fref ;; ret (fref_next f)) ;;
  (if truthy fref' && truthy rockptr
   then f <- load_fref fref' ;; store_word rockptr (fref_rock f)
   else ret tt) ;;
  ret fref'.

Definition glk_fileref_delete_file (fref : Z) : M unit :=
  if negb (truthy fref) then ret tt
  else f <- load_fref fref ;;
       modify (fun s => put_fs (delete (fref_filename f) (fs s)) s).

Definition glk_fileref_does_file_exist (fref : Z) : M Z :=
  if negb (truthy fref) then ret 0
  else
    f <- load_fref fref ;;
    file <- fopen (fref_filename f) (lit "r") ;;
    if truthy file then fclose file ;; ret 1 else ret 0.

(** *** Event functions *)

Definition has_request (w : glk_window_struct) : bool :=
  truthy (win_char_request w) || truthy (win_line_request w)
  || truthy (win_char_request_uni w) || truthy (win_line_request_uni w).

(** The loop of [glk_select] that looks for a window with an input request,
    from [win] on.  A walk of more steps than there are windows is on a
    cycle and never ends. *)
Fixpoint select_scan (fuel : nat) (win : Z) : M Z :=
  if negb (truthy win) then ret NULL
  else
    match fuel with
    | O => undef
    | S fuel' =>
        w <- load_win win ;;
        if has_request w then ret win
        else select_scan fuel' (win_next w)
    end.

Definition glk_select (event : Z) : M unit :=
  if negb (truthy event) then ret tt
  else
    update_event event (set_ev_type evtype_None) ;;
    update_event event (set_ev_win NULL) ;;
    update_event event (set_ev_val1 0) ;;
    update_event event (set_ev_val2 0) ;;
    (* Find a window with an input request *)
    head <- get gli_windowlist ;;
    fuel <- get (fun s => S (size (windows s))) ;;
    win <- select_scan fuel head ;;
    if negb (truthy win) then ret tt
    else
      (* Output input request as JSON *)
      w <- load_win win ;;
      json_reset ;;
      (if truthy (win_line_request w) || truthy (win_line_request_uni w) then
         json_append (lit "{'type':'input','gen':1,'windows':[{'id':"
                        ++ fmt_u (win_id w) ++ lit ",'type':'line'}]}")
       else
         json_append (lit "{'type':'input','gen':1,'windows':[{'id':"
                        ++ fmt_u (win_id w) ++ lit ",'type':'char'}]}")) ;;
      json_flush ;;
      (* Read input from stdin *)
      r <- fgets_stdin 1024 ;;
      input <- match r with
               | Some a => ret (cstr a)
               | None => glk_exit ;; ret []
               end ;;
      (* Remove trailing newline *)
      let input := strip_newline input in
      let len := Z.of_nat (length input) in
      if truthy (win_line_request w) then
        (if truthy (win_line_buffer w) then
           (* Copy input to buffer *)
           let copylen :=
             if decide (len > wrap32 (win_line_buflen w - 1))
             then wrap32 (win_line_buflen w - 1) else len in
           memcpy (win_line_buffer w) (take (Z.to_nat copylen) input) ;;
           store_byte (win_line_buffer w + copylen) NUL ;;
           update_event event (set_ev_type evtype_LineInput) ;;
           update_event event (set_ev_win win) ;;
           update_event event (set_ev_val1 copylen)
         else ret tt) ;;
        update_win win (set_win_line_request 0) ;;
        update_win win (set_win_line_buffer NULL)
      else if truthy (win_char_request w) then
        update_event event (set_ev_type evtype_CharInput) ;;
        update_event event (set_ev_win win) ;;
        (match input with
         | c :: _ => update_event event (set_ev_val1 (uchar c))
         | [] => update_event event (set_ev_val1 keycode_Return)
         end) ;;
        update_win win (set_win_char_request 0)
      else ret tt.

Definition glk_select_poll (event : Z) : M unit :=
  if negb (truthy event) then ret tt
  else
    update_event event (set_ev_type evtype_None) ;;
    update_event event (set_ev_win NULL) ;;
    update_event event (set_ev_val1 0) ;;
    update_event event (set_ev_val2 0).

Definition glk_request_line_event (win buf maxlen initlen : Z) : M unit :=
  if negb (truthy win) then ret tt
  else
    update_win win (set_win_line_request 1) ;;
    update_win win (set_win_line_buffer buf) ;;
    update_win win (set_win_line_buflen maxlen).

Definition glk_request_char_event (win : Z) : M unit :=
  if negb (truthy win) then ret tt
  else update_win win (set_win_char_request 1).

Definition glk_cancel_line_event (win event : Z) : M unit :=
  if negb (truthy win) then ret tt
  else
    when (truthy event)
      (update_event event (set_ev_type evtype_None) ;;
       update_event event (set_ev_win NULL) ;;
       update_event event (set_ev_val1 0) ;;
       update_event event (set_ev_val2 0)) ;;
    update_win win (set_win_line_request 0) ;;
    update_win win (set_win_line_buffer NULL).

Definition glk_cancel_char_event (win : Z) : M unit :=
  if negb (truthy win) then ret tt
  else update_win win (set_win_char_request 0).

Definition glk_request_char_event_uni (win : Z) : M unit :=
  if negb (truthy win) then ret tt
  else update_win win (set_win_char_request_uni 1).

Definition glk_request_line_event_uni (win buf maxlen initlen : Z) : M unit :=
  if negb (truthy win) then ret tt
  else
    update_win win (set_win_line_request_uni 1) ;;
    update_win win (set_win_line_buffer_uni buf) ;;
    update_win win (set_win_line_buflen maxlen).

(** *** The engine and the entry point

    The engine linked into the process is the caller of the functions
    above.  One run of it is the sequence of the calls it makes. *)

Inductive call :=
| Call_exit
| Call_gestalt (sel val : Z)
| Call_gestalt_ext (sel val arr arrlen : Z)
| Call_window_open (split method size wintype rock : Z)
| Call_window_close (win result : Z)
| Call_window_iterate (win rockptr : Z)
| Call_window_clear (win : Z)
| Call_window_get_stream (win : Z)
| Call_window_set_echo_stream (win str : Z)
| Call_set_window (win : Z)
| Call_stream_open_file (fileref fmode rock : Z)
| Call_stream_open_memory (buf buflen fmode rock : Z)
| Call_stream_open_memory_uni (buf buflen fmode rock : Z)
| Call_stream_close (str result : Z)
| Call_stream_iterate (str rockptr : Z)
| Call_stream_set_position (str pos seekmode : Z)
| Call_stream_get_position (str : Z)
| Call_stream_set_current (str : Z)
| Call_put_char (ch : ascii)
| Call_put_char_stream (str : Z) (ch : ascii)
| Call_put_string (s : option (list ascii))
| Call_put_string_stream (str : Z) (s : option (list ascii))
| Call_put_buffer (buf : option (list ascii)) (len : Z)
| Call_put_buffer_stream (str : Z) (buf : option (list ascii)) (len : Z)
| Call_get_char_stream (str : Z)
| Call_fileref_create_temp (usage rock : Z)
| Call_fileref_create_by_name (usage : Z) (name : option (list ascii)) (rock : Z)
| Call_fileref_create_by_prompt (usage fmode rock : Z)
| Call_fileref_create_from_fileref (usage fref rock : Z)
| Call_fileref_destroy (fref : Z)
| Call_fileref_iterate (fref rockptr : Z)
| Call_fileref_delete_file (fref : Z)
| Call_fileref_does_file_exist (fref : Z)
| Call_select (event : Z)
| Call_select_poll (event : Z)
| Call_request_line_event (win buf maxlen initlen : Z)
| Call_request_char_event (win : Z)
| Call_cancel_line_event (win event : Z)
| Call_cancel_char_event (win : Z)
| Call_request_char_event_uni (win : Z)
| Call_request_line_event_uni (win buf maxlen initlen : Z).

Definition void (m : M unit) : M Z := m ;; ret 0.

(** One call; a function of type [void] yields 0. *)
Definition exec (c : call) : M Z :=
  match c with
  | Call_exit => void glk_exit
  | Call_gestalt sel val => glk_gestalt sel val
  | Call_gestalt_ext sel val arr arrlen => glk_gestalt_ext sel val arr arrlen
  | Call_window_open split method size wintype rock =>
      glk_window_open split method size wintype rock
  | Call_window_close win result => void (glk_window_close win result)
  | Call_window_iterate win rockptr => glk_window_iterate win rockptr
  | Call_window_clear win => void (glk_window_clear win)
  | Call_window_get_stream win => glk_window_get_stream win
  | Call_window_set_echo_stream win str => void (glk_window_set_echo_stream win str)
  | Call_set_window win => void (glk_set_window win)
  | Call_stream_open_file fileref fmode rock => glk_stream_open_file fileref fmode rock
  | Call_stream_open_memory buf buflen fmode rock =>
      glk_stream_open_memory buf buflen fmode rock
  | Call_stream_open_memory_uni buf buflen fmode rock =>
      glk_stream_open_memory_uni buf buflen fmode rock
  | Call_stream_close str result => void (glk_stream_close str result)
  | Call_stream_iterate str rockptr => glk_stream_iterate str rockptr
  | Call_stream_set_position str pos seekmode =>
      void (glk_stream_set_position str pos seekmode)
  | Call_stream_get_position str => glk_stream_get_position str
  | Call_stream_set_current str => void (glk_stream_set_current str)
  | Call_put_char ch => void (glk_put_char ch)
  | Call_put_char_stream str ch => void (glk_put_char_stream str ch)
  | Call_put_string s => void (glk_put_string s)
  | Call_put_string_stream str s => void (glk_put_string_stream str s)
  | Call_put_buffer buf len => void (glk_put_buffer buf len)
  | Call_put_buffer_stream str buf len => void (glk_put_buffer_stream str buf len)
  | Call_get_char_stream str => glk_get_char_stream str
  | Call_fileref_create_temp usage rock => glk_fileref_create_temp usage rock
  | Call_fileref_create_by_name usage name rock =>
      glk_fileref_create_by_name usage name rock
  | Call_fileref_create_by_prompt usage fmode rock =>
      glk_fileref_create_by_prompt usage fmode rock
  | Call_fileref_create_from_fileref usage fref rock =>
      glk_fileref_create_from_fileref usage fref rock
  | Call_fileref_destroy fref => void (glk_fileref_destroy fref)
  | Call_fileref_iterate fref rockptr => glk_fileref_iterate fref rockptr
  | Call_fileref_delete_file fref => void (glk_fileref_delete_file fref)
  | Call_fileref_does_file_exist fref => glk_fileref_does_file_exist fref
  | Call_select event => void (glk_select event)
  | Call_select_poll event => void (glk_select_poll event)
  | Call_request_line_event win buf maxlen initlen =>
      void (glk_request_line_event win buf maxlen initlen)
  | Call_request_char_event win => void (glk_request_char_event win)
  | Call_cancel_line_event win event => void (glk_cancel_line_event win event)
  | Call_cancel_char_event win => void (glk_cancel_char_event win)
  | Call_request_char_event_uni win => void (glk_request_char_event_uni win)
  | Call_request_line_event_uni win buf maxlen initlen =>
      void (glk_request_line_event_uni win buf maxlen initlen)
  end.

(** A run of the engine; the values the calls return, in order. *)
Fixpoint run (cs : list call) : M (list Z) :=
  match cs with
  | [] => ret []
  | c :: rest => v <- exec c ;; vs <- run rest ;; ret (v :: vs)
  end.

(** [main], with the run of the engine for [glk_main]. *)
Definition main (glk_main : list call) : M Z :=
  (* Output initialization message *)
  json_reset ;;
  json_append (lit "{'type':'init','version':'0.7.6','support':['unicode','hyperlinks','datetime']}") ;;
  json_flush ;;
  run glk_main ;;
  glk_exit ;;
  ret 0.

End Program.

(** The state [main] starts in. *)
Definition initial_state (input : list ascii) (script : list bool)
    (disk : gmap (list ascii) (list ascii)) : State :=
  {| windows := ∅; streams := ∅; filerefs := ∅;
     heap_next := 1; heap_script := script;
     gli_rootwin := NULL; gli_windowlist := NULL; gli_streamlist := NULL;
     gli_currentstr := NULL; gli_filereflist := NULL;
     gli_window_id_counter := 1; gli_stream_id_counter := 1;
     gli_fileref_id_counter := 1;
     json_buffer := []; json_pos := 0;
     mem := ∅; words := ∅; events := ∅; results := ∅;
     stdin := input; stdout := [];
     files := ∅; fs := disk |}.

(** ** The header of Glk 0.7.5

    The values of the upstream header, to run the program on concrete
    inputs. *)

Definition glk_h_0_7_5_labels : list Z :=
  [0; 1; 2; 3; 15; 16; 5; 6; 7; 14; 23; 24; 8; 9; 10; 13; 21; 11; 12; 4;
   20; 17; 18; 19; 22].

Lemma glk_h_0_7_5_gestalt : NoDup glk_h_0_7_5_labels.
Proof. compute_done. Qed.

Lemma glk_h_0_7_5_filemode : NoDup [1; 2; 3; 5].
Proof. compute_done. Qed.

Lemma glk_h_0_7_5_seekmode : NoDup [0; 1; 2].
Proof. compute_done. Qed.

#[global] Instance glk_h_0_7_5 : glk_h := {|
  gestalt_Version := 0; gestalt_CharInput := 1; gestalt_LineInput := 2;
  gestalt_CharOutput := 3; gestalt_MouseInput := 4; gestalt_Timer := 5;
  gestalt_Graphics := 6; gestalt_DrawImage := 7; gestalt_Sound := 8;
  gestalt_SoundVolume := 9; gestalt_SoundNotify := 10;
  gestalt_Hyperlinks := 11; gestalt_HyperlinkInput := 12;
  gestalt_SoundMusic := 13; gestalt_GraphicsTransparency := 14;
  gestalt_Unicode := 15; gestalt_UnicodeNorm := 16;
  gestalt_LineInputEcho := 17; gestalt_LineTerminators := 18;
  gestalt_LineTerminatorKey := 19; gestalt_DateTime := 20;
  gestalt_Sound2 := 21; gestalt_ResourceStream := 22;
  gestalt_GraphicsCharInput := 23; gestalt_DrawImageScale := 24;
  gestalt_CharOutput_CannotPrint := 0; gestalt_CharOutput_ExactPrint := 2;
  keycode_Return := 4294967290; keycode_MAXVAL := 28;
  evtype_None := 0; evtype_CharInput := 2; evtype_LineInput := 3;
  seekmode_Start := 0; seekmode_Current := 1; seekmode_End := 2;
  filemode_Write := 1; filemode_Read := 2; filemode_ReadWrite := 3;
  filemode_WriteAppend := 5;
  fileusage_TextMode := 256;
  gestalt_labels := glk_h_0_7_5_gestalt;
  filemode_labels := glk_h_0_7_5_filemode;
  seekmode_labels := glk_h_0_7_5_seekmode
|}.

(** ** Vocabulary of the properties *)

(** The bytes a sequence of stores leaves in memory, from address [a] on. *)
Fixpoint write_bytes (a : Z) (l : list ascii) (m : gmap Z ascii) : gmap Z ascii :=
  match l with
  | [] => m
  | c :: rest => write_bytes (a + 1) rest (<[a := c]> m)
  end.

(** [n] calls of [glk_get_char_stream] in a row, and what they return. *)
Fixpoint get_chars (n : nat) (str : Z) : M (list Z) :=
  match n with
  | O => ret []
  | S n' => c <- glk_get_char_stream str ;; cs <- get_chars n' str ;; ret (c :: cs)
  end.

(** The position a seek names: [pos], the cursor plus [pos], or the
    length plus [pos]. *)
Definition seek_target `{glk_h} (x : glk_stream_struct) (pos seekmode : Z) : Z :=
  if decide (seekmode = seekmode_Current) then str_bufptr x + pos
  else if decide (seekmode = seekmode_End) then str_buflen x + pos
  else pos.

(** A memory stream of capacity [C] over a byte buffer ([buf] is not
    null, as [glk_stream_open_memory] leaves it for the buffer it is
    given), opened for reading and writing. *)
Definition memory_stream_rw (x : glk_stream_struct) (C : Z) : Prop :=
  str_type x = 1 /\ str_buf x ≠ NULL /\
  str_readable x ≠ 0 /\ str_writable x ≠ 0 /\ str_buflen x = C.

(** *** Frames *)

(** The state in which the JSON buffer holds [b] and nothing was cut. *)
Definition json_holding (b : list ascii) (s : State) : State :=
  put_json_pos (Z.of_nat (length b)) (put_json_buffer b s).

(** The state after [line] was printed and the JSON buffer reset. *)
Definition emitted (line : list ascii) (s : State) : State :=
  put_stdout (stdout s ++ [line]) (json_holding [] s).

(** What [json_escape_char] appends for one character. *)
Definition json_escape (c : ascii) : list ascii :=
  if decide (c = dquote) then lit "\'"
  else if decide (c = backslash) then lit "\\"
  else if decide (c = newline) then lit "\n"
  else if decide (uchar c = 13) then lit "\r"
  else if decide (uchar c = 9) then lit "\t"
  else if decide (uchar c < 32) then lit "\u" ++ fmt_04x (uchar c)
  else [c].

Definition frame_exit : list ascii := lit "{'type':'exit'}".

Definition frame_init : list ascii :=
  lit "{'type':'init','version':'0.7.6','support':['unicode','hyperlinks','datetime']}".

Definition frame_create (id wintype : Z) : list ascii :=
  lit "{'type':'update','content':[{'id':" ++ fmt_u id
    ++ lit ",'win':" ++ fmt_u id
    ++ lit ",'op':'create','wintype':" ++ fmt_u wintype ++ lit "}]}".

Definition frame_clear (id : Z) : list ascii :=
  lit "{'type':'update','content':[{'id':" ++ fmt_u id ++ lit ",'op':'clear'}]}".

(** The frame of one character written to the window [id]. *)
Definition frame_text (id : Z) (ch : ascii) : list ascii :=
  (lit "{'type':'update','content':[{'id':" ++ fmt_u id ++ lit ",'text':")
    ++ (lit "'" ++ flat_map json_escape (cstr [ch; NUL]) ++ lit "'")
    ++ lit "}]}".

Definition frame_input_line (id : Z) : list ascii :=
  lit "{'type':'input','gen':1,'windows':[{'id':" ++ fmt_u id ++ lit ",'type':'line'}]}".

Definition frame_input_char (id : Z) : list ascii :=
  lit "{'type':'input','gen':1,'windows':[{'id':" ++ fmt_u id ++ lit ",'type':'char'}]}".

Definition frame_prompt (usage fmode : Z) : list ascii :=
  lit "{'type':'fileref_prompt','usage':" ++ fmt_u usage
    ++ lit ",'fmode':" ++ fmt_u fmode ++ lit "}".

(** A text without control characters: it holds no NUL and no newline. *)
Definition plain (text : list ascii) : Prop :=
  Forall (fun c => 32 <= uchar c) text.

(** A frame is one line of output. *)
Definition single_line (frame : list ascii) : Prop := newline ∉ frame.

(** *** The intrusive lists *)

(** The links and the identifier of an object, whatever its kind. *)
Class Linked (T : Type) := {
  link_prev : T -> Z;
  link_next : T -> Z;
  link_id : T -> Z
}.

#[global] Instance window_linked : Linked glk_window_struct :=
  {| link_prev := win_prev; link_next := win_next; link_id := win_id |}.
#[global] Instance stream_linked : Linked glk_stream_struct :=
  {| link_prev := str_prev; link_next := str_next; link_id := str_id |}.
#[global] Instance fileref_linked : Linked glk_fileref_struct :=
  {| link_prev := fref_prev; link_next := fref_next; link_id := fref_id |}.

(** The objects [l], in this order, are linked from [p] on, the first of
    them names [prev] as its predecessor and the last of them [stop] as
    its successor. *)
Fixpoint dlseg {T} `{Linked T} (h : gmap Z T) (prev p : Z) (l : list Z) (stop : Z) : Prop :=
  match l with
  | [] => p = stop
  | q :: l' =>
      p = q /\ q ≠ NULL /\
      exists x, h !! q = Some x /\ link_prev x = prev /\ dlseg h q (link_next x) l' stop
  end.

(** The heap [h] and the list head [head] hold the doubly-linked list
    [l], which has every live object once. *)
Definition dll {T} `{Linked T} (h : gmap Z T) (head : Z) (l : list Z) : Prop :=
  dlseg h NULL head l NULL /\ NoDup l /\ forall p, is_Some (h !! p) -> p ∈ l.

(** [win] is the first window of the list [l] that has an input request. *)
Definition first_pending (s : State) (l : list Z) (win : Z) : Prop :=
  exists pre post w,
    l = pre ++ win :: post /\
    (forall p, p ∈ pre ->
       exists w', windows s !! p = Some w' /\ has_request w' = false) /\
    windows s !! win = Some w /\ has_request w = true.

(** The request frame [glk_select] sends for the window [w]. *)
Definition frame_input (w : glk_window_struct) : list ascii :=
  if truthy (win_line_request w) || truthy (win_line_request_uni w)
  then frame_input_line (win_id w)
  else frame_input_char (win_id w).

(** The event structure after [glk_select] has cleared it. *)
Definition event_none `{glk_h} : event_t := Build_event evtype_None NULL 0 0.

(** *** The exit frame *)

Definition no_exit_frame (out : list (list ascii)) : Prop := frame_exit ∉ out.

(** The exit frame is the last line printed, and the only exit frame. *)
Definition exit_is_last (out : list (list ascii)) : Prop :=
  exists pre, out = pre ++ [frame_exit] /\ no_exit_frame pre.

(** * Properties *)

(** ** Running a computation *)

Lemma bind_Ret {A B} (m : M A) (k : A -> M B) s a s' :
  m s = Ret a s' -> bind m k s = k a s'.
Proof. intros E. unfold bind. now rewrite E. Qed.

Lemma bind_Exit {A B} (m : M A) (k : A -> M B) s s' :
  m s = Exit s' -> bind m k s = Exit s'.
Proof. intros E. unfold bind. now rewrite E. Qed.

Lemma bind_Undef {A B} (m : M A) (k : A -> M B) s :
  m s = Undef -> bind m k s = Undef.
Proof. intros E. unfold bind. now rewrite E. Qed.

Lemma bind_assoc {A B C} (m : M A) (k : A -> M B) (k' : B -> M C) s :
  bind (bind m k) k' s = bind m (fun a => bind (k a) k') s.
Proof. unfold bind. destruct (m s); reflexivity. Qed.

(** What a [Ret] or [Exit] outcome of a sequence says about its parts. *)
Lemma bind_inv_Ret {A B} (m : M A) (k : A -> M B) s b s' :
  bind m k s = Ret b s' -> exists a s1, m s = Ret a s1 /\ k a s1 = Ret b s'.
Proof. unfold bind. destruct (m s); [eauto | discriminate | discriminate]. Qed.

Lemma bind_inv_Exit {A B} (m : M A) (k : A -> M B) s s' :
  bind m k s = Exit s' ->
  m s = Exit s' \/ exists a s1, m s = Ret a s1 /\ k a s1 = Exit s'.
Proof. unfold bind. destruct (m s); [eauto | left; congruence | discriminate]. Qed.

Lemma truthy_true x : x ≠ 0 -> truthy x = true.
Proof. intros. unfold truthy. now apply bool_decide_eq_true. Qed.

Lemma truthy_false x : x = 0 -> truthy x = false.
Proof. intros. unfold truthy. now apply bool_decide_eq_false; intros ?. Qed.

Lemma truthy_NULL : truthy NULL = false.
Proof. reflexivity. Qed.

(** Pairwise distinct elements, as a conjunction. *)
Fixpoint all_ne (a : Z) (l : list Z) : Prop :=
  match l with
  | [] => True
  | b :: rest => a ≠ b /\ all_ne a rest
  end.

Fixpoint distinct (l : list Z) : Prop :=
  match l with
  | [] => True
  | a :: rest => all_ne a rest /\ distinct rest
  end.

Lemma all_ne_notin a l : a ∉ l -> all_ne a l.
Proof.
  induction l as [| b l IH]; simpl; [easy |].
  rewrite not_elem_of_cons. intros [? ?]. auto.
Qed.

Lemma NoDup_distinct l : NoDup l -> distinct l.
Proof.
  induction 1 as [| a l Hin Hnd IH]; simpl; [easy |].
  split; [now apply all_ne_notin | assumption].
Qed.

(** ** Capability queries *)

Section Gestalt.
Context `{glk_h}.

(** The labels of the [switch] of [glk_gestalt_ext], pairwise. *)
Ltac labels :=
  let L := fresh "L" in
  pose proof (NoDup_distinct _ gestalt_labels) as L;
  simpl in L; destruct_and!.

Ltac absurd_eq :=
  match goal with
  | E : ?a = ?b, N : ?a ≠ ?b |- _ => destruct (N E)
  | E : ?a = ?b, N : ?b ≠ ?a |- _ => destruct (N (eq_sym E))
  end.

Ltac switch :=
  unfold glk_gestalt, glk_gestalt_ext;
  repeat
    (let Hc := fresh "Hc" in
     match goal with
     | |- context [decide ?P] => destruct (decide P) as [Hc | Hc]
     end;
     [ first [ reflexivity | absurd_eq | destruct_or!; absurd_eq ]
     | try solve [ exfalso; apply Hc;
                   repeat (first [left; reflexivity | right]); reflexivity ] ]).

Ltac leaf :=
  let s := fresh "s" in
  eexists; intros s; (split; [reflexivity |]); intros arr arrlen;
  try destruct (truthy arr && bool_decide (arrlen >= 1));
  eexists; reflexivity.

Lemma gestalt_returns (sel val : Z) :
  exists r, forall s,
    glk_gestalt sel val s = Ret r s /\
    forall arr arrlen, exists s', glk_gestalt_ext sel val arr arrlen s = Ret r s'.
Proof.
  unfold glk_gestalt, glk_gestalt_ext.
  repeat (case_decide;
          [first [ solve [leaf]
                 | destruct (latin1_printable val);
                   first [ solve [leaf] | case_decide; solve [leaf] ] ] |]).
  leaf.
Qed.

(** C9: the capability query returns a value fixed by its selector and
    argument, whatever the state of the windows, streams and file
    references and however many calls came before (it leaves the state as
    it is); Unicode, hyperlinks and date/time report 1, sound, graphics,
    mouse input and timers report 0. *)
Theorem gestalt_fixed_answers (sel val : Z) :
  (exists r, forall s : State,
     glk_gestalt sel val s = Ret r s /\
     forall arr arrlen, exists s', glk_gestalt_ext sel val arr arrlen s = Ret r s') /\
  (forall s : State,
     glk_gestalt gestalt_Unicode val s = Ret 1 s /\
     glk_gestalt gestalt_Hyperlinks val s = Ret 1 s /\
     glk_gestalt gestalt_HyperlinkInput val s = Ret 1 s /\
     glk_gestalt gestalt_DateTime val s = Ret 1 s /\
     glk_gestalt gestalt_Sound val s = Ret 0 s /\
     glk_gestalt gestalt_SoundVolume val s = Ret 0 s /\
     glk_gestalt gestalt_SoundNotify val s = Ret 0 s /\
     glk_gestalt gestalt_SoundMusic val s = Ret 0 s /\
     glk_gestalt gestalt_Sound2 val s = Ret 0 s /\
     glk_gestalt gestalt_Graphics val s = Ret 0 s /\
     glk_gestalt gestalt_DrawImage val s = Ret 0 s /\
     glk_gestalt gestalt_GraphicsTransparency val s = Ret 0 s /\
     glk_gestalt gestalt_GraphicsCharInput val s = Ret 0 s /\
     glk_gestalt gestalt_DrawImageScale val s = Ret 0 s /\
     glk_gestalt gestalt_MouseInput val s = Ret 0 s /\
     glk_gestalt gestalt_Timer val s = Ret 0 s).
Proof.
  split; [apply gestalt_returns |].
  intros s. labels.
  repeat split; switch.
Qed.

End Gestalt.
(** ** Memory-backed streams *)

Lemma load_str_Some s p x : streams s !! p = Some x -> load_str p s = Ret x s.
Proof. intros E. unfold load_str. now rewrite E. Qed.

Lemma update_str_Some s p x f :
  streams s !! p = Some x ->
  update_str p f s = Ret tt (put_streams (<[p := f x]> (streams s)) s).
Proof. intros E. unfold update_str, bind. now rewrite (load_str_Some _ _ _ E). Qed.

Lemma wrap32_small x : 0 <= x < 2 ^ 32 -> wrap32 x = x.
Proof. intros. unfold wrap32. now apply Z.mod_small. Qed.

Lemma wrap32_add_l x y : wrap32 (wrap32 x + y) = wrap32 (x + y).
Proof. unfold wrap32. now rewrite Zplus_mod_idemp_l. Qed.

Lemma wrap32_range x : 0 <= wrap32 x < 2 ^ 32.
Proof. unfold wrap32. now apply Z.mod_pos_bound. Qed.

Lemma write_bytes_outside a l m b :
  b < a \/ a + Z.of_nat (length l) <= b -> write_bytes a l m !! b = m !! b.
Proof.
  revert a m. induction l as [| c l IH]; intros a m Hb; simpl; [reflexivity |].
  rewrite IH by (simpl in Hb; lia).
  apply lookup_insert_ne. simpl in Hb. lia.
Qed.

Lemma write_bytes_inside a l m (i : nat) c :
  l !! i = Some c -> write_bytes a l m !! (a + Z.of_nat i) = Some c.
Proof.
  revert a m i. induction l as [| d l IH]; intros a m i Hi; [discriminate |].
  destruct i as [| i]; simpl in *.
  - injection Hi as ->. rewrite write_bytes_outside by lia.
    replace (a + Z.of_nat 0) with a by lia. apply lookup_insert_eq.
  - replace (a + Z.of_nat (S i)) with (a + 1 + Z.of_nat i) by lia. now apply IH.
Qed.


(** A memory stream that can be written: one character. *)
Lemma put_char_memory s str x ch :
  str ≠ NULL -> streams s !! str = Some x ->
  str_writable x ≠ 0 -> str_type x = 1 -> str_buf x ≠ 0 ->
  0 <= str_bufptr x -> str_buflen x < 2 ^ 32 ->
  exists s',
    gli_put_char_to_stream str ch s = Ret tt s' /\
    stdout s' = stdout s /\
    streams s' =
      <[str := set_str_bufptr (Z.min (str_bufptr x + 1) (Z.max (str_bufptr x) (str_buflen x)))
                 (set_str_writecount (wrap32 (str_writecount x + 1)) x)]> (streams s) /\
    mem s' = write_bytes (str_buf x + str_bufptr x)
               (if decide (str_bufptr x < str_buflen x) then [ch] else []) (mem s).
Proof.
  intros Hstr Hx Hw Ht Hb Hp Hl.
  unfold gli_put_char_to_stream.
  rewrite (truthy_true str) by assumption. cbn [negb].
  rewrite (bind_Ret _ _ _ _ _ (load_str_Some _ _ _ Hx)).
  rewrite (truthy_true (str_writable x)) by assumption. cbn [negb].
  rewrite (bind_Ret _ _ _ _ _ (update_str_Some _ _ _ _ Hx)).
  rewrite Ht, (truthy_true (str_buf x)) by assumption.
  rewrite bool_decide_eq_false_2, bool_decide_eq_true_2 by lia. cbn [andb].
  case_decide as Hlt.
  - eexists. split.
    + unfold bind at 1. unfold store_byte, modify.
      erewrite update_str_Some by (simpl; apply lookup_insert_eq).
      reflexivity.
    + simpl. repeat split.
      rewrite insert_insert_eq. f_equal.
      rewrite wrap32_small by lia.
      replace (Z.min _ _) with (str_bufptr x + 1) by lia. destruct x; reflexivity.
  - eexists. split; [reflexivity |]. simpl. repeat split.
    f_equal. replace (Z.min _ _) with (str_bufptr x) by lia. destruct x; reflexivity.
Qed.

Lemma set_bufptr_writecount_again x b1 w1 b2 w2 :
  set_str_bufptr b2 (set_str_writecount w2 (set_str_bufptr b1 (set_str_writecount w1 x)))
  = set_str_bufptr b2 (set_str_writecount w2 x).
Proof. destruct x; reflexivity. Qed.

Lemma set_bufptr_writecount_id x :
  set_str_bufptr (str_bufptr x) (set_str_writecount (str_writecount x) x) = x.
Proof. destruct x; reflexivity. Qed.

(** A memory stream that can be written: a sequence of characters, from
    a cursor within the buffer. *)
Lemma put_chars_memory str data : forall s x,
  str ≠ NULL -> streams s !! str = Some x ->
  str_writable x ≠ 0 -> str_type x = 1 -> str_buf x ≠ 0 ->
  0 <= str_bufptr x <= str_buflen x -> str_buflen x < 2 ^ 32 ->
  0 <= str_writecount x < 2 ^ 32 ->
  exists s',
    gli_put_chars str data s = Ret tt s' /\
    stdout s' = stdout s /\
    streams s' =
      <[str := set_str_bufptr (Z.min (str_bufptr x + Z.of_nat (length data)) (str_buflen x))
                 (set_str_writecount (wrap32 (str_writecount x + Z.of_nat (length data))) x)]>
        (streams s) /\
    mem s' = write_bytes (str_buf x + str_bufptr x)
               (take (Z.to_nat (str_buflen x - str_bufptr x)) data) (mem s).
Proof.
  induction data as [| c data IH]; intros s x Hstr Hx Hw Ht Hb Hp Hl Hc.
  - exists s. simpl. repeat split.
    + rewrite !Z.add_0_r, Z.min_l, wrap32_small by lia.
      rewrite set_bufptr_writecount_id. symmetry. now apply insert_id.
    + now rewrite take_nil.
  - destruct (put_char_memory s str x c) as (s1 & E1 & O1 & S1 & M1); try assumption; try lia.
    set (x1 := set_str_bufptr _ _) in S1.
    destruct (IH s1 x1) as (s2 & E2 & O2 & S2 & M2); try assumption.
    + rewrite S1. apply lookup_insert_eq.
    + subst x1. simpl. lia.
    + subst x1. simpl. apply wrap32_range.
    + exists s2. split; [| split; [| split]].
      * simpl. now rewrite (bind_Ret _ _ _ _ _ E1).
      * congruence.
      * rewrite S2, S1, insert_insert_eq. f_equal. subst x1.
        rewrite set_bufptr_writecount_again. simpl.
        rewrite wrap32_add_l.
        change (length (c :: data)) with (S (length data)).
        f_equal; [| f_equal; f_equal]; lia.
      * rewrite M2, M1. subst x1. simpl str_buf. simpl str_bufptr. simpl str_buflen.
        case_decide as Hlt.
        -- replace (Z.to_nat (str_buflen x - str_bufptr x)) with (S (Z.to_nat (str_buflen x - (str_bufptr x + 1)))) by lia.
           simpl. replace (Z.min _ _) with (str_bufptr x + 1) by lia.
           now rewrite Z.add_assoc.
        -- replace (Z.min _ _) with (str_bufptr x) by lia.
           replace (Z.to_nat (str_buflen x - str_bufptr x)) with 0%nat by lia.
           reflexivity.
Qed.

Lemma get_char_memory s str x :
  str ≠ NULL -> streams s !! str = Some x ->
  str_readable x ≠ 0 -> str_type x = 1 -> str_buf x ≠ 0 ->
  0 <= str_bufptr x -> str_buflen x < 2 ^ 32 ->
  glk_get_char_stream str s =
    if decide (str_bufptr x < str_buflen x) then
      Ret (uchar (default NUL (mem s !! (str_buf x + str_bufptr x))))
          (put_streams (<[str := set_str_bufptr (str_bufptr x + 1)
                                   (set_str_readcount (wrap32 (str_readcount x + 1)) x)]>
                          (streams s)) s)
    else
      Ret (-1)
          (put_streams (<[str := set_str_readcount (wrap32 (str_readcount x + 1)) x]>
                          (streams s)) s).
Proof.
  intros Hstr Hx Hr Ht Hb Hp Hl.
  unfold glk_get_char_stream.
  rewrite (truthy_true str) by assumption. cbn [negb].
  rewrite (bind_Ret _ _ _ _ _ (load_str_Some _ _ _ Hx)).
  rewrite (truthy_true (str_readable x)) by assumption. cbn [negb].
  rewrite (bind_Ret _ _ _ _ _ (update_str_Some _ _ _ _ Hx)).
  rewrite Ht, (truthy_true (str_buf x)) by assumption.
  rewrite bool_decide_eq_true_2 by lia. cbn [andb].
  case_decide as Hlt; [| reflexivity].
  unfold bind at 1. unfold load_byte, get. simpl mem.
  match goal with
  | |- context [update_str str ?f] =>
      rewrite (bind_Ret (update_str str f) _ _ _ _
                 (update_str_Some _ _ _ f (lookup_insert_eq _ _ _)))
  end.
  unfold ret. simpl. rewrite insert_insert_eq, wrap32_small by lia.
  repeat f_equal.
Qed.

(** [glk_stream_set_position] on a memory stream: the target is taken as
    a [glui32] and only then compared with the length. *)
Lemma set_position_memory `{glk_h} s str x pos seekmode :
  str ≠ NULL -> streams s !! str = Some x -> str_type x = 1 ->
  glk_stream_set_position str pos seekmode s =
    Ret tt (put_streams
              (<[str := set_str_bufptr
                          (Z.min (wrap32 (seek_target x pos seekmode)) (str_buflen x)) x]>
                 (streams s)) s).
Proof.
  intros Hstr Hx Ht.
  unfold glk_stream_set_position, seek_target.
  rewrite (truthy_true str) by assumption. cbn [negb].
  rewrite (bind_Ret _ _ _ _ _ (load_str_Some _ _ _ Hx)).
  rewrite Ht. rewrite bool_decide_eq_false_2 by lia. cbn [andb].
  rewrite decide_True by reflexivity.
  assert (forall v,
    (update_str str (set_str_bufptr v) ;;
     x0 <- load_str str ;;
     when (bool_decide (str_bufptr x0 > str_buflen x0))
       (update_str str (set_str_bufptr (str_buflen x0)))) s
    = Ret tt (put_streams (<[str := set_str_bufptr (Z.min v (str_buflen x)) x]> (streams s)) s))
    as Hseq.
  { intros v.
    rewrite (bind_Ret _ _ _ _ _ (update_str_Some _ _ _ _ Hx)).
    rewrite (bind_Ret _ _ _ _ _ (load_str_Some _ _ (set_str_bufptr v x) (lookup_insert_eq _ _ _))).
    simpl str_bufptr. simpl str_buflen.
    case_bool_decide as Hgt; unfold when.
    - rewrite update_str_Some with (x := set_str_bufptr v x) by apply lookup_insert_eq.
      simpl. rewrite insert_insert_eq, Z.min_r by lia.
      repeat f_equal.
    - unfold ret. rewrite Z.min_l by lia. reflexivity. }
  repeat case_decide; apply Hseq.
Qed.

Lemma get_chars_memory str n : forall s x,
  str ≠ NULL -> streams s !! str = Some x ->
  str_readable x ≠ 0 -> str_type x = 1 -> str_buf x ≠ 0 ->
  0 <= str_bufptr x -> str_bufptr x + Z.of_nat n <= str_buflen x ->
  str_buflen x < 2 ^ 32 ->
  exists s',
    get_chars n str s =
      Ret (map (fun i => uchar (default NUL (mem s !! (str_buf x + str_bufptr x + Z.of_nat i))))
               (seq 0 n)) s' /\
    mem s' = mem s /\
    exists x', streams s' !! str = Some x' /\
               str_bufptr x' = str_bufptr x + Z.of_nat n.
Proof.
  induction n as [| n IH]; intros s x Hstr Hx Hr Ht Hb Hp Hn Hl.
  - exists s. repeat split. exists x. split; [assumption | simpl; lia].
  - simpl get_chars.
    pose proof (get_char_memory s str x Hstr Hx Hr Ht Hb Hp Hl) as E1.
    rewrite decide_True in E1 by lia.
    set (x1 := set_str_bufptr _ _) in E1.
    set (s1 := put_streams _ s) in E1.
    destruct (IH s1 x1) as (s2 & E2 & M2 & x2 & X2 & P2); try assumption.
    + subst s1. simpl. apply lookup_insert_eq.
    + subst x1. simpl. lia.
    + subst x1. simpl. lia.
    + exists s2. split; [| split].
      * rewrite (bind_Ret _ _ _ _ _ E1), (bind_Ret _ _ _ _ _ E2). unfold ret.
        f_equal. simpl seq. simpl map. f_equal.
        -- now rewrite Z.add_0_r.
        -- rewrite <- seq_shift, map_map. apply map_ext. intros i.
           subst x1 s1. simpl. do 3 f_equal. lia.
      * rewrite M2. reflexivity.
      * exists x2. split; [assumption |]. rewrite P2. subst x1. simpl. lia.
Qed.

Section MemoryStreams.
Context `{glk_h}.

Lemma seekmode_Start_absolute x pos : seek_target x pos seekmode_Start = pos.
Proof.
  pose proof (NoDup_distinct _ seekmode_labels) as L. simpl in L.
  unfold seek_target. repeat case_decide; intuition congruence.
Qed.

(** C3: on a memory-backed stream of capacity [C] over a byte buffer
    (the [buf] of the stream is not null) opened for reading and
    writing, with the cursor at 0: writing [n] bytes stores the first
    [min n C] of them in the buffer, in order, and nothing outside it,
    leaves the cursor at [min n C] (never beyond [C]) and adds [n] to the
    write counter (a [glui32]); when [n <= C], seeking back to 0 and
    reading [n] bytes returns the bytes written, in order; and a read at
    the end returns -1 and leaves the cursor where it is. *)
Theorem memory_stream_round_trip (s : State) (str : Z) (x : glk_stream_struct)
    (C : Z) (data : list ascii) :
  str ≠ NULL -> streams s !! str = Some x -> memory_stream_rw x C ->
  0 <= C < 2 ^ 32 -> str_bufptr x = 0 -> 0 <= str_writecount x < 2 ^ 32 ->
  let n := Z.of_nat (length data) in
  exists s1 x1,
    glk_put_buffer_stream str (Some data) n s = Ret tt s1 /\
    streams s1 !! str = Some x1 /\ memory_stream_rw x1 C /\
    str_bufptr x1 = Z.min n C /\
    str_writecount x1 = wrap32 (str_writecount x + n) /\
    (forall (i : nat) c, Z.of_nat i < C -> data !! i = Some c ->
       mem s1 !! (str_buf x + Z.of_nat i) = Some c) /\
    (forall a, a < str_buf x \/ str_buf x + Z.min n C <= a ->
       mem s1 !! a = mem s !! a) /\
    (n <= C ->
     exists s2,
       (glk_stream_set_position str 0 seekmode_Start ;; get_chars (length data) str) s1
       = Ret (map uchar data) s2) /\
    (forall s3 x3,
       streams s3 !! str = Some x3 -> memory_stream_rw x3 C -> C <= str_bufptr x3 ->
       exists s4 x4,
         glk_get_char_stream str s3 = Ret (-1) s4 /\
         streams s4 !! str = Some x4 /\ str_bufptr x4 = str_bufptr x3).
Proof.
  intros Hstr Hx (Ht & Hb & Hr & Hw & Hl) HC Hp Hwc n.
  destruct (put_chars_memory str data s x) as (s1 & E1 & _ & S1 & M1);
    try assumption; try lia.
  rewrite Hp, Hl, Z.add_0_l, Z.add_0_r, Z.sub_0_r in *.
  set (x1 := set_str_bufptr _ _) in S1.
  assert (streams s1 !! str = Some x1) as Hx1 by (rewrite S1; apply lookup_insert_eq).
  exists s1, x1. split; [| split; [| split; [| split; [| split; [| split; [| split; [| split]]]]]]].
  - unfold glk_put_buffer_stream. rewrite decide_False by lia.
    subst n. rewrite Nat2Z.id, firstn_all. exact E1.
  - exact Hx1.
  - subst x1. repeat split; assumption.
  - reflexivity.
  - reflexivity.
  - intros i c Hi Hc. rewrite M1. apply write_bytes_inside.
    rewrite lookup_take_lt by lia. exact Hc.
  - intros a Ha. rewrite M1. apply write_bytes_outside.
    rewrite length_take. fold n in Ha. lia.
  - intros Hn.
    rewrite (bind_Ret _ _ _ _ _ (set_position_memory s1 str x1 0 seekmode_Start Hstr Hx1 Ht)).
    rewrite seekmode_Start_absolute.
    replace (Z.min (wrap32 0) (str_buflen x1)) with 0
      by (subst x1; simpl; change (wrap32 0) with 0; lia).
    set (x2 := set_str_bufptr _ x1). set (s2 := put_streams _ s1).
    destruct (get_chars_memory str (length data) s2 x2) as (s3 & E3 & _ & _);
      try assumption.
    + subst s2. simpl. apply lookup_insert_eq.
    + subst x2 x1. simpl. lia.
    + subst x2 x1. simpl. fold n. lia.
    + subst x2 x1. simpl. lia.
    + exists s3. rewrite E3. f_equal.
      apply list_eq. intros i. rewrite !list_lookup_fmap.
      destruct (data !! i) as [c |] eqn:Hc.
      * rewrite lookup_seq_lt by (apply lookup_lt_Some in Hc; lia).
        simpl. f_equal. f_equal.
        subst x2 s2 x1. simpl.
        rewrite M1, Z.add_0_r.
        rewrite (write_bytes_inside _ _ _ i c); [reflexivity |].
        apply lookup_lt_Some in Hc as Hlt.
        rewrite lookup_take_lt by lia. exact Hc.
      * rewrite lookup_seq_ge by (apply lookup_ge_None in Hc; lia). reflexivity.
  - intros s3 x3 Hx3 (Ht3 & Hb3 & Hr3 & Hw3 & Hl3) Hend.
    rewrite (get_char_memory s3 str x3) by (assumption || lia).
    rewrite decide_False by lia.
    eexists _, _. split; [reflexivity |]. split; [simpl; apply lookup_insert_eq |].
    reflexivity.
Qed.

End MemoryStreams.

(** ** The JSON output helpers *)

Lemma plain_app a b : plain a -> plain b -> plain (a ++ b).
Proof. apply Forall_app_2. Qed.

Lemma plain_single_line text : plain text -> single_line text.
Proof.
  unfold plain, single_line. rewrite Forall_forall. intros Hp Hin.
  specialize (Hp _ Hin). vm_compute in Hp. now apply Hp.
Qed.

Lemma plain_cstr text : plain text -> cstr text = text.
Proof.
  induction 1 as [| c l Hc Hl IH]; simpl; [reflexivity |].
  rewrite decide_False; [now rewrite IH |].
  intros ->. vm_compute in Hc. now apply Hc.
Qed.

Lemma uchar_ascii_of_N n : (n < 256)%N -> uchar (ascii_of_N n) = Z.of_N n.
Proof. intros. unfold uchar. now rewrite N_ascii_embedding. Qed.

Lemma plain_dec_digits fuel n : plain (dec_digits fuel n).
Proof.
  revert n. induction fuel as [| fuel IH]; intros n; simpl; [constructor |].
  apply plain_app; [case_decide; [constructor | apply IH] |].
  repeat constructor.
  pose proof (Z.mod_pos_bound n 10). rewrite uchar_ascii_of_N; lia.
Qed.

Lemma plain_fmt_u n : plain (fmt_u n).
Proof. apply plain_dec_digits. Qed.

Lemma length_dec_digits fuel n : (length (dec_digits fuel n) <= fuel)%nat.
Proof.
  revert n. induction fuel as [| fuel IH]; intros n; simpl; [lia |].
  rewrite length_app. simpl. case_decide; [simpl; lia |].
  specialize (IH (n / 10)). lia.
Qed.

Lemma length_fmt_u n : (length (fmt_u n) <= 10)%nat.
Proof. apply length_dec_digits. Qed.

Lemma plain_hex_digit d : 0 <= d < 16 -> 32 <= uchar (hex_digit d).
Proof.
  intros Hd. unfold hex_digit. case_decide; rewrite uchar_ascii_of_N; lia.
Qed.

Lemma plain_fmt_04x n : plain (fmt_04x n).
Proof.
  unfold fmt_04x.
  repeat constructor; apply plain_hex_digit; apply Z.mod_pos_bound; lia.
Qed.

Lemma plain_lit_computed text :
  forallb (fun c => 32 <=? uchar c) text = true -> plain text.
Proof.
  unfold plain. rewrite forallb_forall, Forall_forall.
  intros Hall c Hc. apply Z.leb_le, Hall. now apply list_elem_of_In.
Qed.

Ltac plain_lit := apply plain_lit_computed; vm_compute; reflexivity.

Lemma plain_json_escape c : plain (json_escape c).
Proof.
  unfold json_escape.
  repeat case_decide; try plain_lit.
  - apply plain_app; [plain_lit | apply plain_fmt_04x].
  - repeat constructor. lia.
Qed.

Lemma length_json_escape c : (length (json_escape c) <= 6)%nat.
Proof. unfold json_escape. repeat case_decide; simpl; lia. Qed.

Lemma plain_flat_map_escape text : plain (flat_map json_escape text).
Proof.
  induction text as [| c text IH]; simpl; [constructor |].
  apply plain_app; [apply plain_json_escape | assumption].
Qed.

Ltac plain_frame :=
  repeat match goal with
         | |- plain (fmt_u _) => apply plain_fmt_u
         | |- plain (flat_map json_escape _) => apply plain_flat_map_escape
         | |- plain (_ ++ _) => apply plain_app
         | |- plain (lit _) => plain_lit
         end.

Lemma plain_frame_exit : plain frame_exit.
Proof. plain_lit. Qed.

Lemma plain_frame_init : plain frame_init.
Proof. plain_lit. Qed.

Lemma plain_frame_create id wintype : plain (frame_create id wintype).
Proof. unfold frame_create. plain_frame. Qed.

Lemma plain_frame_clear id : plain (frame_clear id).
Proof. unfold frame_clear. plain_frame. Qed.

Lemma plain_frame_text id ch : plain (frame_text id ch).
Proof. unfold frame_text. plain_frame. Qed.

Lemma plain_frame_input_line id : plain (frame_input_line id).
Proof. unfold frame_input_line. plain_frame. Qed.

Lemma plain_frame_input_char id : plain (frame_input_char id).
Proof. unfold frame_input_char. plain_frame. Qed.

Lemma plain_frame_prompt usage fmode : plain (frame_prompt usage fmode).
Proof. unfold frame_prompt. plain_frame. Qed.

(** *** The buffer *)

Lemma json_reset_run s : json_reset s = Ret tt (json_holding [] s).
Proof. reflexivity. Qed.

Lemma json_holding_again b b' s : json_holding b (json_holding b' s) = json_holding b s.
Proof. reflexivity. Qed.

Lemma json_append_run b text s :
  Z.of_nat (length b + length text) < 65536 ->
  json_append text (json_holding b s) = Ret tt (json_holding (b ++ text) s).
Proof.
  intros Hlen. unfold json_append, bind, get, modify, json_buffer_size. simpl.
  rewrite decide_False by lia.
  rewrite Nat2Z.id, firstn_all.
  rewrite take_ge by lia.
  unfold json_holding. simpl. rewrite length_app, Nat2Z.inj_add.
  reflexivity.
Qed.

Lemma json_flush_run b s :
  b ≠ [] -> json_flush (json_holding b s) = Ret tt (emitted (cstr b) s).
Proof.
  intros Hb. unfold json_flush, bind, get. simpl.
  rewrite bool_decide_eq_true_2 by (destruct b; [congruence | simpl; lia]).
  reflexivity.
Qed.

Lemma json_escape_char_run b c s :
  Z.of_nat (length b + 6) < 65536 ->
  json_escape_char c (json_holding b s) = Ret tt (json_holding (b ++ json_escape c) s).
Proof.
  intros Hlen. pose proof (length_json_escape c) as Hc.
  unfold json_escape_char. unfold json_escape in *.
  repeat case_decide; apply json_append_run; lia.
Qed.

Lemma json_escape_loop_run text : forall b s,
  Z.of_nat (length b + 6 * length text) < 65536 ->
  json_escape_loop text (json_holding b s)
  = Ret tt (json_holding (b ++ flat_map json_escape text) s).
Proof.
  induction text as [| c text IH]; intros b s Hlen; simpl.
  - now rewrite app_nil_r.
  - rewrite (bind_Ret _ _ _ _ _ (json_escape_char_run b c s ltac:(simpl length in Hlen; lia))).
    rewrite IH, app_assoc; [reflexivity |].
    pose proof (length_json_escape c). rewrite length_app. simpl in Hlen. lia.
Qed.

Lemma length_flat_map_escape text :
  (length (flat_map json_escape text) <= 6 * length text)%nat.
Proof.
  induction text as [| c text IH]; simpl; [lia |].
  rewrite length_app. pose proof (length_json_escape c). lia.
Qed.

Lemma json_append_escaped_string_run text b s :
  Z.of_nat (length b + 6 * length text + 2) < 65536 ->
  json_append_escaped_string text (json_holding b s)
  = Ret tt (json_holding (b ++ (lit "'" ++ flat_map json_escape text ++ lit "'")) s).
Proof.
  intros Hlen. unfold json_append_escaped_string.
  pose proof (length_flat_map_escape text) as Hesc.
  assert (length (lit "'") = 1%nat) as Hq by reflexivity.
  rewrite (bind_Ret _ _ _ _ _ (json_append_run b (lit "'") s ltac:(lia))).
  rewrite (bind_Ret _ _ _ _ _ (json_escape_loop_run text (b ++ lit "'") s
             ltac:(rewrite length_app; lia))).
  rewrite json_append_run.
  - now rewrite <- !app_assoc.
  - rewrite !length_app. lia.
Qed.

(** One frame built by a single [json_append]. *)
Lemma emit_run text s :
  text ≠ [] -> Z.of_nat (length text) < 65536 -> plain text ->
  (json_reset ;; json_append text ;; json_flush) s = Ret tt (emitted text s).
Proof.
  intros Hne Hlen Hp.
  rewrite (bind_Ret _ _ _ _ _ (json_reset_run s)).
  rewrite (bind_Ret _ _ _ _ _ (json_append_run [] text s ltac:(simpl; lia))).
  simpl app. rewrite json_flush_run by assumption.
  now rewrite plain_cstr.
Qed.

Lemma bind_json_reset {B} (k : unit -> M B) s :
  bind json_reset k s = k tt (json_holding [] s).
Proof. reflexivity. Qed.

Lemma bind_json_append {B} b text (k : unit -> M B) s :
  Z.of_nat (length b + length text) < 65536 ->
  bind (json_append text) k (json_holding b s) = k tt (json_holding (b ++ text) s).
Proof. intros Hlen. now rewrite (bind_Ret _ _ _ _ _ (json_append_run b text s Hlen)). Qed.

Lemma bind_json_append_escaped_string {B} b text (k : unit -> M B) s :
  Z.of_nat (length b + 6 * length text + 2) < 65536 ->
  bind (json_append_escaped_string text) k (json_holding b s)
  = k tt (json_holding (b ++ (lit "'" ++ flat_map json_escape text ++ lit "'")) s).
Proof.
  intros Hlen.
  now rewrite (bind_Ret _ _ _ _ _ (json_append_escaped_string_run text b s Hlen)).
Qed.

Lemma bind_json_flush {B} b (k : unit -> M B) s :
  b ≠ [] -> bind json_flush k (json_holding b s) = k tt (emitted (cstr b) s).
Proof. intros Hb. now rewrite (bind_Ret _ _ _ _ _ (json_flush_run b s Hb)). Qed.

Lemma glk_exit_run s : glk_exit s = Exit (emitted frame_exit s).
Proof.
  unfold glk_exit.
  rewrite bind_json_reset, bind_json_append by (simpl; lia).
  rewrite bind_json_flush by discriminate.
  reflexivity.
Qed.

(** ** The intrusive lists *)

Section Lists.
Context {T : Type} `{Linked T}.
Implicit Types (h : gmap Z T) (l : list Z) (p q : Z).

Lemma dlseg_head h prev p l stop : dlseg h prev p l stop -> p = hd stop l.
Proof. destruct l; simpl; [easy | intros (-> & _); reflexivity]. Qed.

Lemma dlseg_live h prev p l stop q :
  dlseg h prev p l stop -> q ∈ l -> is_Some (h !! q).
Proof.
  revert prev p. induction l as [| a l IH]; intros prev p Hl Hq.
  - now apply elem_of_nil in Hq.
  - destruct Hl as (-> & Ha & x & Hx & Hp & Hl).
    apply elem_of_cons in Hq as [-> | Hq]; [eauto | eapply IH; eauto].
Qed.

Lemma dlseg_not_NULL h prev p l stop : dlseg h prev p l stop -> NULL ∉ l.
Proof.
  revert prev p. induction l as [| a l IH]; intros prev p Hl Hq.
  - now apply elem_of_nil in Hq.
  - destruct Hl as (-> & Ha & x & Hx & Hp & Hl).
    apply elem_of_cons in Hq as [Heq | Hq]; [congruence | eapply IH; eauto].
Qed.

(** Only the links of the objects of the list matter. *)
Lemma dlseg_ext h h' prev p l stop :
  (forall q x, q ∈ l -> h !! q = Some x ->
     exists x', h' !! q = Some x' /\
                link_prev x' = link_prev x /\ link_next x' = link_next x) ->
  dlseg h prev p l stop -> dlseg h' prev p l stop.
Proof.
  revert prev p. induction l as [| a l IH]; intros prev p Hext Hl; [exact Hl |].
  destruct Hl as (-> & Ha & x & Hx & Hp & Hl).
  destruct (Hext a x) as (x' & Hx' & Hp' & Hn'); [left | assumption |].
  split; [reflexivity |]. split; [assumption |].
  exists x'. split; [assumption |]. split; [congruence |].
  rewrite Hn'. apply IH; [| assumption].
  intros q y Hq Hy. apply Hext; [now right | assumption].
Qed.

Lemma dll_length h head l : dll h head l -> (length l <= size h)%nat.
Proof.
  intros (Hl & Hnd & _).
  rewrite <- size_dom, <- (size_list_to_set (C := gset Z) l) by assumption.
  apply subseteq_size. intros q Hq. apply elem_of_list_to_set in Hq.
  apply elem_of_dom. eapply dlseg_live; eauto.
Qed.

Lemma dll_lookup h head l q : dll h head l -> q ∈ l -> is_Some (h !! q).
Proof. intros (Hl & _). now apply dlseg_live with (1 := Hl). Qed.

Lemma dll_head_live h head l :
  dll h head l -> head ≠ NULL -> exists x, h !! head = Some x /\ link_prev x = NULL.
Proof.
  intros (Hl & _) Hh. destruct l as [| a l]; simpl in Hl; [congruence |].
  destruct Hl as (-> & _ & x & Hx & Hp & _). eauto.
Qed.

Lemma dll_empty : dll (∅ : gmap Z T) NULL [].
Proof.
  split; [reflexivity |]. split; [constructor |].
  intros p [x Hx]. now rewrite lookup_empty in Hx.
Qed.

(** The last object of [l], or [prev] when there is none. *)
Definition last_or (prev : Z) l : Z := default prev (last l).

Lemma last_or_cons prev a l : last_or prev (a :: l) = last_or a l.
Proof.
  unfold last_or. destruct l as [| b l]; [reflexivity |].
  rewrite last_cons_cons.
  destruct (last (b :: l)) eqn:E; [reflexivity | now apply last_None in E].
Qed.

Lemma dlseg_app h prev first l1 l2 stop :
  dlseg h prev first (l1 ++ l2) stop <->
  dlseg h prev first l1 (hd stop l2) /\ dlseg h (last_or prev l1) (hd stop l2) l2 stop.
Proof.
  revert prev first. induction l1 as [| a l1 IH]; intros prev first; simpl.
  - split.
    + intros Hl. split; [now apply dlseg_head in Hl |].
      now rewrite <- (dlseg_head _ _ _ _ _ Hl).
    + intros [-> Hl]. exact Hl.
  - rewrite last_or_cons. split.
    + intros (-> & Ha & x & Hx & Hp & Hl). apply IH in Hl as [Hl1 Hl2].
      split; [| assumption]. repeat split; [assumption |]. eauto.
    + intros [(-> & Ha & x & Hx & Hp & Hl1) Hl2].
      repeat split; [assumption |]. exists x. repeat split; [assumption.. |].
      apply IH. now split.
Qed.

(** The successor of the last object of a segment is replaced. *)
Lemma dlseg_change_stop h h' stop stop' : forall l prev first,
  l ≠ [] -> dlseg h prev first l stop -> NoDup l ->
  (forall q y, q ∈ l -> last l ≠ Some q -> h !! q = Some y ->
     exists y', h' !! q = Some y' /\
                link_prev y' = link_prev y /\ link_next y' = link_next y) ->
  (forall q y, last l = Some q -> h !! q = Some y ->
     exists y', h' !! q = Some y' /\
                link_prev y' = link_prev y /\ link_next y' = stop') ->
  dlseg h' prev first l stop'.
Proof.
  induction l as [| a l IH]; intros prev first Hne Hl Hnd Hrest Hlast; [congruence |].
  destruct Hl as (-> & Ha & x & Hx & Hp & Hl).
  apply NoDup_cons in Hnd as [Hnotin Hnd].
  destruct l as [| b l].
  - simpl in Hl. destruct (Hlast a x eq_refl Hx) as (y' & Hy' & Hp' & Hn').
    split; [reflexivity |]. split; [assumption |].
    exists y'. split; [assumption |]. split; [congruence |].
    simpl. assumption.
  - assert (last (a :: b :: l) ≠ Some a) as Hla.
    { rewrite last_cons_cons. intros Hla. apply Hnotin.
      apply last_Some_elem_of in Hla. assumption. }
    destruct (Hrest a x ltac:(left) Hla Hx) as (y' & Hy' & Hp' & Hn').
    split; [reflexivity |]. split; [assumption |].
    exists y'. split; [assumption |]. split; [congruence |].
    rewrite Hn'. apply IH; [discriminate | assumption | assumption | |].
    + intros q y Hq Hlq Hy. apply Hrest; [now right | | assumption].
      now rewrite last_cons_cons.
    + intros q y Hlq Hy. apply Hlast; [| assumption]. now rewrite last_cons_cons.
Qed.

(** The predecessor of the first object of a segment is replaced. *)
Lemma dlseg_change_prev h h' prev prev' first l stop :
  dlseg h prev first l stop -> NoDup l ->
  (forall q y, q ∈ l -> q ≠ first -> h !! q = Some y ->
     exists y', h' !! q = Some y' /\
                link_prev y' = link_prev y /\ link_next y' = link_next y) ->
  (forall y, l ≠ [] -> h !! first = Some y ->
     exists y', h' !! first = Some y' /\
                link_prev y' = prev' /\ link_next y' = link_next y) ->
  dlseg h' prev' first l stop.
Proof.
  intros Hl Hnd Hrest Hfirst. destruct l as [| a l]; [exact Hl |].
  destruct Hl as (-> & Ha & x & Hx & Hp & Hl).
  apply NoDup_cons in Hnd as [Hnotin Hnd].
  destruct (Hfirst x) as (y' & Hy' & Hp' & Hn'); [discriminate | assumption |].
  split; [reflexivity |]. split; [assumption |].
  exists y'. split; [assumption |]. split; [assumption |].
  rewrite Hn'. apply (dlseg_ext h); [| assumption].
  intros q y Hq Hy. apply Hrest; [now right | | assumption].
  intros ->. contradiction.
Qed.

(** An object whose links stay as they are is replaced. *)
Lemma dll_update h head l p x x' :
  dll h head l -> h !! p = Some x ->
  link_prev x' = link_prev x -> link_next x' = link_next x ->
  dll (<[p := x']> h) head l.
Proof.
  intros (Hl & Hnd & Hlive) Hx Hp Hn. split; [| split; [assumption |]].
  - apply (dlseg_ext h); [| assumption].
    intros q y Hq Hy. destruct (decide (q = p)) as [-> | Hne].
    + exists x'. rewrite lookup_insert_eq. split; [reflexivity |].
      assert (y = x) as -> by congruence. now split.
    + exists y. rewrite lookup_insert_ne by congruence. now repeat split.
  - intros q Hq. apply Hlive. destruct (decide (q = p)) as [-> | Hne]; [eauto |].
    now rewrite lookup_insert_ne in Hq by congruence.
Qed.

(** A new object is put at the head of the list. *)
Lemma dll_push h head l p x h' :
  dll h head l -> h !! p = None -> p ≠ NULL ->
  link_prev x = NULL -> link_next x = head ->
  h' !! p = Some x ->
  (forall q, q ≠ p -> q ≠ head -> h' !! q = h !! q) ->
  (forall y, head ≠ NULL -> h !! head = Some y ->
     exists y', h' !! head = Some y' /\
                link_prev y' = p /\ link_next y' = link_next y) ->
  (head = NULL -> h' !! NULL = h !! NULL) ->
  dll h' p (p :: l).
Proof.
  intros (Hl & Hnd & Hlive) Hp Hne Hprev Hnext Hp' Hrest Hhead Hnull.
  assert (p ∉ l) as Hpl.
  { intros Hin. apply (dlseg_live _ _ _ _ _ _ Hl) in Hin. rewrite Hp in Hin.
    now destruct Hin. }
  split; [| split].
  - split; [reflexivity |]. split; [assumption |].
    exists x. split; [assumption |]. split; [assumption |].
    rewrite Hnext.
    apply (dlseg_change_prev h h' NULL); [assumption | assumption | |].
    + intros q y Hq Hqh Hy. exists y. rewrite Hrest; [now repeat split | | assumption].
      intros ->. contradiction.
    + intros y Hl0 Hy. apply Hhead; [| assumption].
      intros Hh. destruct l as [| a l]; [congruence |].
      destruct Hl as (-> & Ha & _). congruence.
  - apply NoDup_cons. now split.
  - intros q Hq. destruct (decide (q = p)) as [-> | Hqp]; [left |]. right.
    apply Hlive. destruct (decide (q = head)) as [-> | Hqh].
    + destruct (decide (head = NULL)) as [Hh | Hh].
      * rewrite Hh in *. now rewrite <- Hnull.
      * destruct l as [| a l]; simpl in Hl; [congruence |].
        destruct Hl as (-> & Ha & y & Hy & _). eauto.
    + now rewrite <- Hrest.
Qed.

(** An object is taken out of the list. *)
Lemma dll_unlink h head l p x h' head' :
  dll h head l -> h !! p = Some x ->
  h' !! p = None ->
  (forall q, is_Some (h' !! q) -> is_Some (h !! q)) ->
  (forall q, q ≠ p -> q ≠ link_prev x -> q ≠ link_next x -> h' !! q = h !! q) ->
  (forall y, link_prev x ≠ NULL -> h !! link_prev x = Some y ->
     exists y', h' !! link_prev x = Some y' /\
                link_prev y' = link_prev y /\ link_next y' = link_next x) ->
  (forall y, link_next x ≠ NULL -> h !! link_next x = Some y ->
     exists y', h' !! link_next x = Some y' /\
                link_prev y' = link_prev x /\ link_next y' = link_next y) ->
  head' = (if decide (link_prev x = NULL) then link_next x else head) ->
  exists l1 l2, l = l1 ++ p :: l2 /\ dll h' head' (l1 ++ l2).
Proof.
  intros (Hl & Hnd & Hlive) Hx Hp' Hdom Hrest Hprev Hnext ->.
  destruct (list_elem_of_split l p) as (l1 & l2 & ->); [apply Hlive; eauto |].
  exists l1, l2. split; [reflexivity |].
  pose proof (dlseg_not_NULL _ _ _ _ _ Hl) as Hnull.
  apply dlseg_app in Hl as [HA HB]. simpl in HA.
  destruct HB as (_ & Hpn & x0 & Hx0 & Hpx & HC).
  assert (x0 = x) as -> by congruence.
  pose proof (dlseg_head _ _ _ _ _ HC) as Hnx.
  apply NoDup_app in Hnd as (Hnd1 & Hdisj & Hnd2).
  apply NoDup_cons in Hnd2 as [Hp2 Hnd2].
  assert (p ∉ l1) as Hp1 by (intros Hin; apply (Hdisj _ Hin); left).
  assert (forall q, q ∈ l1 -> q ∉ l2) as Hd12
    by (intros q H1 H2; apply (Hdisj _ H1); now right).
  assert (forall q, q ∈ l2 -> q ≠ link_prev x) as Hl2prev.
  { intros q Hq ->. rewrite Hpx in Hq. unfold last_or in Hq.
    destruct (last l1) as [z |] eqn:Hz; simpl in Hq.
    - apply last_Some_elem_of in Hz. now apply (Hd12 _ Hz).
    - apply Hnull. apply elem_of_app. right. now right. }
  assert (forall q, q ∈ l1 -> q ≠ link_next x) as Hl1next.
  { intros q Hq ->. rewrite Hnx in Hq. destruct l2 as [| b l2]; simpl in Hq.
    - apply Hnull. apply elem_of_app. now left.
    - apply (Hd12 _ Hq). left. }
  split; [| split].
  - apply dlseg_app. split.
    + destruct l1 as [| a l1].
      * simpl in *. subst head. unfold last_or in Hpx. simpl in Hpx.
        rewrite decide_True by congruence. congruence.
      * assert (link_prev x ≠ NULL) as Hpne.
        { rewrite Hpx. unfold last_or.
          destruct (last (a :: l1)) as [z |] eqn:Hz; [| now apply last_None in Hz].
          simpl. intros ->. apply Hnull, elem_of_app. left.
          now apply last_Some_elem_of in Hz. }
        rewrite decide_False by assumption. rewrite <- Hnx.
        apply (dlseg_change_stop h h' p); [discriminate | assumption.. | |].
        -- intros q y Hq Hlast Hy. exists y. rewrite Hrest;
             [now repeat split | congruence | | now apply Hl1next].
           intros ->. apply Hlast. rewrite Hpx. unfold last_or.
           destruct (last (a :: l1)) as [z |] eqn:Hz; [reflexivity |].
           now apply last_None in Hz.
        -- intros q y Hlast Hy.
           assert (q = link_prev x) as ->
             by (rewrite Hpx; unfold last_or; now rewrite Hlast).
           now apply Hprev.
    + rewrite <- Hnx, <- Hpx.
      apply (dlseg_change_prev h h' p); [assumption | assumption | |].
      * intros q y Hq Hqn Hy. exists y. rewrite Hrest;
          [now repeat split | | now apply Hl2prev | assumption].
        intros ->. contradiction.
      * intros y Hne Hy. apply Hnext; [| assumption].
        rewrite Hnx. destruct l2 as [| b l2]; [congruence |]. simpl.
        intros ->. apply Hnull, elem_of_app. right. right. left.
  - apply NoDup_app. repeat split; assumption.
  - intros q Hq. destruct (decide (q = p)) as [-> | Hqp].
    + rewrite Hp' in Hq. now destruct Hq.
    + apply Hdom, Hlive in Hq. rewrite elem_of_app, elem_of_cons in Hq.
      apply elem_of_app. tauto.
Qed.

(** The neighbours of an object of the list are live objects, and other
    objects than it. *)
Lemma dll_neighbours h head l p x :
  dll h head l -> h !! p = Some x ->
  (link_prev x = NULL <-> head = p) /\
  (link_prev x ≠ NULL ->
     is_Some (h !! link_prev x) /\ link_prev x ≠ p /\ link_prev x ≠ link_next x) /\
  (link_next x ≠ NULL -> is_Some (h !! link_next x) /\ link_next x ≠ p).
Proof.
  intros (Hl & Hnd & Hlive) Hx.
  destruct (list_elem_of_split l p) as (l1 & l2 & ->); [apply Hlive; eauto |].
  pose proof (dlseg_not_NULL _ _ _ _ _ Hl) as Hnull.
  pose proof Hl as Hall.
  apply dlseg_app in Hl as [HA HB]. simpl in HA.
  destruct HB as (_ & Hpn & x0 & Hx0 & Hpx & HC).
  assert (x0 = x) as -> by congruence.
  pose proof (dlseg_head _ _ _ _ _ HC) as Hnx.
  apply NoDup_app in Hnd as (Hnd1 & Hdisj & Hnd2).
  apply NoDup_cons in Hnd2 as [Hp2 Hnd2].
  assert (p ∉ l1) as Hp1 by (intros Hin; apply (Hdisj _ Hin); left).
  split; [| split].
  - destruct l1 as [| a l1].
    + simpl in HA. unfold last_or in Hpx. simpl in Hpx. split; congruence.
    + split.
      * intros Hprev. exfalso. rewrite Hpx in Hprev. unfold last_or in Hprev.
        destruct (last (a :: l1)) as [z |] eqn:Hz; [| now apply last_None in Hz].
        simpl in Hprev. subst z. apply Hnull, elem_of_app. left.
        now apply last_Some_elem_of in Hz.
      * intros ->. exfalso. apply Hp1. destruct HA as (-> & _). left.
  - intros Hprev. rewrite Hpx in *. unfold last_or in *.
    destruct (last l1) as [z |] eqn:Hz; simpl in *; [| congruence].
    apply last_Some_elem_of in Hz.
    split; [| split].
    + apply (dlseg_live _ _ _ _ _ _ Hall). apply elem_of_app. now left.
    + intros ->. contradiction.
    + rewrite Hnx. destruct l2 as [| b l2]; simpl; [assumption |].
      intros ->. apply (Hdisj _ Hz). right. left.
  - intros Hnext. rewrite Hnx in *. destruct l2 as [| b l2]; simpl in *; [congruence |].
    split.
    + apply (dlseg_live _ _ _ _ _ _ Hall). apply elem_of_app. right. right. left.
    + intros ->. apply Hp2. left.
Qed.

End Lists.

(** ** Waiting for input *)

Section Select.
Context `{glk_h}.

(** The scan of [glk_select] stops at the first window with a request. *)
Lemma select_scan_finds s win w post : forall pre fuel prev p,
  dlseg (windows s) prev p (pre ++ win :: post) NULL ->
  (forall q, q ∈ pre ->
     exists w', windows s !! q = Some w' /\ has_request w' = false) ->
  windows s !! win = Some w -> has_request w = true ->
  (length pre < fuel)%nat ->
  select_scan fuel p s = Ret win s.
Proof.
  induction pre as [| a pre IH]; intros fuel prev p Hl Hpre Hw Hreq Hfuel.
  - destruct Hl as (-> & Hne & x & Hx & _).
    destruct fuel as [| fuel]; [simpl in Hfuel; lia |].
    simpl. rewrite truthy_true by assumption. simpl.
    unfold bind, load_win. rewrite Hw, Hreq. reflexivity.
  - destruct Hl as (-> & Hne & x & Hx & Hp & Hl).
    destruct fuel as [| fuel]; [simpl in Hfuel; lia |].
    destruct (Hpre a) as (w' & Hw' & Hreq'); [left |].
    assert (w' = x) as -> by congruence.
    simpl. rewrite truthy_true by assumption. simpl.
    unfold bind at 1. unfold load_win. rewrite Hx, Hreq'.
    apply (IH fuel a); try assumption.
    + intros q Hq. apply Hpre. now right.
    + simpl in Hfuel. lia.
Qed.

(** With no request anywhere the scan ends on the null pointer. *)
Lemma select_scan_none s : forall l fuel prev p,
  dlseg (windows s) prev p l NULL ->
  (forall q, q ∈ l ->
     exists w', windows s !! q = Some w' /\ has_request w' = false) ->
  (length l < fuel)%nat ->
  select_scan fuel p s = Ret NULL s.
Proof.
  induction l as [| a l IH]; intros fuel prev p Hl Hnone Hfuel.
  - simpl in Hl. subst p. destruct fuel; reflexivity.
  - destruct Hl as (-> & Hne & x & Hx & Hp & Hl).
    destruct fuel as [| fuel]; [simpl in Hfuel; lia |].
    destruct (Hnone a) as (w' & Hw' & Hreq'); [left |].
    assert (w' = x) as -> by congruence.
    simpl. rewrite truthy_true by assumption. simpl.
    unfold bind at 1. unfold load_win. rewrite Hx, Hreq'.
    apply (IH fuel a); try assumption.
    + intros q Hq. apply Hnone. now right.
    + simpl in Hfuel. lia.
Qed.

End Select.

Lemma bind_modify {B} (f : State -> State) (k : unit -> M B) s :
  bind (modify f) k s = k tt (f s).
Proof. reflexivity. Qed.

Lemma bind_get {A B} (f : State -> A) (k : A -> M B) s :
  bind (get f) k s = k (f s) s.
Proof. reflexivity. Qed.

Lemma bind_ret {A B} (a : A) (k : A -> M B) s : bind (ret a) k s = k a s.
Proof. reflexivity. Qed.

Lemma bind_update_event {B} p f (k : unit -> M B) s :
  bind (update_event p f) k s
  = k tt (put_events (<[p := f (default zero_event (events s !! p))]> (events s)) s).
Proof. reflexivity. Qed.

Lemma load_win_Some s p w : windows s !! p = Some w -> load_win p s = Ret w s.
Proof. intros E. unfold load_win. now rewrite E. Qed.

Lemma update_win_Some s p w f :
  windows s !! p = Some w ->
  update_win p f s = Ret tt (put_windows (<[p := f w]> (windows s)) s).
Proof. intros E. unfold update_win, bind. now rewrite (load_win_Some _ _ _ E). Qed.

Lemma take_line_newline line rest n :
  newline ∉ line -> (length line < n)%nat ->
  take_line n (line ++ newline :: rest) = (line ++ [newline], rest).
Proof.
  revert n. induction line as [| c line IH]; intros n Hnl Hlen.
  - destruct n; [simpl in Hlen; lia |]. reflexivity.
  - destruct n; [simpl in Hlen; lia |]. simpl.
    apply not_elem_of_cons in Hnl as [Hc Hnl].
    rewrite decide_False by congruence.
    rewrite IH by (simpl in Hlen; assumption || lia). reflexivity.
Qed.

Lemma cstr_no_NUL text : NUL ∉ text -> cstr text = text.
Proof.
  induction text as [| c text IH]; intros Hn; [reflexivity |].
  apply not_elem_of_cons in Hn as [Hc Hn]. simpl.
  rewrite decide_False by congruence. now rewrite IH.
Qed.

Lemma strip_newline_line line : strip_newline (line ++ [newline]) = line.
Proof.
  unfold strip_newline. rewrite last_snoc, decide_True by reflexivity.
  apply removelast_last.
Qed.

(** A line of input, as [glk_select] takes it. *)
Lemma fgets_line s line rest :
  stdin s = line ++ newline :: rest ->
  newline ∉ line -> NUL ∉ line -> (length line <= 1022)%nat ->
  fgets_stdin 1024 s = Ret (Some (line ++ [newline])) (put_stdin rest s) /\
  strip_newline (cstr (line ++ [newline])) = line.
Proof.
  intros Hin Hnl Hnul Hlen. split.
  - unfold fgets_stdin. rewrite Hin.
    destruct (line ++ newline :: rest) eqn:E; [now destruct line |].
    rewrite <- E. change (Z.to_nat (1024 - 1)) with 1023%nat.
    rewrite take_line_newline by (assumption || lia). reflexivity.
  - rewrite cstr_no_NUL, strip_newline_line; [reflexivity |].
    intros Hin'. apply elem_of_app in Hin' as [? | Hin']; [auto |].
    apply list_elem_of_singleton in Hin'. discriminate.
Qed.

Lemma fgets_run s chunk rest :
  stdin s ≠ [] -> take_line 1023 (stdin s) = (chunk, rest) ->
  fgets_stdin 1024 s = Ret (Some chunk) (put_stdin rest s).
Proof.
  intros Hin Hc. unfold fgets_stdin. destruct (stdin s) eqn:E; [congruence |].
  change (Z.to_nat (1024 - 1)) with 1023%nat. now rewrite Hc.
Qed.

Lemma fgets_eof s : stdin s = [] -> fgets_stdin 1024 s = Ret None s.
Proof. intros Hin. unfold fgets_stdin. now rewrite Hin. Qed.

Lemma length_frame_input w : Z.of_nat (length (frame_input w)) < 200.
Proof.
  unfold frame_input, frame_input_line, frame_input_char.
  pose proof (length_fmt_u (win_id w)).
  destruct (_ || _); rewrite !length_app; simpl length; lia.
Qed.

Lemma plain_frame_input w : plain (frame_input w).
Proof.
  unfold frame_input.
  destruct (_ || _); [apply plain_frame_input_line | apply plain_frame_input_char].
Qed.

Lemma frame_input_not_nil w : frame_input w ≠ [].
Proof. unfold frame_input. now destruct (_ || _). Qed.

Section SelectClaims.
Context `{glk_h}.

Lemma event_clear_run {B} event (k : unit -> M B) s :
  bind (update_event event (set_ev_type evtype_None))
    (fun _ => bind (update_event event (set_ev_win NULL))
    (fun _ => bind (update_event event (set_ev_val1 0))
    (fun _ => bind (update_event event (set_ev_val2 0)) k))) s
  = k tt (put_events (<[event := event_none]> (events s)) s).
Proof.
  rewrite !bind_update_event. simpl.
  rewrite !lookup_insert_eq, !insert_insert_eq. simpl.
  destruct (default zero_event (events s !! event)); reflexivity.
Qed.

(** The request frame of [glk_select]. *)
Lemma input_request_run {B} w (k : unit -> M B) s :
  bind json_reset
    (fun _ => bind
       (if truthy (win_line_request w) || truthy (win_line_request_uni w) then
          json_append (lit "{'type':'input','gen':1,'windows':[{'id':"
                         ++ fmt_u (win_id w) ++ lit ",'type':'line'}]}")
        else
          json_append (lit "{'type':'input','gen':1,'windows':[{'id':"
                         ++ fmt_u (win_id w) ++ lit ",'type':'char'}]}"))
    (fun _ => bind json_flush k)) s
  = k tt (emitted (frame_input w) s).
Proof.
  rewrite bind_json_reset.
  assert (Z.of_nat (length (@nil ascii) + length (frame_input w)) < 65536) as Hlen'
    by (pose proof (length_frame_input w); simpl; lia).
  pose proof (plain_frame_input w) as Hplain.
  pose proof (frame_input_not_nil w) as Hne.
  unfold frame_input in *.
  destruct (truthy (win_line_request w) || truthy (win_line_request_uni w));
    rewrite bind_json_append by exact Hlen';
    rewrite bind_json_flush by exact Hne;
    simpl app; rewrite plain_cstr by exact Hplain; reflexivity.
Qed.

(** The steps of [glk_select] up to the read: the event is reset, the
    scan finds [win] and the request frame goes out. *)
Ltac select_start Hev Hl Hfirst Hw win w :=
  unfold glk_select;
  rewrite (truthy_true _ Hev); cbn [negb];
  rewrite event_clear_run, !bind_get;
  let pre := fresh "pre" in let post := fresh "post" in
  let w0 := fresh "w0" in
  let Hll := fresh "Hll" in let Hpre := fresh "Hpre" in
  let Hw0 := fresh "Hw0" in let Hreq := fresh "Hreq" in
  destruct Hfirst as (pre & post & w0 & Hll & Hpre & Hw0 & Hreq);
  match goal with
  | |- context [bind (select_scan ?fuel ?p) ?k ?s1] =>
      rewrite (bind_Ret (select_scan fuel p) k s1 _ s1
                 (select_scan_finds s1 win w0 post pre fuel NULL p
                    ltac:(rewrite <- Hll; exact (proj1 Hl)) Hpre Hw0 Hreq
                    ltac:(pose proof (dll_length _ _ _ Hl) as Hn;
                          rewrite Hll, length_app in Hn; simpl in *; lia)))
  end;
  assert (w0 = w) as -> by congruence;
  rewrite (truthy_true win)
    by (intros ->; apply (dlseg_not_NULL _ _ _ _ _ (proj1 Hl));
        rewrite Hll; apply elem_of_app; right; left);
  cbn [negb];
  match goal with
  | |- context [bind (load_win win) ?k ?s1] =>
      rewrite (bind_Ret (load_win win) k s1 w s1 (load_win_Some s1 win w Hw))
  end;
  rewrite input_request_run.

(** C7: when [glk_select] serves a character request (the first window
    with a request has one, and no line request), the event it delivers
    carries the first character of the input line, or [keycode_Return]
    when the line is empty, and the window's character-request flag is
    cleared. *)
Theorem select_char_input (s : State) (event : Z) (l : list Z) (win : Z)
    (w : glk_window_struct) (line rest : list ascii) :
  event ≠ NULL ->
  dll (windows s) (gli_windowlist s) l -> first_pending s l win ->
  windows s !! win = Some w ->
  win_line_request w = 0 -> win_char_request w ≠ 0 ->
  stdin s = line ++ newline :: rest ->
  newline ∉ line -> NUL ∉ line -> (length line <= 1022)%nat ->
  exists s',
    glk_select event s = Ret tt s' /\
    events s' !! event =
      Some (Build_event evtype_CharInput win
              (match line with c :: _ => uchar c | [] => keycode_Return end) 0) /\
    windows s' = <[win := set_win_char_request 0 w]> (windows s) /\
    stdout s' = stdout s ++ [frame_input w] /\
    stdin s' = rest.
Proof.
  intros Hev Hl Hfirst Hw Hline Hchar Hin Hnl Hnul Hlen.
  destruct (fgets_line s line rest Hin Hnl Hnul Hlen) as [Hgets Hstrip].
  select_start Hev Hl Hfirst Hw win w.
  match goal with
  | |- context [bind (fgets_stdin 1024) ?k ?s1] =>
      rewrite (bind_Ret (fgets_stdin 1024) k s1 _ _
                 (proj1 (fgets_line s1 line rest Hin Hnl Hnul Hlen)))
  end.
  rewrite bind_ret, Hstrip, Hline. cbn [truthy bool_decide].
  rewrite (truthy_true _ Hchar).
  change (truthy 0) with false. cbv iota.
  rewrite !bind_update_event.
  assert (forall (v : Z) s1,
    windows s1 = windows s ->
    bind (update_event event (set_ev_val1 v))
         (fun _ => update_win win (set_win_char_request 0)) s1
    = Ret tt (put_windows (<[win := set_win_char_request 0 w]> (windows s))
                (put_events (<[event := set_ev_val1 v (default zero_event (events s1 !! event))]>
                               (events s1)) s1))) as Hend.
  { intros v s1 Hs1. rewrite bind_update_event.
    rewrite (update_win_Some _ win w) by (simpl; now rewrite Hs1).
    simpl. now rewrite Hs1. }
  destruct line as [| c line];
    (eexists; split; [apply Hend; reflexivity |]);
    simpl; rewrite !lookup_insert_eq; simpl; repeat split.
Qed.

(** C10: when the first window with a request holds only a Unicode
    request, [glk_select] still sends the request frame for it and takes
    one line from standard input, but delivers no event (the type stays
    [evtype_None]), leaves the flags of the window as they are and
    writes nothing to the caller's memory. *)
Theorem select_unicode_request_unserved (s : State) (event : Z) (l : list Z)
    (win : Z) (w : glk_window_struct) (line rest : list ascii) :
  event ≠ NULL ->
  dll (windows s) (gli_windowlist s) l -> first_pending s l win ->
  windows s !! win = Some w ->
  win_line_request w = 0 -> win_char_request w = 0 ->
  stdin s = line ++ newline :: rest ->
  newline ∉ line -> NUL ∉ line -> (length line <= 1022)%nat ->
  (win_char_request_uni w ≠ 0 \/ win_line_request_uni w ≠ 0) /\
  exists s',
    glk_select event s = Ret tt s' /\
    stdout s' = stdout s ++ [frame_input w] /\
    stdin s' = rest /\
    events s' !! event = Some event_none /\
    windows s' = windows s /\
    mem s' = mem s /\ words s' = words s.
Proof.
  intros Hev Hl Hfirst Hw Hline Hchar Hin Hnl Hnul Hlen.
  split.
  { destruct Hfirst as (pre & post & w0 & Hll & Hpre & Hw0 & Hreq).
    assert (w0 = w) as -> by congruence.
    unfold has_request in Hreq. rewrite Hline, Hchar in Hreq.
    change (truthy 0) with false in Hreq. simpl in Hreq.
    apply orb_true_iff in Hreq as [Hu | Hu];
      apply bool_decide_eq_true in Hu; auto. }
  select_start Hev Hl Hfirst Hw win w.
  match goal with
  | |- context [bind (fgets_stdin 1024) ?k ?s1] =>
      rewrite (bind_Ret (fgets_stdin 1024) k s1 _ _
                 (proj1 (fgets_line s1 line rest Hin Hnl Hnul Hlen)))
  end.
  rewrite bind_ret, Hline, Hchar. change (truthy 0) with false. cbv iota.
  eexists. split; [reflexivity |]. simpl.
  rewrite lookup_insert_eq. repeat split.
Qed.

(** The first part of C2: end of input at the read of [glk_select]. *)
Lemma select_end_of_input s event l win w :
  event ≠ NULL ->
  dll (windows s) (gli_windowlist s) l -> first_pending s l win ->
  windows s !! win = Some w ->
  stdin s = [] ->
  glk_select event s
  = Exit (emitted frame_exit
            (emitted (frame_input w)
               (put_events (<[event := event_none]> (events s)) s))).
Proof.
  intros Hev Hl Hfirst Hw Hin.
  select_start Hev Hl Hfirst Hw win w.
  match goal with
  | |- context [bind (fgets_stdin 1024) ?k ?s1] =>
      rewrite (bind_Ret (fgets_stdin 1024) k s1 _ _ (fgets_eof s1 Hin))
  end.
  rewrite bind_assoc. unfold bind at 1. rewrite glk_exit_run. reflexivity.
Qed.


End SelectClaims.

(** ** What a computation leaves as it is

    A relation [R] between the state before and the state after that
    every step of a computation keeps; [RX] is its counterpart for a
    computation that ends the process. *)

Definition post {A} (o : outcome A) (Q : A -> State -> Prop) (X : State -> Prop) : Prop :=
  match o with
  | Ret a s => Q a s
  | Exit s => X s
  | Undef => True
  end.

Lemma post_bind {A B} (m : M A) (k : A -> M B) s Q X :
  post (m s) (fun a s1 => post (k a s1) Q X) X -> post (bind m k s) Q X.
Proof. unfold bind, post. destruct (m s); auto. Qed.

Lemma post_mono {A} (o : outcome A) (Q Q' : A -> State -> Prop) (X X' : State -> Prop) :
  post o Q X -> (forall a s, Q a s -> Q' a s) -> (forall s, X s -> X' s) ->
  post o Q' X'.
Proof. destruct o; simpl; auto. Qed.

Class Keeps (R RX : State -> State -> Prop) := {
  R_refl : forall s, R s s;
  R_trans : forall s1 s2 s3, R s1 s2 -> R s2 s3 -> R s1 s3;
  RX_trans : forall s1 s2 s3, R s1 s2 -> RX s2 s3 -> RX s1 s3
}.

Section Keeping.
Context (R RX : State -> State -> Prop) `{!Keeps R RX}.

Definition keeping {A} (m : M A) : Prop :=
  forall s, post (m s) (fun _ s' => R s s') (fun s' => RX s s').

Lemma keeping_ret {A} (a : A) : keeping (ret a).
Proof. intros s. exact (R_refl s). Qed.

Lemma keeping_undef {A} : keeping (@undef A).
Proof. intros s. exact I. Qed.

Lemma keeping_get {A} (f : State -> A) : keeping (get f).
Proof. intros s. exact (R_refl s). Qed.

Lemma keeping_modify (f : State -> State) :
  (forall s, R s (f s)) -> keeping (modify f).
Proof. intros Hf s. apply Hf. Qed.

Lemma keeping_bind {A B} (m : M A) (k : A -> M B) :
  keeping m -> (forall a, keeping (k a)) -> keeping (bind m k).
Proof.
  intros Hm Hk s. apply post_bind.
  eapply post_mono; [apply Hm | |]; simpl; [| auto].
  intros a s1 H1. eapply post_mono; [apply Hk | |]; simpl.
  - intros _ s2. now apply R_trans.
  - intros s2. now apply RX_trans.
Qed.

Lemma keeping_when b (m : M unit) : keeping m -> keeping (when b m).
Proof. destruct b; [auto | intros _; apply keeping_ret]. Qed.

Lemma keeping_load_win p : keeping (load_win p).
Proof.
  intros s. unfold load_win.
  destruct (windows s !! p); simpl; [exact (R_refl s) | exact I].
Qed.

Lemma keeping_load_str p : keeping (load_str p).
Proof.
  intros s. unfold load_str.
  destruct (streams s !! p); simpl; [exact (R_refl s) | exact I].
Qed.

Lemma keeping_load_fref p : keeping (load_fref p).
Proof.
  intros s. unfold load_fref.
  destruct (filerefs s !! p); simpl; [exact (R_refl s) | exact I].
Qed.

Lemma keeping_load_FILE p : keeping (load_FILE p).
Proof.
  intros s. unfold load_FILE.
  destruct (files s !! p); simpl; [exact (R_refl s) | exact I].
Qed.

Lemma keeping_fgets_stdin n :
  (forall s v, R s (put_stdin v s)) -> keeping (fgets_stdin n).
Proof.
  intros Hf s. unfold fgets_stdin.
  destruct (stdin s); [exact (R_refl s) |]. destruct (take_line _ _). apply Hf.
Qed.

Lemma keeping_malloc :
  (forall s v, R s (put_heap_script v s)) ->
  (forall s v, R s (put_heap_next (heap_next s + 1) (put_heap_script v s))) ->
  (forall s, R s (put_heap_next (heap_next s + 1) s)) ->
  keeping malloc.
Proof.
  intros H1 H2 H3 s. unfold malloc.
  destruct (heap_script s) as [| [] rest]; simpl; auto.
Qed.

Lemma keeping_memcpy dst src :
  (forall a c, keeping (store_byte a c)) -> keeping (memcpy dst src).
Proof.
  intros Hs. revert dst. induction src as [| c src IH]; intros dst; simpl.
  - apply keeping_ret.
  - apply keeping_bind; auto.
Qed.

End Keeping.

(** The decomposition of a computation into its steps. *)
Ltac keeps_instance :=
  try match goal with |- Keeps _ _ => typeclasses eauto end.

Ltac keeping_step side :=
  first
    [ assumption
    | solve [auto 1 with keeping nocore]
    | lazymatch goal with
      | |- keeping _ _ (ret _) => apply keeping_ret; keeps_instance
      | |- keeping _ _ undef => apply keeping_undef
      | |- keeping _ _ (get _) => apply keeping_get; keeps_instance
      | |- keeping _ _ (load_win _) => apply keeping_load_win; keeps_instance
      | |- keeping _ _ (load_str _) => apply keeping_load_str; keeps_instance
      | |- keeping _ _ (load_fref _) => apply keeping_load_fref; keeps_instance
      | |- keeping _ _ (load_FILE _) => apply keeping_load_FILE; keeps_instance
      | |- keeping _ _ (modify _) => apply keeping_modify; solve [side]
      | |- keeping _ _ (fgets_stdin _) =>
          apply keeping_fgets_stdin; keeps_instance; solve [side]
      | |- keeping _ _ malloc => apply keeping_malloc; solve [side]
      | |- keeping _ _ (when _ _) => apply keeping_when; keeps_instance
      | |- keeping _ _ (memcpy _ _) => apply keeping_memcpy; keeps_instance; intros ? ?
      | |- keeping _ _ (bind _ _) => apply keeping_bind; keeps_instance; [| intros ?]
      | |- keeping _ _ (if ?b then _ else _) => destruct b
      | |- keeping _ _ (match ?x with _ => _ end) => destruct x
      end ].

(** *** Output *)

(** Nothing is printed. *)
Definition same_output (s s' : State) : Prop := stdout s' = stdout s.
Definition never (s s' : State) : Prop := False.

Abbreviation silent m := (keeping same_output never m).

#[global] Instance same_output_keeps : Keeps same_output never.
Proof.
  split; unfold same_output, never; [reflexivity | congruence | tauto].
Qed.

Ltac silent_side := intros; unfold same_output; reflexivity.

Create HintDb keeping.

Ltac silent_auto := repeat (keeping_step silent_side).

Section Silent.
Context `{glk_h}.

Lemma silent_update_win p f : silent (update_win p f).
Proof. unfold update_win, new_win. silent_auto. Qed.

Lemma silent_free_win p : silent (free_win p).
Proof. unfold free_win. silent_auto. Qed.

Lemma silent_update_str p f : silent (update_str p f).
Proof. unfold update_str, new_str. silent_auto. Qed.

Lemma silent_free_str p : silent (free_str p).
Proof. unfold free_str. silent_auto. Qed.

Lemma silent_update_fref p f : silent (update_fref p f).
Proof. unfold update_fref, new_fref. silent_auto. Qed.

Lemma silent_free_fref p : silent (free_fref p).
Proof. unfold free_fref. silent_auto. Qed.

Lemma silent_store_byte a c : silent (store_byte a c).
Proof. unfold store_byte. silent_auto. Qed.

Lemma silent_store_word a v : silent (store_word a v).
Proof. unfold store_word. silent_auto. Qed.

Lemma silent_update_event p f : silent (update_event p f).
Proof. unfold update_event. silent_auto. Qed.

Lemma silent_store_result p r : silent (store_result p r).
Proof. unfold store_result. silent_auto. Qed.

Lemma silent_load_byte a : silent (load_byte a).
Proof. unfold load_byte. silent_auto. Qed.

#[local] Hint Resolve silent_update_win silent_free_win silent_update_str
  silent_free_str silent_update_fref silent_free_fref silent_store_byte
  silent_store_word silent_update_event silent_store_result
  silent_load_byte : keeping.

Lemma silent_new_FILE f : silent (new_FILE f).
Proof. unfold new_FILE. silent_auto. Qed.

#[local] Hint Resolve silent_new_FILE : keeping.

Lemma silent_fopen path mode : silent (fopen path mode).
Proof. unfold fopen. silent_auto. Qed.

Lemma silent_fclose p : silent (fclose p).
Proof. unfold fclose. silent_auto. Qed.

Lemma silent_fputc c p : silent (fputc c p).
Proof. unfold fputc. silent_auto. Qed.

Lemma silent_fgetc p : silent (fgetc p).
Proof. unfold fgetc. silent_auto. Qed.

Lemma silent_fseek p off w : silent (fseek p off w).
Proof. unfold fseek. silent_auto. Qed.

Lemma silent_ftell p : silent (ftell p).
Proof. unfold ftell. silent_auto. Qed.

#[local] Hint Resolve silent_fopen silent_fclose silent_fputc silent_fgetc
  silent_fseek silent_ftell : keeping.

Lemma silent_glk_gestalt_ext sel val arr arrlen :
  silent (glk_gestalt_ext sel val arr arrlen).
Proof. unfold glk_gestalt_ext. silent_auto. Qed.

Lemma silent_gli_stream_new t r w rock : silent (gli_stream_new t r w rock).
Proof. unfold gli_stream_new, new_str. silent_auto. Qed.

#[local] Hint Resolve silent_glk_gestalt_ext silent_gli_stream_new : keeping.

Lemma silent_gli_stream_open_window win : silent (gli_stream_open_window win).
Proof. unfold gli_stream_open_window. silent_auto. Qed.

Lemma silent_glk_stream_open_file fileref fmode rock :
  silent (glk_stream_open_file fileref fmode rock).
Proof. unfold glk_stream_open_file. silent_auto. Qed.

Lemma silent_glk_stream_open_memory buf buflen fmode rock :
  silent (glk_stream_open_memory buf buflen fmode rock).
Proof. unfold glk_stream_open_memory. silent_auto. Qed.

Lemma silent_glk_stream_open_memory_uni buf buflen fmode rock :
  silent (glk_stream_open_memory_uni buf buflen fmode rock).
Proof. unfold glk_stream_open_memory_uni. silent_auto. Qed.

Lemma silent_glk_stream_close str result : silent (glk_stream_close str result).
Proof. unfold glk_stream_close. silent_auto. Qed.

#[local] Hint Resolve silent_gli_stream_open_window silent_glk_stream_close : keeping.

Lemma silent_glk_stream_iterate str rockptr : silent (glk_stream_iterate str rockptr).
Proof. unfold glk_stream_iterate. silent_auto. Qed.

Lemma silent_glk_stream_set_position str pos seekmode :
  silent (glk_stream_set_position str pos seekmode).
Proof. unfold glk_stream_set_position. silent_auto. Qed.

Lemma silent_glk_stream_get_position str : silent (glk_stream_get_position str).
Proof. unfold glk_stream_get_position. silent_auto. Qed.

Lemma silent_glk_window_close win result : silent (glk_window_close win result).
Proof. unfold glk_window_close. silent_auto. Qed.

Lemma silent_glk_window_iterate win rockptr : silent (glk_window_iterate win rockptr).
Proof. unfold glk_window_iterate. silent_auto. Qed.

Lemma silent_glk_window_get_stream win : silent (glk_window_get_stream win).
Proof. unfold glk_window_get_stream. silent_auto. Qed.

Lemma silent_glk_window_set_echo_stream win str :
  silent (glk_window_set_echo_stream win str).
Proof. unfold glk_window_set_echo_stream. silent_auto. Qed.

Lemma silent_glk_set_window win : silent (glk_set_window win).
Proof. unfold glk_set_window. silent_auto. Qed.

Lemma silent_glk_get_char_stream str : silent (glk_get_char_stream str).
Proof. unfold glk_get_char_stream. silent_auto. Qed.

Lemma silent_gli_fileref_new filename usage rock :
  silent (gli_fileref_new filename usage rock).
Proof. unfold gli_fileref_new, new_fref. silent_auto. Qed.

#[local] Hint Resolve silent_gli_fileref_new : keeping.

Lemma silent_glk_fileref_create_temp usage rock :
  silent (glk_fileref_create_temp usage rock).
Proof. unfold glk_fileref_create_temp. silent_auto. Qed.

Lemma silent_glk_fileref_create_by_name usage name rock :
  silent (glk_fileref_create_by_name usage name rock).
Proof. unfold glk_fileref_create_by_name. silent_auto. Qed.

Lemma silent_glk_fileref_create_from_fileref usage fref rock :
  silent (glk_fileref_create_from_fileref usage fref rock).
Proof. unfold glk_fileref_create_from_fileref. silent_auto. Qed.

Lemma silent_glk_fileref_destroy fref : silent (glk_fileref_destroy fref).
Proof. unfold glk_fileref_destroy. silent_auto. Qed.

Lemma silent_glk_fileref_iterate fref rockptr : silent (glk_fileref_iterate fref rockptr).
Proof. unfold glk_fileref_iterate. silent_auto. Qed.

Lemma silent_glk_fileref_delete_file fref : silent (glk_fileref_delete_file fref).
Proof. unfold glk_fileref_delete_file. silent_auto. Qed.

Lemma silent_glk_fileref_does_file_exist fref :
  silent (glk_fileref_does_file_exist fref).
Proof. unfold glk_fileref_does_file_exist. silent_auto. Qed.

Lemma silent_glk_select_poll event : silent (glk_select_poll event).
Proof. unfold glk_select_poll. silent_auto. Qed.

Lemma silent_glk_request_line_event win buf maxlen initlen :
  silent (glk_request_line_event win buf maxlen initlen).
Proof. unfold glk_request_line_event. silent_auto. Qed.

Lemma silent_glk_request_char_event win : silent (glk_request_char_event win).
Proof. unfold glk_request_char_event. silent_auto. Qed.

Lemma silent_glk_cancel_line_event win event : silent (glk_cancel_line_event win event).
Proof. unfold glk_cancel_line_event. silent_auto. Qed.

Lemma silent_glk_cancel_char_event win : silent (glk_cancel_char_event win).
Proof. unfold glk_cancel_char_event. silent_auto. Qed.

Lemma silent_glk_request_char_event_uni win : silent (glk_request_char_event_uni win).
Proof. unfold glk_request_char_event_uni. silent_auto. Qed.

Lemma silent_glk_request_line_event_uni win buf maxlen initlen :
  silent (glk_request_line_event_uni win buf maxlen initlen).
Proof. unfold glk_request_line_event_uni. silent_auto. Qed.

Lemma silent_select_scan fuel : forall win, silent (select_scan fuel win).
Proof.
  induction fuel as [| fuel IH]; intros win; simpl; silent_auto.
Qed.

End Silent.

#[export] Hint Resolve
  silent_update_win
  silent_free_win
  silent_update_str
  silent_free_str
  silent_update_fref
  silent_free_fref
  silent_store_byte
  silent_store_word
  silent_update_event
  silent_store_result
  silent_load_byte
  silent_new_FILE
  silent_fopen
  silent_fclose
  silent_fputc
  silent_fgetc
  silent_fseek
  silent_ftell
  silent_glk_gestalt_ext
  silent_gli_stream_new
  silent_gli_stream_open_window
  silent_glk_stream_open_file
  silent_glk_stream_open_memory
  silent_glk_stream_open_memory_uni
  silent_glk_stream_close
  silent_glk_stream_iterate
  silent_glk_stream_set_position
  silent_glk_stream_get_position
  silent_glk_window_close
  silent_glk_window_iterate
  silent_glk_window_get_stream
  silent_glk_window_set_echo_stream
  silent_glk_set_window
  silent_glk_get_char_stream
  silent_gli_fileref_new
  silent_glk_fileref_create_temp
  silent_glk_fileref_create_by_name
  silent_glk_fileref_create_from_fileref
  silent_glk_fileref_destroy
  silent_glk_fileref_iterate
  silent_glk_fileref_delete_file
  silent_glk_fileref_does_file_exist
  silent_glk_select_poll
  silent_glk_request_line_event
  silent_glk_request_char_event
  silent_glk_cancel_line_event
  silent_glk_cancel_char_event
  silent_glk_request_char_event_uni
  silent_glk_request_line_event_uni
  silent_select_scan : keeping.

(** ** The exit frame is the last frame *)

(** No step prints an exit frame, except the one that ends the process. *)
Definition no_exit_kept (s s' : State) : Prop :=
  no_exit_frame (stdout s) -> no_exit_frame (stdout s').
Definition exit_printed_last (s s' : State) : Prop :=
  no_exit_frame (stdout s) -> exit_is_last (stdout s').

#[global] Instance no_exit_keeps : Keeps no_exit_kept exit_printed_last.
Proof. split; unfold no_exit_kept, exit_printed_last; auto. Qed.

Abbreviation exit_disciplined m := (keeping no_exit_kept exit_printed_last m).

Lemma silent_exit_disciplined {A} (m : M A) : silent m -> exit_disciplined m.
Proof.
  intros Hm s. eapply post_mono; [apply Hm | |]; simpl.
  - intros _ s' E Hs. unfold same_output in E. now rewrite E.
  - intros s' [].
Qed.

(** A frame that begins like an update, input, prompt or init frame. *)
Definition not_exit (text : list ascii) : Prop :=
  exists c, take 10 text !! 9%nat = Some c /\ c ≠ "e"%char.

Lemma not_exit_ne text : not_exit text -> text ≠ frame_exit.
Proof. intros (c & Hc & Hne) ->. vm_compute in Hc. congruence. Qed.

Lemma not_exit_nonempty text : not_exit text -> text ≠ [].
Proof. intros (c & Hc & Hne) ->. discriminate. Qed.

Ltac not_exit_frame := eexists; split; [vm_compute; reflexivity | discriminate].

Lemma not_exit_frame_create id wintype : not_exit (frame_create id wintype).
Proof. not_exit_frame. Qed.

Lemma not_exit_frame_clear id : not_exit (frame_clear id).
Proof. not_exit_frame. Qed.

Lemma not_exit_frame_text id ch : not_exit (frame_text id ch).
Proof. not_exit_frame. Qed.

Lemma not_exit_frame_input w : not_exit (frame_input w).
Proof. unfold frame_input. destruct (_ || _); not_exit_frame. Qed.

Lemma not_exit_frame_prompt usage fmode : not_exit (frame_prompt usage fmode).
Proof. not_exit_frame. Qed.

Lemma not_exit_frame_init : not_exit frame_init.
Proof. not_exit_frame. Qed.

Lemma no_exit_kept_emitted text s : not_exit text -> no_exit_kept s (emitted text s).
Proof.
  intros Ht Hs. unfold no_exit_frame. simpl.
  rewrite elem_of_app, list_elem_of_singleton.
  intros [Hin | Heq]; [now apply Hs | now apply (not_exit_ne _ Ht)].
Qed.

Lemma exit_printed_last_emitted s : exit_printed_last s (emitted frame_exit s).
Proof. intros Hs. exists (stdout s). split; [reflexivity | assumption]. Qed.

Section ExitFrame.
Context `{glk_h}.

Lemma exit_disciplined_glk_exit : exit_disciplined glk_exit.
Proof. intros s. rewrite glk_exit_run. apply exit_printed_last_emitted. Qed.

(** One frame, then the rest of the function. *)
Lemma exit_disciplined_emit {B} text (k : unit -> M B) :
  plain text -> Z.of_nat (length text) < 65536 -> not_exit text ->
  exit_disciplined (k tt) ->
  exit_disciplined (bind json_reset (fun _ => bind (json_append text)
                      (fun _ => bind json_flush k))).
Proof.
  intros Hp Hlen Hne Hk s.
  rewrite bind_json_reset, bind_json_append by (simpl; lia).
  rewrite bind_json_flush by (simpl; now apply not_exit_nonempty).
  simpl app. rewrite plain_cstr by assumption.
  eapply post_mono; [apply Hk | |]; simpl.
  - intros _ s'. apply (R_trans (R := no_exit_kept)). now apply no_exit_kept_emitted.
  - intros s'. apply (RX_trans (R := no_exit_kept)). now apply no_exit_kept_emitted.
Qed.

Lemma exit_disciplined_emit_end text :
  plain text -> Z.of_nat (length text) < 65536 -> not_exit text ->
  exit_disciplined (bind json_reset (fun _ => bind (json_append text)
                      (fun _ => json_flush))).
Proof.
  intros Hp Hlen Hne s.
  rewrite bind_json_reset, bind_json_append by (simpl; lia).
  rewrite json_flush_run by (simpl; now apply not_exit_nonempty).
  simpl app. rewrite plain_cstr by assumption.
  now apply no_exit_kept_emitted.
Qed.

End ExitFrame.

Ltac lengths := repeat (progress (simpl; rewrite ?length_app)); lia.

Ltac short_frame :=
  rewrite ?length_app;
  repeat match goal with
         | |- context [length (fmt_u ?n)] =>
             lazymatch goal with
             | _ : (length (fmt_u n) <= 10)%nat |- _ => fail
             | _ => pose proof (length_fmt_u n)
             end
         end;
  lengths.

Ltac exit_side := intros; unfold no_exit_kept; simpl; tauto.

Ltac exit_step :=
  first
    [ solve [apply silent_exit_disciplined; auto 1 with keeping nocore]
    | lazymatch goal with
      | |- keeping _ _ (bind json_reset (fun _ => bind (json_append _)
                                           (fun _ => bind json_flush _))) =>
          apply exit_disciplined_emit; [plain_frame | short_frame | not_exit_frame |]
      | |- keeping _ _ (bind json_reset (fun _ => bind (json_append _)
                                           (fun _ => json_flush))) =>
          apply exit_disciplined_emit_end; [plain_frame | short_frame | not_exit_frame]
      | |- keeping _ _ (bind json_reset _) => fail
      | |- _ => keeping_step exit_side
      end ].

Ltac exit_auto := repeat exit_step.

Section ExitDiscipline.
Context `{glk_h}.

Lemma exit_disciplined_window_open split method size wintype rock :
  exit_disciplined (glk_window_open split method size wintype rock).
Proof. unfold glk_window_open, new_win. exit_auto. Qed.

Lemma exit_disciplined_window_clear win : exit_disciplined (glk_window_clear win).
Proof. unfold glk_window_clear. exit_auto. Qed.

Lemma text_block {B} id text (fin : M B) s :
  (length text <= 1)%nat ->
  bind json_reset
    (fun _ => bind (json_append (lit "{'type':'update','content':[{'id':"
                                   ++ fmt_u id ++ lit ",'text':"))
    (fun _ => bind (json_append_escaped_string text)
    (fun _ => bind (json_append (lit "}]}"))
    (fun _ => fin)))) s
  = fin (json_holding
           ((lit "{'type':'update','content':[{'id':" ++ fmt_u id ++ lit ",'text':")
              ++ (lit "'" ++ flat_map json_escape text ++ lit "'")
              ++ lit "}]}") s).
Proof.
  intros Hc.
  pose proof (length_flat_map_escape text) as He.
  pose proof (length_fmt_u id) as Hid.
  rewrite bind_json_reset, bind_json_append by lengths.
  rewrite bind_json_append_escaped_string by lengths.
  rewrite bind_json_append by lengths.
  rewrite <- app_assoc. reflexivity.
Qed.

(** The frame of a character written to a window stream. *)
Lemma put_char_window_block id ch s :
  bind json_reset
    (fun _ => bind (json_append (lit "{'type':'update','content':[{'id':"
                                   ++ fmt_u id ++ lit ",'text':"))
    (fun _ => bind (json_append_escaped_string (cstr [ch; NUL]))
    (fun _ => bind (json_append (lit "}]}"))
    (fun _ => json_flush)))) s
  = Ret tt (emitted (frame_text id ch) s).
Proof.
  rewrite text_block by (simpl; repeat case_decide; simpl; lia).
  rewrite json_flush_run by (simpl; discriminate).
  fold (frame_text id ch). now rewrite plain_cstr by apply plain_frame_text.
Qed.

Lemma exit_disciplined_put_char str ch :
  exit_disciplined (gli_put_char_to_stream str ch).
Proof.
  unfold gli_put_char_to_stream. exit_auto.
  intros s. rewrite put_char_window_block.
  apply no_exit_kept_emitted, not_exit_frame_text.
Qed.

Lemma exit_disciplined_put_chars str l : exit_disciplined (gli_put_chars str l).
Proof.
  pose proof exit_disciplined_put_char.
  induction l as [| ch l IH]; simpl; exit_auto.
Qed.

#[local] Hint Resolve exit_disciplined_glk_exit exit_disciplined_window_open
  exit_disciplined_window_clear exit_disciplined_put_char
  exit_disciplined_put_chars : keeping.

Lemma exit_disciplined_prompt usage fmode rock :
  exit_disciplined (glk_fileref_create_by_prompt usage fmode rock).
Proof. unfold glk_fileref_create_by_prompt. exit_auto. Qed.

Lemma exit_disciplined_input_request {B} w (k : unit -> M B) :
  exit_disciplined (k tt) ->
  exit_disciplined
    (bind json_reset
       (fun _ => bind
          (if truthy (win_line_request w) || truthy (win_line_request_uni w) then
             json_append (lit "{'type':'input','gen':1,'windows':[{'id':"
                            ++ fmt_u (win_id w) ++ lit ",'type':'line'}]}")
           else
             json_append (lit "{'type':'input','gen':1,'windows':[{'id':"
                            ++ fmt_u (win_id w) ++ lit ",'type':'char'}]}"))
       (fun _ => bind json_flush k))).
Proof.
  intros Hk s. rewrite input_request_run.
  pose proof (no_exit_kept_emitted _ s (not_exit_frame_input w)) as He.
  eapply post_mono; [apply Hk | |]; simpl.
  - intros _ s'. now apply (R_trans (R := no_exit_kept)).
  - intros s'. now apply (RX_trans (R := no_exit_kept)).
Qed.

Lemma exit_disciplined_select event : exit_disciplined (glk_select event).
Proof.
  pose proof (silent_exit_disciplined _ (silent_select_scan (S 0) 0)) as _.
  unfold glk_select. exit_auto.
  apply exit_disciplined_input_request. exit_auto.
Qed.

#[local] Hint Resolve exit_disciplined_prompt exit_disciplined_select : keeping.

Lemma exit_disciplined_exec c : exit_disciplined (exec c).
Proof.
  destruct c; unfold exec, void, glk_gestalt, glk_put_char, glk_put_char_stream,
    glk_put_string, glk_put_string_stream, glk_put_buffer, glk_put_buffer_stream,
    glk_stream_set_current;
    exit_auto.
Qed.

Lemma exit_disciplined_run cs : exit_disciplined (run cs).
Proof.
  pose proof exit_disciplined_exec.
  induction cs as [| c cs IH]; simpl; exit_auto.
Qed.

End ExitDiscipline.

Section ExitClaim.
Context `{glk_h}.

Lemma main_run glk_main s :
  main glk_main s =
    match run glk_main (emitted frame_init s) with
    | Ret _ s1 => Exit (emitted frame_exit s1)
    | Exit s1 => Exit s1
    | Undef => Undef
    end.
Proof.
  unfold main.
  rewrite bind_json_reset, bind_json_append by (simpl; lia).
  rewrite bind_json_flush by discriminate.
  simpl app. rewrite plain_cstr by apply plain_frame_init.
  unfold bind at 1. fold frame_init.
  destruct (run glk_main (emitted frame_init s)) as [vs s1 | s1 |]; reflexivity.
Qed.

(** C2: when the read of [glk_select] meets the end of standard input,
    the process prints the exit frame, once, and terminates: none of the
    calls the engine would have made next runs.  In every execution,
    whatever the calls of the engine, an exit frame is printed only as the
    process ends: a state that is still running has printed none, and a
    process that has ended (through [glk_select], a call of [glk_exit] or
    the return of the engine to [main]) has printed exactly one, as its
    last line. *)
Theorem exit_frame_is_final (s : State) (event : Z) (l : list Z) (win : Z)
    (w : glk_window_struct) :
  event ≠ NULL ->
  dll (windows s) (gli_windowlist s) l -> first_pending s l win ->
  windows s !! win = Some w ->
  stdin s = [] -> no_exit_frame (stdout s) ->
  (exists s',
     glk_select event s = Exit s' /\
     stdout s' = stdout s ++ [frame_input w; frame_exit] /\
     exit_is_last (stdout s') /\
     forall later, run (Call_select event :: later) s = Exit s') /\
  (forall cs s0,
     no_exit_frame (stdout s0) ->
     post (run cs s0)
       (fun _ s' => no_exit_frame (stdout s'))
       (fun s' => exit_is_last (stdout s'))) /\
  (forall glk_main input script disk,
     post (main glk_main (initial_state input script disk))
       (fun _ _ => False)
       (fun s' => exit_is_last (stdout s'))).
Proof.
  intros Hev Hl Hfirst Hw Hin Hout.
  split; [| split].
  - eexists. split; [now apply (select_end_of_input s event l win w) |].
    split; [simpl; now rewrite <- app_assoc |].
    split.
    + exists (stdout s ++ [frame_input w]). split; [simpl; now rewrite <- app_assoc |].
      apply (no_exit_kept_emitted (frame_input w) s (not_exit_frame_input w) Hout).
    + intros later. simpl run. unfold void. rewrite !bind_assoc.
      now rewrite (bind_Exit _ _ _ _ (select_end_of_input s event l win w Hev Hl Hfirst Hw Hin)).
  - intros cs s0 Hs0.
    eapply post_mono; [apply exit_disciplined_run | |]; simpl; auto.
  - intros glk_main input script disk. rewrite main_run.
    set (s0 := emitted frame_init (initial_state input script disk)).
    assert (no_exit_frame (stdout s0)) as Hs0.
    { apply (no_exit_kept_emitted frame_init _ not_exit_frame_init).
      intros Hin'. now apply elem_of_nil in Hin'. }
    pose proof (exit_disciplined_run glk_main s0) as Hrun.
    destruct (run glk_main s0) as [vs s1 | s1 |]; simpl in *; [| auto | exact I].
    apply exit_printed_last_emitted. now apply Hrun.
Qed.

End ExitClaim.

(** ** Stepping through a computation

    [post (m s) Q X] read as a weakest precondition: one lemma for each
    primitive computation. *)

Lemma post_ret {A} (a : A) s (Q : A -> State -> Prop) X : Q a s -> post (ret a s) Q X.
Proof. exact (fun q => q). Qed.

Lemma post_get {A} (f : State -> A) s (Q : A -> State -> Prop) X :
  Q (f s) s -> post (get f s) Q X.
Proof. exact (fun q => q). Qed.

Lemma post_modify f s (Q : unit -> State -> Prop) X :
  Q tt (f s) -> post (modify f s) Q X.
Proof. exact (fun q => q). Qed.

Lemma post_undef {A} s (Q : A -> State -> Prop) X : post (@undef A s) Q X.
Proof. exact I. Qed.

Lemma post_and {A} (o : outcome A) (Q Q' : A -> State -> Prop) (X X' : State -> Prop) :
  post o Q X -> post o Q' X' ->
  post o (fun a s => Q a s /\ Q' a s) (fun s => X s /\ X' s).
Proof. destruct o; simpl; auto. Qed.

Lemma post_Ret {A} (m : M A) s a s' (Q : A -> State -> Prop) X :
  m s = Ret a s' -> post (m s) Q X -> Q a s'.
Proof. intros E. now rewrite E. Qed.

Lemma post_malloc s (Q : Z -> State -> Prop) X :
  (forall script, Q NULL (put_heap_next (heap_next s) (put_heap_script script s))) ->
  (forall script,
     Q (heap_next s) (put_heap_next (heap_next s + 1) (put_heap_script script s))) ->
  post (malloc s) Q X.
Proof.
  intros Hfail Hok. unfold malloc.
  destruct (heap_script s) as [| [] rest] eqn:E; simpl.
  - specialize (Hok []). destruct s; simpl in *. now subst.
  - apply Hok.
  - specialize (Hfail rest). now destruct s.
Qed.

Lemma post_load_win p s (Q : glk_window_struct -> State -> Prop) X :
  (forall w, windows s !! p = Some w -> Q w s) -> post (load_win p s) Q X.
Proof. intros HQ. unfold load_win. destruct (windows s !! p); simpl; auto. Qed.

Lemma post_update_win p f s (Q : unit -> State -> Prop) X :
  (forall w, windows s !! p = Some w ->
     Q tt (put_windows (<[p := f w]> (windows s)) s)) ->
  post (update_win p f s) Q X.
Proof.
  intros HQ. unfold update_win, bind, load_win.
  destruct (windows s !! p); simpl; auto.
Qed.

Lemma post_free_win p s (Q : unit -> State -> Prop) X :
  (forall w, windows s !! p = Some w ->
     Q tt (put_windows (delete p (windows s)) s)) ->
  post (free_win p s) Q X.
Proof.
  intros HQ. unfold free_win, bind, load_win.
  destruct (windows s !! p) eqn:E; simpl; eauto.
Qed.

Lemma post_load_str p s (Q : glk_stream_struct -> State -> Prop) X :
  (forall x, streams s !! p = Some x -> Q x s) -> post (load_str p s) Q X.
Proof. intros HQ. unfold load_str. destruct (streams s !! p); simpl; auto. Qed.

Lemma post_update_str p f s (Q : unit -> State -> Prop) X :
  (forall x, streams s !! p = Some x ->
     Q tt (put_streams (<[p := f x]> (streams s)) s)) ->
  post (update_str p f s) Q X.
Proof.
  intros HQ. unfold update_str, bind, load_str.
  destruct (streams s !! p); simpl; auto.
Qed.

Lemma post_free_str p s (Q : unit -> State -> Prop) X :
  (forall x, streams s !! p = Some x ->
     Q tt (put_streams (delete p (streams s)) s)) ->
  post (free_str p s) Q X.
Proof.
  intros HQ. unfold free_str, bind, load_str.
  destruct (streams s !! p) eqn:E; simpl; eauto.
Qed.

Lemma post_load_fref p s (Q : glk_fileref_struct -> State -> Prop) X :
  (forall x, filerefs s !! p = Some x -> Q x s) -> post (load_fref p s) Q X.
Proof. intros HQ. unfold load_fref. destruct (filerefs s !! p); simpl; auto. Qed.

Lemma post_update_fref p f s (Q : unit -> State -> Prop) X :
  (forall x, filerefs s !! p = Some x ->
     Q tt (put_filerefs (<[p := f x]> (filerefs s)) s)) ->
  post (update_fref p f s) Q X.
Proof.
  intros HQ. unfold update_fref, bind, load_fref.
  destruct (filerefs s !! p); simpl; auto.
Qed.

Lemma post_free_fref p s (Q : unit -> State -> Prop) X :
  (forall x, filerefs s !! p = Some x ->
     Q tt (put_filerefs (delete p (filerefs s)) s)) ->
  post (free_fref p s) Q X.
Proof.
  intros HQ. unfold free_fref, bind, load_fref.
  destruct (filerefs s !! p) eqn:E; simpl; eauto.
Qed.

(** What a computation keeps, as a step. *)
Lemma post_keeping {A} R RX (m : M A) s (Q : A -> State -> Prop) X :
  keeping R RX m ->
  (forall a s', R s s' -> Q a s') -> (forall s', RX s s' -> X s') ->
  post (m s) Q X.
Proof. intros Hk HQ HX. eapply post_mono; [apply (Hk s) | |]; simpl; auto. Qed.

(** The fields of a state that was written to. *)
Ltac state_simpl :=
  cbn [windows streams filerefs heap_next heap_script gli_rootwin
       gli_windowlist gli_streamlist gli_currentstr gli_filereflist
       gli_window_id_counter gli_stream_id_counter gli_fileref_id_counter
       json_buffer json_pos mem words events results stdin stdout files fs
       put_windows put_streams put_filerefs put_heap_next put_heap_script
       put_gli_rootwin put_gli_windowlist put_gli_streamlist
       put_gli_currentstr put_gli_filereflist put_gli_window_id_counter
       put_gli_stream_id_counter put_gli_fileref_id_counter put_json_buffer
       put_json_pos put_mem put_words put_events put_results put_stdin
       put_stdout put_files put_fs json_holding emitted] in *.

Ltac wp_step :=
  lazymatch goal with
  | |- post (bind _ _ _) _ _ => apply post_bind
  | |- post (ret _ _) _ _ => apply post_ret
  | |- post (get _ _) _ _ => apply post_get
  | |- post (modify _ _) _ _ => apply post_modify
  | |- post (undef _) _ _ => apply post_undef
  | |- post (malloc _) _ _ => apply post_malloc; intros ?
  | |- post (load_win _ _) _ _ => apply post_load_win; intros ? ?
  | |- post (update_win _ _ _) _ _ => apply post_update_win; intros ? ?
  | |- post (free_win _ _) _ _ => apply post_free_win; intros ? ?
  | |- post (new_win _ _ _) _ _ => apply post_modify
  | |- post (load_str _ _) _ _ => apply post_load_str; intros ? ?
  | |- post (update_str _ _ _) _ _ => apply post_update_str; intros ? ?
  | |- post (free_str _ _) _ _ => apply post_free_str; intros ? ?
  | |- post (new_str _ _ _) _ _ => apply post_modify
  | |- post (load_fref _ _) _ _ => apply post_load_fref; intros ? ?
  | |- post (update_fref _ _ _) _ _ => apply post_update_fref; intros ? ?
  | |- post (free_fref _ _) _ _ => apply post_free_fref; intros ? ?
  | |- post (new_fref _ _ _) _ _ => apply post_modify
  | |- post (when ?b _ _) _ _ => destruct b eqn:?; unfold when
  | |- post ((if ?b then _ else _) _) _ _ => destruct b eqn:?
  end; cbv beta.

Ltac wp := repeat wp_step.

(** ** The registries *)

Inductive kind := Window | Stream | Fileref.

(** The identifiers of the live objects of a kind, by address. *)
Definition ids (k : kind) (s : State) : gmap Z Z :=
  match k with
  | Window => win_id <$> windows s
  | Stream => str_id <$> streams s
  | Fileref => fref_id <$> filerefs s
  end.

Definition id_counter (k : kind) (s : State) : Z :=
  match k with
  | Window => gli_window_id_counter s
  | Stream => gli_stream_id_counter s
  | Fileref => gli_fileref_id_counter s
  end.

(** The number of live objects of a kind. *)
Definition live (k : kind) (s : State) : Z := Z.of_nat (size (ids k s)).

(** A step that leaves the registry of kind [k] as it is. *)
Definition neutral (k : kind) (s s' : State) : Prop :=
  ids k s' = ids k s /\ id_counter k s' = id_counter k s /\
  heap_next s <= heap_next s'.

Definition anyhow (s s' : State) : Prop := True.

#[global] Instance neutral_keeps k : Keeps (neutral k) anyhow.
Proof.
  split; unfold neutral, anyhow; [intros s | intros s1 s2 s3 | trivial].
  - repeat split; reflexivity || lia.
  - intros (-> & -> & ?) (-> & -> & ?). repeat split; lia.
Qed.

Ltac neutral_side :=
  intros; unfold neutral, ids, id_counter;
  lazymatch goal with
  | k : kind |- _ => destruct k
  | _ => idtac
  end;
  state_simpl; repeat split; reflexivity || lia.

Ltac neutral_auto := repeat (keeping_step neutral_side).

Section Neutral.
Context `{glk_h}.

Lemma neutral_update_win k p f :
  (forall w, win_id (f w) = win_id w) -> keeping (neutral k) anyhow (update_win p f).
Proof.
  intros Hf s. apply post_update_win. intros w Hw.
  unfold neutral, ids, id_counter. destruct k; state_simpl;
    repeat split; try reflexivity; try lia.
  rewrite fmap_insert, Hf. apply insert_id. now rewrite lookup_fmap, Hw.
Qed.

Lemma neutral_update_str k p f :
  (forall x, str_id (f x) = str_id x) -> keeping (neutral k) anyhow (update_str p f).
Proof.
  intros Hf s. apply post_update_str. intros x Hx.
  unfold neutral, ids, id_counter. destruct k; state_simpl;
    repeat split; try reflexivity; try lia.
  rewrite fmap_insert, Hf. apply insert_id. now rewrite lookup_fmap, Hx.
Qed.

Lemma neutral_update_fref k p f :
  (forall x, fref_id (f x) = fref_id x) -> keeping (neutral k) anyhow (update_fref p f).
Proof.
  intros Hf s. apply post_update_fref. intros x Hx.
  unfold neutral, ids, id_counter. destruct k; state_simpl;
    repeat split; try reflexivity; try lia.
  rewrite fmap_insert, Hf. apply insert_id. now rewrite lookup_fmap, Hx.
Qed.

Lemma neutral_free_win k p : k ≠ Window -> keeping (neutral k) anyhow (free_win p).
Proof. intros Hk. unfold free_win. destruct k; [congruence | |]; neutral_auto. Qed.

Lemma neutral_free_str k p : k ≠ Stream -> keeping (neutral k) anyhow (free_str p).
Proof. intros Hk. unfold free_str. destruct k; [| congruence |]; neutral_auto. Qed.

Lemma neutral_free_fref k p : k ≠ Fileref -> keeping (neutral k) anyhow (free_fref p).
Proof. intros Hk. unfold free_fref. destruct k; [| | congruence]; neutral_auto. Qed.

Lemma neutral_store_byte k a c : keeping (neutral k) anyhow (store_byte a c).
Proof. unfold store_byte. neutral_auto. Qed.

Lemma neutral_store_word k a v : keeping (neutral k) anyhow (store_word a v).
Proof. unfold store_word. neutral_auto. Qed.

Lemma neutral_update_event k p f : keeping (neutral k) anyhow (update_event p f).
Proof. unfold update_event. neutral_auto. Qed.

Lemma neutral_store_result k p r : keeping (neutral k) anyhow (store_result p r).
Proof. unfold store_result. neutral_auto. Qed.

Lemma neutral_load_byte k a : keeping (neutral k) anyhow (load_byte a).
Proof. unfold load_byte. neutral_auto. Qed.

Lemma neutral_print_line k text : keeping (neutral k) anyhow (print_line text).
Proof. unfold print_line. neutral_auto. Qed.

End Neutral.

#[export] Hint Extern 1 (keeping (neutral _) _ (update_win _ _)) =>
  apply neutral_update_win; intros; reflexivity : keeping.
#[export] Hint Extern 1 (keeping (neutral _) _ (update_str _ _)) =>
  apply neutral_update_str; intros; reflexivity : keeping.
#[export] Hint Extern 1 (keeping (neutral _) _ (update_fref _ _)) =>
  apply neutral_update_fref; intros; reflexivity : keeping.
#[export] Hint Extern 1 (keeping (neutral _) _ (free_win _)) =>
  apply neutral_free_win; discriminate : keeping.
#[export] Hint Extern 1 (keeping (neutral _) _ (free_str _)) =>
  apply neutral_free_str; discriminate : keeping.
#[export] Hint Extern 1 (keeping (neutral _) _ (free_fref _)) =>
  apply neutral_free_fref; discriminate : keeping.
#[export] Hint Resolve neutral_store_byte neutral_store_word
  neutral_update_event neutral_store_result neutral_load_byte
  neutral_print_line : keeping.

Section NeutralCalls.
Context `{glk_h}.

Lemma neutral_fopen k path mode : keeping (neutral k) anyhow (fopen path mode).
Proof. unfold fopen, new_FILE. neutral_auto. Qed.

Lemma neutral_fclose k p : keeping (neutral k) anyhow (fclose p).
Proof. unfold fclose. neutral_auto. Qed.

Lemma neutral_fputc k c p : keeping (neutral k) anyhow (fputc c p).
Proof. unfold fputc. neutral_auto. Qed.

Lemma neutral_fgetc k p : keeping (neutral k) anyhow (fgetc p).
Proof. unfold fgetc. neutral_auto. Qed.

Lemma neutral_fseek k p off w : keeping (neutral k) anyhow (fseek p off w).
Proof. unfold fseek. neutral_auto. Qed.

Lemma neutral_ftell k p : keeping (neutral k) anyhow (ftell p).
Proof. unfold ftell. neutral_auto. Qed.

Lemma neutral_json_reset k : keeping (neutral k) anyhow json_reset.
Proof. unfold json_reset. neutral_auto. Qed.

Lemma neutral_json_append k text : keeping (neutral k) anyhow (json_append text).
Proof. unfold json_append. neutral_auto. Qed.

#[local] Hint Resolve neutral_fopen neutral_fclose neutral_fputc neutral_fgetc
  neutral_fseek neutral_ftell neutral_json_reset neutral_json_append : keeping.

Lemma neutral_json_flush k : keeping (neutral k) anyhow json_flush.
Proof. unfold json_flush. neutral_auto. Qed.

Lemma neutral_json_escape_loop k text : keeping (neutral k) anyhow (json_escape_loop text).
Proof.
  induction text as [| c text IH]; simpl; unfold json_escape_char; neutral_auto.
Qed.

#[local] Hint Resolve neutral_json_flush neutral_json_escape_loop : keeping.

Lemma neutral_json_append_escaped_string k text :
  keeping (neutral k) anyhow (json_append_escaped_string text).
Proof. unfold json_append_escaped_string. neutral_auto. Qed.

Lemma neutral_glk_exit k : keeping (neutral k) anyhow glk_exit.
Proof.
  unfold glk_exit. neutral_auto. intros s. exact I.
Qed.

#[local] Hint Resolve neutral_json_append_escaped_string neutral_glk_exit : keeping.

Lemma neutral_glk_gestalt_ext k sel val arr arrlen :
  keeping (neutral k) anyhow (glk_gestalt_ext sel val arr arrlen).
Proof. unfold glk_gestalt_ext. neutral_auto. Qed.

Lemma neutral_gli_stream_new k t r w rock :
  k ≠ Stream -> keeping (neutral k) anyhow (gli_stream_new t r w rock).
Proof.
  intros Hk. unfold gli_stream_new, new_str.
  destruct k; [| congruence |]; neutral_auto.
Qed.

Lemma neutral_glk_stream_close k str result :
  k ≠ Stream -> keeping (neutral k) anyhow (glk_stream_close str result).
Proof.
  intros Hk. unfold glk_stream_close.
  destruct k; [| congruence |]; neutral_auto.
Qed.

Lemma neutral_gli_fileref_new k filename usage rock :
  k ≠ Fileref -> keeping (neutral k) anyhow (gli_fileref_new filename usage rock).
Proof.
  intros Hk. unfold gli_fileref_new, new_fref.
  destruct k; [| | congruence]; neutral_auto.
Qed.

Lemma neutral_gli_put_char_to_stream k str ch :
  keeping (neutral k) anyhow (gli_put_char_to_stream str ch).
Proof. unfold gli_put_char_to_stream. neutral_auto. Qed.

#[local] Hint Resolve neutral_gli_put_char_to_stream : keeping.

Lemma neutral_gli_put_chars k str l : keeping (neutral k) anyhow (gli_put_chars str l).
Proof. induction l as [| ch l IH]; simpl; neutral_auto. Qed.

Lemma neutral_select_scan k fuel : forall win,
  keeping (neutral k) anyhow (select_scan fuel win).
Proof. induction fuel as [| fuel IH]; intros win; simpl; neutral_auto. Qed.

End NeutralCalls.

#[export] Hint Resolve neutral_fopen neutral_fclose neutral_fputc neutral_fgetc
  neutral_fseek neutral_ftell neutral_json_reset neutral_json_append
  neutral_json_flush neutral_json_escape_loop
  neutral_json_append_escaped_string neutral_glk_exit
  neutral_glk_gestalt_ext neutral_gli_put_char_to_stream
  neutral_gli_put_chars neutral_select_scan : keeping.
#[export] Hint Extern 1 (keeping (neutral _) _ (gli_stream_new _ _ _ _)) =>
  apply neutral_gli_stream_new; discriminate : keeping.
#[export] Hint Extern 1 (keeping (neutral _) _ (glk_stream_close _ _)) =>
  apply neutral_glk_stream_close; discriminate : keeping.
#[export] Hint Extern 1 (keeping (neutral _) _ (gli_fileref_new _ _ _)) =>
  apply neutral_gli_fileref_new; discriminate : keeping.

(** *** Calls that create and calls that destroy *)

(** Whether a call is one of those that create objects of kind [k]. *)
Definition is_create (k : kind) (c : call) : bool :=
  match k, c with
  | Window, Call_window_open _ _ _ _ _ => true
  | Stream, Call_window_open _ _ _ _ _ => true
  | Stream, Call_stream_open_file _ _ _ => true
  | Stream, Call_stream_open_memory _ _ _ _ => true
  | Stream, Call_stream_open_memory_uni _ _ _ _ => true
  | Fileref, Call_fileref_create_temp _ _ => true
  | Fileref, Call_fileref_create_by_name _ _ _ => true
  | Fileref, Call_fileref_create_by_prompt _ _ _ => true
  | Fileref, Call_fileref_create_from_fileref _ _ _ => true
  | _, _ => false
  end.

(** Whether a call is one of those that destroy objects of kind [k]. *)
Definition is_destroy (k : kind) (c : call) : bool :=
  match k, c with
  | Window, Call_window_close _ _ => true
  | Stream, Call_window_close _ _ => true
  | Stream, Call_stream_close _ _ => true
  | Fileref, Call_fileref_destroy _ => true
  | _, _ => false
  end.

Inductive change := Same | New (p : Z) | Gone (p : Z).

(** What the call [c] did to the registry of kind [k], from its arguments,
    the value [r] it returned, and the stream of the window it opened
    or closed: a create call that returns an object has created it, a
    destroy call on an object has destroyed it; a window comes and goes
    with its stream, when it has one. *)
Definition change_of (k : kind) (c : call) (s : State) (r : Z) (s' : State) : change :=
  let created := if decide (r = NULL) then Same else New r in
  match k, c with
  | Window, Call_window_open _ _ _ _ _ => created
  | Window, Call_window_close win _ => if decide (win = NULL) then Same else Gone win
  | Stream, Call_window_open _ _ _ _ _ =>
      match windows s' !! r with
      | Some w =>
          if decide (r = NULL ∨ win_str w = NULL) then Same else New (win_str w)
      | None => Same
      end
  | Stream, Call_window_close win _ =>
      match windows s !! win with
      | Some w =>
          if decide (win = NULL ∨ win_str w = NULL) then Same else Gone (win_str w)
      | None => Same
      end
  | Stream, Call_stream_open_file _ _ _ => created
  | Stream, Call_stream_open_memory _ _ _ _ => created
  | Stream, Call_stream_open_memory_uni _ _ _ _ => created
  | Stream, Call_stream_close str _ => if decide (str = NULL) then Same else Gone str
  | Fileref, Call_fileref_create_temp _ _ => created
  | Fileref, Call_fileref_create_by_name _ _ _ => created
  | Fileref, Call_fileref_create_by_prompt _ _ _ => created
  | Fileref, Call_fileref_create_from_fileref _ _ _ => created
  | Fileref, Call_fileref_destroy fref => if decide (fref = NULL) then Same else Gone fref
  | _, _ => Same
  end.

Section NeutralExec.
Context `{glk_h}.

Lemma neutral_glk_select k event : keeping (neutral k) anyhow (glk_select event).
Proof. unfold glk_select. neutral_auto. Qed.

#[local] Hint Resolve neutral_glk_select : keeping.

(** A call that neither creates nor destroys objects of a kind leaves
    the registry of the kind as it is. *)
Lemma neutral_exec k c :
  is_create k c = false -> is_destroy k c = false ->
  keeping (neutral k) anyhow (exec c).
Proof.
  intros Hc Hd.
  destruct k, c; try discriminate Hc; try discriminate Hd; clear Hc Hd;
    cbn [exec]; unfold void, glk_gestalt, glk_window_open, glk_window_close,
      glk_window_iterate, glk_window_clear, glk_window_get_stream,
      glk_window_set_echo_stream, glk_set_window, glk_stream_open_file,
      glk_stream_open_memory, glk_stream_open_memory_uni, glk_stream_iterate,
      glk_stream_set_position, glk_stream_get_position, glk_stream_set_current,
      glk_put_char, glk_put_char_stream, glk_put_string, glk_put_string_stream,
      glk_put_buffer, glk_put_buffer_stream, glk_get_char_stream,
      glk_fileref_create_temp, glk_fileref_create_by_name,
      glk_fileref_create_by_prompt, glk_fileref_create_from_fileref,
      glk_fileref_destroy, glk_fileref_iterate, glk_fileref_delete_file,
      glk_fileref_does_file_exist, glk_select_poll, glk_request_line_event,
      glk_request_char_event, glk_cancel_line_event, glk_cancel_char_event,
      glk_request_char_event_uni, glk_request_line_event_uni,
      gli_stream_open_window, new_win;
    neutral_auto.
Qed.

End NeutralExec.

(** *** Creation and destruction *)

(** The step created the object [p] of kind [k]. *)
Definition made (k : kind) (p : Z) (s s' : State) : Prop :=
  heap_next s <= p < heap_next s' /\
  ids k s' = <[p := id_counter k s]> (ids k s) /\
  id_counter k s' = wrap32 (id_counter k s + 1).

(** The step destroyed the object [p] of kind [k]. *)
Definition gone (k : kind) (p : Z) (s s' : State) : Prop :=
  is_Some (ids k s !! p) /\ ids k s' = delete p (ids k s) /\
  id_counter k s' = id_counter k s /\ heap_next s <= heap_next s'.

(** The step took an identifier of kind [k] and created nothing. *)
Definition skipped (k : kind) (s s' : State) : Prop :=
  ids k s' = ids k s /\ id_counter k s' = wrap32 (id_counter k s + 1) /\
  heap_next s <= heap_next s'.

Lemma neutral_made k p s s1 s' : neutral k s s1 -> made k p s1 s' -> made k p s s'.
Proof. unfold neutral, made. intros (-> & -> & ?) (? & -> & ->). repeat split; lia. Qed.

Lemma made_neutral k p s s1 s' : made k p s s1 -> neutral k s1 s' -> made k p s s'.
Proof.
  unfold neutral, made. intros (? & E1 & E2) (-> & -> & ?).
  rewrite E1, E2. repeat split; lia.
Qed.

Lemma neutral_gone k p s s1 s' : neutral k s s1 -> gone k p s1 s' -> gone k p s s'.
Proof.
  unfold neutral, gone. intros (E1 & E2 & ?) (? & -> & -> & ?).
  rewrite <- E1, E2. repeat split; auto; lia.
Qed.

Lemma gone_neutral k p s s1 s' : gone k p s s1 -> neutral k s1 s' -> gone k p s s'.
Proof.
  unfold neutral, gone. intros (? & E1 & E2 & ?) (-> & -> & ?).
  rewrite E1, E2. repeat split; auto; lia.
Qed.

Lemma neutral_skipped k s s1 s' : neutral k s s1 -> skipped k s1 s' -> skipped k s s'.
Proof. unfold neutral, skipped. intros (-> & -> & ?) (-> & -> & ?). repeat split; lia. Qed.

Lemma skipped_neutral k s s1 s' : skipped k s s1 -> neutral k s1 s' -> skipped k s s'.
Proof.
  unfold neutral, skipped. intros (E1 & E2 & ?) (-> & -> & ?).
  rewrite E1, E2. repeat split; lia.
Qed.

(** The value a computation returns, when it does. *)
Definition yields {A} (v : A) (m : M A) : Prop :=
  forall s, post (m s) (fun a _ => a = v) (fun _ => True).

Lemma yields_ret {A} (v : A) : yields v (ret v).
Proof. intros s. reflexivity. Qed.

Lemma yields_bind {A B} (m : M A) (k : A -> M B) v :
  (forall a, yields v (k a)) -> yields v (bind m k).
Proof.
  intros Hk s. apply post_bind. destruct (m s); simpl; auto. apply Hk.
Qed.

Ltac yields_auto :=
  repeat first
    [ apply yields_ret
    | apply yields_bind; intros ?
    | lazymatch goal with
      | |- yields _ (if ?b then _ else _) => destruct b
      | |- yields _ (match ?x with _ => _ end) => destruct x
      end ].

(** The end of a computation: steps that keep the registry of kind [k],
    and the value returned. *)
Lemma post_tail {A} k (m : M A) v s (Q : A -> State -> Prop) :
  keeping (neutral k) anyhow m -> yields v m ->
  (forall s', neutral k s s' -> Q v s') ->
  post (m s) Q (fun _ => True).
Proof.
  intros Hk Hv HQ. specialize (Hk s). specialize (Hv s).
  destruct (m s); simpl in *; [subst; auto | exact I | exact I].
Qed.

Ltac wp_tail k :=
  lazymatch goal with
  | |- post (?m ?s) _ _ =>
      let Hn := fresh "Hn" in
      eapply (post_tail k m _ s);
      [ solve [neutral_auto] | solve [yields_auto] | intros ? Hn ]
  end; cbv beta.

(** A step that keeps the registry of kind [k]. *)
Ltac wp_keep k :=
  lazymatch goal with
  | |- post (?m ?s) _ _ =>
      let Hn := fresh "Hn" in
      apply (post_keeping (neutral k) anyhow m s);
      [ solve [neutral_auto] | intros ? ? Hn | intros ? _; exact I ]
  end; cbv beta.

(** The live objects of kind [k] lie below the next address of the heap. *)
Definition fresh (k : kind) (s : State) : Prop :=
  1 <= heap_next s /\ forall p, is_Some (ids k s !! p) -> p < heap_next s.

(** What a call does to the registry of kind [k]. *)
Definition step_ok (k : kind) (c : call) (s : State) (r : Z) (s' : State) : Prop :=
  match change_of k c s r s' with
  | Same => neutral k s s' \/ (is_create k c = true /\ skipped k s s')
  | New p => made k p s s'
  | Gone p => gone k p s s'
  end.

Section Effects.
Context `{glk_h}.

Lemma gli_stream_new_effect t r w rock s :
  post (gli_stream_new t r w rock s)
    (fun p s' => (p = NULL /\ neutral Stream s s') \/ (p ≠ NULL /\ made Stream p s s'))
    (fun _ => True).
Proof.
  unfold gli_stream_new. wp_step. wp_step.
  - rewrite truthy_NULL. cbn [negb]. wp_step. left. split; [reflexivity |].
    neutral_side.
  - wp_step.
    + wp_step. left. split; [reflexivity | neutral_side].
    + do 6 wp_step. wp_tail Stream. right.
      apply negb_false_iff, bool_decide_eq_true in Heqb.
      split; [exact Heqb |].
      eapply made_neutral; [| exact Hn].
      unfold made, ids, id_counter. state_simpl.
      rewrite fmap_insert. repeat split; reflexivity || lia.
Qed.

Lemma glk_stream_close_effect str result s :
  str ≠ NULL ->
  post (glk_stream_close str result s) (fun _ s' => gone Stream str s s')
    (fun _ => True).
Proof.
  intros Hstr. unfold glk_stream_close.
  rewrite truthy_true by exact Hstr. cbn [negb].
  do 2 wp_step.
  wp_step. wp_keep Stream.
  wp_step. wp_keep Stream.
  do 2 wp_step.
  wp_step. wp_keep Stream.
  wp_step. wp_keep Stream.
  wp_step. wp_keep Stream.
  wp_step.
  repeat (eapply neutral_gone; [eassumption |]).
  unfold gone, ids, id_counter. state_simpl.
  rewrite fmap_delete, lookup_fmap.
  match goal with Hx : streams _ !! str = Some _ |- _ => rewrite Hx end.
  repeat split; eauto; lia.
Qed.

Lemma glk_window_open_effect split method size wintype rock s :
  post (glk_window_open split method size wintype rock s)
    (fun r s' => (r = NULL /\ neutral Window s s') \/ (r ≠ NULL /\ made Window r s s'))
    (fun _ => True).
Proof.
  unfold glk_window_open, gli_stream_open_window. wp_step. wp_step.
  - rewrite truthy_NULL. cbn [negb]. wp_step. left. split; [reflexivity |].
    neutral_side.
  - wp_step.
    + wp_step. left. split; [reflexivity | neutral_side].
    + do 6 wp_step. wp_tail Window. right.
      apply negb_false_iff, bool_decide_eq_true in Heqb.
      split; [exact Heqb |].
      eapply made_neutral; [| exact Hn].
      unfold made, ids, id_counter. state_simpl.
      rewrite fmap_insert. repeat split; reflexivity || lia.
Qed.

Lemma glk_fileref_destroy_effect fref s :
  fref ≠ NULL ->
  post (glk_fileref_destroy fref s) (fun _ s' => gone Fileref fref s s')
    (fun _ => True).
Proof.
  intros Hfref. unfold glk_fileref_destroy.
  rewrite truthy_true by exact Hfref. cbn [negb].
  do 2 wp_step.
  wp_step. wp_keep Fileref.
  wp_step. wp_keep Fileref.
  wp_step.
  repeat (eapply neutral_gone; [eassumption |]).
  unfold gone, ids, id_counter. state_simpl.
  rewrite fmap_delete, lookup_fmap.
  match goal with Hx : filerefs _ !! fref = Some _ |- _ => rewrite Hx end.
  repeat split; eauto; lia.
Qed.

Lemma gli_fileref_new_effect filename usage rock s :
  fresh Fileref s ->
  post (gli_fileref_new filename usage rock s)
    (fun r s' =>
       (r = NULL /\ (neutral Fileref s s' \/ skipped Fileref s s'))
       \/ (r ≠ NULL /\ made Fileref r s s'))
    (fun _ => True).
Proof.
  intros [Hnext Hfresh]. unfold gli_fileref_new. wp_step. wp_step.
  - rewrite truthy_NULL. cbn [negb]. wp_step. left. split; [reflexivity |].
    left. neutral_side.
  - rewrite truthy_true by (unfold NULL; lia). cbn [negb].
    do 7 wp_step. wp_step.
    + rewrite truthy_NULL. cbn [negb]. do 3 wp_step.
      left. split; [reflexivity |]. right.
      unfold skipped, ids, id_counter. state_simpl.
      rewrite fmap_delete, fmap_insert, delete_insert_id.
      * repeat split; reflexivity || lia.
      * apply eq_None_not_Some. intros Hp.
        specialize (Hfresh _ Hp). lia.
    + state_simpl. rewrite truthy_true by (unfold NULL; lia). cbn [negb].
      wp_tail Fileref. right. split; [unfold NULL; lia |].
      eapply made_neutral; [| exact Hn].
      unfold made, ids, id_counter. state_simpl.
      rewrite fmap_insert. repeat split; reflexivity || lia.
Qed.

Lemma glk_window_close_effect win result s :
  win ≠ NULL ->
  post (glk_window_close win result s) (fun _ s' => gone Window win s s')
    (fun _ => True).
Proof.
  intros Hwin. unfold glk_window_close.
  rewrite truthy_true by exact Hwin. cbn [negb].
  do 2 wp_step.
  wp_step. wp_keep Window.
  wp_step. wp_keep Window.
  wp_step. wp_keep Window.
  wp_step. wp_keep Window.
  do 2 wp_step.
  wp_step. wp_keep Window.
  wp_step.
  repeat (eapply neutral_gone; [eassumption |]).
  unfold gone, ids, id_counter. state_simpl.
  rewrite fmap_delete, lookup_fmap.
  match goal with Hx : windows _ !! win = Some _ |- _ => rewrite Hx end.
  repeat split; eauto; lia.
Qed.

(** The stream of the window goes with it. *)
Lemma glk_window_close_stream win result s :
  win ≠ NULL ->
  post (glk_window_close win result s)
    (fun _ s' =>
       exists w, windows s !! win = Some w /\
         if decide (win_str w = NULL) then neutral Stream s s'
         else gone Stream (win_str w) s s')
    (fun _ => True).
Proof.
  intros Hwin. unfold glk_window_close.
  rewrite truthy_true by exact Hwin. cbn [negb].
  do 2 wp_step.
  wp_step. wp_keep Stream.
  wp_step. destruct (truthy (win_str w)) eqn:Hstr.
  - apply bool_decide_eq_true in Hstr.
    wp_step. wp_keep Stream.
    wp_step.
    eapply post_mono;
      [apply glk_stream_close_effect; exact Hstr | cbv beta; intros _ ? Hg
      | intros; exact I].
    wp_keep Stream. wp_keep Stream.
    exists w. split; [assumption |].
    rewrite decide_False by exact Hstr.
    repeat (eapply neutral_gone; [eassumption |]).
    repeat (eapply gone_neutral; [| eassumption]).
    exact Hg.
  - apply bool_decide_eq_false in Hstr.
    wp_step. wp_keep Stream.
    exists w. split; [assumption |].
    rewrite decide_True by (destruct (decide (win_str w = 0)); [assumption | tauto]).
    repeat (eapply R_trans; [eassumption |]). apply R_refl.
Qed.

(** The stream a window is opened with. *)
Lemma glk_window_open_stream split method size wintype rock s :
  post (glk_window_open split method size wintype rock s)
    (fun r s' =>
       (r = NULL /\ neutral Stream s s')
       \/ (r ≠ NULL /\ exists w, windows s' !! r = Some w /\
            if decide (win_str w = NULL) then neutral Stream s s'
            else made Stream (win_str w) s s'))
    (fun _ => True).
Proof.
  unfold glk_window_open, gli_stream_open_window, new_win. wp_step. wp_step.
  - rewrite truthy_NULL. cbn [negb]. wp_step. left. split; [reflexivity |].
    neutral_side.
  - wp_step.
    + wp_step. left. split; [reflexivity | neutral_side].
    + apply negb_false_iff, bool_decide_eq_true in Heqb.
      wp_step. wp_keep Stream.
      wp_step. wp_keep Stream.
      wp_step. wp_keep Stream.
      wp_step. wp_keep Stream.
      wp_step. wp_keep Stream.
      wp_step. wp_keep Stream.
      wp_step. wp_keep Stream.
      wp_step. wp_step.
      assert (neutral Stream s s'5) as Hpre.
      { assert (neutral Stream s
                  (put_heap_next (heap_next s + 1) (put_heap_script script s)))
          by neutral_side.
        repeat (eapply R_trans; [eassumption |]). apply R_refl. }
      clear Hn Hn0 Hn1 Hn2 Hn3 Hn4 Hn5.
      eapply post_mono;
        [apply gli_stream_new_effect | cbv beta; intros str s6 Hnew
        | intros; exact I].
      wp_tail Stream. rename s'6 into s7.
      wp_step. wp_step.
      unfold json_reset, json_append, json_flush, print_line.
      wp; right; (split; [exact Heqb |]);
        (eexists; split; [state_simpl; apply lookup_insert_eq |]);
        cbn [win_str set_win_str];
        (destruct Hnew as [[-> Hnew] | [Hstr Hnew]];
         [ rewrite decide_True by reflexivity;
           eapply R_trans; [exact Hpre |];
           eapply R_trans; [exact Hnew |];
           eapply R_trans; [exact Hn |]; neutral_side
         | rewrite decide_False by exact Hstr;
           eapply neutral_made; [exact Hpre |];
           eapply made_neutral; [exact Hnew |];
           eapply R_trans; [exact Hn |]; neutral_side ]).
Qed.

Lemma fresh_neutral k s s' : fresh k s -> neutral k s s' -> fresh k s'.
Proof.
  intros [Hnext Hlive] (Hids & _ & Hheap). split; [lia |].
  intros p Hp. rewrite Hids in Hp. specialize (Hlive p Hp). lia.
Qed.

Lemma change_of_Same k c s r s' :
  is_create k c = false -> is_destroy k c = false -> change_of k c s r s' = Same.
Proof. destruct k, c; simpl; intros; congruence. Qed.

Lemma change_of_New k c s r s' p :
  change_of k c s r s' = New p -> is_create k c = true.
Proof.
  destruct k, c; simpl; intros E; try reflexivity; try discriminate E;
    repeat case_match; discriminate E.
Qed.

Lemma glk_stream_open_memory_effect buf buflen fmode rock s :
  post (glk_stream_open_memory buf buflen fmode rock s)
    (fun p s' => (p = NULL /\ neutral Stream s s') \/ (p ≠ NULL /\ made Stream p s s'))
    (fun _ => True).
Proof.
  unfold glk_stream_open_memory. destruct (fmode_flags fmode) as [readable writable].
  wp_step.
  eapply post_mono;
    [apply gli_stream_new_effect | cbv beta; intros str s1 Hnew | intros; exact I].
  destruct Hnew as [[-> Hnew] | [Hstr Hnew]].
  - rewrite truthy_NULL. cbn [negb]. wp_step. now left.
  - rewrite truthy_true by exact Hstr. cbn [negb]. wp_tail Stream.
    right. split; [exact Hstr |]. eapply made_neutral; eassumption.
Qed.

Lemma glk_stream_open_memory_uni_effect buf buflen fmode rock s :
  post (glk_stream_open_memory_uni buf buflen fmode rock s)
    (fun p s' => (p = NULL /\ neutral Stream s s') \/ (p ≠ NULL /\ made Stream p s s'))
    (fun _ => True).
Proof.
  unfold glk_stream_open_memory_uni.
  destruct (fmode_flags fmode) as [readable writable].
  wp_step.
  eapply post_mono;
    [apply gli_stream_new_effect | cbv beta; intros str s1 Hnew | intros; exact I].
  destruct Hnew as [[-> Hnew] | [Hstr Hnew]].
  - rewrite truthy_NULL. cbn [negb]. wp_step. now left.
  - rewrite truthy_true by exact Hstr. cbn [negb]. wp_tail Stream.
    right. split; [exact Hstr |]. eapply made_neutral; eassumption.
Qed.

Lemma glk_stream_open_file_effect fileref fmode rock s :
  post (glk_stream_open_file fileref fmode rock s)
    (fun p s' => (p = NULL /\ neutral Stream s s') \/ (p ≠ NULL /\ made Stream p s s'))
    (fun _ => True).
Proof.
  assert (forall f modestr readable writable s1,
    neutral Stream s s1 ->
    post ((file <- fopen (fref_filename f) modestr ;;
           if negb (truthy file) then ret NULL
           else
             str <- gli_stream_new 2 readable writable rock ;;
             if negb (truthy str) then fclose file ;; ret NULL
             else update_str str (set_str_file file) ;; ret str) s1)
      (fun p s' => (p = NULL /\ neutral Stream s s') \/ (p ≠ NULL /\ made Stream p s s'))
      (fun _ => True)) as Hopen.
  { intros f modestr readable writable s1 Hs1.
    wp_step. wp_keep Stream. wp_step.
    - wp_step. left. split; [reflexivity |]. eapply R_trans; eassumption.
    - wp_step.
      eapply post_mono;
        [apply gli_stream_new_effect | cbv beta; intros str s2 Hnew
        | intros; exact I].
      destruct Hnew as [[-> Hnew] | [Hstr Hnew]].
      + rewrite truthy_NULL. cbn [negb]. wp_tail Stream.
        left. split; [reflexivity |].
        repeat (eapply R_trans; [eassumption |]). apply R_refl.
      + rewrite truthy_true by exact Hstr. cbn [negb]. wp_tail Stream.
        right. split; [exact Hstr |].
        eapply neutral_made; [exact Hs1 |].
        eapply neutral_made; [exact Hn |].
        eapply made_neutral; eassumption. }
  unfold glk_stream_open_file. wp_step.
  - wp_step. left. split; [reflexivity | apply R_refl].
  - wp_step. wp_step.
    repeat case_decide; try apply Hopen; try apply R_refl.
    wp_step. left. split; [reflexivity | apply R_refl].
Qed.

Lemma gli_fileref_new_after filename usage rock s s1 :
  fresh Fileref s -> neutral Fileref s s1 ->
  post (gli_fileref_new filename usage rock s1)
    (fun r s' =>
       (r = NULL /\ (neutral Fileref s s' \/ skipped Fileref s s'))
       \/ (r ≠ NULL /\ made Fileref r s s'))
    (fun _ => True).
Proof.
  intros Hfresh Hn.
  eapply post_mono;
    [apply gli_fileref_new_effect; eapply fresh_neutral; eassumption
    | cbv beta; intros r s' Hnew | intros; exact I].
  destruct Hnew as [[-> [Hnew | Hnew]] | [Hr Hnew]].
  - left. split; [reflexivity |]. left. eapply R_trans; eassumption.
  - left. split; [reflexivity |]. right. eapply neutral_skipped; eassumption.
  - right. split; [exact Hr |]. eapply neutral_made; eassumption.
Qed.

(** The four calls that create a file reference. *)
Lemma fileref_create_effect c s :
  is_create Fileref c = true -> fresh Fileref s ->
  post (exec c s)
    (fun r s' =>
       (r = NULL /\ (neutral Fileref s s' \/ skipped Fileref s s'))
       \/ (r ≠ NULL /\ made Fileref r s s'))
    (fun _ => True).
Proof.
  intros Hc Hfresh. destruct c; try discriminate Hc; clear Hc; cbn [exec].
  - unfold glk_fileref_create_temp. do 2 wp_step.
    apply gli_fileref_new_after; [assumption | apply R_refl].
  - unfold glk_fileref_create_by_name. destruct name.
    + apply gli_fileref_new_after; [assumption | apply R_refl].
    + wp_step. left. split; [reflexivity |]. left. apply R_refl.
  - unfold glk_fileref_create_by_prompt.
    wp_step. wp_keep Fileref.
    wp_step. wp_keep Fileref.
    wp_step. wp_keep Fileref.
    wp_step. wp_keep Fileref.
    assert (neutral Fileref s s'2) as Hpre
      by (repeat (eapply R_trans; [eassumption |]); apply R_refl).
    destruct a2.
    + now apply gli_fileref_new_after.
    + wp_step. left. split; [reflexivity |]. now left.
  - unfold glk_fileref_create_from_fileref. wp_step.
    + wp_step. left. split; [reflexivity |]. left. apply R_refl.
    + do 2 wp_step. apply gli_fileref_new_after; [assumption | apply R_refl].
Qed.

(** What one call does to the registry of a kind. *)
Lemma exec_effect k c s :
  fresh k s ->
  post (exec c s) (fun r s' => step_ok k c s r s') (fun _ => True).
Proof.
  intros Hfresh.
  destruct (is_create k c) eqn:Hc; [| destruct (is_destroy k c) eqn:Hd].
  - destruct k.
    + destruct c; try discriminate Hc; cbn [exec].
      eapply post_mono;
        [apply glk_window_open_effect | cbv beta; intros r s' He
        | intros; exact I].
      unfold step_ok. cbn [change_of].
      destruct He as [[-> He] | [Hr He]].
      * rewrite decide_True by reflexivity. now left.
      * now rewrite decide_False by exact Hr.
    + destruct c; try discriminate Hc; cbn [exec].
      * eapply post_mono;
          [apply glk_window_open_stream | cbv beta; intros r s' He
          | intros; exact I].
        unfold step_ok. cbn [change_of].
        destruct He as [[-> He] | [Hr (w & Hw & He)]].
        -- destruct (windows s' !! NULL); [| now left].
           rewrite decide_True by now left. now left.
        -- rewrite Hw. destruct (decide (win_str w = NULL)) as [Hs | Hs].
           ++ rewrite decide_True by now right. now left.
           ++ rewrite decide_False by tauto. exact He.
      * eapply post_mono;
          [apply glk_stream_open_file_effect | cbv beta; intros r s' He
          | intros; exact I].
        unfold step_ok. cbn [change_of].
        destruct He as [[-> He] | [Hr He]].
        -- rewrite decide_True by reflexivity. now left.
        -- now rewrite decide_False by exact Hr.
      * eapply post_mono;
          [apply glk_stream_open_memory_effect | cbv beta; intros r s' He
          | intros; exact I].
        unfold step_ok. cbn [change_of].
        destruct He as [[-> He] | [Hr He]].
        -- rewrite decide_True by reflexivity. now left.
        -- now rewrite decide_False by exact Hr.
      * eapply post_mono;
          [apply glk_stream_open_memory_uni_effect | cbv beta; intros r s' He
          | intros; exact I].
        unfold step_ok. cbn [change_of].
        destruct He as [[-> He] | [Hr He]].
        -- rewrite decide_True by reflexivity. now left.
        -- now rewrite decide_False by exact Hr.
    + eapply post_mono;
        [apply fileref_create_effect; assumption | cbv beta; intros r s' He
        | intros; exact I].
      unfold step_ok.
      assert (change_of Fileref c s r s' = if decide (r = NULL) then Same else New r)
        as -> by (destruct c; try discriminate Hc; reflexivity).
      destruct He as [[-> He] | [Hr He]].
      * rewrite decide_True by reflexivity. tauto.
      * now rewrite decide_False by exact Hr.
  - destruct k.
    + destruct c; try discriminate Hd; cbn [exec]. unfold void.
      unfold step_ok. cbn [change_of is_create].
      destruct (decide (win = NULL)) as [-> | Hwin].
      * unfold glk_window_close. rewrite truthy_NULL. cbn [negb].
        wp. left. apply R_refl.
      * wp_step.
        eapply post_mono;
          [apply glk_window_close_effect; exact Hwin | cbv beta; intros _ s' He
          | intros; exact I].
        wp_step. exact He.
    + destruct c; try discriminate Hd; cbn [exec]; unfold void.
      * unfold step_ok. cbn [change_of is_create].
        destruct (decide (win = NULL)) as [-> | Hwin].
        -- unfold glk_window_close. rewrite truthy_NULL. cbn [negb].
           wp. destruct (windows s !! NULL); [| left; apply R_refl].
           rewrite decide_True by now left. left. apply R_refl.
        -- wp_step.
           eapply post_mono;
             [apply glk_window_close_stream; exact Hwin
             | cbv beta; intros _ s' (w & Hw & He) | intros; exact I].
           wp_step. rewrite Hw.
           destruct (decide (win_str w = NULL)) as [Hs | Hs].
           ++ rewrite decide_True by now right. now left.
           ++ rewrite decide_False by tauto. exact He.
      * unfold step_ok. cbn [change_of is_create].
        destruct (decide (str = NULL)) as [-> | Hstr].
        -- unfold glk_stream_close. rewrite truthy_NULL. cbn [negb].
           wp. left. apply R_refl.
        -- wp_step.
           eapply post_mono;
             [apply glk_stream_close_effect; exact Hstr
             | cbv beta; intros _ s' He | intros; exact I].
           wp_step. exact He.
    + destruct c; try discriminate Hd; cbn [exec]. unfold void.
      unfold step_ok. cbn [change_of is_create].
      destruct (decide (fref = NULL)) as [-> | Hfref].
      * unfold glk_fileref_destroy. rewrite truthy_NULL. cbn [negb].
        wp. left. apply R_refl.
      * wp_step.
        eapply post_mono;
          [apply glk_fileref_destroy_effect; exact Hfref
          | cbv beta; intros _ s' He | intros; exact I].
        wp_step. exact He.
  - eapply post_mono;
      [apply (neutral_exec k c Hc Hd s) | cbv beta; intros r s' He
      | intros; exact I].
    unfold step_ok. rewrite change_of_Same by assumption. now left.
Qed.

End Effects.

(** *** Runs *)

(** The number of objects of kind [k] that the run of [cs] from [s]
    creates, and the number of those it destroys. *)
Fixpoint tally `{glk_h} (k : kind) (cs : list call) (s : State) : Z * Z :=
  match cs with
  | [] => (0, 0)
  | c :: rest =>
      match exec c s with
      | Ret r s' =>
          let '(n, m) := tally k rest s' in
          match change_of k c s r s' with
          | Same => (n, m)
          | New _ => (n + 1, m)
          | Gone _ => (n, m + 1)
          end
      | _ => (0, 0)
      end
  end.

Definition created `{glk_h} (k : kind) (cs : list call) (s : State) : Z :=
  fst (tally k cs s).
Definition destroyed `{glk_h} (k : kind) (cs : list call) (s : State) : Z :=
  snd (tally k cs s).

(** The number of calls that create objects of kind [k]. *)
Fixpoint attempts (k : kind) (cs : list call) : Z :=
  match cs with
  | [] => 0
  | c :: rest => (if is_create k c then 1 else 0) + attempts k rest
  end.

(** The identifiers of the live objects of kind [k] are in use once and
    below the counter. *)
Definition ordered (k : kind) (s : State) : Prop :=
  fresh k s /\ 1 <= id_counter k s /\
  (forall p i, ids k s !! p = Some i -> 1 <= i < id_counter k s) /\
  (forall p q i, ids k s !! p = Some i -> ids k s !! q = Some i -> p = q).

(** [s'] is a later state than [s]: an object of [s'] is an object of
    [s], with the identifier it had, or a newer object, with a newer
    identifier. *)
Definition later (k : kind) (s s' : State) : Prop :=
  id_counter k s <= id_counter k s' /\ heap_next s <= heap_next s' /\
  forall q j, ids k s' !! q = Some j ->
    ids k s !! q = Some j \/ (heap_next s <= q /\ id_counter k s <= j).

Lemma later_refl k s : later k s s.
Proof. unfold later. repeat split; auto; lia. Qed.

Lemma later_trans k s1 s2 s3 : later k s1 s2 -> later k s2 s3 -> later k s1 s3.
Proof.
  intros (Hc1 & Hh1 & H1) (Hc2 & Hh2 & H2). repeat split; try lia.
  intros q j Hq. destruct (H2 q j Hq) as [Hq2 | [? ?]]; [| right; lia].
  destruct (H1 q j Hq2) as [? | [? ?]]; [now left | right; lia].
Qed.

Lemma wrap32_next c : 0 <= c -> c + 1 < 2 ^ 32 -> wrap32 (c + 1) = c + 1.
Proof. intros. unfold wrap32. apply Z.mod_small. lia. Qed.

Lemma size_delete_live (m : gmap Z Z) p :
  is_Some (m !! p) -> Z.of_nat (size (delete p m)) = Z.of_nat (size m) - 1.
Proof.
  intros Hp. rewrite map_size_delete_Some by exact Hp.
  destruct (size m) eqn:E; [| simpl; lia].
  apply map_size_empty_inv in E. subst m.
  rewrite lookup_empty in Hp. now destruct Hp.
Qed.

Section Accounting.
Context `{glk_h}.

(** One call. *)
Lemma step_accounting k c s r s' :
  ordered k s -> step_ok k c s r s' ->
  id_counter k s + (if is_create k c then 1 else 0) < 2 ^ 32 ->
  ordered k s' /\ later k s s' /\
  id_counter k s' <= id_counter k s + (if is_create k c then 1 else 0).
Proof.
  intros ([Hnext Hfresh] & Hc & Hbelow & Hinj) Hstep Hroom.
  unfold step_ok in Hstep.
  destruct (change_of k c s r s') as [| p | p] eqn:Hch.
  - assert (ids k s' = ids k s /\ heap_next s <= heap_next s' /\
            id_counter k s <= id_counter k s'
              <= id_counter k s + (if is_create k c then 1 else 0))
      as (Hids & Hheap & Hcnt).
    { destruct Hstep as [(? & ? & ?) | (Hcr & ? & Hw & ?)].
      - repeat split; try assumption; destruct (is_create k c); lia.
      - rewrite Hcr in *. rewrite wrap32_next in Hw by lia.
        repeat split; try assumption; lia. }
    unfold ordered, fresh, later. rewrite Hids.
    repeat split; try lia; auto.
    + intros q Hq. specialize (Hfresh q Hq). lia.
    + apply Hbelow in H0. lia.
    + apply Hbelow in H0. lia.
  - destruct Hstep as (Hp & Hids & Hcnt).
    rewrite (change_of_New _ _ _ _ _ _ Hch) in *.
    rewrite wrap32_next in Hcnt by lia.
    assert (ids k s !! p = None) as Hnone.
    { apply eq_None_not_Some. intros Hq. specialize (Hfresh p Hq). lia. }
    unfold ordered, fresh, later. rewrite Hids, Hcnt.
    repeat split; try lia.
    + intros q Hq. rewrite lookup_insert_is_Some in Hq.
      destruct Hq as [-> | [_ Hq]]; [lia |]. specialize (Hfresh q Hq). lia.
    + apply lookup_insert_Some in H0 as [[_ <-] | [_ Hq]]; [lia |].
      apply Hbelow in Hq. lia.
    + apply lookup_insert_Some in H0 as [[_ <-] | [_ Hq]]; [lia |].
      apply Hbelow in Hq. lia.
    + intros q1 q2 i H1 H2.
      apply lookup_insert_Some in H1 as [[<- <-] | [? H1]];
        apply lookup_insert_Some in H2 as [[<- E] | [? H2]]; auto.
      * apply Hbelow in H2. lia.
      * apply Hbelow in H1. lia.
      * eauto.
    + intros q j Hq.
      apply lookup_insert_Some in Hq as [[<- <-] | [_ Hq]]; [right; lia | now left].
  - destruct Hstep as (Hp & Hids & Hcnt & Hheap).
    unfold ordered, fresh, later. rewrite Hids, Hcnt.
    repeat split; try lia.
    + intros q Hq. rewrite lookup_delete_is_Some in Hq.
      destruct Hq as [_ Hq]. specialize (Hfresh q Hq). lia.
    + apply lookup_delete_Some in H0 as [_ Hq]. apply Hbelow in Hq. lia.
    + apply lookup_delete_Some in H0 as [_ Hq]. apply Hbelow in Hq. lia.
    + intros q1 q2 i H1 H2.
      apply lookup_delete_Some in H1 as [_ H1].
      apply lookup_delete_Some in H2 as [_ H2]. eauto.
    + intros q j Hq. apply lookup_delete_Some in Hq as [_ Hq]. now left.
    + destruct (is_create k c); lia.
Qed.

Lemma step_live k c s r s' :
  fresh k s -> step_ok k c s r s' ->
  fresh k s' /\
  live k s' = live k s + match change_of k c s r s' with
                         | Same => 0
                         | New _ => 1
                         | Gone _ => -1
                         end.
Proof.
  intros [Hnext Hfresh] Hstep. unfold step_ok in Hstep. unfold live, fresh.
  destruct (change_of k c s r s') as [| p | p].
  - assert (ids k s' = ids k s /\ heap_next s <= heap_next s') as [Hids Hheap]
      by (destruct Hstep as [(? & ? & ?) | (_ & ? & ? & ?)]; auto).
    rewrite Hids. repeat split; try lia.
    intros q Hq. specialize (Hfresh q Hq). lia.
  - destruct Hstep as (Hp & Hids & Hcnt).
    assert (ids k s !! p = None) as Hnone.
    { apply eq_None_not_Some. intros Hq. specialize (Hfresh p Hq). lia. }
    rewrite Hids, map_size_insert_None by exact Hnone.
    repeat split; try lia.
    intros q Hq. rewrite lookup_insert_is_Some in Hq.
    destruct Hq as [-> | [_ Hq]]; [lia |]. specialize (Hfresh q Hq). lia.
  - destruct Hstep as (Hp & Hids & Hcnt & Hheap).
    rewrite Hids, size_delete_live by exact Hp.
    repeat split; try lia.
    intros q Hq. rewrite lookup_delete_is_Some in Hq.
    destruct Hq as [_ Hq]. specialize (Hfresh q Hq). lia.
Qed.

Lemma run_cons c cs s rs s' :
  run (c :: cs) s = Ret rs s' ->
  exists v s1 vs, exec c s = Ret v s1 /\ run cs s1 = Ret vs s' /\ rs = v :: vs.
Proof.
  cbn [run]. intros E.
  apply bind_inv_Ret in E as (v & s1 & Hc & E).
  apply bind_inv_Ret in E as (vs & s2 & Hcs & E).
  injection E as <- <-. eauto 6.
Qed.

(** The live objects after a run, counted. *)
Lemma run_live k cs : forall s rs s',
  fresh k s -> run cs s = Ret rs s' ->
  live k s' = live k s + created k cs s - destroyed k cs s.
Proof.
  unfold created, destroyed.
  induction cs as [| c cs IH]; intros s rs s' Hfresh Hrun.
  - injection Hrun as _ <-. simpl. lia.
  - apply run_cons in Hrun as (v & s1 & vs & Hc & Hcs & _).
    pose proof (post_Ret _ _ _ _ _ _ Hc (exec_effect k c s Hfresh)) as Hstep.
    cbv beta in Hstep.
    destruct (step_live _ _ _ _ _ Hfresh Hstep) as [Hfresh1 Hlive].
    specialize (IH _ _ _ Hfresh1 Hcs).
    cbn [tally]. rewrite Hc. destruct (tally k cs s1) as [n m].
    cbn [fst snd] in *.
    destruct (change_of k c s v s1); cbn [fst snd]; lia.
Qed.

(** The identifiers after a run. *)
Lemma run_ordered k cs : forall s rs s',
  ordered k s -> id_counter k s + attempts k cs < 2 ^ 32 ->
  run cs s = Ret rs s' ->
  ordered k s' /\ later k s s' /\
  id_counter k s' <= id_counter k s + attempts k cs.
Proof.
  induction cs as [| c cs IH]; intros s rs s' Hord Hroom Hrun.
  - injection Hrun as _ <-. cbn [attempts].
    split; [assumption | split; [apply later_refl | lia]].
  - apply run_cons in Hrun as (v & s1 & vs & Hc & Hcs & _).
    cbn [attempts] in Hroom.
    assert (0 <= attempts k cs) as Hpos
      by (clear; induction cs as [| c' cs' IH']; simpl;
          [lia | destruct (is_create k c'); lia]).
    pose proof (post_Ret _ _ _ _ _ _ Hc
                  (exec_effect k c s (proj1 Hord))) as Hstep.
    cbv beta in Hstep.
    destruct (step_accounting _ _ _ _ _ Hord Hstep) as (Hord1 & Hlater & Hcnt);
      [destruct (is_create k c); lia |].
    destruct (IH _ _ _ Hord1 ltac:(lia) Hcs) as (Hord' & Hlater' & Hcnt').
    cbn [attempts].
    split; [assumption | split; [eapply later_trans; eassumption | lia]].
Qed.

Lemma ordered_initial_state k input script disk :
  ordered k (initial_state input script disk).
Proof.
  unfold ordered, fresh. destruct k; simpl; rewrite fmap_empty;
    (repeat split; try lia; intros *; rewrite ?lookup_empty;
     try discriminate; intros [? ?]; discriminate).
Qed.

(** C4, amended.  For each kind of object (window, stream, file
    reference) and every run of calls from the start of the process:
    the number of live objects after the run is the number of objects the
    run has created less the number of those it has destroyed; and, as
    long as the calls that create objects of the kind number fewer than
    2^32 - 1 (the identifier counter has 32 bits), no two live objects
    share an identifier, an object keeps its identifier, and an object
    created later than another one, live or destroyed since, has a
    larger identifier. *)
Theorem registry_accounting (k : kind) (input : list ascii) (script : list bool)
    (disk : gmap (list ascii) (list ascii)) (cs1 cs2 : list call)
    (rs1 rs2 : list Z) (s1 s2 : State) :
  run cs1 (initial_state input script disk) = Ret rs1 s1 ->
  run cs2 s1 = Ret rs2 s2 ->
  live k s1 = created k cs1 (initial_state input script disk)
              - destroyed k cs1 (initial_state input script disk) /\
  (attempts k cs1 + attempts k cs2 < 2 ^ 32 - 1 ->
   (forall p q i, ids k s2 !! p = Some i -> ids k s2 !! q = Some i -> p = q) /\
   (forall p i j, ids k s1 !! p = Some i -> ids k s2 !! p = Some j -> j = i) /\
   (forall p i q j,
      ids k s1 !! p = Some i -> ids k s2 !! q = Some j ->
      ids k s1 !! q = None -> i < j)).
Proof.
  intros Hrun1 Hrun2.
  pose proof (ordered_initial_state k input script disk) as Hord0.
  split.
  - rewrite (run_live k cs1 _ _ _ (proj1 Hord0) Hrun1).
    unfold live. destruct k; simpl; rewrite fmap_empty, map_size_empty; lia.
  - intros Hroom.
    assert (0 <= attempts k cs2) as Hpos
      by (clear; induction cs2 as [| c' cs' IH']; simpl;
          [lia | destruct (is_create k c'); lia]).
    assert (id_counter k (initial_state input script disk) = 1) as Hone
      by (destruct k; reflexivity).
    destruct (run_ordered k cs1 _ _ _ Hord0 ltac:(lia) Hrun1)
      as (Hord1 & _ & Hcnt1).
    destruct (run_ordered k cs2 _ _ _ Hord1 ltac:(lia) Hrun2)
      as (Hord2 & (_ & _ & Hlater) & _).
    destruct Hord1 as ([_ Hfresh1] & _ & Hbelow1 & _).
    destruct Hord2 as (_ & _ & _ & Hinj2).
    repeat split.
    + exact Hinj2.
    + intros p i j Hp1 Hp2.
      destruct (Hlater p j Hp2) as [Hp | [Hp _]]; [congruence |].
      specialize (Hfresh1 p ltac:(eauto)). lia.
    + intros p i q j Hp Hq Hnew.
      destruct (Hlater q j Hq) as [Hq1 | [_ Hj]]; [congruence |].
      apply Hbelow1 in Hp. lia.
Qed.

End Accounting.

(** *** A run with a window opened, closed, and another one opened *)

Definition final_state {A} (o : outcome A) : State :=
  match o with
  | Ret _ s => s
  | Exit s => s
  | Undef => initial_state [] [] ∅
  end.

Definition opened_once : State :=
  final_state (run [Call_window_open 0 0 0 3 0] (initial_state [] [] ∅)).

Definition opened_again : State :=
  final_state (run [Call_window_close 1 0; Call_window_open 0 0 0 3 0] opened_once).

Lemma registry_accounting_witness :
  run [Call_window_open 0 0 0 3 0] (initial_state [] [] ∅) = Ret [1] opened_once /\
  run [Call_window_close 1 0; Call_window_open 0 0 0 3 0] opened_once
    = Ret [0; 3] opened_again /\
  live Window opened_once
  = created Window [Call_window_open 0 0 0 3 0] (initial_state [] [] ∅)
    - destroyed Window [Call_window_open 0 0 0 3 0] (initial_state [] [] ∅) /\
  (attempts Window [Call_window_open 0 0 0 3 0]
   + attempts Window [Call_window_close 1 0; Call_window_open 0 0 0 3 0]
   < 2 ^ 32 - 1 ->
   (forall p q i,
      ids Window opened_again !! p = Some i ->
      ids Window opened_again !! q = Some i -> p = q) /\
   (forall p i j,
      ids Window opened_once !! p = Some i ->
      ids Window opened_again !! p = Some j -> j = i) /\
   (forall p i q j,
      ids Window opened_once !! p = Some i ->
      ids Window opened_again !! q = Some j ->
      ids Window opened_once !! q = None -> i < j)).
Proof.
  assert (run [Call_window_open 0 0 0 3 0] (initial_state [] [] ∅)
          = Ret [1] opened_once) as H1 by (vm_compute; reflexivity).
  assert (run [Call_window_close 1 0; Call_window_open 0 0 0 3 0] opened_once
          = Ret [0; 3] opened_again) as H2 by (vm_compute; reflexivity).
  split; [exact H1 |]. split; [exact H2 |].
  exact (registry_accounting Window [] [] ∅ _ _ _ _ _ _ H1 H2).
Defined.

(** *** Computations that return *)

Definition returns {A} (o : outcome A) (Q : A -> State -> Prop) : Prop :=
  match o with
  | Ret a s => Q a s
  | _ => False
  end.

Lemma returns_bind {A B} (m : M A) (k : A -> M B) s Q :
  returns (m s) (fun a s1 => returns (k a s1) Q) -> returns (bind m k s) Q.
Proof. unfold bind, returns. destruct (m s); auto. Qed.

Lemma returns_ret {A} (a : A) s (Q : A -> State -> Prop) : Q a s -> returns (ret a s) Q.
Proof. exact (fun q => q). Qed.

Lemma returns_get {A} (f : State -> A) s (Q : A -> State -> Prop) :
  Q (f s) s -> returns (get f s) Q.
Proof. exact (fun q => q). Qed.

Lemma returns_modify f s (Q : unit -> State -> Prop) :
  Q tt (f s) -> returns (modify f s) Q.
Proof. exact (fun q => q). Qed.

Lemma returns_malloc s (Q : Z -> State -> Prop) :
  heap_script s = [] -> Q (heap_next s) (put_heap_next (heap_next s + 1) s) ->
  returns (malloc s) Q.
Proof. intros E HQ. unfold malloc. now rewrite E. Qed.

Lemma returns_load_fref p s x (Q : glk_fileref_struct -> State -> Prop) :
  filerefs s !! p = Some x -> Q x s -> returns (load_fref p s) Q.
Proof. intros E HQ. unfold load_fref. now rewrite E. Qed.

Lemma returns_update_fref p f s x (Q : unit -> State -> Prop) :
  filerefs s !! p = Some x ->
  Q tt (put_filerefs (<[p := f x]> (filerefs s)) s) ->
  returns (update_fref p f s) Q.
Proof. intros E HQ. unfold update_fref, bind, load_fref. now rewrite E. Qed.

Lemma returns_free_fref p s x (Q : unit -> State -> Prop) :
  filerefs s !! p = Some x ->
  Q tt (put_filerefs (delete p (filerefs s)) s) ->
  returns (free_fref p s) Q.
Proof. intros E HQ. unfold free_fref, bind, load_fref. now rewrite E. Qed.

Lemma returns_Ret {A} (o : outcome A) Q :
  returns o Q -> exists a s, o = Ret a s /\ Q a s.
Proof. destruct o; simpl; [eauto | tauto | tauto]. Qed.

(** *** File references created and destroyed, over and over *)

(** [n] times: a file reference is created and destroyed; [p] is the
    address of the first of them. *)
Fixpoint churn (p : Z) (n : nat) : list call :=
  match n with
  | O => []
  | S n' =>
      Call_fileref_create_by_name 0 (Some []) 0
        :: Call_fileref_destroy p :: churn (p + 2) n'
  end.

(** No file reference is live, and no allocation fails. *)
Definition idle (s : State) : Prop :=
  filerefs s = ∅ /\ gli_filereflist s = NULL /\ heap_script s = [] /\
  1 <= heap_next s /\ 0 <= gli_fileref_id_counter s < 2 ^ 32.

Section Churn.
Context `{glk_h}.

Lemma create_returns s (Q : Z -> State -> Prop) :
  idle s ->
  (forall s',
     filerefs s' = {[heap_next s := Build_fileref MAGIC_FILEREF_NUM 0
                       (gli_fileref_id_counter s) [] 0
                       (if decide (Z.land 0 fileusage_TextMode ≠ 0) then 1 else 0)
                       0 0]} ->
     gli_filereflist s' = heap_next s -> heap_script s' = [] ->
     heap_next s' = heap_next s + 2 ->
     gli_fileref_id_counter s' = wrap32 (gli_fileref_id_counter s + 1) ->
     Q (heap_next s) s') ->
  returns (exec (Call_fileref_create_by_name 0 (Some []) 0) s) Q.
Proof.
  intros (Hempty & Hlist & Hscript & Hnext & _) HQ.
  cbn [exec glk_fileref_create_by_name cstr]. unfold gli_fileref_new.
  apply returns_bind, returns_malloc; [exact Hscript |].
  rewrite truthy_true by (unfold NULL; lia). cbn [negb].
  apply returns_bind, returns_get.
  apply returns_bind, returns_modify.
  apply returns_bind, returns_modify.
  apply returns_bind, returns_malloc; [exact Hscript |]. state_simpl.
  rewrite truthy_true by (unfold NULL; lia). cbn [negb].
  apply returns_bind, returns_get. state_simpl. rewrite Hlist.
  apply returns_bind.
  eapply returns_update_fref; [state_simpl; apply lookup_insert_eq |].
  rewrite truthy_NULL. cbn [when].
  apply returns_bind, returns_ret.
  apply returns_bind, returns_modify.
  apply returns_ret. apply HQ; state_simpl; try reflexivity; try lia;
    try assumption.
  rewrite insert_insert_eq, Hempty. reflexivity.
Qed.

Lemma destroy_returns s p x (Q : Z -> State -> Prop) :
  p ≠ NULL -> filerefs s = {[p := x]} -> fref_prev x = 0 -> fref_next x = 0 ->
  (forall s',
     filerefs s' = ∅ -> gli_filereflist s' = NULL ->
     heap_script s' = heap_script s -> heap_next s' = heap_next s ->
     gli_fileref_id_counter s' = gli_fileref_id_counter s ->
     Q 0 s') ->
  returns (exec (Call_fileref_destroy p) s) Q.
Proof.
  intros Hp Hone Hprev Hnext HQ.
  cbn [exec]. unfold void, glk_fileref_destroy.
  rewrite truthy_true by exact Hp. cbn [negb].
  apply returns_bind, returns_bind.
  eapply returns_load_fref; [rewrite Hone; apply lookup_singleton_eq |].
  cbv beta. rewrite Hprev, Hnext, (truthy_false 0) by reflexivity. cbn [when].
  apply returns_bind, returns_modify.
  apply returns_bind, returns_ret.
  eapply returns_free_fref;
    [state_simpl; rewrite Hone; apply lookup_singleton_eq |].
  apply returns_ret. apply HQ; state_simpl; try reflexivity.
  rewrite Hone. apply delete_singleton_eq.
Qed.

Lemma returns_run_cons c cs s (Q : State -> Prop) :
  returns (exec c s) (fun _ s1 => returns (run cs s1) (fun _ s2 => Q s2)) ->
  returns (run (c :: cs) s) (fun _ s2 => Q s2).
Proof.
  intros Hc. cbn [run]. apply returns_bind.
  destruct (exec c s) as [v s1 | |]; simpl in *; try tauto.
  apply returns_bind. destruct (run cs s1); simpl in *; tauto.
Qed.

Lemma returns_run_app cs1 cs2 : forall s (Q : State -> Prop),
  returns (run cs1 s) (fun _ s1 => returns (run cs2 s1) (fun _ s2 => Q s2)) ->
  returns (run (cs1 ++ cs2) s) (fun _ s2 => Q s2).
Proof.
  induction cs1 as [| c cs1 IH]; intros s Q Hrun; [exact Hrun |].
  rewrite <- app_comm_cons. apply returns_run_cons.
  cbn [run] in Hrun. unfold bind in Hrun.
  destruct (exec c s) as [v s1 | |]; simpl in *; try tauto.
  apply IH. destruct (run cs1 s1); simpl in *; tauto.
Qed.

Lemma wrap32_again a b : wrap32 (wrap32 a + b) = wrap32 (a + b).
Proof. unfold wrap32. apply Zplus_mod_idemp_l. Qed.

(** The file references come and go; the counter goes on, modulo 2^32. *)
Lemma churn_returns n : forall s,
  idle s ->
  returns (run (churn (heap_next s) n) s)
    (fun _ s' =>
       idle s' /\ heap_next s' = heap_next s + 2 * Z.of_nat n /\
       gli_fileref_id_counter s'
       = wrap32 (gli_fileref_id_counter s + Z.of_nat n)).
Proof.
  induction n as [| n IH]; intros s Hidle.
  - cbn [churn run]. apply returns_ret. split; [exact Hidle |].
    split; [lia |]. rewrite Z.add_0_r. symmetry. apply wrap32_small, Hidle.
  - cbn [churn]. apply returns_run_cons.
    apply create_returns; [exact Hidle |].
    intros s1 Hone Hlist Hscript Hnext Hcnt.
    apply returns_run_cons.
    destruct Hidle as (_ & _ & _ & Hpos & _).
    eapply destroy_returns;
      [unfold NULL; lia | exact Hone | reflexivity | reflexivity |].
    intros s2 Hempty2 Hlist2 Hscript2 Hnext2 Hcnt2.
    assert (idle s2) as Hidle2.
    { unfold idle. rewrite Hcnt2, Hcnt.
      split; [assumption |]. split; [assumption |].
      split; [congruence |]. split; [lia | apply wrap32_range]. }
    replace (heap_next s + 2) with (heap_next s2) by lia.
    specialize (IH s2 Hidle2).
    destruct (run (churn (heap_next s2) n) s2) as [vs s3 | |];
      simpl in *; try tauto.
    destruct IH as (Hidle3 & Hnext3 & Hcnt3).
    split; [exact Hidle3 |]. split; [lia |].
    rewrite Hcnt3, Hcnt2, Hcnt, wrap32_again. f_equal. lia.
Qed.

Lemma reassigned_after n :
  Z.of_nat n = 2 ^ 32 - 1 ->
  exists rs1 s1 rs2 s2,
    run [Call_fileref_create_by_name 0 (Some []) 0] (initial_state [] [] ∅)
      = Ret rs1 s1 /\
    run (Call_fileref_destroy 1
           :: churn 3 n ++ [Call_fileref_create_by_name 0 (Some []) 0]) s1
      = Ret rs2 s2 /\
    ids Fileref s1 !! 1 = Some 1 /\
    ids Fileref s2 !! 1 = None /\
    ids Fileref s1 !! (2 ^ 33 + 1) = None /\
    ids Fileref s2 !! (2 ^ 33 + 1) = Some 1.
Proof.
  intros Hn.
  assert (idle (initial_state [] [] ∅)) as Hidle0
    by (unfold idle; simpl; repeat split; lia).
  pose proof wrap32_range as Hrange.
  assert (returns
    (run [Call_fileref_create_by_name 0 (Some []) 0] (initial_state [] [] ∅))
    (fun _ s1 =>
       (ids Fileref s1 !! 1 = Some 1 /\ ids Fileref s1 !! (2 ^ 33 + 1) = None) /\
       returns
         (run (Call_fileref_destroy 1
                 :: churn 3 n ++ [Call_fileref_create_by_name 0 (Some []) 0]) s1)
         (fun _ s2 =>
            ids Fileref s2 !! 1 = None /\
            ids Fileref s2 !! (2 ^ 33 + 1) = Some 1))) as Hrun.
  { apply (returns_run_cons _ [] _
             (fun s1 => (ids Fileref s1 !! 1 = Some 1 /\ _) /\ _)).
    apply create_returns; [exact Hidle0 |].
    cbn [heap_next gli_fileref_id_counter initial_state].
    intros s1 Hone Hlist Hscript Hnext Hcnt. cbn [run].
    apply returns_ret. split.
    { cbn [ids]. rewrite Hone, map_fmap_singleton.
      split; [apply lookup_singleton_eq |].
      apply lookup_singleton_ne. lia. }
    apply returns_run_cons.
    eapply destroy_returns;
      [unfold NULL; lia | exact Hone | reflexivity | reflexivity |].
    intros s2 Hempty2 Hlist2 Hscript2 Hnext2 Hcnt2.
    assert (idle s2) as Hidle2.
    { unfold idle. rewrite Hcnt2, Hcnt.
      split; [assumption |]. split; [assumption |].
      split; [congruence |]. split; [lia | apply wrap32_range]. }
    apply returns_run_app.
    pose proof (churn_returns n s2 Hidle2) as Hchurn.
    replace (heap_next s2) with 3 in Hchurn by lia.
    destruct (run (churn 3 n) s2) as [vs s3 | |]; simpl in Hchurn; try tauto.
    destruct Hchurn as (Hidle3 & Hnext3 & Hcnt3). cbn [returns].
    apply (returns_run_cons _ [] _
             (fun s4 => ids Fileref s4 !! 1 = None /\ _)).
    apply create_returns; [exact Hidle3 |].
    intros s4 Hone4 _ _ _ _. cbn [run]. apply returns_ret.
    assert (gli_fileref_id_counter s3 = 1) as Hc3.
    { rewrite Hcnt3, Hcnt2, Hcnt, wrap32_again, Hn. reflexivity. }
    cbn [ids]. rewrite Hone4, map_fmap_singleton. cbn [fref_id].
    replace (heap_next s3) with (2 ^ 33 + 1) by lia. rewrite Hc3.
    split; [apply lookup_singleton_ne; lia | apply lookup_singleton_eq]. }
  apply returns_Ret in Hrun as (rs1 & s1 & Hrun1 & [Hs1 Hs1'] & Hrun).
  apply returns_Ret in Hrun as (rs2 & s2 & Hrun2 & Hs2 & Hs2').
  exists rs1, s1, rs2, s2. tauto.
Qed.

End Churn.

(** C4, as stated, does not hold: the counter of identifiers has 32
    bits.  The first file reference of the process has the identifier 1
    and is destroyed; 2^32 file references later, a file reference is
    given the identifier 1 again. *)
Lemma identifier_reassigned :
  exists rs1 s1 rs2 s2,
    run [Call_fileref_create_by_name 0 (Some []) 0] (initial_state [] [] ∅)
      = Ret rs1 s1 /\
    run (Call_fileref_destroy 1
           :: churn 3 (Z.to_nat (2 ^ 32 - 1))
           ++ [Call_fileref_create_by_name 0 (Some []) 0]) s1
      = Ret rs2 s2 /\
    ids Fileref s1 !! 1 = Some 1 /\
    ids Fileref s2 !! 1 = None /\
    ids Fileref s1 !! (2 ^ 33 + 1) = None /\
    ids Fileref s2 !! (2 ^ 33 + 1) = Some 1.
Proof. apply reassigned_after. apply Z2Nat.id. lia. Qed.

(** ** Closing *)

Lemma returns_mono {A} (o : outcome A) (Q Q' : A -> State -> Prop) :
  returns o Q -> (forall a s, Q a s -> Q' a s) -> returns o Q'.
Proof. destruct o; simpl; auto. Qed.

Lemma returns_post {A} (o : outcome A) (Q Q' : A -> State -> Prop) X :
  returns o Q -> post o Q' X -> returns o (fun a s => Q a s /\ Q' a s).
Proof. destruct o; simpl; auto. Qed.

Lemma returns_load_win p s w (Q : glk_window_struct -> State -> Prop) :
  windows s !! p = Some w -> Q w s -> returns (load_win p s) Q.
Proof. intros E HQ. unfold load_win. now rewrite E. Qed.

Lemma returns_update_win p f s w (Q : unit -> State -> Prop) :
  windows s !! p = Some w ->
  Q tt (put_windows (<[p := f w]> (windows s)) s) ->
  returns (update_win p f s) Q.
Proof. intros E HQ. unfold update_win, bind, load_win. now rewrite E. Qed.

Lemma returns_free_win p s w (Q : unit -> State -> Prop) :
  windows s !! p = Some w ->
  Q tt (put_windows (delete p (windows s)) s) ->
  returns (free_win p s) Q.
Proof. intros E HQ. unfold free_win, bind, load_win. now rewrite E. Qed.

Lemma returns_load_str p s x (Q : glk_stream_struct -> State -> Prop) :
  streams s !! p = Some x -> Q x s -> returns (load_str p s) Q.
Proof. intros E HQ. unfold load_str. now rewrite E. Qed.

Lemma returns_update_str p f s x (Q : unit -> State -> Prop) :
  streams s !! p = Some x ->
  Q tt (put_streams (<[p := f x]> (streams s)) s) ->
  returns (update_str p f s) Q.
Proof. intros E HQ. unfold update_str, bind, load_str. now rewrite E. Qed.

Lemma returns_free_str p s x (Q : unit -> State -> Prop) :
  streams s !! p = Some x ->
  Q tt (put_streams (delete p (streams s)) s) ->
  returns (free_str p s) Q.
Proof. intros E HQ. unfold free_str, bind, load_str. now rewrite E. Qed.

Ltac lookups :=
  repeat first
    [ rewrite lookup_delete_eq
    | rewrite lookup_insert_eq
    | rewrite lookup_delete_ne by congruence
    | rewrite lookup_insert_ne by congruence ].

Section Unlink.
Context `{glk_h}.

(** The stream [str] is taken out of the list of streams and freed. *)
Lemma stream_unlink_returns s l str x (Q : unit -> State -> Prop) :
  dll (streams s) (gli_streamlist s) l -> streams s !! str = Some x ->
  (forall h' l1 l2,
     l = l1 ++ str :: l2 ->
     dll h' (if decide (str_prev x = NULL) then str_next x else gli_streamlist s)
       (l1 ++ l2) ->
     Q tt (put_streams h'
             (put_gli_streamlist
                (if decide (str_prev x = NULL) then str_next x
                 else gli_streamlist s) s))) ->
  returns
    (((if truthy (str_prev x)
       then update_str (str_prev x) (set_str_next (str_next x))
       else modify (put_gli_streamlist (str_next x))) ;;
      when (truthy (str_next x))
        (update_str (str_next x) (set_str_prev (str_prev x))) ;;
      free_str str) s) Q.
Proof.
  intros Hdll Hx HQ.
  destruct (dll_neighbours _ _ _ _ _ Hdll Hx) as (Hhead & Hprev & Hnext).
  cbn [link_prev link_next stream_linked] in *.
  assert (forall h',
    h' !! str = None ->
    (forall q, is_Some (h' !! q) -> is_Some (streams s !! q)) ->
    (forall q, q ≠ str -> q ≠ str_prev x -> q ≠ str_next x ->
       h' !! q = streams s !! q) ->
    (forall y, str_prev x ≠ NULL -> streams s !! str_prev x = Some y ->
       exists y', h' !! str_prev x = Some y' /\
                  str_prev y' = str_prev y /\ str_next y' = str_next x) ->
    (forall y, str_next x ≠ NULL -> streams s !! str_next x = Some y ->
       exists y', h' !! str_next x = Some y' /\
                  str_prev y' = str_prev x /\ str_next y' = str_next y) ->
    Q tt (put_streams h'
            (put_gli_streamlist
               (if decide (str_prev x = NULL) then str_next x
                else gli_streamlist s) s))) as Hend.
  { intros h' H1 H2 H3 H4 H5.
    destruct (dll_unlink _ _ _ _ _ h' _ Hdll Hx H1 H2 H3 H4 H5 eq_refl)
      as (l1 & l2 & Hl & Hdll').
    now apply (HQ h' l1 l2). }
  clear HQ.
  destruct (decide (str_prev x = NULL)) as [Hp | Hp];
    destruct (decide (str_next x = NULL)) as [Hn | Hn].
  - rewrite (truthy_false _ Hp), (truthy_false _ Hn). cbn [when].
    apply returns_bind, returns_modify. apply returns_bind, returns_ret.
    eapply returns_free_str; [exact Hx |]. state_simpl.
    apply Hend;
      [ now lookups
      | intros q Hq; destruct (decide (q = str)) as [-> | Hne]; [eauto |];
        revert Hq; now lookups
      | intros q ? ? ?; now lookups
      | intros y0 Hy0; contradiction
      | intros z0 Hz0; contradiction ].
  - destruct (Hnext Hn) as ([z Hz] & Hzs).
    rewrite (truthy_false _ Hp), (truthy_true _ Hn). cbn [when].
    apply returns_bind, returns_modify.
    apply returns_bind. eapply returns_update_str; [exact Hz |].
    eapply returns_free_str; [state_simpl; lookups; exact Hx |]. state_simpl.
    apply Hend;
      [ now lookups
      | intros q Hq; destruct (decide (q = str)) as [-> | Hne]; [eauto |];
        destruct (decide (q = str_next x)) as [-> | Hne']; [eauto |];
        revert Hq; now lookups
      | intros q ? ? ?; now lookups
      | intros y0 Hy0; contradiction
      | intros z0 _ Hz0; exists (set_str_prev (str_prev x) z0);
        assert (z0 = z) as -> by congruence; lookups; now repeat split ].
  - destruct (Hprev Hp) as ([y Hy] & Hys & Hyn).
    rewrite (truthy_true _ Hp), (truthy_false _ Hn). cbn [when].
    apply returns_bind. eapply returns_update_str; [exact Hy |].
    apply returns_bind, returns_ret.
    eapply returns_free_str; [state_simpl; lookups; exact Hx |]. state_simpl.
    apply Hend;
      [ now lookups
      | intros q Hq; destruct (decide (q = str)) as [-> | Hne]; [eauto |];
        destruct (decide (q = str_prev x)) as [-> | Hne']; [eauto |];
        revert Hq; now lookups
      | intros q ? ? ?; now lookups
      | intros y0 _ Hy0; exists (set_str_next (str_next x) y0);
        assert (y0 = y) as -> by congruence; lookups; now repeat split
      | intros z0 Hz0; contradiction ].
  - destruct (Hprev Hp) as ([y Hy] & Hys & Hyn).
    destruct (Hnext Hn) as ([z Hz] & Hzs).
    rewrite (truthy_true _ Hp), (truthy_true _ Hn). cbn [when].
    apply returns_bind. eapply returns_update_str; [exact Hy |].
    apply returns_bind.
    eapply returns_update_str; [state_simpl; lookups; exact Hz |].
    eapply returns_free_str; [state_simpl; lookups; exact Hx |]. state_simpl.
    apply Hend;
      [ now lookups
      | intros q Hq; destruct (decide (q = str)) as [-> | Hne]; [eauto |];
        destruct (decide (q = str_next x)) as [-> | Hne']; [eauto |];
        destruct (decide (q = str_prev x)) as [-> | Hne'']; [eauto |];
        revert Hq; now lookups
      | intros q ? ? ?; now lookups
      | intros y0 _ Hy0; exists (set_str_next (str_next x) y0);
        assert (y0 = y) as -> by congruence; lookups; now repeat split
      | intros z0 _ Hz0; exists (set_str_prev (str_prev x) z0);
        assert (z0 = z) as -> by congruence; lookups; now repeat split ].
Qed.

(** The window [win] is taken out of the list of windows and freed. *)
Lemma window_unlink_returns s l win x (Q : unit -> State -> Prop) :
  dll (windows s) (gli_windowlist s) l -> windows s !! win = Some x ->
  (forall s' l1 l2,
     l = l1 ++ win :: l2 ->
     dll (windows s') (gli_windowlist s') (l1 ++ l2) ->
     streams s' = streams s -> gli_streamlist s' = gli_streamlist s ->
     stdout s' = stdout s ->
     Q tt s') ->
  returns
    (((if truthy (win_prev x)
       then update_win (win_prev x) (set_win_next (win_next x))
       else modify (put_gli_windowlist (win_next x))) ;;
      when (truthy (win_next x))
        (update_win (win_next x) (set_win_prev (win_prev x))) ;;
      root <- get gli_rootwin ;;
      when (bool_decide (root = win)) (modify (put_gli_rootwin NULL)) ;;
      free_win win) s) Q.
Proof.
  intros Hdll Hx HQ.
  destruct (dll_neighbours _ _ _ _ _ Hdll Hx) as (Hhead & Hprev & Hnext).
  cbn [link_prev link_next window_linked] in *.
  assert (forall h' s',
    windows s' = h' ->
    gli_windowlist s'
    = (if decide (win_prev x = NULL) then win_next x else gli_windowlist s) ->
    streams s' = streams s -> gli_streamlist s' = gli_streamlist s ->
    stdout s' = stdout s ->
    h' !! win = None ->
    (forall q, is_Some (h' !! q) -> is_Some (windows s !! q)) ->
    (forall q, q ≠ win -> q ≠ win_prev x -> q ≠ win_next x ->
       h' !! q = windows s !! q) ->
    (forall y, win_prev x ≠ NULL -> windows s !! win_prev x = Some y ->
       exists y', h' !! win_prev x = Some y' /\
                  win_prev y' = win_prev y /\ win_next y' = win_next x) ->
    (forall y, win_next x ≠ NULL -> windows s !! win_next x = Some y ->
       exists y', h' !! win_next x = Some y' /\
                  win_prev y' = win_prev x /\ win_next y' = win_next y) ->
    Q tt s') as Hend.
  { intros h' s' <- Hhead' ? ? ? H1 H2 H3 H4 H5.
    destruct (dll_unlink _ _ _ _ _ (windows s') (gli_windowlist s')
                Hdll Hx H1 H2 H3 H4 H5 Hhead')
      as (l1 & l2 & Hl & Hdll').
    now apply (HQ s' l1 l2). }
  clear HQ.
  destruct (decide (win_prev x = NULL)) as [Hp | Hp];
    destruct (decide (win_next x = NULL)) as [Hn | Hn].
  - rewrite (truthy_false _ Hp), (truthy_false _ Hn). cbn [when].
    apply returns_bind, returns_modify. apply returns_bind, returns_ret.
    apply returns_bind, returns_get.
    destruct (bool_decide (gli_rootwin _ = win)); cbn [when];
      (apply returns_bind; [apply returns_modify || apply returns_ret]);
      (eapply returns_free_win; [exact Hx |]); state_simpl;
      (eapply Hend;
      [ state_simpl; reflexivity
      | state_simpl; rewrite ?decide_True, ?decide_False by assumption;
        reflexivity
      | reflexivity | reflexivity | reflexivity
      | now lookups
      | intros q Hq; destruct (decide (q = win)) as [-> | Hne]; [eauto |];
        revert Hq; now lookups
      | intros q ? ? ?; now lookups
      | intros y0 Hy0; contradiction
      | intros z0 Hz0; contradiction ]).
  - destruct (Hnext Hn) as ([z Hz] & Hzs).
    rewrite (truthy_false _ Hp), (truthy_true _ Hn). cbn [when].
    apply returns_bind, returns_modify.
    apply returns_bind. eapply returns_update_win; [exact Hz |].
    apply returns_bind, returns_get.
    destruct (bool_decide (gli_rootwin _ = win)); cbn [when];
      (apply returns_bind; [apply returns_modify || apply returns_ret]);
      (eapply returns_free_win; [state_simpl; lookups; exact Hx |]); state_simpl;
      (eapply Hend;
      [ state_simpl; reflexivity
      | state_simpl; rewrite ?decide_True, ?decide_False by assumption;
        reflexivity
      | reflexivity | reflexivity | reflexivity
      | now lookups
      | intros q Hq; destruct (decide (q = win)) as [-> | Hne]; [eauto |];
        destruct (decide (q = win_next x)) as [-> | Hne']; [eauto |];
        revert Hq; now lookups
      | intros q ? ? ?; now lookups
      | intros y0 Hy0; contradiction
      | intros z0 _ Hz0; exists (set_win_prev (win_prev x) z0);
        assert (z0 = z) as -> by congruence; lookups; now repeat split ]).
  - destruct (Hprev Hp) as ([y Hy] & Hys & Hyn).
    rewrite (truthy_true _ Hp), (truthy_false _ Hn). cbn [when].
    apply returns_bind. eapply returns_update_win; [exact Hy |].
    apply returns_bind, returns_ret.
    apply returns_bind, returns_get.
    destruct (bool_decide (gli_rootwin _ = win)); cbn [when];
      (apply returns_bind; [apply returns_modify || apply returns_ret]);
      (eapply returns_free_win; [state_simpl; lookups; exact Hx |]); state_simpl;
      (eapply Hend;
      [ state_simpl; reflexivity
      | state_simpl; rewrite ?decide_True, ?decide_False by assumption;
        reflexivity
      | reflexivity | reflexivity | reflexivity
      | now lookups
      | intros q Hq; destruct (decide (q = win)) as [-> | Hne]; [eauto |];
        destruct (decide (q = win_prev x)) as [-> | Hne']; [eauto |];
        revert Hq; now lookups
      | intros q ? ? ?; now lookups
      | intros y0 _ Hy0; exists (set_win_next (win_next x) y0);
        assert (y0 = y) as -> by congruence; lookups; now repeat split
      | intros z0 Hz0; contradiction ]).
  - destruct (Hprev Hp) as ([y Hy] & Hys & Hyn).
    destruct (Hnext Hn) as ([z Hz] & Hzs).
    rewrite (truthy_true _ Hp), (truthy_true _ Hn). cbn [when].
    apply returns_bind. eapply returns_update_win; [exact Hy |].
    apply returns_bind.
    eapply returns_update_win; [state_simpl; lookups; exact Hz |].
    apply returns_bind, returns_get.
    destruct (bool_decide (gli_rootwin _ = win)); cbn [when];
      (apply returns_bind; [apply returns_modify || apply returns_ret]);
      (eapply returns_free_win; [state_simpl; lookups; exact Hx |]); state_simpl;
      (eapply Hend;
      [ state_simpl; reflexivity
      | state_simpl; rewrite ?decide_True, ?decide_False by assumption;
        reflexivity
      | reflexivity | reflexivity | reflexivity
      | now lookups
      | intros q Hq; destruct (decide (q = win)) as [-> | Hne]; [eauto |];
        destruct (decide (q = win_next x)) as [-> | Hne']; [eauto |];
        destruct (decide (q = win_prev x)) as [-> | Hne'']; [eauto |];
        revert Hq; now lookups
      | intros q ? ? ?; now lookups
      | intros y0 _ Hy0; exists (set_win_next (win_next x) y0);
        assert (y0 = y) as -> by congruence; lookups; now repeat split
      | intros z0 _ Hz0; exists (set_win_prev (win_prev x) z0);
        assert (z0 = z) as -> by congruence; lookups; now repeat split ]).
Qed.

(** A stream without a file is closed. *)
Lemma glk_stream_close_returns s l str x (Q : unit -> State -> Prop) :
  str ≠ NULL -> dll (streams s) (gli_streamlist s) l ->
  streams s !! str = Some x -> str_file x = NULL ->
  (forall s' l1 l2,
     l = l1 ++ str :: l2 ->
     dll (streams s') (gli_streamlist s') (l1 ++ l2) ->
     windows s' = windows s -> gli_windowlist s' = gli_windowlist s ->
     gli_rootwin s' = gli_rootwin s -> stdout s' = stdout s ->
     Q tt s') ->
  returns (glk_stream_close str NULL s) Q.
Proof.
  intros Hstr Hdll Hx Hfile HQ. unfold glk_stream_close.
  rewrite (truthy_true _ Hstr). cbn [negb].
  apply returns_bind. eapply returns_load_str; [exact Hx |].
  rewrite truthy_NULL, (truthy_false _ Hfile). cbn [when].
  apply returns_bind, returns_ret. apply returns_bind, returns_ret.
  apply returns_bind, returns_get.
  destruct (bool_decide (gli_currentstr s = str)); cbn [when];
    (apply returns_bind; [apply returns_modify || apply returns_ret]);
    (eapply stream_unlink_returns; [exact Hdll | exact Hx |]);
    intros h' l1 l2 Hl Hdll'; apply (HQ _ l1 l2 Hl); try reflexivity;
    exact Hdll'.
Qed.

(** A window with a stream is closed: the stream and the window leave
    their lists. *)
Lemma glk_window_close_returns s lw ls win w x result (Q : unit -> State -> Prop) :
  win ≠ NULL -> windows s !! win = Some w ->
  dll (windows s) (gli_windowlist s) lw ->
  win_str w ≠ NULL -> streams s !! win_str w = Some x -> str_file x = NULL ->
  dll (streams s) (gli_streamlist s) ls ->
  (forall s' lw1 lw2 ls1 ls2,
     lw = lw1 ++ win :: lw2 -> ls = ls1 ++ win_str w :: ls2 ->
     dll (windows s') (gli_windowlist s') (lw1 ++ lw2) ->
     dll (streams s') (gli_streamlist s') (ls1 ++ ls2) ->
     stdout s' = stdout s ->
     Q tt s') ->
  returns (glk_window_close win result s) Q.
Proof.
  intros Hwin Hw Hdllw Hstr Hx Hfile Hdlls HQ. unfold glk_window_close.
  rewrite (truthy_true _ Hwin). cbn [negb].
  apply returns_bind. eapply returns_load_win; [exact Hw |].
  rewrite (truthy_true _ Hstr).
  assert (forall s1,
    windows s1 = windows s -> gli_windowlist s1 = gli_windowlist s ->
    streams s1 = streams s -> gli_streamlist s1 = gli_streamlist s ->
    stdout s1 = stdout s ->
    returns
      (((update_str (win_str w) (set_str_win NULL) ;;
         glk_stream_close (win_str w) NULL ;;
         update_win win (set_win_str NULL)) ;;
        (if truthy (win_prev w)
         then update_win (win_prev w) (set_win_next (win_next w))
         else modify (put_gli_windowlist (win_next w))) ;;
        when (truthy (win_next w))
          (update_win (win_next w) (set_win_prev (win_prev w))) ;;
        root <- get gli_rootwin ;;
        when (bool_decide (root = win)) (modify (put_gli_rootwin NULL)) ;;
        free_win win) s1) Q) as Hrest.
  { intros s1 Ew Ewl Es Esl Eout.
    apply returns_bind, returns_bind.
    eapply returns_update_str; [rewrite Es; exact Hx |].
    apply returns_bind.
    eapply (glk_stream_close_returns _ ls _ (set_str_win NULL x));
      [ exact Hstr
      | state_simpl; rewrite Es, Esl; eapply dll_update; eauto
      | state_simpl; now lookups
      | exact Hfile | ].
    state_simpl. intros s2 ls1 ls2 Hls Hdlls2 Ew2 Ewl2 Eroot2 Eout2.
    eapply returns_update_win; [rewrite Ew2, Ew; exact Hw |].
    eapply (window_unlink_returns _ lw _ (set_win_str NULL w));
      [ state_simpl; rewrite Ew2, Ewl2, Ew, Ewl; eapply dll_update; eauto
      | state_simpl; now lookups | ].
    state_simpl. intros s3 lw1 lw2 Hlw Hdllw3 Es3 Esl3 Eout3.
    apply (HQ s3 lw1 lw2 ls1 ls2); try assumption.
    - now rewrite Es3, Esl3.
    - congruence. }
  destruct (truthy result).
  - apply returns_bind, returns_bind.
    eapply returns_load_str; [exact Hx |].
    apply returns_modify. now apply Hrest.
  - apply returns_bind, returns_ret. now apply Hrest.
Qed.

End Unlink.

(** ** The stream of a window *)

(** The streams that a walk with [glk_stream_iterate] goes through, from
    the stream after [cur] on. *)
Fixpoint stream_walk `{glk_h} (fuel : nat) (cur : Z) : M (list Z) :=
  match fuel with
  | O => ret []
  | S fuel' =>
      next <- glk_stream_iterate cur NULL ;;
      if truthy next then rest <- stream_walk fuel' next ;; ret (next :: rest)
      else ret []
  end.

(** The windows and their list stay as they are. *)
Definition same_windows (s s' : State) : Prop :=
  windows s' = windows s /\ gli_windowlist s' = gli_windowlist s /\
  gli_rootwin s' = gli_rootwin s.

#[global] Instance same_windows_keeps : Keeps same_windows anyhow.
Proof.
  split; unfold same_windows, anyhow; [intros s | intros s1 s2 s3 | trivial].
  - repeat split.
  - intros (-> & -> & ->) (-> & -> & ->). repeat split.
Qed.

Ltac same_windows_side := intros; unfold same_windows; state_simpl; repeat split.

Section Cascade.
Context `{glk_h}.

(** Closing a stream leaves the windows alone. *)
Lemma glk_stream_close_same_windows str result :
  keeping same_windows anyhow (glk_stream_close str result).
Proof.
  unfold glk_stream_close, update_str, new_str, free_str, fclose, store_result.
  repeat (keeping_step same_windows_side).
Qed.

Lemma stream_walk_dlseg s : forall l prev p cur,
  dlseg (streams s) prev p l NULL ->
  (cur = NULL /\ p = gli_streamlist s
   \/ exists c, cur ≠ NULL /\ streams s !! cur = Some c /\ str_next c = p) ->
  stream_walk (S (length l)) cur s = Ret l s.
Proof.
  induction l as [| q l IH]; intros prev p cur Hl Hcur.
  - simpl in Hl. subst p. cbn [length stream_walk].
    unfold glk_stream_iterate.
    destruct Hcur as [[-> Hhead] | (c & Hne & Hc & Hnext)].
    + rewrite truthy_NULL. cbn [negb]. rewrite bind_assoc, bind_get.
      rewrite <- Hhead, truthy_NULL. reflexivity.
    + rewrite (truthy_true _ Hne). cbn [negb].
      rewrite bind_assoc, bind_assoc.
      rewrite (bind_Ret _ _ _ _ _ (load_str_Some _ _ _ Hc)), bind_ret.
      rewrite Hnext, truthy_NULL. reflexivity.
  - destruct Hl as (-> & Hq & x & Hx & Hprev & Hl).
    change (stream_walk (S (length (q :: l))) cur s)
      with ((next <- glk_stream_iterate cur NULL ;;
             if truthy next
             then rest <- stream_walk (S (length l)) next ;; ret (next :: rest)
             else ret []) s).
    assert (glk_stream_iterate cur NULL s = Ret q s) as Hit.
    { unfold glk_stream_iterate.
      destruct Hcur as [[-> Hhead] | (c & Hne & Hc & Hnext)].
      - rewrite truthy_NULL. cbn [negb]. rewrite bind_get.
        rewrite <- Hhead, andb_false_r. reflexivity.
      - rewrite (truthy_true _ Hne). cbn [negb]. rewrite bind_assoc.
        rewrite (bind_Ret _ _ _ _ _ (load_str_Some _ _ _ Hc)), bind_ret.
        rewrite Hnext, truthy_NULL, andb_false_r. reflexivity. }
    rewrite (bind_Ret _ _ _ _ _ Hit), (truthy_true _ Hq).
    rewrite (bind_Ret _ _ _ _ _ (IH q (link_next x) q Hl
               ltac:(right; exists x; auto))).
    reflexivity.
Qed.

(** A walk through the streams meets the streams of the list, in order. *)
Lemma stream_walk_dll s l :
  dll (streams s) (gli_streamlist s) l ->
  stream_walk (S (length l)) NULL s = Ret l s.
Proof.
  intros (Hl & _). apply (stream_walk_dlseg s l NULL (gli_streamlist s)); auto.
Qed.

Lemma ordered_gone k p s s' : ordered k s -> gone k p s s' -> ordered k s'.
Proof.
  intros ([Hnext Hfresh] & Hc & Hbelow & Hinj) (Hp & Hids & Hcnt & Hheap).
  unfold ordered, fresh. rewrite Hids, Hcnt.
  split; [split; [lia |] |]; [| split; [assumption |]; split].
  - intros q Hq. rewrite lookup_delete_is_Some in Hq.
    destruct Hq as [_ Hq]. specialize (Hfresh q Hq). lia.
  - intros q i Hq. apply lookup_delete_Some in Hq as [_ Hq]. eauto.
  - intros q1 q2 i H1 H2.
    apply lookup_delete_Some in H1 as [_ H1].
    apply lookup_delete_Some in H2 as [_ H2]. eauto.
Qed.

(** C5, amended.  Closing a window that has a stream (a window stream
    has no file) closes the stream with it, once: the call returns, the
    window and the stream are live no more, the streams are one fewer,
    a walk through the streams meets the other streams and none with the
    identifier of the closed stream, and no stream of a later state has
    this identifier, as long as the counter of identifiers does not wrap
    around.  Closing a stream leaves the windows as they are.  Closing
    the null window does nothing.  (Nothing is said of a second close of
    the same window: the handle is dangling then.) *)
Theorem window_close_cascade (s : State) (lw ls : list Z) (win result : Z)
    (w : glk_window_struct) (x : glk_stream_struct) :
  win ≠ NULL -> windows s !! win = Some w ->
  dll (windows s) (gli_windowlist s) lw ->
  win_str w ≠ NULL -> streams s !! win_str w = Some x -> str_file x = NULL ->
  dll (streams s) (gli_streamlist s) ls ->
  ordered Stream s ->
  (exists s' ls1 ls2,
     glk_window_close win result s = Ret tt s' /\
     windows s' !! win = None /\ streams s' !! win_str w = None /\
     live Stream s' = live Stream s - 1 /\
     ls = ls1 ++ win_str w :: ls2 /\
     stream_walk (length ls) NULL s' = Ret (ls1 ++ ls2) s' /\
     (forall q, q ∈ ls1 ++ ls2 ->
        exists y, streams s' !! q = Some y /\ str_id y ≠ str_id x) /\
     (forall cs rs s2,
        run cs s' = Ret rs s2 ->
        id_counter Stream s' + attempts Stream cs < 2 ^ 32 ->
        forall q y, streams s2 !! q = Some y -> str_id y ≠ str_id x)) /\
  (forall s0 str res s',
     glk_stream_close str res s0 = Ret tt s' ->
     windows s' = windows s0 /\ gli_windowlist s' = gli_windowlist s0) /\
  (forall s0 res, glk_window_close NULL res s0 = Ret tt s0).
Proof.
  intros Hwin Hw Hdllw Hstr Hx Hfile Hdlls Hord.
  split; [| split].
  - pose proof (glk_window_close_returns s lw ls win w x result
      (fun _ s' => exists ls1 ls2,
         ls = ls1 ++ win_str w :: ls2 /\
         dll (streams s') (gli_streamlist s') (ls1 ++ ls2))
      Hwin Hw Hdllw Hstr Hx Hfile Hdlls) as Hret.
    cbv beta in Hret.
    specialize (Hret ltac:(intros s' lw1 lw2 ls1 ls2 ? ? ? ? ?; eauto)).
    pose proof (returns_post _ _ _ _ Hret
                  (glk_window_close_effect win result s Hwin)) as Hret1.
    pose proof (returns_post _ _ _ _ Hret1
                  (glk_window_close_stream win result s Hwin)) as Hret2.
    apply returns_Ret in Hret2
      as ([] & s' & Hrun & [(ls1 & ls2 & Hls & Hdll') Hgw] & w' & Hw' & Hgs).
    assert (w' = w) as -> by congruence.
    rewrite decide_False in Hgs by exact Hstr.
    destruct Hgw as (_ & Hidw & _). destruct Hgs as (Hlive & Hids & Hcnt & Hheap).
    pose proof (ordered_gone _ _ _ _ Hord
                  (conj Hlive (conj Hids (conj Hcnt Hheap)))) as Hord'.
    destruct Hord as ([_ Hfresh] & _ & Hbelow & Hinj).
    assert (ids Stream s !! win_str w = Some (str_id x)) as Hidx
      by (cbn [ids]; now rewrite lookup_fmap, Hx).
    assert (forall q y, streams s' !! q = Some y ->
              q ≠ win_str w /\ ids Stream s !! q = Some (str_id y)) as Hold.
    { intros q y Hq.
      assert (ids Stream s' !! q = Some (str_id y)) as Hq'
        by (cbn [ids]; now rewrite lookup_fmap, Hq).
      rewrite Hids in Hq'. now apply lookup_delete_Some in Hq'. }
    exists s', ls1, ls2. split; [exact Hrun |].
    split; [| split; [| split; [| split; [exact Hls |]]]].
    + assert (ids Window s' !! win = None) as Hnone
        by (rewrite Hidw; apply lookup_delete_eq).
      cbn [ids] in Hnone. rewrite lookup_fmap in Hnone.
      now destruct (windows s' !! win).
    + assert (ids Stream s' !! win_str w = None) as Hnone
        by (rewrite Hids; apply lookup_delete_eq).
      cbn [ids] in Hnone. rewrite lookup_fmap in Hnone.
      now destruct (streams s' !! win_str w).
    + unfold live. rewrite Hids. now apply size_delete_live.
    + split; [| split].
      * rewrite Hls, length_app. cbn [length].
        replace (length ls1 + S (length ls2))%nat
          with (S (length (ls1 ++ ls2))) by (rewrite length_app; lia).
        now apply stream_walk_dll.
      * intros q Hq. destruct (dll_lookup _ _ _ _ Hdll' Hq) as [y Hy].
        exists y. split; [exact Hy |]. intros Hid.
        destruct (Hold q y Hy) as [Hne Hqs]. rewrite Hid in Hqs.
        apply Hne. eapply Hinj; eassumption.
      * intros cs rs s2 Hrun2 Hroom q y Hq Hid.
        destruct (run_ordered Stream cs _ _ _ Hord' Hroom Hrun2)
          as (_ & (_ & _ & Hlater) & _).
        assert (ids Stream s2 !! q = Some (str_id y)) as Hq2
          by (cbn [ids]; now rewrite lookup_fmap, Hq).
        destruct (Hlater q _ Hq2) as [Hq' | [_ Hnew]].
        -- rewrite Hids in Hq'. apply lookup_delete_Some in Hq' as [Hne Hqs].
           rewrite Hid in Hqs. apply Hne. eapply Hinj; eassumption.
        -- apply Hbelow in Hidx. rewrite Hcnt in Hnew. lia.
  - intros s0 str res s' Hrun.
    pose proof (post_Ret _ _ _ _ _ _ Hrun
                  (glk_stream_close_same_windows str res s0)) as Hsame.
    cbv beta in Hsame. destruct Hsame as (? & ? & _). now split.
  - intros s0 res. reflexivity.
Qed.

End Cascade.

(** ** One frame for a call *)

Lemma returns_malloc_any s (Q : Z -> State -> Prop) :
  (forall script, Q NULL (put_heap_next (heap_next s) (put_heap_script script s))) ->
  (forall script,
     Q (heap_next s) (put_heap_next (heap_next s + 1) (put_heap_script script s))) ->
  returns (malloc s) Q.
Proof.
  intros Hfail Hok. unfold malloc.
  destruct (heap_script s) as [| [] rest] eqn:E; simpl.
  - specialize (Hok []). destruct s; simpl in *. now subst.
  - apply Hok.
  - specialize (Hfail rest). now destruct s.
Qed.

Ltac rlookup := state_simpl; lookups; first [reflexivity | eassumption].

Ltac rstep :=
  lazymatch goal with
  | |- returns (bind _ _ _) _ => apply returns_bind
  | |- returns (ret _ _) _ => apply returns_ret
  | |- returns (get _ _) _ => apply returns_get
  | |- returns (modify _ _) _ => apply returns_modify
  | |- returns (malloc _) _ => apply returns_malloc_any; intros ?
  | |- returns (new_win _ _ _) _ => apply returns_modify
  | |- returns (new_str _ _ _) _ => apply returns_modify
  | |- returns (load_win _ _) _ => eapply returns_load_win; [rlookup |]
  | |- returns (update_win _ _ _) _ => eapply returns_update_win; [rlookup |]
  | |- returns (load_str _ _) _ => eapply returns_load_str; [rlookup |]
  | |- returns (update_str _ _ _) _ => eapply returns_update_str; [rlookup |]
  end; cbv beta; state_simpl.

(** [str] is the stream of a window with the identifier [id]. *)
Definition window_stream (s : State) (str id : Z) : Prop :=
  str ≠ NULL /\
  exists x w,
    streams s !! str = Some x /\ str_writable x ≠ 0 /\ str_type x = 0 /\
    str_win x ≠ NULL /\ windows s !! str_win x = Some w /\ win_id w = id.

Section Frames.
Context `{glk_h}.

Lemma returns_emit {B} text (k : unit -> M B) s (Q : B -> State -> Prop) :
  text ≠ [] -> Z.of_nat (length text) < 65536 -> plain text ->
  returns (k tt (emitted text s)) Q ->
  returns
    (bind json_reset
       (fun _ => bind (json_append text) (fun _ => bind json_flush k)) s) Q.
Proof.
  intros Hne Hlen Hp Hk.
  rewrite bind_json_reset, bind_json_append by (simpl; lia).
  rewrite bind_json_flush by assumption.
  simpl app. now rewrite plain_cstr.
Qed.

(** A stream is made and put at the head of the list of streams. *)
Lemma gli_stream_new_returns t r w rock s ls (Q : Z -> State -> Prop) :
  dll (streams s) (gli_streamlist s) ls -> fresh Stream s ->
  (forall s',
     windows s' = windows s -> gli_windowlist s' = gli_windowlist s ->
     gli_rootwin s' = gli_rootwin s -> stdout s' = stdout s ->
     gli_window_id_counter s' = gli_window_id_counter s ->
     streams s' = streams s -> gli_streamlist s' = gli_streamlist s ->
     heap_next s <= heap_next s' ->
     Q NULL s') ->
  (forall s' x,
     windows s' = windows s -> gli_windowlist s' = gli_windowlist s ->
     gli_rootwin s' = gli_rootwin s -> stdout s' = stdout s ->
     gli_window_id_counter s' = gli_window_id_counter s ->
     heap_next s' = heap_next s + 1 ->
     streams s' !! heap_next s = Some x ->
     str_id x = gli_stream_id_counter s -> str_type x = t ->
     str_readable x = r -> str_writable x = w -> str_file x = NULL ->
     str_win x = NULL ->
     dll (streams s') (gli_streamlist s') (heap_next s :: ls) ->
     Q (heap_next s) s') ->
  returns (gli_stream_new t r w rock s) Q.
Proof.
  intros Hdll [Hnext Hfresh] Hfail Hok.
  assert (streams s !! heap_next s = None) as Hnone.
  { apply eq_None_not_Some. intros [x Hx].
    specialize (Hfresh (heap_next s)). cbn [ids] in Hfresh.
    rewrite lookup_fmap, Hx in Hfresh. specialize (Hfresh ltac:(eauto)). lia. }
  assert (heap_next s ≠ NULL) as Hp by (unfold NULL; lia).
  unfold gli_stream_new. rstep. rstep.
  - rewrite truthy_NULL. cbn [negb]. rstep. apply Hfail; state_simpl; auto; lia.
  - rewrite (truthy_true _ Hp). cbn [negb]. do 9 rstep.
    destruct (decide (gli_streamlist s = NULL)) as [E | E].
    + rewrite (truthy_false _ E). cbn [when]. do 4 rstep.
      eapply Hok; state_simpl; try (now lookups); try reflexivity; try lia.
      match goal with
      | |- context [<[heap_next s := ?v]> (<[heap_next s := _]> _)] =>
          eapply (dll_push _ _ _ _ v); try eassumption; try reflexivity
      end.
      * now lookups.
      * intros q Hq _. now lookups.
      * intros y Hy. contradiction.
      * intros _. lookups. reflexivity.
    + destruct (dll_head_live _ _ _ Hdll E) as (y & Hy & _).
      assert (gli_streamlist s ≠ heap_next s) as Hne by congruence.
      rewrite (truthy_true _ E). cbn [when]. do 5 rstep.
      eapply Hok; state_simpl; try (now lookups); try reflexivity; try lia.
      match goal with
      | |- context [<[heap_next s := ?v]> (<[heap_next s := _]> _)] =>
          eapply (dll_push _ _ _ _ v); try eassumption; try reflexivity
      end.
      * now lookups.
      * intros q Hq Hq'. now lookups.
      * intros y0 _ Hy0. assert (y0 = y) as -> by congruence.
        eexists. lookups. split; [reflexivity |]. now split.
      * intros Hnull. contradiction.
Qed.

Lemma glk_window_open_returns split method size wintype rock s lw ls :
  dll (windows s) (gli_windowlist s) lw -> dll (streams s) (gli_streamlist s) ls ->
  fresh Window s -> fresh Stream s ->
  returns (glk_window_open split method size wintype rock s)
    (fun r s' =>
       (r = NULL /\ stdout s' = stdout s) \/
       (r ≠ NULL /\
        stdout s' = stdout s ++ [frame_create (gli_window_id_counter s) wintype])).
Proof.
  intros Hdllw Hdlls [Hnext Hfw] [_ Hfs].
  assert (gli_windowlist s ≠ heap_next s /\
          (gli_windowlist s ≠ NULL -> exists wh, windows s !! gli_windowlist s = Some wh))
    as [Hwne Hwhead].
  { destruct (decide (gli_windowlist s = NULL)) as [E | E].
    - split; [rewrite E; unfold NULL; lia | tauto].
    - destruct (dll_head_live _ _ _ Hdllw E) as (wh & Hwh & _).
      split; [| eauto]. intros Heq. specialize (Hfw (gli_windowlist s)).
      cbn [ids] in Hfw. rewrite lookup_fmap, Hwh in Hfw.
      specialize (Hfw ltac:(eauto)). lia. }
  assert (forall s1 w1,
    windows s1 !! heap_next s = Some w1 ->
    win_id w1 = gli_window_id_counter s ->
    stdout s1 = stdout s ->
    dll (streams s1) (gli_streamlist s1) ls -> fresh Stream s1 ->
    returns
      ((str <- (str <- gli_stream_new 0 0 1 0 ;;
                when (truthy str) (update_str str (set_str_win (heap_next s))) ;;
                ret str) ;;
        update_win (heap_next s) (set_win_str str) ;;
        root <- get gli_rootwin ;;
        when (negb (truthy root)) (modify (put_gli_rootwin (heap_next s))) ;;
        w <- load_win (heap_next s) ;;
        json_reset ;;
        json_append (lit "{'type':'update','content':[{'id':" ++ fmt_u (win_id w)
                       ++ lit ",'win':" ++ fmt_u (win_id w)
                       ++ lit ",'op':'create','wintype':" ++ fmt_u wintype
                       ++ lit "}]}") ;;
        json_flush ;;
        ret (heap_next s)) s1)
      (fun r s' =>
         (r = NULL /\ stdout s' = stdout s) \/
         (r ≠ NULL /\
          stdout s' = stdout s ++ [frame_create (gli_window_id_counter s) wintype])))
    as Hrest.
  { intros s1 w1 Hw1 Hid Hout Hdll1 Hfresh1.
    assert (forall str s2,
      windows s2 = windows s1 -> gli_rootwin s2 = gli_rootwin s1 ->
      stdout s2 = stdout s1 ->
      returns
        ((update_win (heap_next s) (set_win_str str) ;;
          root <- get gli_rootwin ;;
          when (negb (truthy root)) (modify (put_gli_rootwin (heap_next s))) ;;
          w <- load_win (heap_next s) ;;
          json_reset ;;
          json_append (lit "{'type':'update','content':[{'id':" ++ fmt_u (win_id w)
                         ++ lit ",'win':" ++ fmt_u (win_id w)
                         ++ lit ",'op':'create','wintype':" ++ fmt_u wintype
                         ++ lit "}]}") ;;
          json_flush ;;
          ret (heap_next s)) s2)
        (fun r s' =>
           (r = NULL /\ stdout s' = stdout s) \/
           (r ≠ NULL /\
            stdout s' = stdout s ++ [frame_create (gli_window_id_counter s) wintype])))
      as Hend.
    { intros str s2 Ew Eroot Eout.
      apply returns_bind.
      eapply returns_update_win; [rewrite Ew; exact Hw1 |].
      apply returns_bind, returns_get. state_simpl.
      destruct (negb (truthy (gli_rootwin s2))); cbn [when];
        (apply returns_bind; [apply returns_modify || apply returns_ret]);
        (apply returns_bind; eapply returns_load_win; [rlookup |]);
        cbn [win_id set_win_str]; rewrite Hid;
        (apply (returns_emit (frame_create (gli_window_id_counter s) wintype));
         [ apply not_exit_nonempty, not_exit_frame_create
         | unfold frame_create; short_frame
         | apply plain_frame_create
         | ]);
        apply returns_ret; right;
        (split; [unfold NULL; lia |]); state_simpl; congruence. }
    apply returns_bind, returns_bind.
    eapply gli_stream_new_returns; [exact Hdll1 | exact Hfresh1 | |].
    - intros s2 Ew _ Eroot Eout _ _ _ _.
      rewrite truthy_NULL. cbn [when].
      apply returns_bind, returns_ret. apply returns_ret.
      now apply Hend.
    - intros s2 x Ew _ Eroot Eout _ Hnext2 Hx _ _ _ _ _ _ _.
      rewrite truthy_true by (destruct Hfresh1; unfold NULL; lia). cbn [when].
      apply returns_bind.
      eapply returns_update_str; [exact Hx |].
      apply returns_ret. now apply Hend. }
  unfold glk_window_open, gli_stream_open_window.
  rstep. rstep.
  - rewrite truthy_NULL. cbn [negb]. rstep. left. now split.
  - rewrite truthy_true by (unfold NULL; lia). cbn [negb].
    do 9 rstep.
    destruct (decide (gli_windowlist s = NULL)) as [Ewl | Ewl].
    + rewrite (truthy_false _ Ewl). cbn [when]. do 4 rstep.
      eapply Hrest; state_simpl;
        [now lookups | reflexivity | reflexivity | exact Hdlls |].
      split; state_simpl; [lia |].
      intros p Hp. specialize (Hfs p Hp). lia.
    + destruct (Hwhead Ewl) as [wh Hwh].
      rewrite (truthy_true _ Ewl). cbn [when]. do 5 rstep.
      eapply Hrest; state_simpl;
        [now lookups | reflexivity | reflexivity | exact Hdlls |].
      split; state_simpl; [lia |].
      intros p Hp. specialize (Hfs p Hp). lia.
Qed.

Lemma glk_window_clear_run s win w :
  win ≠ NULL -> windows s !! win = Some w ->
  glk_window_clear win s = Ret tt (emitted (frame_clear (win_id w)) s).
Proof.
  intros Hwin Hw. unfold glk_window_clear.
  rewrite (truthy_true _ Hwin). cbn [negb].
  rewrite (bind_Ret _ _ _ _ _ (load_win_Some _ _ _ Hw)).
  apply (emit_run (frame_clear (win_id w)));
    [ apply not_exit_nonempty, not_exit_frame_clear
    | unfold frame_clear; short_frame
    | apply plain_frame_clear ].
Qed.

(** One character goes to a window stream as one frame. *)
Lemma put_char_window s str id ch :
  window_stream s str id ->
  exists s',
    gli_put_char_to_stream str ch s = Ret tt s' /\
    stdout s' = stdout s ++ [frame_text id ch] /\
    window_stream s' str id.
Proof.
  intros (Hstr & x & w & Hx & Hwr & Hty & Hwin & Hw & Hid).
  unfold gli_put_char_to_stream.
  rewrite (truthy_true _ Hstr). cbn [negb].
  rewrite (bind_Ret _ _ _ _ _ (load_str_Some _ _ _ Hx)).
  rewrite (truthy_true _ Hwr). cbn [negb].
  rewrite (bind_Ret _ _ _ _ _ (update_str_Some _ _ _ _ Hx)).
  rewrite bool_decide_eq_true_2 by exact Hty.
  rewrite (truthy_true _ Hwin). cbn [andb].
  match goal with
  | |- context [bind (load_win ?p) ?k ?s1] =>
      rewrite (bind_Ret (load_win p) k s1 w s1 (load_win_Some s1 p w Hw))
  end.
  rewrite put_char_window_block, Hid.
  eexists. split; [reflexivity |]. split; [reflexivity |].
  split; [exact Hstr |].
  eexists _, w. state_simpl. rewrite lookup_insert_eq.
  split; [reflexivity |]. now repeat split.
Qed.

(** The characters of a text go to a window stream one by one. *)
Lemma put_chars_window str id text : forall s,
  window_stream s str id ->
  exists s',
    gli_put_chars str text s = Ret tt s' /\
    stdout s' = stdout s ++ map (frame_text id) text /\
    window_stream s' str id.
Proof.
  induction text as [| ch text IH]; intros s Hs.
  - exists s. split; [reflexivity |]. split; [now rewrite app_nil_r | exact Hs].
  - destruct (put_char_window s str id ch Hs) as (s1 & E1 & O1 & Hs1).
    destruct (IH s1 Hs1) as (s2 & E2 & O2 & Hs2).
    exists s2. split; [| split; [| exact Hs2]].
    + cbn [gli_put_chars]. now rewrite (bind_Ret _ _ _ _ _ E1).
    + rewrite O2, O1, <- app_assoc. reflexivity.
Qed.

(** C8, amended.  A call that opens a window returns, and when it
    returns a window, it has printed one frame, a single line; a call
    that clears a window prints one frame, a single line; a call that
    writes one character to a window stream prints one frame, a single
    line; a call that writes a text of [n] characters to a window stream
    ([glk_put_string_stream], [glk_put_buffer_stream]) prints [n] frames,
    one for each character, in order. *)
Theorem frame_per_call (s : State) (lw ls : list Z) (win str : Z)
    (w : glk_window_struct) :
  dll (windows s) (gli_windowlist s) lw -> dll (streams s) (gli_streamlist s) ls ->
  fresh Window s -> fresh Stream s ->
  win ≠ NULL -> windows s !! win = Some w ->
  window_stream s str (win_id w) ->
  (forall split method size wintype rock,
     single_line (frame_create (gli_window_id_counter s) wintype) /\
     exists r s',
       glk_window_open split method size wintype rock s = Ret r s' /\
       ((r = NULL /\ stdout s' = stdout s) \/
        (r ≠ NULL /\
         stdout s' = stdout s
                     ++ [frame_create (gli_window_id_counter s) wintype]))) /\
  (single_line (frame_clear (win_id w)) /\
   exists s',
     glk_window_clear win s = Ret tt s' /\
     stdout s' = stdout s ++ [frame_clear (win_id w)]) /\
  (forall ch,
     single_line (frame_text (win_id w) ch) /\
     exists s',
       glk_put_char_stream str ch s = Ret tt s' /\
       stdout s' = stdout s ++ [frame_text (win_id w) ch]) /\
  (forall text : list ascii,
     exists s',
       glk_put_string_stream str (Some text) s = Ret tt s' /\
       stdout s' = stdout s ++ map (frame_text (win_id w)) (cstr text)) /\
  (forall (buf : list ascii) (len : Z),
     0 <= len <= Z.of_nat (length buf) ->
     exists s',
       glk_put_buffer_stream str (Some buf) len s = Ret tt s' /\
       stdout s' = stdout s
                   ++ map (frame_text (win_id w)) (take (Z.to_nat len) buf)).
Proof.
  intros Hdllw Hdlls Hfw Hfs Hwin Hw Hstr.
  split; [| split; [| split; [| split]]].
  - intros split method size wintype rock.
    split; [apply plain_single_line, plain_frame_create |].
    pose proof (glk_window_open_returns split method size wintype rock s lw ls
                  Hdllw Hdlls Hfw Hfs) as Hret.
    apply returns_Ret in Hret as (r & s' & Hrun & Hout). eauto.
  - split; [apply plain_single_line, plain_frame_clear |].
    eexists. split; [exact (glk_window_clear_run s win w Hwin Hw) |]. reflexivity.
  - intros ch. split; [apply plain_single_line, plain_frame_text |].
    destruct (put_char_window s str _ ch Hstr) as (s' & E & O & _). eauto.
  - intros text.
    destruct (put_chars_window str _ (cstr text) s Hstr) as (s' & E & O & _).
    eauto.
  - intros buf len Hlen.
    destruct (put_chars_window str _ (take (Z.to_nat len) buf) s Hstr)
      as (s' & E & O & _).
    exists s'. split; [| exact O].
    unfold glk_put_buffer_stream. now rewrite decide_False by lia.
Qed.

End Frames.

(** ** Examples *)

Definition hello : list ascii := lit "hello" ++ [newline].

Definition window_of (s : State) (p : Z) : glk_window_struct :=
  default (Build_window 0 0 0 0 0 0 0 0 0 0 0 0 0 0 0 0 0 0) (windows s !! p).

Definition stream_of (s : State) (p : Z) : glk_stream_struct :=
  default (Build_stream 0 0 0 0 0 0 0 0 0 0 0 0 0 0 0 0 0) (streams s !! p).


(** One window, with a character request. *)
Definition waiting_for_char : State :=
  final_state
    (run [Call_window_open 0 0 0 3 0; Call_request_char_event 1]
       (initial_state hello [] ∅)).

(** One window, with a Unicode character request. *)
Definition waiting_for_uni : State :=
  final_state
    (run [Call_window_open 0 0 0 3 0; Call_request_char_event_uni 1]
       (initial_state hello [] ∅)).

(** One window, with a character request, and no input left. *)
Definition waiting_at_end : State :=
  final_state
    (run [Call_window_open 0 0 0 3 0; Call_request_char_event 1]
       (initial_state [] [] ∅)).


(** A memory stream of capacity 4 at the address 1000, for reading and
    writing. *)
Definition memory_open : State :=
  final_state
    (run [Call_stream_open_memory 1000 4 filemode_ReadWrite 0]
       (initial_state [] [] ∅)).

(** A memory stream of capacity 4 made by [glk_stream_open_memory_uni]
    for the array at the address 1000, for reading and writing. *)
Definition unicode_memory_open : State :=
  final_state
    (run [Call_stream_open_memory_uni 1000 4 filemode_ReadWrite 0]
       (initial_state [] [] ∅)).

Lemma dll_single {T} `{Linked T} (h : gmap Z T) p x :
  h = {[p := x]} -> p ≠ NULL -> link_prev x = NULL -> link_next x = NULL ->
  dll h p [p].
Proof.
  intros -> Hp Hprev Hnext. split; [| split].
  - split; [reflexivity |]. split; [exact Hp |].
    exists x. rewrite lookup_singleton_eq. repeat split; assumption.
  - apply NoDup_singleton.
  - intros q [y Hq]. apply lookup_singleton_Some in Hq as [<- _]. left.
Qed.

Lemma first_pending_single s win w :
  windows s !! win = Some w -> has_request w = true -> first_pending s [win] win.
Proof.
  intros Hw Hreq. exists [], [], w. split; [reflexivity |].
  split; [| now split]. intros p Hp. now apply elem_of_nil in Hp.
Qed.

Ltac concrete := vm_compute; first [reflexivity | discriminate | lia | easy].



Lemma select_char_input_witness :
  exists s',
    glk_select 2000 waiting_for_char = Ret tt s' /\
    events s' !! 2000 = Some (Build_event evtype_CharInput 1 104 0) /\
    windows s' = <[1 := set_win_char_request 0 (window_of waiting_for_char 1)]>
                   (windows waiting_for_char) /\
    stdout s' = stdout waiting_for_char ++ [frame_input_char 1] /\
    stdin s' = [].
Proof.
  apply (select_char_input waiting_for_char 2000 [1] 1
           (window_of waiting_for_char 1) (lit "hello") []).
  - unfold NULL. lia.
  - apply (dll_single _ 1 (window_of waiting_for_char 1)); concrete.
  - apply (first_pending_single _ _ (window_of waiting_for_char 1)); concrete.
  - concrete.
  - concrete.
  - concrete.
  - concrete.
  - compute_done.
  - compute_done.
  - vm_compute. lia.
Defined.

Lemma select_unicode_request_unserved_witness :
  (win_char_request_uni (window_of waiting_for_uni 1) ≠ 0
   \/ win_line_request_uni (window_of waiting_for_uni 1) ≠ 0) /\
  exists s',
    glk_select 2000 waiting_for_uni = Ret tt s' /\
    stdout s' = stdout waiting_for_uni ++ [frame_input_char 1] /\
    stdin s' = [] /\
    events s' !! 2000 = Some event_none /\
    windows s' = windows waiting_for_uni /\
    mem s' = mem waiting_for_uni /\ words s' = words waiting_for_uni.
Proof.
  apply (select_unicode_request_unserved waiting_for_uni 2000 [1] 1
           (window_of waiting_for_uni 1) (lit "hello") []).
  - unfold NULL. lia.
  - apply (dll_single _ 1 (window_of waiting_for_uni 1)); concrete.
  - apply (first_pending_single _ _ (window_of waiting_for_uni 1)); concrete.
  - concrete.
  - concrete.
  - concrete.
  - concrete.
  - compute_done.
  - compute_done.
  - vm_compute. lia.
Defined.

Lemma exit_frame_is_final_witness :
  exists s',
    glk_select 2000 waiting_at_end = Exit s' /\
    stdout s' = stdout waiting_at_end ++ [frame_input_char 1; frame_exit] /\
    exit_is_last (stdout s') /\
    forall later, run (Call_select 2000 :: later) waiting_at_end = Exit s'.
Proof.
  apply (exit_frame_is_final waiting_at_end 2000 [1] 1
           (window_of waiting_at_end 1)).
  - unfold NULL. lia.
  - apply (dll_single _ 1 (window_of waiting_at_end 1)); concrete.
  - apply (first_pending_single _ _ (window_of waiting_at_end 1)); concrete.
  - concrete.
  - concrete.
  - unfold no_exit_frame. compute_done.
Defined.

Lemma memory_stream_round_trip_witness :
  exists s1 x1,
    glk_put_buffer_stream 1 (Some (lit "hello")) 5 memory_open = Ret tt s1 /\
    streams s1 !! 1 = Some x1 /\
    str_bufptr x1 = 4 /\ str_writecount x1 = 5 /\
    (forall (i : nat) c, Z.of_nat i < 4 -> lit "hello" !! i = Some c ->
       mem s1 !! (1000 + Z.of_nat i) = Some c).
Proof.
  destruct (memory_stream_round_trip memory_open 1 (stream_of memory_open 1) 4
              (lit "hello"))
    as (s1 & x1 & E & Hx1 & _ & Hp & Hw & Hm & _).
  - unfold NULL. lia.
  - concrete.
  - repeat split; concrete.
  - lia.
  - concrete.
  - vm_compute. split; [discriminate | reflexivity].
  - exists s1, x1. repeat split; assumption.
Defined.

(** C3, as stated, does not hold for the memory stream that
    [glk_stream_open_memory_uni] makes.  The stream is memory-backed
    (its [type] is 1), open for reading and writing, of capacity 4 and
    with the cursor at 0, but the array is kept in [buf_uni] and [buf]
    stays null: "hi" is written to it, which stores nothing, the
    position is set to 0 again, and the two reads return -1 and not the
    bytes written. *)
Lemma unicode_memory_round_trip_lost :
  run [Call_stream_open_memory_uni 1000 4 filemode_ReadWrite 0]
    (initial_state [] [] ∅)
  = Ret [1] unicode_memory_open /\
  (let x := stream_of unicode_memory_open 1 in
   streams unicode_memory_open !! 1 = Some x /\
   str_type x = 1 /\ str_readable x ≠ 0 /\ str_writable x ≠ 0 /\
   str_buflen x = 4 /\ str_bufptr x = 0 /\ str_buf x = NULL) /\
  exists s1 s2,
    glk_put_buffer_stream 1 (Some (lit "hi")) 2 unicode_memory_open = Ret tt s1 /\
    mem s1 = mem unicode_memory_open /\
    (glk_stream_set_position 1 0 seekmode_Start ;; get_chars 2 1) s1
    = Ret [-1; -1] s2 /\
    [-1; -1] ≠ map uchar (lit "hi").
Proof.
  split; [vm_compute; reflexivity |].
  split; [repeat split; concrete |].
  eexists _, _.
  split; [vm_compute; reflexivity |].
  split; [vm_compute; reflexivity |].
  split; [vm_compute; reflexivity | discriminate].
Qed.

(** C5, as stated, does not hold for the second close: the window was
    freed by the first one, and the second call of [glk_window_close]
    reads it ([glk_window_close] looks at nothing but whether the handle
    is null, and then at [win->str]). *)
Lemma second_close_undefined :
  run [Call_window_open 0 0 0 3 0; Call_window_close 1 0] (initial_state [] [] ∅)
  = Ret [1; 0]
      (final_state
         (run [Call_window_open 0 0 0 3 0; Call_window_close 1 0]
            (initial_state [] [] ∅))) /\
  run [Call_window_open 0 0 0 3 0; Call_window_close 1 0; Call_window_close 1 0]
    (initial_state [] [] ∅)
  = Undef.
Proof. split; vm_compute; reflexivity. Qed.

Lemma opened_once_run :
  run [Call_window_open 0 0 0 3 0] (initial_state [] [] ∅) = Ret [1] opened_once.
Proof. vm_compute. reflexivity. Qed.

Lemma opened_once_ordered k : ordered k opened_once.
Proof.
  refine (proj1 (run_ordered k _ _ _ _ (ordered_initial_state k [] [] ∅) _
                   opened_once_run)).
  destruct k; vm_compute; reflexivity.
Qed.

Lemma window_close_cascade_witness :
  exists s' ls1 ls2,
    glk_window_close 1 0 opened_once = Ret tt s' /\
    windows s' !! 1 = None /\ streams s' !! 2 = None /\
    live Stream s' = live Stream opened_once - 1 /\
    [2] = ls1 ++ 2 :: ls2 /\
    stream_walk 1 NULL s' = Ret (ls1 ++ ls2) s'.
Proof.
  destruct (window_close_cascade opened_once [1] [2] 1 0
              (window_of opened_once 1) (stream_of opened_once 2))
    as [(s' & ls1 & ls2 & E & Hw & Hs & Hl & Hls & Hwalk & _) _].
  - unfold NULL. lia.
  - concrete.
  - apply (dll_single _ 1 (window_of opened_once 1)); concrete.
  - concrete.
  - concrete.
  - concrete.
  - apply (dll_single _ 2 (stream_of opened_once 2)); concrete.
  - apply opened_once_ordered.
  - exists s', ls1, ls2. repeat split; assumption.
Defined.

(** C8, as stated, does not hold for a write of several characters:
    [glk_put_string_stream] writes character by character, and each
    character written to a window stream is a frame of its own.  The text
    "hi" makes two frames. *)
Lemma put_string_two_frames :
  exists s',
    glk_put_string_stream 2 (Some (lit "hi")) opened_once = Ret tt s' /\
    stdout s' = stdout opened_once
                ++ [frame_text 1 "h"%char; frame_text 1 "i"%char].
Proof.
  exists (final_state (glk_put_string_stream 2 (Some (lit "hi")) opened_once)).
  split; vm_compute; reflexivity.
Qed.

Lemma frame_per_call_witness :
  (exists r s',
     glk_window_open 1 0 0 3 0 opened_once = Ret r s' /\
     ((r = NULL /\ stdout s' = stdout opened_once) \/
      (r ≠ NULL /\ stdout s' = stdout opened_once ++ [frame_create 2 3]))) /\
  (exists s',
     glk_window_clear 1 opened_once = Ret tt s' /\
     stdout s' = stdout opened_once ++ [frame_clear 1]) /\
  (exists s',
     glk_put_string_stream 2 (Some (lit "hi")) opened_once = Ret tt s' /\
     stdout s' = stdout opened_once ++ map (frame_text 1) (lit "hi")).
Proof.
  destruct (frame_per_call opened_once [1] [2] 1 2 (window_of opened_once 1))
    as (Hopen & [_ Hclear] & _ & Htext & _).
  - apply (dll_single _ 1 (window_of opened_once 1)); concrete.
  - apply (dll_single _ 2 (stream_of opened_once 2)); concrete.
  - apply opened_once_ordered.
  - apply opened_once_ordered.
  - unfold NULL. lia.
  - concrete.
  - split; [unfold NULL; lia |].
    exists (stream_of opened_once 2), (window_of opened_once 1).
    do 5 (split; [concrete |]). concrete.
  - split; [exact (proj2 (Hopen 1 0 0 3 0)) |].
    split; [exact Hclear | exact (Htext (lit "hi"))].
Defined.

(** ** Seeking below zero *)

(** The values a run returns. *)
Definition returned {A} (o : outcome A) : option A :=
  match o with
  | Ret a _ => Some a
  | _ => None
  end.

Section Seek.
Context `{glk_h}.

Lemma wrap32_negative t : - 2 ^ 32 <= t < 0 -> wrap32 t = t + 2 ^ 32.
Proof.
  intros Ht. unfold wrap32.
  rewrite <- (Z_mod_plus_full t 1 (2 ^ 32)).
  apply Z.mod_small. lia.
Qed.

(** C6, what the code does: the target of a seek on a memory stream is
    taken as an unsigned 32-bit value before it is compared with the
    length.  A target from 0 on is clamped to the length; a target below
    zero is a large unsigned value, and the position becomes the length,
    not 0. *)
Theorem seek_target_unsigned (s : State) (str pos seekmode : Z)
    (x : glk_stream_struct) :
  str ≠ NULL -> streams s !! str = Some x -> str_type x = 1 ->
  0 <= str_bufptr x <= str_buflen x -> str_buflen x < 2 ^ 31 ->
  - 2 ^ 31 <= pos < 2 ^ 31 ->
  exists s' x',
    glk_stream_set_position str pos seekmode s = Ret tt s' /\
    streams s' !! str = Some x' /\
    str_buflen x' = str_buflen x /\
    str_bufptr x' =
      if decide (seek_target x pos seekmode < 0) then str_buflen x
      else Z.min (seek_target x pos seekmode) (str_buflen x).
Proof.
  intros Hstr Hx Hty Hptr Hlen Hpos.
  rewrite (set_position_memory s str x pos seekmode Hstr Hx Hty).
  eexists _, _. split; [reflexivity |].
  split; [state_simpl; apply lookup_insert_eq |].
  split; [reflexivity |]. cbn [str_bufptr set_str_bufptr].
  assert (- 2 ^ 31 <= seek_target x pos seekmode < 2 ^ 32) as Ht
    by (unfold seek_target; repeat case_decide; lia).
  case_decide as Hneg.
  - rewrite wrap32_negative by lia. lia.
  - now rewrite wrap32_small by lia.
Qed.

End Seek.

(** A memory stream of length 10; a seek to -1 from the start; the
    position is 10 then. *)
Lemma seek_below_zero_goes_to_end :
  returned
    (run [Call_stream_open_memory 1000 10 filemode_ReadWrite 0;
          Call_stream_set_position 1 (-1) seekmode_Start;
          Call_stream_get_position 1]
       (initial_state [] [] ∅))
  = Some [1; 0; 10].
Proof. vm_compute. reflexivity. Qed.

Lemma seek_target_unsigned_witness :
  exists s' x',
    glk_stream_set_position 1 (-1) seekmode_Start memory_open = Ret tt s' /\
    streams s' !! 1 = Some x' /\
    str_buflen x' = 4 /\ str_bufptr x' = 4.
Proof.
  destruct (seek_target_unsigned memory_open 1 (-1) seekmode_Start
              (stream_of memory_open 1))
    as (s' & x' & E & Hx' & Hl & Hp).
  - unfold NULL. lia.
  - concrete.
  - concrete.
  - vm_compute. split; discriminate.
  - concrete.
  - lia.
  - exists s', x'. split; [exact E |]. split; [exact Hx' |].
    split; [rewrite Hl; reflexivity |].
    rewrite Hp, decide_True by (vm_compute; reflexivity). reflexivity.
Defined.

(** ** The lines of the output *)

(** The frames of the protocol, but for the frame of [main]. *)
Definition is_frame (text : list ascii) : Prop :=
  (exists id wintype, text = frame_create id wintype) \/
  (exists id, text = frame_clear id) \/
  (exists id ch, text = frame_text id ch) \/
  (exists id, text = frame_input_line id) \/
  (exists id, text = frame_input_char id) \/
  (exists usage fmode, text = frame_prompt usage fmode) \/
  text = frame_exit.

(** What a step prints is frames. *)
Definition frames_added (s s' : State) : Prop :=
  exists added, stdout s' = stdout s ++ added /\ Forall is_frame added.

#[global] Instance frames_added_keeps : Keeps frames_added frames_added.
Proof.
  split; unfold frames_added.
  - intros s. exists []. now rewrite app_nil_r.
  - intros s1 s2 s3 (a1 & E1 & F1) (a2 & E2 & F2). exists (a1 ++ a2).
    rewrite E2, E1, app_assoc. split; [reflexivity | now apply Forall_app].
  - intros s1 s2 s3 (a1 & E1 & F1) (a2 & E2 & F2). exists (a1 ++ a2).
    rewrite E2, E1, app_assoc. split; [reflexivity | now apply Forall_app].
Qed.

Abbreviation framed m := (keeping frames_added frames_added m).

Lemma silent_framed {A} (m : M A) : silent m -> framed m.
Proof.
  intros Hm s. eapply post_mono; [apply Hm | |]; simpl.
  - intros _ s' E. exists []. unfold same_output in E.
    now rewrite E, app_nil_r.
  - intros s' [].
Qed.

Lemma frames_added_emitted text s : is_frame text -> frames_added s (emitted text s).
Proof. intros Ht. exists [text]. split; [reflexivity | now constructor]. Qed.

Lemma is_frame_plain text : is_frame text -> plain text.
Proof.
  intros [(id & wt & ->) | [(id & ->) | [(id & ch & ->) | [(id & ->) |
          [(id & ->) | [(u & f & ->) | ->]]]]]].
  - apply plain_frame_create.
  - apply plain_frame_clear.
  - apply plain_frame_text.
  - apply plain_frame_input_line.
  - apply plain_frame_input_char.
  - apply plain_frame_prompt.
  - apply plain_frame_exit.
Qed.

Ltac is_frame_side :=
  unfold is_frame;
  first
    [ left; eexists _, _; reflexivity
    | right; left; eexists; reflexivity
    | right; right; left; eexists _, _; reflexivity
    | right; right; right; left; eexists; reflexivity
    | right; right; right; right; left; eexists; reflexivity
    | right; right; right; right; right; left; eexists _, _; reflexivity
    | right; right; right; right; right; right; reflexivity ].

Section Protocol.
Context `{glk_h}.

Lemma framed_glk_exit : framed glk_exit.
Proof. intros s. rewrite glk_exit_run. apply frames_added_emitted. is_frame_side. Qed.

Lemma framed_emit {B} text (k : unit -> M B) :
  is_frame text -> Z.of_nat (length text) < 65536 -> text ≠ [] ->
  framed (k tt) ->
  framed (bind json_reset (fun _ => bind (json_append text)
            (fun _ => bind json_flush k))).
Proof.
  intros Hf Hlen Hne Hk s.
  rewrite bind_json_reset, bind_json_append by (simpl; lia).
  rewrite bind_json_flush by (simpl; assumption).
  simpl app. rewrite plain_cstr by now apply is_frame_plain.
  eapply post_mono; [apply Hk | |]; simpl.
  - intros _ s'. apply (R_trans (R := frames_added)). now apply frames_added_emitted.
  - intros s'. apply (RX_trans (R := frames_added)). now apply frames_added_emitted.
Qed.

Lemma framed_emit_end text :
  is_frame text -> Z.of_nat (length text) < 65536 -> text ≠ [] ->
  framed (bind json_reset (fun _ => bind (json_append text)
            (fun _ => json_flush))).
Proof.
  intros Hf Hlen Hne s.
  rewrite bind_json_reset, bind_json_append by (simpl; lia).
  rewrite json_flush_run by (simpl; assumption).
  simpl app. rewrite plain_cstr by now apply is_frame_plain.
  now apply frames_added_emitted.
Qed.

End Protocol.

Ltac framed_side :=
  intros; unfold frames_added; state_simpl; exists [];
  split; [now rewrite app_nil_r | constructor].

Ltac frame_nonempty :=
  let E := fresh in
  intros E; apply (f_equal (take 1)) in E; vm_compute in E; discriminate E.

Ltac framed_step :=
  first
    [ solve [apply silent_framed; auto 1 with keeping nocore]
    | lazymatch goal with
      | |- keeping _ _ (bind json_reset (fun _ => bind (json_append _)
                                           (fun _ => bind json_flush _))) =>
          apply framed_emit; [is_frame_side | short_frame | frame_nonempty |]
      | |- keeping _ _ (bind json_reset (fun _ => bind (json_append _)
                                           (fun _ => json_flush))) =>
          apply framed_emit_end; [is_frame_side | short_frame | frame_nonempty]
      | |- keeping _ _ (bind json_reset _) => fail
      | |- _ => keeping_step framed_side
      end ].

Ltac framed_auto := repeat framed_step.

Section ProtocolCalls.
Context `{glk_h}.

Lemma framed_window_open split method size wintype rock :
  framed (glk_window_open split method size wintype rock).
Proof. unfold glk_window_open, new_win. framed_auto. Qed.

Lemma framed_window_clear win : framed (glk_window_clear win).
Proof. unfold glk_window_clear. framed_auto. Qed.

Lemma framed_put_char str ch : framed (gli_put_char_to_stream str ch).
Proof.
  unfold gli_put_char_to_stream. framed_auto.
  intros s. rewrite put_char_window_block.
  apply frames_added_emitted. is_frame_side.
Qed.

Lemma framed_put_chars str l : framed (gli_put_chars str l).
Proof.
  pose proof framed_put_char.
  induction l as [| ch l IH]; simpl; framed_auto.
Qed.

#[local] Hint Resolve framed_glk_exit framed_window_open framed_window_clear
  framed_put_char framed_put_chars : keeping.

Lemma framed_prompt usage fmode rock :
  framed (glk_fileref_create_by_prompt usage fmode rock).
Proof. unfold glk_fileref_create_by_prompt. framed_auto. Qed.

Lemma framed_input_request {B} w (k : unit -> M B) :
  framed (k tt) ->
  framed
    (bind json_reset
       (fun _ => bind
          (if truthy (win_line_request w) || truthy (win_line_request_uni w) then
             json_append (lit "{'type':'input','gen':1,'windows':[{'id':"
                            ++ fmt_u (win_id w) ++ lit ",'type':'line'}]}")
           else
             json_append (lit "{'type':'input','gen':1,'windows':[{'id':"
                            ++ fmt_u (win_id w) ++ lit ",'type':'char'}]}"))
       (fun _ => bind json_flush k))).
Proof.
  intros Hk s. rewrite input_request_run.
  assert (frames_added s (emitted (frame_input w) s)) as He.
  { apply frames_added_emitted. unfold frame_input.
    destruct (_ || _); is_frame_side. }
  eapply post_mono; [apply Hk | |]; simpl.
  - intros _ s'. now apply (R_trans (R := frames_added)).
  - intros s'. now apply (RX_trans (R := frames_added)).
Qed.

Lemma framed_select event : framed (glk_select event).
Proof.
  unfold glk_select. framed_auto.
  apply framed_input_request. framed_auto.
Qed.

#[local] Hint Resolve framed_prompt framed_select : keeping.

Lemma framed_exec c : framed (exec c).
Proof.
  destruct c; unfold exec, void, glk_gestalt, glk_put_char, glk_put_char_stream,
    glk_put_string, glk_put_string_stream, glk_put_buffer, glk_put_buffer_stream,
    glk_stream_set_current;
    framed_auto.
Qed.

Lemma framed_run cs : framed (run cs).
Proof.
  pose proof framed_exec.
  induction cs as [| c cs IH]; simpl; framed_auto.
Qed.

(** X1: whatever the calls of the engine and the state they start in,
    what they print is frames of the protocol and nothing else: each
    line added to the output is a window-creation, clear, text, input
    request, file prompt or exit frame; such a line has no control
    character in it, so it is a single line.  [main] prints the init
    frame before them. *)
Theorem only_frames_printed (cs : list call) (s : State) :
  post (run cs s)
    (fun _ s' => exists added,
       stdout s' = stdout s ++ added /\ Forall is_frame added /\
       Forall single_line added)
    (fun s' => exists added,
       stdout s' = stdout s ++ added /\ Forall is_frame added /\
       Forall single_line added) /\
  post (main cs s)
    (fun _ s' => False)
    (fun s' => exists added,
       stdout s' = stdout s ++ frame_init :: added /\ Forall is_frame added /\
       single_line frame_init).
Proof.
  assert (forall added, Forall is_frame added -> Forall single_line added) as Hsl.
  { intros added Ha. eapply Forall_impl; [exact Ha |]. intros text Ht.
    now apply plain_single_line, is_frame_plain. }
  split.
  - eapply post_mono; [apply framed_run | |]; simpl;
      intros; match goal with H : frames_added _ _ |- _ =>
                destruct H as (added & E & F) end; eauto.
  - rewrite main_run.
    pose proof (framed_run cs (emitted frame_init s)) as Hrun.
    destruct (run cs (emitted frame_init s)) as [vs s1 | s1 |]; simpl in *;
      [| | exact I].
    + destruct Hrun as (added & E & F). exists (added ++ [frame_exit]).
      unfold emitted in *. state_simpl.
      rewrite E, <- !app_assoc. split; [reflexivity |].
      split; [| apply plain_single_line, plain_frame_init].
      apply Forall_app. split; [assumption |]. constructor; [| constructor].
      is_frame_side.
    + destruct Hrun as (added & E & F). exists added.
      unfold emitted in *. state_simpl.
      rewrite E, <- app_assoc. split; [reflexivity |].
      split; [assumption | apply plain_single_line, plain_frame_init].
Qed.

End ProtocolCalls.

(** ** Waiting with nothing to wait for *)

Section SelectIdle.
Context `{glk_h}.

(** X2: when no window has an input request, [glk_select] does not wait:
    it returns at once with an event of type [evtype_None], prints no
    request frame and reads nothing from the input, which is what
    [glk_select_poll] does. *)
Theorem select_without_request (s : State) (event : Z) (l : list Z) :
  event ≠ NULL ->
  dll (windows s) (gli_windowlist s) l ->
  (forall q, q ∈ l ->
     exists w, windows s !! q = Some w /\ has_request w = false) ->
  glk_select event s
  = Ret tt (put_events (<[event := event_none]> (events s)) s) /\
  glk_select_poll event s = glk_select event s.
Proof.
  intros Hev Hl Hnone.
  assert (glk_select event s
          = Ret tt (put_events (<[event := event_none]> (events s)) s)) as E.
  { unfold glk_select. rewrite (truthy_true _ Hev). cbn [negb].
    rewrite event_clear_run, !bind_get.
    match goal with
    | |- context [bind (select_scan ?fuel ?p) ?k ?s1] =>
        rewrite (bind_Ret (select_scan fuel p) k s1 NULL s1)
    end.
    - rewrite truthy_NULL. reflexivity.
    - apply (select_scan_none _ l _ NULL); simpl.
      + exact (proj1 Hl).
      + exact Hnone.
      + pose proof (dll_length _ _ _ Hl). lia. }
  split; [exact E |]. rewrite E.
  unfold glk_select_poll. rewrite (truthy_true _ Hev). cbn [negb].
  pose proof (event_clear_run event (fun _ => ret tt) s) as Hc.
  unfold ret at 2 in Hc. rewrite <- Hc.
  unfold bind. repeat (destruct (update_event _ _ _) as [[] ?| |]; try reflexivity).
Qed.

End SelectIdle.

Lemma select_without_request_witness :
  glk_select 2000 opened_once
  = Ret tt (put_events (<[2000 := event_none]> (events opened_once)) opened_once) /\
  glk_select_poll 2000 opened_once = glk_select 2000 opened_once.
Proof.
  apply (select_without_request opened_once 2000 [1]).
  - unfold NULL. lia.
  - apply (dll_single _ 1 (window_of opened_once 1)); concrete.
  - intros q Hq. apply list_elem_of_singleton in Hq as ->.
    exists (window_of opened_once 1). split; concrete.
Defined.

(** ** The lists of the live objects *)

(** The links of the objects of a kind, by address. *)
Definition links (k : kind) (s : State) : gmap Z (Z * Z) :=
  match k with
  | Window => (fun x => (win_prev x, win_next x)) <$> windows s
  | Stream => (fun x => (str_prev x, str_next x)) <$> streams s
  | Fileref => (fun x => (fref_prev x, fref_next x)) <$> filerefs s
  end.

(** The head of the list of a kind. *)
Definition list_head (k : kind) (s : State) : Z :=
  match k with
  | Window => gli_windowlist s
  | Stream => gli_streamlist s
  | Fileref => gli_filereflist s
  end.

(** The list of kind [k] holds the objects [l], in this order, and they
    are the live objects of the kind. *)
Definition chained (k : kind) (s : State) (l : list Z) : Prop :=
  match k with
  | Window => dll (windows s) (gli_windowlist s) l
  | Stream => dll (streams s) (gli_streamlist s) l
  | Fileref => dll (filerefs s) (gli_filereflist s) l
  end.

(** A step that leaves the list of kind [k] as it is. *)
Definition stable (k : kind) (s s' : State) : Prop :=
  links k s' = links k s /\ list_head k s' = list_head k s.

#[global] Instance stable_keeps k : Keeps (stable k) anyhow.
Proof.
  split; unfold stable, anyhow; [intros s | intros s1 s2 s3 | trivial].
  - split; reflexivity.
  - intros (-> & ->) (-> & ->). split; reflexivity.
Qed.

Lemma dll_same_links {T} `{Linked T} (h h' : gmap Z T) head l :
  (fun x => (link_prev x, link_next x)) <$> h'
  = (fun x => (link_prev x, link_next x)) <$> h ->
  dll h head l -> dll h' head l.
Proof.
  intros E (Hl & Hnd & Hlive).
  assert (forall q x, h !! q = Some x ->
            exists x', h' !! q = Some x' /\
                       link_prev x' = link_prev x /\ link_next x' = link_next x)
    as Hto.
  { intros q x Hx. apply (f_equal (fun m => m !! q)) in E.
    rewrite !lookup_fmap, Hx in E.
    destruct (h' !! q) as [x' |]; [| discriminate E].
    injection E as E1 E2. eauto. }
  split; [| split; [assumption |]].
  - apply (dlseg_ext h); [| assumption]. intros q x _. apply Hto.
  - intros q [x' Hx']. apply Hlive.
    apply (f_equal (fun m => m !! q)) in E.
    rewrite !lookup_fmap, Hx' in E.
    destruct (h !! q); [eauto | discriminate E].
Qed.

Lemma chained_stable k s s' l : stable k s s' -> chained k s l -> chained k s' l.
Proof.
  intros [El Eh]. destruct k; cbn [chained links list_head] in *;
    rewrite Eh; now apply dll_same_links.
Qed.

Ltac stable_side :=
  intros; unfold stable, links, list_head;
  lazymatch goal with
  | k : kind |- _ => destruct k
  | _ => idtac
  end;
  state_simpl; repeat split; reflexivity.

Ltac stable_auto := repeat (keeping_step stable_side).

Section Stable.
Context `{glk_h}.

Lemma stable_update_win k p f :
  (forall w, win_prev (f w) = win_prev w) -> (forall w, win_next (f w) = win_next w) ->
  keeping (stable k) anyhow (update_win p f).
Proof.
  intros Hp Hn s. apply post_update_win. intros w Hw.
  unfold stable, links, list_head. destruct k; state_simpl;
    repeat split; try reflexivity.
  rewrite fmap_insert, Hp, Hn. apply insert_id. now rewrite lookup_fmap, Hw.
Qed.

Lemma stable_update_str k p f :
  (forall x, str_prev (f x) = str_prev x) -> (forall x, str_next (f x) = str_next x) ->
  keeping (stable k) anyhow (update_str p f).
Proof.
  intros Hp Hn s. apply post_update_str. intros x Hx.
  unfold stable, links, list_head. destruct k; state_simpl;
    repeat split; try reflexivity.
  rewrite fmap_insert, Hp, Hn. apply insert_id. now rewrite lookup_fmap, Hx.
Qed.

Lemma stable_update_fref k p f :
  (forall x, fref_prev (f x) = fref_prev x) -> (forall x, fref_next (f x) = fref_next x) ->
  keeping (stable k) anyhow (update_fref p f).
Proof.
  intros Hp Hn s. apply post_update_fref. intros x Hx.
  unfold stable, links, list_head. destruct k; state_simpl;
    repeat split; try reflexivity.
  rewrite fmap_insert, Hp, Hn. apply insert_id. now rewrite lookup_fmap, Hx.
Qed.

Lemma stable_other_win k p f : k ≠ Window -> keeping (stable k) anyhow (update_win p f).
Proof.
  intros Hk s. apply post_update_win. intros w Hw.
  destruct k; [congruence | |]; stable_side.
Qed.

Lemma stable_other_str k p f : k ≠ Stream -> keeping (stable k) anyhow (update_str p f).
Proof.
  intros Hk s. apply post_update_str. intros x Hx.
  destruct k; [| congruence |]; stable_side.
Qed.

Lemma stable_other_fref k p f : k ≠ Fileref -> keeping (stable k) anyhow (update_fref p f).
Proof.
  intros Hk s. apply post_update_fref. intros x Hx.
  destruct k; [| | congruence]; stable_side.
Qed.

Lemma stable_free_win k p : k ≠ Window -> keeping (stable k) anyhow (free_win p).
Proof. intros Hk. unfold free_win. destruct k; [congruence | |]; stable_auto. Qed.

Lemma stable_free_str k p : k ≠ Stream -> keeping (stable k) anyhow (free_str p).
Proof. intros Hk. unfold free_str. destruct k; [| congruence |]; stable_auto. Qed.

Lemma stable_free_fref k p : k ≠ Fileref -> keeping (stable k) anyhow (free_fref p).
Proof. intros Hk. unfold free_fref. destruct k; [| | congruence]; stable_auto. Qed.

Lemma stable_store_byte k a c : keeping (stable k) anyhow (store_byte a c).
Proof. unfold store_byte. stable_auto. Qed.

Lemma stable_store_word k a v : keeping (stable k) anyhow (store_word a v).
Proof. unfold store_word. stable_auto. Qed.

Lemma stable_update_event k p f : keeping (stable k) anyhow (update_event p f).
Proof. unfold update_event. stable_auto. Qed.

Lemma stable_store_result k p r : keeping (stable k) anyhow (store_result p r).
Proof. unfold store_result. stable_auto. Qed.

Lemma stable_load_byte k a : keeping (stable k) anyhow (load_byte a).
Proof. unfold load_byte. stable_auto. Qed.

Lemma stable_print_line k text : keeping (stable k) anyhow (print_line text).
Proof. unfold print_line. stable_auto. Qed.

End Stable.

#[export] Hint Extern 1 (keeping (stable _) _ (update_win _ _)) =>
  first [ apply stable_update_win; intros; reflexivity
        | apply stable_other_win; discriminate ] : keeping.
#[export] Hint Extern 1 (keeping (stable _) _ (update_str _ _)) =>
  first [ apply stable_update_str; intros; reflexivity
        | apply stable_other_str; discriminate ] : keeping.
#[export] Hint Extern 1 (keeping (stable _) _ (update_fref _ _)) =>
  first [ apply stable_update_fref; intros; reflexivity
        | apply stable_other_fref; discriminate ] : keeping.
#[export] Hint Extern 1 (keeping (stable _) _ (free_win _)) =>
  apply stable_free_win; discriminate : keeping.
#[export] Hint Extern 1 (keeping (stable _) _ (free_str _)) =>
  apply stable_free_str; discriminate : keeping.
#[export] Hint Extern 1 (keeping (stable _) _ (free_fref _)) =>
  apply stable_free_fref; discriminate : keeping.
#[export] Hint Resolve stable_store_byte stable_store_word
  stable_update_event stable_store_result stable_load_byte
  stable_print_line : keeping.

Section StableCalls.
Context `{glk_h}.

Lemma stable_fopen k path mode : keeping (stable k) anyhow (fopen path mode).
Proof. unfold fopen, new_FILE. stable_auto. Qed.

Lemma stable_fclose k p : keeping (stable k) anyhow (fclose p).
Proof. unfold fclose. stable_auto. Qed.

Lemma stable_fputc k c p : keeping (stable k) anyhow (fputc c p).
Proof. unfold fputc. stable_auto. Qed.

Lemma stable_fgetc k p : keeping (stable k) anyhow (fgetc p).
Proof. unfold fgetc. stable_auto. Qed.

Lemma stable_fseek k p off w : keeping (stable k) anyhow (fseek p off w).
Proof. unfold fseek. stable_auto. Qed.

Lemma stable_ftell k p : keeping (stable k) anyhow (ftell p).
Proof. unfold ftell. stable_auto. Qed.

Lemma stable_json_reset k : keeping (stable k) anyhow json_reset.
Proof. unfold json_reset. stable_auto. Qed.

Lemma stable_json_append k text : keeping (stable k) anyhow (json_append text).
Proof. unfold json_append. stable_auto. Qed.

#[local] Hint Resolve stable_fopen stable_fclose stable_fputc stable_fgetc
  stable_fseek stable_ftell stable_json_reset stable_json_append : keeping.

Lemma stable_json_flush k : keeping (stable k) anyhow json_flush.
Proof. unfold json_flush. stable_auto. Qed.

Lemma stable_json_escape_loop k text : keeping (stable k) anyhow (json_escape_loop text).
Proof.
  induction text as [| c text IH]; simpl; unfold json_escape_char; stable_auto.
Qed.

#[local] Hint Resolve stable_json_flush stable_json_escape_loop : keeping.

Lemma stable_json_append_escaped_string k text :
  keeping (stable k) anyhow (json_append_escaped_string text).
Proof. unfold json_append_escaped_string. stable_auto. Qed.

Lemma stable_glk_exit k : keeping (stable k) anyhow glk_exit.
Proof.
  unfold glk_exit. stable_auto. intros s. exact I.
Qed.

#[local] Hint Resolve stable_json_append_escaped_string stable_glk_exit : keeping.

Lemma stable_glk_gestalt_ext k sel val arr arrlen :
  keeping (stable k) anyhow (glk_gestalt_ext sel val arr arrlen).
Proof. unfold glk_gestalt_ext. stable_auto. Qed.

Lemma stable_gli_stream_new k t r w rock :
  k ≠ Stream -> keeping (stable k) anyhow (gli_stream_new t r w rock).
Proof.
  intros Hk. unfold gli_stream_new, new_str.
  destruct k; [| congruence |]; stable_auto.
Qed.

Lemma stable_glk_stream_close k str result :
  k ≠ Stream -> keeping (stable k) anyhow (glk_stream_close str result).
Proof.
  intros Hk. unfold glk_stream_close.
  destruct k; [| congruence |]; stable_auto.
Qed.

Lemma stable_gli_fileref_new k filename usage rock :
  k ≠ Fileref -> keeping (stable k) anyhow (gli_fileref_new filename usage rock).
Proof.
  intros Hk. unfold gli_fileref_new, new_fref.
  destruct k; [| | congruence]; stable_auto.
Qed.

Lemma stable_gli_put_char_to_stream k str ch :
  keeping (stable k) anyhow (gli_put_char_to_stream str ch).
Proof. unfold gli_put_char_to_stream. stable_auto. Qed.

#[local] Hint Resolve stable_gli_put_char_to_stream : keeping.

Lemma stable_gli_put_chars k str l : keeping (stable k) anyhow (gli_put_chars str l).
Proof. induction l as [| ch l IH]; simpl; stable_auto. Qed.

Lemma stable_select_scan k fuel : forall win,
  keeping (stable k) anyhow (select_scan fuel win).
Proof. induction fuel as [| fuel IH]; intros win; simpl; stable_auto. Qed.

End StableCalls.

#[export] Hint Resolve stable_fopen stable_fclose stable_fputc stable_fgetc
  stable_fseek stable_ftell stable_json_reset stable_json_append
  stable_json_flush stable_json_escape_loop
  stable_json_append_escaped_string stable_glk_exit
  stable_glk_gestalt_ext stable_gli_put_char_to_stream
  stable_gli_put_chars stable_select_scan : keeping.
#[export] Hint Extern 1 (keeping (stable _) _ (gli_stream_new _ _ _ _)) =>
  apply stable_gli_stream_new; discriminate : keeping.
#[export] Hint Extern 1 (keeping (stable _) _ (glk_stream_close _ _)) =>
  apply stable_glk_stream_close; discriminate : keeping.
#[export] Hint Extern 1 (keeping (stable _) _ (gli_fileref_new _ _ _)) =>
  apply stable_gli_fileref_new; discriminate : keeping.

Section StableExec.
Context `{glk_h}.

Lemma stable_glk_select k event : keeping (stable k) anyhow (glk_select event).
Proof. unfold glk_select. stable_auto. Qed.

#[local] Hint Resolve stable_glk_select : keeping.

(** A call that neither creates nor destroys objects of a kind leaves
    the list of the kind as it is. *)
Lemma stable_exec k c :
  is_create k c = false -> is_destroy k c = false ->
  keeping (stable k) anyhow (exec c).
Proof.
  intros Hc Hd.
  destruct k, c; try discriminate Hc; try discriminate Hd; clear Hc Hd;
    cbn [exec]; unfold void, glk_gestalt, glk_window_open, glk_window_close,
      glk_window_iterate, glk_window_clear, glk_window_get_stream,
      glk_window_set_echo_stream, glk_set_window, glk_stream_open_file,
      glk_stream_open_memory, glk_stream_open_memory_uni, glk_stream_iterate,
      glk_stream_set_position, glk_stream_get_position, glk_stream_set_current,
      glk_put_char, glk_put_char_stream, glk_put_string, glk_put_string_stream,
      glk_put_buffer, glk_put_buffer_stream, glk_get_char_stream,
      glk_fileref_create_temp, glk_fileref_create_by_name,
      glk_fileref_create_by_prompt, glk_fileref_create_from_fileref,
      glk_fileref_destroy, glk_fileref_iterate, glk_fileref_delete_file,
      glk_fileref_does_file_exist, glk_select_poll, glk_request_line_event,
      glk_request_char_event, glk_cancel_line_event, glk_cancel_char_event,
      glk_request_char_event_uni, glk_request_line_event_uni,
      gli_stream_open_window, new_win;
    stable_auto.
Qed.

End StableExec.

(** *** The lists are kept in order *)

Lemma returns_as_post {A} (o : outcome A) (Q : A -> State -> Prop) X :
  returns o Q -> post o Q X.
Proof. destruct o; simpl; tauto. Qed.

Ltac wp_stable k :=
  lazymatch goal with
  | |- post (bind ?m _ ?s) _ _ =>
      let Hs := fresh "Hs" in
      apply post_bind;
      apply (post_keeping (stable k) anyhow m s);
      [ solve [stable_auto] | intros ? ? Hs | intros ? _; exact I ]
  end; cbv beta.

(** The end of a computation: steps that leave the list of kind [k] as
    it is. *)
Ltac wp_stable_end k :=
  lazymatch goal with
  | |- post (?m ?s) _ _ =>
      let Hs := fresh "Hs" in
      apply (post_keeping (stable k) anyhow m s);
      [ solve [stable_auto] | intros ? ? Hs | intros ? _; exact I ]
  end; cbv beta.

(** The steps taken so far, as one. *)
Ltac stable_chain Hst :=
  repeat match goal with
    | H1 : stable ?k ?a ?b, H2 : stable ?k ?b ?c |- _ =>
        let H3 := fresh "Hs" in
        pose proof (R_trans (R := stable k) _ _ _ H1 H2) as H3; clear H1 H2
    end;
  match goal with H : stable _ _ _ |- _ => rename H into Hst end.

Section WellFormed.
Context `{glk_h}.

Lemma stable_lookup_win s s' p x :
  stable Window s s' -> windows s !! p = Some x ->
  exists x', windows s' !! p = Some x' /\
             win_prev x' = win_prev x /\ win_next x' = win_next x.
Proof.
  intros [E _] Hx. apply (f_equal (fun m => m !! p)) in E.
  cbn [links] in E. rewrite !lookup_fmap, Hx in E.
  destruct (windows s' !! p) as [x' |]; [| discriminate E].
  injection E as E1 E2. eauto.
Qed.

Lemma stable_lookup_str s s' p x :
  stable Stream s s' -> streams s !! p = Some x ->
  exists x', streams s' !! p = Some x' /\
             str_prev x' = str_prev x /\ str_next x' = str_next x.
Proof.
  intros [E _] Hx. apply (f_equal (fun m => m !! p)) in E.
  cbn [links] in E. rewrite !lookup_fmap, Hx in E.
  destruct (streams s' !! p) as [x' |]; [| discriminate E].
  injection E as E1 E2. eauto.
Qed.

(** A stream is made: it is the head of the list of streams. *)
Lemma gli_stream_new_chained t r w rock s l :
  chained Stream s l -> fresh Stream s ->
  post (gli_stream_new t r w rock s)
    (fun p s' =>
       (p = NULL /\ chained Stream s' l) \/
       (p ≠ NULL /\ p = heap_next s /\ chained Stream s' (p :: l)))
    (fun _ => True).
Proof.
  intros Hl Hfresh. apply returns_as_post.
  eapply gli_stream_new_returns; [exact Hl | exact Hfresh | |].
  - intros s' _ _ _ _ _ Es Esl _. left. split; [reflexivity |].
    cbn [chained] in *. now rewrite Es, Esl.
  - intros s' x _ _ _ _ _ _ _ _ _ _ _ _ _ Hdll. right.
    split; [destruct Hfresh; unfold NULL; lia |]. split; [reflexivity |]. exact Hdll.
Qed.

(** A stream is closed: it leaves the list of streams. *)
Lemma glk_stream_close_chained str result s l :
  chained Stream s l ->
  post (glk_stream_close str result s)
    (fun _ s' =>
       (str = NULL /\ chained Stream s' l) \/
       (exists l1 l2, l = l1 ++ str :: l2 /\ chained Stream s' (l1 ++ l2)))
    (fun _ => True).
Proof.
  intros Hl. unfold glk_stream_close.
  destruct (truthy str) eqn:Hstr; cbn [negb].
  2:{ apply post_ret. left. split; [| assumption].
      unfold truthy in Hstr. now apply bool_decide_eq_false, dec_stable in Hstr. }
  apply post_bind, post_load_str. intros x Hx.
  wp_stable Stream. wp_stable Stream. wp_step. wp_step. wp_stable Stream.
  stable_chain Hst.
  destruct (stable_lookup_str _ _ _ _ Hst Hx) as (x' & Hx' & Hp & Hn).
  rewrite <- Hp, <- Hn.
  apply returns_as_post.
  eapply stream_unlink_returns;
    [exact (chained_stable _ _ _ _ Hst Hl) | exact Hx' |].
  intros h' l1 l2 El Hdll. right. exists l1, l2. split; [exact El |].
  cbn [chained]. state_simpl. exact Hdll.
Qed.

Lemma post_tail_stable {A} k (m : M A) v s (Q : A -> State -> Prop) :
  keeping (stable k) anyhow m -> yields v m ->
  (forall s', stable k s s' -> Q v s') ->
  post (m s) Q (fun _ => True).
Proof.
  intros Hk Hv HQ. specialize (Hk s). specialize (Hv s).
  destruct (m s); simpl in *; [subst; auto | exact I | exact I].
Qed.

(** A window is made: it is the head of the list of windows. *)
Lemma glk_window_open_chained split method size wintype rock s l :
  chained Window s l -> fresh Window s ->
  post (glk_window_open split method size wintype rock s)
    (fun p s' =>
       (p = NULL /\ chained Window s' l) \/
       (p ≠ NULL /\ p = heap_next s /\ chained Window s' (p :: l)))
    (fun _ => True).
Proof.
  intros Hl [Hnext Hfresh].
  assert (heap_next s ≠ NULL) as Hp by (unfold NULL; lia).
  assert (windows s !! heap_next s = None) as Hnone.
  { apply eq_None_not_Some. intros [x Hx].
    specialize (Hfresh (heap_next s)). cbn [ids] in Hfresh.
    rewrite lookup_fmap, Hx in Hfresh. specialize (Hfresh ltac:(eauto)). lia. }
  unfold glk_window_open. wp_step. wp_step.
  - rewrite truthy_NULL. cbn [negb]. wp_step. left. split; [reflexivity |].
    cbn [chained] in *. state_simpl. exact Hl.
  - rewrite (truthy_true _ Hp). cbn [negb]. do 8 (wp_step; state_simpl).
    apply post_bind, post_update_win. state_simpl. intros w Hw.
    rewrite lookup_insert_eq in Hw. injection Hw as <-.
    rewrite insert_insert_eq. cbn [set_win_next].
    destruct (decide (gli_windowlist s = NULL)) as [E | E].
    + rewrite (truthy_false _ E). cbn [when]. do 3 (wp_step; state_simpl).
      eapply (post_tail_stable Window _ (heap_next s));
        [ unfold gli_stream_open_window; solve [stable_auto]
        | unfold gli_stream_open_window; solve [yields_auto] | ].
      intros s' Hst. right. split; [exact Hp |]. split; [reflexivity |].
      apply (chained_stable _ _ _ _ Hst). cbn [chained] in *. state_simpl.
      match goal with
      | |- context [<[heap_next s := ?v]> (windows s)] =>
          eapply (dll_push _ _ _ _ v); try eassumption; try reflexivity
      end.
      * now lookups.
      * intros q Hq _. now lookups.
      * intros y Hy. contradiction.
      * intros _. lookups. reflexivity.
    + rewrite (truthy_true _ E). cbn [when].
      destruct (dll_head_live _ _ _ Hl E) as (y & Hy & _).
      assert (gli_windowlist s ≠ heap_next s) as Hne by congruence.
      wp_step. apply post_update_win. state_simpl. intros w Hw.
      rewrite lookup_insert_ne, Hy in Hw by congruence. injection Hw as <-.
      do 2 (wp_step; state_simpl).
      eapply (post_tail_stable Window _ (heap_next s));
        [ unfold gli_stream_open_window; solve [stable_auto]
        | unfold gli_stream_open_window; solve [yields_auto] | ].
      intros s' Hst. right. split; [exact Hp |]. split; [reflexivity |].
      apply (chained_stable _ _ _ _ Hst). cbn [chained] in *. state_simpl.
      match goal with
      | |- context [<[heap_next s := ?v]> (windows s)] =>
          eapply (dll_push _ _ _ _ v); try eassumption; try reflexivity
      end.
      * now lookups.
      * intros q Hq Hq'. now lookups.
      * intros y0 _ Hy0. assert (y0 = y) as -> by congruence.
        eexists. lookups. split; [reflexivity |]. now split.
      * intros Hnull. contradiction.
Qed.

(** With a window its stream is made: it is the head of the list of
    streams. *)
Lemma glk_window_open_chained_streams split method size wintype rock s l :
  chained Stream s l -> fresh Stream s ->
  post (glk_window_open split method size wintype rock s)
    (fun _ s' => chained Stream s' l \/ exists q, chained Stream s' (q :: l))
    (fun _ => True).
Proof.
  intros Hl [Hnext Hfresh].
  assert (heap_next s ≠ NULL) as Hp by (unfold NULL; lia).
  assert (forall s1,
    streams s1 = streams s -> gli_streamlist s1 = gli_streamlist s ->
    heap_next s <= heap_next s1 ->
    post
      ((str <- gli_stream_open_window (heap_next s) ;;
        update_win (heap_next s) (set_win_str str) ;;
        root <- get gli_rootwin ;;
        when (negb (truthy root)) (modify (put_gli_rootwin (heap_next s))) ;;
        w <- load_win (heap_next s) ;;
        json_reset ;;
        json_append (lit "{'type':'update','content':[{'id':" ++ fmt_u (win_id w)
                       ++ lit ",'win':" ++ fmt_u (win_id w)
                       ++ lit ",'op':'create','wintype':" ++ fmt_u wintype
                       ++ lit "}]}") ;;
        json_flush ;;
        ret (heap_next s)) s1)
      (fun _ s' => chained Stream s' l \/ exists q, chained Stream s' (q :: l))
      (fun _ => True)) as Hrest.
  { intros s1 Es Esl Hheap. unfold gli_stream_open_window.
    apply post_bind, post_bind.
    eapply post_mono;
      [ apply (gli_stream_new_chained 0 0 1 0 s1 l)
      | cbv beta | intros; exact I ].
    - cbn [chained] in *. now rewrite Es, Esl.
    - split; [lia |]. intros p Hq. cbn [ids] in *. rewrite Es in Hq.
      specialize (Hfresh p Hq). lia.
    - intros p s2 [[-> Hl2] | (Hne & -> & Hl2)].
      + wp_stable Stream. apply post_ret. wp_stable_end Stream.
        left. eapply chained_stable; [| exact Hl2].
        eapply R_trans; eassumption.
      + wp_stable Stream. apply post_ret. wp_stable_end Stream.
        right. exists (heap_next s1). eapply chained_stable; [| exact Hl2].
        eapply R_trans; eassumption. }
  unfold glk_window_open. wp_step. wp_step.
  - rewrite truthy_NULL. cbn [negb]. wp_step. left.
    cbn [chained] in *. state_simpl. exact Hl.
  - rewrite (truthy_true _ Hp). cbn [negb]. do 8 (wp_step; state_simpl).
    wp_step. wp_step. state_simpl.
    destruct (truthy (gli_windowlist s)); cbn [when].
    + wp_step. wp_step. do 2 (wp_step; state_simpl).
      apply Hrest; state_simpl; reflexivity || lia.
    + wp_step. wp_step. wp_step. state_simpl.
      apply Hrest; state_simpl; reflexivity || lia.
Qed.

(** The file reference [fref] is taken out of the list of file references and freed. *)
Lemma fileref_unlink_returns s l fref x (Q : unit -> State -> Prop) :
  dll (filerefs s) (gli_filereflist s) l -> filerefs s !! fref = Some x ->
  (forall h' l1 l2,
     l = l1 ++ fref :: l2 ->
     dll h' (if decide (fref_prev x = NULL) then fref_next x else gli_filereflist s)
       (l1 ++ l2) ->
     Q tt (put_filerefs h'
             (put_gli_filereflist
                (if decide (fref_prev x = NULL) then fref_next x
                 else gli_filereflist s) s))) ->
  returns
    (((if truthy (fref_prev x)
       then update_fref (fref_prev x) (set_fref_next (fref_next x))
       else modify (put_gli_filereflist (fref_next x))) ;;
      when (truthy (fref_next x))
        (update_fref (fref_next x) (set_fref_prev (fref_prev x))) ;;
      free_fref fref) s) Q.
Proof.
  intros Hdll Hx HQ.
  destruct (dll_neighbours _ _ _ _ _ Hdll Hx) as (Hhead & Hprev & Hnext).
  cbn [link_prev link_next fileref_linked] in *.
  assert (forall h',
    h' !! fref = None ->
    (forall q, is_Some (h' !! q) -> is_Some (filerefs s !! q)) ->
    (forall q, q ≠ fref -> q ≠ fref_prev x -> q ≠ fref_next x ->
       h' !! q = filerefs s !! q) ->
    (forall y, fref_prev x ≠ NULL -> filerefs s !! fref_prev x = Some y ->
       exists y', h' !! fref_prev x = Some y' /\
                  fref_prev y' = fref_prev y /\ fref_next y' = fref_next x) ->
    (forall y, fref_next x ≠ NULL -> filerefs s !! fref_next x = Some y ->
       exists y', h' !! fref_next x = Some y' /\
                  fref_prev y' = fref_prev x /\ fref_next y' = fref_next y) ->
    Q tt (put_filerefs h'
            (put_gli_filereflist
               (if decide (fref_prev x = NULL) then fref_next x
                else gli_filereflist s) s))) as Hend.
  { intros h' H1 H2 H3 H4 H5.
    destruct (dll_unlink _ _ _ _ _ h' _ Hdll Hx H1 H2 H3 H4 H5 eq_refl)
      as (l1 & l2 & Hl & Hdll').
    now apply (HQ h' l1 l2). }
  clear HQ.
  destruct (decide (fref_prev x = NULL)) as [Hp | Hp];
    destruct (decide (fref_next x = NULL)) as [Hn | Hn].
  - rewrite (truthy_false _ Hp), (truthy_false _ Hn). cbn [when].
    apply returns_bind, returns_modify. apply returns_bind, returns_ret.
    eapply returns_free_fref; [exact Hx |]. state_simpl.
    apply Hend;
      [ now lookups
      | intros q Hq; destruct (decide (q = fref)) as [-> | Hne]; [eauto |];
        revert Hq; now lookups
      | intros q ? ? ?; now lookups
      | intros y0 Hy0; contradiction
      | intros z0 Hz0; contradiction ].
  - destruct (Hnext Hn) as ([z Hz] & Hzs).
    rewrite (truthy_false _ Hp), (truthy_true _ Hn). cbn [when].
    apply returns_bind, returns_modify.
    apply returns_bind. eapply returns_update_fref; [exact Hz |].
    eapply returns_free_fref; [state_simpl; lookups; exact Hx |]. state_simpl.
    apply Hend;
      [ now lookups
      | intros q Hq; destruct (decide (q = fref)) as [-> | Hne]; [eauto |];
        destruct (decide (q = fref_next x)) as [-> | Hne']; [eauto |];
        revert Hq; now lookups
      | intros q ? ? ?; now lookups
      | intros y0 Hy0; contradiction
      | intros z0 _ Hz0; exists (set_fref_prev (fref_prev x) z0);
        assert (z0 = z) as -> by congruence; lookups; now repeat split ].
  - destruct (Hprev Hp) as ([y Hy] & Hys & Hyn).
    rewrite (truthy_true _ Hp), (truthy_false _ Hn). cbn [when].
    apply returns_bind. eapply returns_update_fref; [exact Hy |].
    apply returns_bind, returns_ret.
    eapply returns_free_fref; [state_simpl; lookups; exact Hx |]. state_simpl.
    apply Hend;
      [ now lookups
      | intros q Hq; destruct (decide (q = fref)) as [-> | Hne]; [eauto |];
        destruct (decide (q = fref_prev x)) as [-> | Hne']; [eauto |];
        revert Hq; now lookups
      | intros q ? ? ?; now lookups
      | intros y0 _ Hy0; exists (set_fref_next (fref_next x) y0);
        assert (y0 = y) as -> by congruence; lookups; now repeat split
      | intros z0 Hz0; contradiction ].
  - destruct (Hprev Hp) as ([y Hy] & Hys & Hyn).
    destruct (Hnext Hn) as ([z Hz] & Hzs).
    rewrite (truthy_true _ Hp), (truthy_true _ Hn). cbn [when].
    apply returns_bind. eapply returns_update_fref; [exact Hy |].
    apply returns_bind.
    eapply returns_update_fref; [state_simpl; lookups; exact Hz |].
    eapply returns_free_fref; [state_simpl; lookups; exact Hx |]. state_simpl.
    apply Hend;
      [ now lookups
      | intros q Hq; destruct (decide (q = fref)) as [-> | Hne]; [eauto |];
        destruct (decide (q = fref_next x)) as [-> | Hne']; [eauto |];
        destruct (decide (q = fref_prev x)) as [-> | Hne'']; [eauto |];
        revert Hq; now lookups
      | intros q ? ? ?; now lookups
      | intros y0 _ Hy0; exists (set_fref_next (fref_next x) y0);
        assert (y0 = y) as -> by congruence; lookups; now repeat split
      | intros z0 _ Hz0; exists (set_fref_prev (fref_prev x) z0);
        assert (z0 = z) as -> by congruence; lookups; now repeat split ].
Qed.


(** A window is closed: it leaves the list of windows. *)
Lemma glk_window_close_chained win result s l :
  chained Window s l ->
  post (glk_window_close win result s)
    (fun _ s' =>
       (win = NULL /\ chained Window s' l) \/
       (exists l1 l2, l = l1 ++ win :: l2 /\ chained Window s' (l1 ++ l2)))
    (fun _ => True).
Proof.
  intros Hl. unfold glk_window_close.
  destruct (truthy win) eqn:Hwin; cbn [negb].
  2:{ apply post_ret. left. split; [| assumption].
      unfold truthy in Hwin. now apply bool_decide_eq_false, dec_stable in Hwin. }
  apply post_bind, post_load_win. intros w Hw.
  wp_stable Window. wp_stable Window.
  stable_chain Hst.
  destruct (stable_lookup_win _ _ _ _ Hst Hw) as (w' & Hw' & Hp & Hn).
  rewrite <- Hp, <- Hn.
  apply returns_as_post.
  eapply window_unlink_returns;
    [exact (chained_stable _ _ _ _ Hst Hl) | exact Hw' |].
  intros s2 l1 l2 El Hdll _ _ _. right. exists l1, l2. split; [exact El |].
  exact Hdll.
Qed.

(** With a window its stream is closed: it leaves the list of streams. *)
Lemma glk_window_close_chained_streams win result s l :
  chained Stream s l ->
  post (glk_window_close win result s)
    (fun _ s' =>
       chained Stream s' l \/
       (exists l1 q l2, l = l1 ++ q :: l2 /\ chained Stream s' (l1 ++ l2)))
    (fun _ => True).
Proof.
  intros Hl. unfold glk_window_close.
  destruct (truthy win); cbn [negb]; [| apply post_ret; now left].
  apply post_bind, post_load_win. intros w Hw.
  wp_stable Stream.
  destruct (truthy (win_str w)).
  - apply post_bind, post_bind. wp_stable_end Stream.
    stable_chain Hst.
    apply post_bind.
    eapply post_mono;
      [ apply (glk_stream_close_chained _ _ _ l),
          (chained_stable _ _ _ _ Hst Hl)
      | cbv beta | intros; exact I ].
    intros _ s2 Hl2.
    wp_stable_end Stream. wp_stable_end Stream. stable_chain Hst2.
    destruct Hl2 as [[_ Hl2] | (l1 & l2 & El & Hl2)].
    + left. exact (chained_stable _ _ _ _ Hst2 Hl2).
    + right. exists l1, (win_str w), l2. split; [exact El |].
      exact (chained_stable _ _ _ _ Hst2 Hl2).
  - wp_stable Stream. wp_stable_end Stream. stable_chain Hst.
    left. exact (chained_stable _ _ _ _ Hst Hl).
Qed.

(** A file reference is made: it is the head of the list of file
    references; when its name cannot be copied it is freed again. *)
Lemma gli_fileref_new_chained filename usage rock s l :
  chained Fileref s l -> fresh Fileref s ->
  post (gli_fileref_new filename usage rock s)
    (fun p s' =>
       (p = NULL /\ chained Fileref s' l) \/
       (p ≠ NULL /\ p = heap_next s /\ chained Fileref s' (p :: l)))
    (fun _ => True).
Proof.
  intros Hl [Hnext Hfresh].
  assert (heap_next s ≠ NULL) as Hp by (unfold NULL; lia).
  assert (filerefs s !! heap_next s = None) as Hnone.
  { apply eq_None_not_Some. intros [x Hx].
    specialize (Hfresh (heap_next s)). cbn [ids] in Hfresh.
    rewrite lookup_fmap, Hx in Hfresh. specialize (Hfresh ltac:(eauto)). lia. }
  unfold gli_fileref_new. wp_step. wp_step.
  - rewrite truthy_NULL. cbn [negb]. wp_step. left. split; [reflexivity |].
    cbn [chained] in *. state_simpl. exact Hl.
  - rewrite (truthy_true _ Hp). cbn [negb]. do 6 (wp_step; state_simpl).
    wp_step. wp_step; state_simpl.
    + rewrite truthy_NULL. cbn [negb]. wp_step.
      apply post_free_fref. intros x Hx. state_simpl.
      wp_step. left. split; [reflexivity |].
      cbn [chained] in *. state_simpl.
      now rewrite delete_insert_id.
    + rewrite truthy_true by (unfold NULL; lia). cbn [negb].
      do 2 (wp_step; state_simpl).
      apply post_bind, post_update_fref. state_simpl. intros w Hw.
      rewrite lookup_insert_eq in Hw. injection Hw as <-.
      rewrite insert_insert_eq. cbn [set_fref_next].
      destruct (decide (gli_filereflist s = NULL)) as [E | E].
      * rewrite (truthy_false _ E). cbn [when]. do 4 (wp_step; state_simpl).
        right. split; [exact Hp |]. split; [reflexivity |].
        cbn [chained] in *. state_simpl.
        match goal with
        | |- context [<[heap_next s := ?v]> (filerefs s)] =>
            eapply (dll_push _ _ _ _ v); try eassumption; try reflexivity
        end.
        -- now lookups.
        -- intros q Hq _. now lookups.
        -- intros y Hy. contradiction.
        -- intros _. lookups. reflexivity.
      * rewrite (truthy_true _ E). cbn [when].
        destruct (dll_head_live _ _ _ Hl E) as (y & Hy & _).
        assert (gli_filereflist s ≠ heap_next s) as Hne by congruence.
        wp_step. apply post_update_fref. state_simpl. intros w Hw.
        rewrite lookup_insert_ne, Hy in Hw by congruence. injection Hw as <-.
        do 3 (wp_step; state_simpl).
        right. split; [exact Hp |]. split; [reflexivity |].
        cbn [chained] in *. state_simpl.
        match goal with
        | |- context [<[heap_next s := ?v]> (filerefs s)] =>
            eapply (dll_push _ _ _ _ v); try eassumption; try reflexivity
        end.
        -- now lookups.
        -- intros q Hq Hq'. now lookups.
        -- intros y0 _ Hy0. assert (y0 = y) as -> by congruence.
           eexists. lookups. split; [reflexivity |]. now split.
        -- intros Hnull. contradiction.
Qed.

(** A file reference is destroyed: it leaves the list of file
    references. *)
Lemma glk_fileref_destroy_chained fref s l :
  chained Fileref s l ->
  post (glk_fileref_destroy fref s)
    (fun _ s' =>
       (fref = NULL /\ chained Fileref s' l) \/
       (exists l1 l2, l = l1 ++ fref :: l2 /\ chained Fileref s' (l1 ++ l2)))
    (fun _ => True).
Proof.
  intros Hl. unfold glk_fileref_destroy.
  destruct (truthy fref) eqn:Hfref; cbn [negb].
  2:{ apply post_ret. left. split; [| assumption].
      unfold truthy in Hfref. now apply bool_decide_eq_false, dec_stable in Hfref. }
  apply post_bind, post_load_fref. intros x Hx.
  apply returns_as_post.
  eapply fileref_unlink_returns; [exact Hl | exact Hx |].
  intros h' l1 l2 El Hdll. right. exists l1, l2. split; [exact El |].
  cbn [chained]. state_simpl. exact Hdll.
Qed.

(** What is left of a call once the new stream is made keeps the list
    of streams. *)
Lemma stream_made_chained {A} (m : M Z) (k : Z -> M A) s l :
  post (m s)
    (fun p s' =>
       (p = NULL /\ chained Stream s' l) \/
       (p ≠ NULL /\ p = heap_next s /\ chained Stream s' (p :: l)))
    (fun _ => True) ->
  (forall p, keeping (stable Stream) anyhow (k p)) ->
  post (bind m k s)
    (fun _ s' => chained Stream s' l \/ exists q, chained Stream s' (q :: l))
    (fun _ => True).
Proof.
  intros Hm Hk. apply post_bind.
  eapply post_mono; [exact Hm | cbv beta | intros; exact I].
  intros p s1 Hl1.
  apply (post_keeping (stable Stream) anyhow (k p) s1);
    [apply Hk | | intros; exact I].
  intros _ s2 Hst. destruct Hl1 as [[_ Hl1] | (_ & _ & Hl1)].
  - left. exact (chained_stable _ _ _ _ Hst Hl1).
  - right. eexists. exact (chained_stable _ _ _ _ Hst Hl1).
Qed.

Lemma post_stable_neutral {A} k (m : M A) s (Q : A -> State -> Prop) :
  keeping (stable k) anyhow m -> keeping (neutral k) anyhow m ->
  (forall a s', stable k s s' -> neutral k s s' -> Q a s') ->
  post (m s) Q (fun _ => True).
Proof.
  intros H1 H2 HQ. specialize (H1 s). specialize (H2 s).
  destruct (m s); simpl in *; auto.
Qed.

Lemma glk_stream_open_memory_chained buf buflen fmode rock s l :
  chained Stream s l -> fresh Stream s ->
  post (glk_stream_open_memory buf buflen fmode rock s)
    (fun _ s' => chained Stream s' l \/ exists q, chained Stream s' (q :: l))
    (fun _ => True).
Proof.
  intros Hl Hfresh. unfold glk_stream_open_memory.
  destruct (fmode_flags fmode) as [r w].
  apply stream_made_chained; [now apply gli_stream_new_chained |].
  intros p. stable_auto.
Qed.

Lemma glk_stream_open_memory_uni_chained buf buflen fmode rock s l :
  chained Stream s l -> fresh Stream s ->
  post (glk_stream_open_memory_uni buf buflen fmode rock s)
    (fun _ s' => chained Stream s' l \/ exists q, chained Stream s' (q :: l))
    (fun _ => True).
Proof.
  intros Hl Hfresh. unfold glk_stream_open_memory_uni.
  destruct (fmode_flags fmode) as [r w].
  apply stream_made_chained; [now apply gli_stream_new_chained |].
  intros p. stable_auto.
Qed.

Lemma glk_stream_open_file_chained fileref fmode rock s l :
  chained Stream s l -> fresh Stream s ->
  post (glk_stream_open_file fileref fmode rock s)
    (fun _ s' => chained Stream s' l \/ exists q, chained Stream s' (q :: l))
    (fun _ => True).
Proof.
  intros Hl Hfresh. unfold glk_stream_open_file.
  destruct (truthy fileref); cbn [negb]; [| apply post_ret; now left].
  apply post_bind, post_load_fref. intros f Hf.
  assert (forall modestr r w,
    post
      ((file <- fopen (fref_filename f) modestr ;;
        if negb (truthy file) then ret NULL
        else
          str <- gli_stream_new 2 r w rock ;;
          if negb (truthy str) then fclose file ;; ret NULL
          else update_str str (set_str_file file) ;; ret str) s)
      (fun _ s' => chained Stream s' l \/ exists q, chained Stream s' (q :: l))
      (fun _ => True)) as Hopen.
  { intros modestr r w.
    apply post_bind.
    apply (post_stable_neutral Stream);
      [apply stable_fopen | apply neutral_fopen |].
    intros file s1 Hst Hn.
    destruct (truthy file); cbn [negb]; [| apply post_ret; left;
      exact (chained_stable _ _ _ _ Hst Hl)].
    apply stream_made_chained.
    - apply gli_stream_new_chained;
        [exact (chained_stable _ _ _ _ Hst Hl) | exact (fresh_neutral _ _ _ Hfresh Hn)].
    - intros p. stable_auto. }
  repeat case_decide; try apply Hopen. apply post_ret. now left.
Qed.

(** The calls that make a file reference. *)
Lemma fileref_create_chained c s l :
  is_create Fileref c = true ->
  chained Fileref s l -> fresh Fileref s ->
  post (exec c s)
    (fun _ s' => chained Fileref s' l \/ exists q, chained Fileref s' (q :: l))
    (fun _ => True).
Proof.
  intros Hc Hl Hfresh.
  assert (forall filename usage rock s1,
    stable Fileref s s1 -> neutral Fileref s s1 ->
    post (gli_fileref_new filename usage rock s1)
      (fun _ s' => chained Fileref s' l \/ exists q, chained Fileref s' (q :: l))
      (fun _ => True)) as Hnew.
  { intros filename usage rock s1 Hst Hn.
    eapply post_mono;
      [ apply gli_fileref_new_chained;
          [exact (chained_stable _ _ _ _ Hst Hl) | exact (fresh_neutral _ _ _ Hfresh Hn)]
      | cbv beta | intros; exact I ].
    intros p s2 [[_ Hl2] | (_ & _ & Hl2)]; [now left | right; eauto]. }
  destruct c; try discriminate Hc; cbn [exec].
  - unfold glk_fileref_create_temp. wp_step. wp_step.
    apply Hnew; apply R_refl.
  - unfold glk_fileref_create_by_name. destruct name as [a |].
    + apply Hnew; apply R_refl.
    + apply post_ret. now left.
  - unfold glk_fileref_create_by_prompt.
    apply post_bind. apply (post_stable_neutral Fileref); [stable_auto | neutral_auto |].
    intros _ s1 Hs1 Hn1.
    apply post_bind. apply (post_stable_neutral Fileref); [stable_auto | neutral_auto |].
    intros _ s2 Hs2 Hn2.
    apply post_bind. apply (post_stable_neutral Fileref); [stable_auto | neutral_auto |].
    intros _ s3 Hs3 Hn3.
    apply post_bind. apply (post_stable_neutral Fileref); [stable_auto | neutral_auto |].
    intros r s4 Hs4 Hn4.
    assert (stable Fileref s s4) as Hst
      by (repeat (eapply R_trans; [eassumption |]); apply R_refl).
    assert (neutral Fileref s s4) as Hn
      by (repeat (eapply R_trans; [eassumption |]); apply R_refl).
    destruct r as [filename |].
    + now apply Hnew.
    + apply post_ret. left. exact (chained_stable _ _ _ _ Hst Hl).
  - unfold glk_fileref_create_from_fileref.
    destruct (truthy fref); cbn [negb]; [| apply post_ret; now left].
    apply post_bind, post_load_fref. intros f Hf.
    apply Hnew; apply R_refl.
Qed.

(** One call, and the list of a kind. *)
Lemma exec_chained k c s l :
  chained k s l -> fresh k s ->
  post (exec c s) (fun _ s' => exists l', chained k s' l') (fun _ => True).
Proof.
  intros Hl Hfresh.
  destruct (is_create k c) eqn:Hc; [| destruct (is_destroy k c) eqn:Hd].
  - destruct k.
    + destruct c; try discriminate Hc; cbn [exec].
      eapply post_mono;
        [ apply (glk_window_open_chained _ _ _ _ _ _ l); assumption
        | cbv beta | intros; exact I ].
      intros p s' [[_ Hl'] | (_ & _ & Hl')]; eauto.
    + destruct c; try discriminate Hc; cbn [exec];
        (eapply post_mono;
         [ first [ apply (glk_window_open_chained_streams _ _ _ _ _ _ l)
                 | apply (glk_stream_open_file_chained _ _ _ _ l)
                 | apply (glk_stream_open_memory_chained _ _ _ _ _ l)
                 | apply (glk_stream_open_memory_uni_chained _ _ _ _ _ l) ];
           assumption
         | cbv beta | intros; exact I ]);
        intros p s' [Hl' | [q Hl']]; eauto.
    + eapply post_mono;
        [ apply (fileref_create_chained c s l); assumption
        | cbv beta | intros; exact I ].
      intros p s' [Hl' | [q Hl']]; eauto.
  - destruct k; destruct c; try discriminate Hd; cbn [exec]; unfold void;
      apply post_bind;
      (eapply post_mono;
       [ first [ apply (glk_window_close_chained _ _ _ l); assumption
               | apply (glk_window_close_chained_streams _ _ _ l); assumption
               | apply (glk_stream_close_chained _ _ _ l); assumption
               | apply (glk_fileref_destroy_chained _ _ l); assumption ]
       | cbv beta | intros; exact I ]);
      intros _ s' Hl'; apply post_ret.
    + destruct Hl' as [[_ Hl'] | (l1 & l2 & _ & Hl')]; eauto.
    + destruct Hl' as [Hl' | (l1 & q & l2 & _ & Hl')]; eauto.
    + destruct Hl' as [[_ Hl'] | (l1 & l2 & _ & Hl')]; eauto.
    + destruct Hl' as [[_ Hl'] | (l1 & l2 & _ & Hl')]; eauto.
  - apply (post_keeping (stable k) anyhow (exec c) s);
      [now apply stable_exec | | intros; exact I].
    intros _ s' Hst. exists l. exact (chained_stable _ _ _ _ Hst Hl).
Qed.

(** One call keeps the three lists and the heap in order. *)
Lemma exec_well_formed c s :
  (forall k, fresh k s /\ exists l, chained k s l) ->
  post (exec c s)
    (fun _ s' => forall k, fresh k s' /\ exists l, chained k s' l)
    (fun _ => True).
Proof.
  intros Hwf.
  destruct (exec c s) as [r s' | s' |] eqn:E; simpl; [| exact I | exact I].
  intros k. destruct (Hwf k) as [Hfresh [l Hl]]. split.
  - pose proof (post_Ret _ _ _ _ _ _ E (exec_effect k c s Hfresh)) as Hstep.
    cbv beta in Hstep. exact (proj1 (step_live _ _ _ _ _ Hfresh Hstep)).
  - exact (post_Ret _ _ _ _ _ _ E (exec_chained k c s l Hl Hfresh)).
Qed.

Lemma run_well_formed cs : forall s,
  (forall k, fresh k s /\ exists l, chained k s l) ->
  post (run cs s)
    (fun _ s' => forall k, fresh k s' /\ exists l, chained k s' l)
    (fun _ => True).
Proof.
  induction cs as [| c cs IH]; intros s Hwf; simpl.
  - exact Hwf.
  - apply post_bind.
    eapply post_mono; [apply exec_well_formed, Hwf | cbv beta | intros; exact I].
    intros r s1 Hwf1. apply post_bind.
    eapply post_mono; [apply IH, Hwf1 | cbv beta | intros; exact I].
    intros rs s2 Hwf2. exact Hwf2.
Qed.

Lemma initial_state_well_formed input script disk k :
  fresh k (initial_state input script disk) /\
  chained k (initial_state input script disk) [].
Proof.
  split.
  - apply (ordered_initial_state k input script disk).
  - destruct k; cbn [chained]; simpl; apply dll_empty.
Qed.

End WellFormed.

(** ** Walking through the live objects *)

(** The windows that a walk with [glk_window_iterate] goes through, from
    the window after [cur] on. *)
Fixpoint window_walk `{glk_h} (fuel : nat) (cur : Z) : M (list Z) :=
  match fuel with
  | O => ret []
  | S fuel' =>
      next <- glk_window_iterate cur NULL ;;
      if truthy next then rest <- window_walk fuel' next ;; ret (next :: rest)
      else ret []
  end.

(** The file references that a walk with [glk_fileref_iterate] goes
    through, from the one after [cur] on. *)
Fixpoint fileref_walk `{glk_h} (fuel : nat) (cur : Z) : M (list Z) :=
  match fuel with
  | O => ret []
  | S fuel' =>
      next <- glk_fileref_iterate cur NULL ;;
      if truthy next then rest <- fileref_walk fuel' next ;; ret (next :: rest)
      else ret []
  end.

(** The three lists are in order: each of them is a doubly-linked list
    of the live objects of its kind, every one of them once, and the
    live objects lie below the next address of the heap. *)
Definition well_formed (s : State) : Prop :=
  forall k, fresh k s /\ exists l, chained k s l.

Lemma load_fref_Some s p x : filerefs s !! p = Some x -> load_fref p s = Ret x s.
Proof. intros E. unfold load_fref. now rewrite E. Qed.

Lemma dll_size {T} `{Linked T} (h : gmap Z T) head l :
  dll h head l -> length l = size h.
Proof.
  intros Hdll. pose proof Hdll as (Hl & Hnd & Hlive).
  rewrite <- size_dom. unfold size, set_size. cbn.
  apply Permutation_length, NoDup_Permutation; [assumption | apply NoDup_elements |].
  intros p. rewrite elem_of_elements, elem_of_dom. split.
  - now apply (dll_lookup _ _ _ _ Hdll).
  - apply Hlive.
Qed.

Section Walks.
Context `{glk_h}.

Lemma window_walk_dlseg s : forall l prev p cur,
  dlseg (windows s) prev p l NULL ->
  (cur = NULL /\ p = gli_windowlist s
   \/ exists c, cur ≠ NULL /\ windows s !! cur = Some c /\ win_next c = p) ->
  window_walk (S (length l)) cur s = Ret l s.
Proof.
  induction l as [| q l IH]; intros prev p cur Hl Hcur.
  - simpl in Hl. subst p. cbn [length window_walk].
    unfold glk_window_iterate.
    destruct Hcur as [[-> Hhead] | (c & Hne & Hc & Hnext)].
    + rewrite truthy_NULL. cbn [negb]. rewrite bind_assoc, bind_get.
      rewrite <- Hhead, truthy_NULL. reflexivity.
    + rewrite (truthy_true _ Hne). cbn [negb].
      rewrite bind_assoc, bind_assoc.
      rewrite (bind_Ret _ _ _ _ _ (load_win_Some _ _ _ Hc)), bind_ret.
      rewrite Hnext, truthy_NULL. reflexivity.
  - destruct Hl as (-> & Hq & x & Hx & Hprev & Hl).
    change (window_walk (S (length (q :: l))) cur s)
      with ((next <- glk_window_iterate cur NULL ;;
             if truthy next
             then rest <- window_walk (S (length l)) next ;; ret (next :: rest)
             else ret []) s).
    assert (glk_window_iterate cur NULL s = Ret q s) as Hit.
    { unfold glk_window_iterate.
      destruct Hcur as [[-> Hhead] | (c & Hne & Hc & Hnext)].
      - rewrite truthy_NULL. cbn [negb]. rewrite bind_get.
        rewrite <- Hhead, andb_false_r. reflexivity.
      - rewrite (truthy_true _ Hne). cbn [negb]. rewrite bind_assoc.
        rewrite (bind_Ret _ _ _ _ _ (load_win_Some _ _ _ Hc)), bind_ret.
        rewrite Hnext, truthy_NULL, andb_false_r. reflexivity. }
    rewrite (bind_Ret _ _ _ _ _ Hit), (truthy_true _ Hq).
    rewrite (bind_Ret _ _ _ _ _ (IH q (link_next x) q Hl
               ltac:(right; exists x; auto))).
    reflexivity.
Qed.

(** A walk through the windows meets the windows of the list, in order. *)
Lemma window_walk_dll s l :
  dll (windows s) (gli_windowlist s) l ->
  window_walk (S (length l)) NULL s = Ret l s.
Proof.
  intros (Hl & _). apply (window_walk_dlseg s l NULL (gli_windowlist s)); auto.
Qed.

Lemma fileref_walk_dlseg s : forall l prev p cur,
  dlseg (filerefs s) prev p l NULL ->
  (cur = NULL /\ p = gli_filereflist s
   \/ exists c, cur ≠ NULL /\ filerefs s !! cur = Some c /\ fref_next c = p) ->
  fileref_walk (S (length l)) cur s = Ret l s.
Proof.
  induction l as [| q l IH]; intros prev p cur Hl Hcur.
  - simpl in Hl. subst p. cbn [length fileref_walk].
    unfold glk_fileref_iterate.
    destruct Hcur as [[-> Hhead] | (c & Hne & Hc & Hnext)].
    + rewrite truthy_NULL. cbn [negb]. rewrite bind_assoc, bind_get.
      rewrite <- Hhead, truthy_NULL. reflexivity.
    + rewrite (truthy_true _ Hne). cbn [negb].
      rewrite bind_assoc, bind_assoc.
      rewrite (bind_Ret _ _ _ _ _ (load_fref_Some _ _ _ Hc)), bind_ret.
      rewrite Hnext, truthy_NULL. reflexivity.
  - destruct Hl as (-> & Hq & x & Hx & Hprev & Hl).
    change (fileref_walk (S (length (q :: l))) cur s)
      with ((next <- glk_fileref_iterate cur NULL ;;
             if truthy next
             then rest <- fileref_walk (S (length l)) next ;; ret (next :: rest)
             else ret []) s).
    assert (glk_fileref_iterate cur NULL s = Ret q s) as Hit.
    { unfold glk_fileref_iterate.
      destruct Hcur as [[-> Hhead] | (c & Hne & Hc & Hnext)].
      - rewrite truthy_NULL. cbn [negb]. rewrite bind_get.
        rewrite <- Hhead, andb_false_r. reflexivity.
      - rewrite (truthy_true _ Hne). cbn [negb]. rewrite bind_assoc.
        rewrite (bind_Ret _ _ _ _ _ (load_fref_Some _ _ _ Hc)), bind_ret.
        rewrite Hnext, truthy_NULL, andb_false_r. reflexivity. }
    rewrite (bind_Ret _ _ _ _ _ Hit), (truthy_true _ Hq).
    rewrite (bind_Ret _ _ _ _ _ (IH q (link_next x) q Hl
               ltac:(right; exists x; auto))).
    reflexivity.
Qed.

(** A walk through the filerefs meets the filerefs of the list, in order. *)
Lemma fileref_walk_dll s l :
  dll (filerefs s) (gli_filereflist s) l ->
  fileref_walk (S (length l)) NULL s = Ret l s.
Proof.
  intros (Hl & _). apply (fileref_walk_dlseg s l NULL (gli_filereflist s)); auto.
Qed.


Lemma lists_kept_run (cs : list call) (input : list ascii) (script : list bool)
    (disk : gmap (list ascii) (list ascii)) :
  post (run cs (initial_state input script disk))
    (fun _ s => well_formed s) (fun _ => True).
Proof.
  apply run_well_formed. intros k.
  destruct (initial_state_well_formed input script disk k) as [Hf Hl]. eauto.
Qed.

(** X3: after any calls of the engine from the start of the process, the
    three lists of the library are in order: the list of windows, the
    list of streams and the list of file references are doubly-linked
    lists, from their heads, of exactly the live objects of their kind,
    each of them once. *)
Theorem lists_kept (cs : list call) (input : list ascii) (script : list bool)
    (disk : gmap (list ascii) (list ascii)) :
  post (run cs (initial_state input script disk))
    (fun _ s => well_formed s) (fun _ => True).
Proof. apply lists_kept_run. Qed.

(** X4: after any calls of the engine from the start of the process, a
    walk with [glk_window_iterate] from the null window to the null
    window meets every live window once and nothing else, and so do the
    walks with [glk_stream_iterate] and [glk_fileref_iterate] for the
    streams and the file references; the walks change nothing. *)
Theorem iteration_meets_live (cs : list call) (input : list ascii)
    (script : list bool) (disk : gmap (list ascii) (list ascii)) :
  post (run cs (initial_state input script disk))
    (fun _ s =>
       (exists l, window_walk (S (size (windows s))) NULL s = Ret l s /\
                  NoDup l /\ forall p, p ∈ l <-> is_Some (windows s !! p)) /\
       (exists l, stream_walk (S (size (streams s))) NULL s = Ret l s /\
                  NoDup l /\ forall p, p ∈ l <-> is_Some (streams s !! p)) /\
       (exists l, fileref_walk (S (size (filerefs s))) NULL s = Ret l s /\
                  NoDup l /\ forall p, p ∈ l <-> is_Some (filerefs s !! p)))
    (fun _ => True).
Proof.
  eapply post_mono;
    [apply (lists_kept_run cs input script disk) | cbv beta | intros; exact I].
  intros _ s Hwf.
  destruct (Hwf Window) as [_ [lw Hlw]].
  destruct (Hwf Stream) as [_ [ls Hls]].
  destruct (Hwf Fileref) as [_ [lf Hlf]].
  cbn [chained] in *.
  split; [| split].
  - exists lw. rewrite <- (dll_size _ _ _ Hlw).
    split; [now apply window_walk_dll |]. split; [apply Hlw |].
    intros p. split; [apply (dll_lookup _ _ _ _ Hlw) | apply Hlw].
  - exists ls. rewrite <- (dll_size _ _ _ Hls).
    split; [now apply stream_walk_dll |]. split; [apply Hls |].
    intros p. split; [apply (dll_lookup _ _ _ _ Hls) | apply Hls].
  - exists lf. rewrite <- (dll_size _ _ _ Hlf).
    split; [now apply fileref_walk_dll |]. split; [apply Hlf |].
    intros p. split; [apply (dll_lookup _ _ _ _ Hlf) | apply Hlf].
Qed.

End Walks.

(** ** Memory streams, from the opening to the closing *)

Section MemoryOpen.
Context `{glk_h}.

(** The stream that [gli_stream_new] makes. *)
Lemma gli_stream_new_fields t r w rock s :
  post (gli_stream_new t r w rock s)
    (fun str s' =>
       mem s' = mem s /\ results s' = results s /\ stdout s' = stdout s /\
       stdin s' = stdin s /\ gli_currentstr s' = gli_currentstr s /\
       windows s' = windows s /\
       (str ≠ NULL ->
        exists x, streams s' !! str = Some x /\
          str_type x = t /\ str_readable x = r /\ str_writable x = w /\
          str_rock x = rock /\ str_buf x = NULL /\ str_buflen x = 0 /\
          str_bufptr x = 0 /\ str_file x = NULL /\ str_win x = NULL /\
          str_readcount x = 0 /\ str_writecount x = 0))
    (fun _ => True).
Proof.
  unfold gli_stream_new. wp_step. wp_step; state_simpl.
  - rewrite truthy_NULL. cbn [negb]. wp_step. state_simpl.
    do 6 (split; [reflexivity |]). intros Hne. now contradiction Hne.
  - destruct (truthy (heap_next s)) eqn:Hp; cbn [negb].
    2:{ wp_step. state_simpl. do 6 (split; [reflexivity |]).
        intros Hne. now contradiction Hne. }
    do 8 (wp_step; state_simpl).
    apply post_bind, post_update_str. state_simpl. intros x Hx.
    rewrite lookup_insert_eq in Hx. injection Hx as <-.
    rewrite insert_insert_eq. cbn [set_str_next].
    wp_step. wp_step; state_simpl.
    + apply post_update_str. state_simpl. intros y Hy. do 3 (wp_step; state_simpl).
      do 6 (split; [reflexivity |]). intros _.
      destruct (decide (gli_streamlist s = heap_next s)) as [E | E].
      * rewrite E in *. rewrite lookup_insert_eq in Hy. injection Hy as <-.
        eexists. rewrite lookup_insert_eq. split; [reflexivity |].
        cbn. repeat split.
      * eexists. lookups.
        split; [reflexivity |]. cbn. repeat split.
    + wp. state_simpl.
      do 6 (split; [reflexivity |]). intros _.
      eexists. rewrite lookup_insert_eq. split; [reflexivity |].
      cbn. repeat split.
Qed.

(** The stream that [glk_stream_open_memory] makes. *)
Lemma glk_stream_open_memory_fields buf buflen fmode rock s :
  post (glk_stream_open_memory buf buflen fmode rock s)
    (fun str s' =>
       mem s' = mem s /\ results s' = results s /\ stdout s' = stdout s /\
       stdin s' = stdin s /\ gli_currentstr s' = gli_currentstr s /\
       windows s' = windows s /\
       (str ≠ NULL ->
        exists x, streams s' !! str = Some x /\
          str_type x = 1 /\ str_readable x = fst (fmode_flags fmode) /\
          str_writable x = snd (fmode_flags fmode) /\
          str_rock x = rock /\ str_buf x = buf /\ str_buflen x = buflen /\
          str_bufptr x = 0 /\ str_file x = NULL /\ str_win x = NULL /\
          str_readcount x = 0 /\ str_writecount x = 0))
    (fun _ => True).
Proof.
  unfold glk_stream_open_memory.
  destruct (fmode_flags fmode) as [r w]. cbn [fst snd].
  apply post_bind.
  eapply post_mono; [apply gli_stream_new_fields | cbv beta | intros; exact I].
  intros str s1 (Em & Er & Eo & Ei & Ec & Ew & Hx).
  destruct (truthy str) eqn:Hstr; cbn [negb].
  2:{ apply post_ret. do 6 (split; [assumption |]). intros Hne. now contradiction Hne. }
  destruct Hx as (x & Hx & Ht & Hr & Hwr & Hro & _ & _ & _ & Hf & Hwin & Hrc & Hwc).
  { intros ->. now rewrite truthy_NULL in Hstr. }
  apply post_bind, post_update_str. intros x1 Hx1. state_simpl.
  assert (x1 = x) as -> by congruence.
  apply post_bind, post_update_str. state_simpl. intros x2 Hx2.
  rewrite lookup_insert_eq in Hx2. injection Hx2 as <-.
  apply post_bind, post_update_str. state_simpl. intros x3 Hx3.
  rewrite lookup_insert_eq in Hx3. injection Hx3 as <-.
  apply post_bind, post_update_str. state_simpl. intros x4 Hx4.
  rewrite lookup_insert_eq in Hx4. injection Hx4 as <-.
  apply post_ret. state_simpl.
  do 6 (split; [assumption |]). intros _.
  eexists. rewrite lookup_insert_eq. split; [reflexivity |].
  cbn. repeat split; assumption.
Qed.

(** A stream that cannot be written takes nothing. *)
Lemma put_chars_not_writable str x text : forall s,
  streams s !! str = Some x -> str_writable x = 0 ->
  gli_put_chars str text s = Ret tt s.
Proof.
  induction text as [| ch text IH]; intros s Hx Hw; [reflexivity |].
  cbn [gli_put_chars]. unfold gli_put_char_to_stream at 1.
  destruct (truthy str); cbn [negb].
  - rewrite bind_assoc, (bind_Ret _ _ _ _ _ (load_str_Some _ _ _ Hx)).
    rewrite (truthy_false _ Hw). cbn [negb]. rewrite bind_ret. now apply IH.
  - rewrite bind_ret. now apply IH.
Qed.

(** X5: a stream opened by [glk_stream_open_memory] can be read in the
    modes [filemode_Read] and [filemode_ReadWrite] and written in the
    modes [filemode_Write] and [filemode_ReadWrite], and in no other:
    in any other mode than the two that write, [glk_put_char_stream],
    [glk_put_string_stream] and [glk_put_buffer_stream] return and
    change nothing, neither the buffer nor the counters; in any other
    mode than the two that read, [glk_get_char_stream] returns -1 and
    changes nothing.  A memory stream opened with [filemode_WriteAppend]
    can be neither read nor written. *)
Theorem memory_stream_access_modes (buf buflen fmode rock : Z) (s : State)
    (str : Z) (s1 : State) :
  glk_stream_open_memory buf buflen fmode rock s = Ret str s1 -> str ≠ NULL ->
  (fmode ≠ filemode_Write -> fmode ≠ filemode_ReadWrite ->
   (forall ch, glk_put_char_stream str ch s1 = Ret tt s1) /\
   (forall text, glk_put_string_stream str text s1 = Ret tt s1) /\
   (forall data len, Z.of_nat (length data) >= len ->
      glk_put_buffer_stream str (Some data) len s1 = Ret tt s1)) /\
  (fmode ≠ filemode_Read -> fmode ≠ filemode_ReadWrite ->
   glk_get_char_stream str s1 = Ret (-1) s1).
Proof.
  intros Hopen Hstr.
  pose proof (post_Ret _ _ _ _ _ _ Hopen
                (glk_stream_open_memory_fields buf buflen fmode rock s)) as Hf.
  cbv beta in Hf. destruct Hf as (_ & _ & _ & _ & _ & _ & Hx).
  destruct (Hx Hstr) as (x & Hx1 & _ & Hr & Hw & _). clear Hx.
  split.
  - intros H1 H2.
    assert (str_writable x = 0) as Hw0.
    { rewrite Hw. unfold fmode_flags. repeat case_decide; try reflexivity; congruence. }
    split; [| split].
    + intros ch. unfold glk_put_char_stream.
      pose proof (put_chars_not_writable str x [ch] s1 Hx1 Hw0) as E.
      cbn [gli_put_chars] in E. unfold bind in E.
      destruct (gli_put_char_to_stream str ch s1) as [[] s2 | s2 |];
        [| discriminate E | discriminate E].
      exact E.
    + intros [a |]; cbn [glk_put_string_stream]; [| reflexivity].
      now apply (put_chars_not_writable str x).
    + intros data len Hlen. cbn [glk_put_buffer_stream].
      rewrite decide_False by lia. now apply (put_chars_not_writable str x).
  - intros H1 H2.
    assert (str_readable x = 0) as Hr0.
    { rewrite Hr. unfold fmode_flags. repeat case_decide; try reflexivity; congruence. }
    unfold glk_get_char_stream. rewrite (truthy_true _ Hstr). cbn [negb].
    rewrite (bind_Ret _ _ _ _ _ (load_str_Some _ _ _ Hx1)).
    rewrite (truthy_false _ Hr0). reflexivity.
Qed.

(** A stream without a file is closed, and its counters reported. *)
Lemma glk_stream_close_report s l str x result :
  str ≠ NULL -> dll (streams s) (gli_streamlist s) l ->
  streams s !! str = Some x -> str_file x = NULL -> result ≠ NULL ->
  exists s',
    glk_stream_close str result s = Ret tt s' /\
    results s' = <[result := Build_result (str_readcount x) (str_writecount x)]>
                   (results s) /\
    streams s' !! str = None /\ mem s' = mem s /\ stdout s' = stdout s /\
    exists l1 l2, l = l1 ++ str :: l2 /\
                  dll (streams s') (gli_streamlist s') (l1 ++ l2).
Proof.
  intros Hstr Hdll Hx Hfile Hres.
  assert (returns (glk_stream_close str result s)
            (fun _ s' =>
               results s' = <[result := Build_result (str_readcount x) (str_writecount x)]>
                              (results s) /\
               streams s' !! str = None /\ mem s' = mem s /\ stdout s' = stdout s /\
               exists l1 l2, l = l1 ++ str :: l2 /\
                             dll (streams s') (gli_streamlist s') (l1 ++ l2))) as Hr.
  { unfold glk_stream_close.
    rewrite (truthy_true _ Hstr). cbn [negb].
    apply returns_bind. eapply returns_load_str; [exact Hx |].
    rewrite (truthy_true _ Hres), (truthy_false _ Hfile). cbn [when].
    apply returns_bind. unfold store_result. apply returns_modify.
    apply returns_bind, returns_ret.
    apply returns_bind, returns_get. state_simpl.
    assert (forall (h' : gmap Z glk_stream_struct) head' l1 l2,
      l = l1 ++ str :: l2 -> dll h' head' (l1 ++ l2) -> h' !! str = None) as Hgone.
    { intros h' head' l1 l2 Hl Hdll'.
      apply eq_None_not_Some. intros Hlive.
      apply (proj2 (proj2 Hdll')) in Hlive.
      destruct Hdll as (_ & Hnd & _). rewrite Hl in Hnd.
      apply NoDup_app in Hnd as (_ & Hdisj & Hnd2).
      apply NoDup_cons in Hnd2 as [Hnot _].
      apply elem_of_app in Hlive as [Hin | Hin];
        [apply (Hdisj _ Hin); left | contradiction]. }
    destruct (bool_decide (gli_currentstr s = str)); cbn [when];
      (apply returns_bind; [apply returns_modify || apply returns_ret]);
      (eapply stream_unlink_returns; [exact Hdll | exact Hx |]);
      intros h' l1 l2 Hl Hdll'; state_simpl;
      (split; [reflexivity |]);
      (split; [exact (Hgone _ _ _ _ Hl Hdll') |]);
      (split; [reflexivity |]); (split; [reflexivity |]);
      exists l1, l2; (split; [exact Hl | exact Hdll']). }
  apply returns_Ret in Hr as ([] & s' & E & Hs'). eauto.
Qed.

(** X6: a memory stream is opened for writing on a buffer of capacity
    [buflen], [data] is put to it and it is closed: the calls return,
    the buffer holds the first [buflen] characters of [data] and nothing
    else was stored, the result of the close reports as write count the
    number of characters put (a [glui32]), those that did not fit
    included, and as read count 0, nothing was printed, and the stream
    is live no more. *)
Theorem memory_stream_written_and_closed (buf buflen rock result : Z)
    (data : list ascii) (s : State) (str : Z) (s1 : State) :
  well_formed s ->
  glk_stream_open_memory buf buflen filemode_Write rock s = Ret str s1 ->
  str ≠ NULL -> buf ≠ NULL -> 0 <= buflen < 2 ^ 32 -> result ≠ NULL ->
  exists s2 s3,
    glk_put_buffer_stream str (Some data) (Z.of_nat (length data)) s1 = Ret tt s2 /\
    glk_stream_close str result s2 = Ret tt s3 /\
    results s3 !! result
    = Some (Build_result 0 (wrap32 (Z.of_nat (length data)))) /\
    mem s3 = write_bytes buf (take (Z.to_nat buflen) data) (mem s) /\
    stdout s3 = stdout s /\ streams s3 !! str = None.
Proof.
  intros Hwf Hopen Hstr Hbuf Hlen Hres.
  destruct (Hwf Stream) as [Hfresh [l Hl]].
  pose proof (post_Ret _ _ _ _ _ _ Hopen
                (glk_stream_open_memory_fields buf buflen filemode_Write rock s)) as Hf.
  cbv beta in Hf. destruct Hf as (Em & _ & Eo & _ & _ & _ & Hx).
  destruct (Hx Hstr) as (x & Hx1 & Ht & _ & Hw & _ & Hb & Hbl & Hp & Hfile & _ & Hrc & Hwc).
  clear Hx.
  pose proof (post_Ret _ _ _ _ _ _ Hopen
                (glk_stream_open_memory_chained buf buflen filemode_Write rock s l Hl Hfresh))
    as Hl1. cbv beta in Hl1.
  assert (exists l1, chained Stream s1 l1) as [l1 Hl1'] by (destruct Hl1 as [? | [q ?]]; eauto).
  clear Hl1.
  assert (str_writable x ≠ 0) as Hw1.
  { rewrite Hw. unfold fmode_flags.
    pose proof (NoDup_distinct _ filemode_labels) as L. simpl in L.
    repeat case_decide; simpl; try lia; intuition congruence. }
  destruct (put_chars_memory str data s1 x Hstr Hx1 Hw1 Ht)
    as (s2 & E2 & O2 & S2 & M2).
  { rewrite Hb. exact Hbuf. }
  { rewrite Hp, Hbl. lia. }
  { rewrite Hbl. lia. }
  { rewrite Hwc. lia. }
  rewrite Hp, Hbl, Hb, Hwc, Z.add_0_l, Z.add_0_r, Z.sub_0_r in *.
  pose proof (stable_gli_put_chars Stream str data s1) as Hst.
  rewrite E2 in Hst. simpl in Hst.
  pose proof (chained_stable _ _ _ _ Hst Hl1') as Hl2. cbn [chained] in Hl2.
  set (x2 := set_str_bufptr _ _) in S2.
  destruct (glk_stream_close_report s2 l1 str x2 result)
    as (s3 & E3 & R3 & N3 & M3 & O3 & _); try assumption.
  { rewrite S2. apply lookup_insert_eq. }
  exists s2, s3. split; [| split; [exact E3 |]].
  - cbn [glk_put_buffer_stream]. rewrite decide_False by lia.
    rewrite Nat2Z.id, firstn_all. exact E2.
  - rewrite R3, lookup_insert_eq. subst x2. cbn. rewrite Hrc.
    split; [reflexivity |]. split; [congruence |]. split; [congruence | exact N3].
Qed.

End MemoryOpen.

(** ** The current stream *)

(** The current stream stays as it is. *)
Definition same_current (s s' : State) : Prop :=
  gli_currentstr s' = gli_currentstr s.

#[global] Instance same_current_keeps : Keeps same_current anyhow.
Proof.
  split; unfold same_current, anyhow; [reflexivity | congruence | trivial].
Qed.

Ltac same_current_side := intros; unfold same_current; state_simpl; reflexivity.

Ltac same_current_auto :=
  unfold update_win, new_win, free_win, update_str, new_str, free_str,
    store_result, fclose;
  repeat (keeping_step same_current_side).

Ltac wp_current :=
  lazymatch goal with
  | |- post (bind ?m _ ?s) _ _ =>
      let Hs := fresh "Hc" in
      apply post_bind;
      apply (post_keeping same_current anyhow m s);
      [ solve [same_current_auto] | intros ? ? Hs | intros ? _; exact I ]
  | |- post (?m ?s) _ _ =>
      let Hs := fresh "Hc" in
      apply (post_keeping same_current anyhow m s);
      [ solve [same_current_auto] | intros ? ? Hs | intros ? _; exact I ]
  end; cbv beta.

Section Current.
Context `{glk_h}.

(** Closing a stream that is the current stream leaves no current
    stream; closing another one leaves the current stream as it is. *)
Lemma glk_stream_close_current str result s :
  str ≠ NULL ->
  post (glk_stream_close str result s)
    (fun _ s' =>
       gli_currentstr s'
       = if decide (gli_currentstr s = str) then NULL else gli_currentstr s)
    (fun _ => True).
Proof.
  intros Hstr. unfold glk_stream_close.
  rewrite (truthy_true _ Hstr). cbn [negb].
  apply post_bind, post_load_str. intros x Hx.
  wp_current. wp_current. apply post_bind, post_get.
  unfold same_current in *.
  case_bool_decide as Hcur; cbn [when].
  - apply post_bind, post_modify. repeat wp_current.
    unfold same_current in *. state_simpl.
    rewrite decide_True by congruence. congruence.
  - apply post_bind, post_ret. repeat wp_current.
    unfold same_current in *.
    rewrite decide_False by congruence. congruence.
Qed.

Lemma glk_window_close_current win result s w :
  win ≠ NULL -> windows s !! win = Some w -> win_str w ≠ NULL ->
  post (glk_window_close win result s)
    (fun _ s' =>
       gli_currentstr s'
       = if decide (gli_currentstr s = win_str w) then NULL else gli_currentstr s)
    (fun _ => True).
Proof.
  intros Hwin Hw Hstr. unfold glk_window_close.
  rewrite (truthy_true _ Hwin). cbn [negb].
  apply post_bind, post_load_win. intros w' Hw'.
  assert (w' = w) as -> by congruence.
  wp_current. rewrite (truthy_true _ Hstr).
  apply post_bind, post_bind. wp_current.
  apply post_bind.
  eapply post_mono;
    [apply glk_stream_close_current, Hstr | cbv beta | intros; exact I].
  intros _ s2 E2. repeat wp_current.
  unfold same_current in *.
  match type of E2 with
  | context [decide (gli_currentstr ?s0 = _)] =>
      replace (gli_currentstr s0) with (gli_currentstr s) in E2 by congruence
  end.
  congruence.
Qed.

(** Nothing goes to the null stream. *)
Lemma put_chars_null text s : gli_put_chars NULL text s = Ret tt s.
Proof.
  induction text as [| ch text IH]; [reflexivity |].
  cbn [gli_put_chars]. unfold gli_put_char_to_stream at 1.
  rewrite truthy_NULL. cbn [negb]. now rewrite bind_ret.
Qed.

(** X7: when the current stream is closed, by [glk_stream_close] or with
    its window by [glk_window_close], there is no current stream
    afterwards: [glk_put_char] and [glk_put_string] then return without
    printing a frame or changing anything.  Closing another stream
    leaves the current stream as it is. *)
Theorem closed_stream_not_current (s s' : State) (str result : Z) :
  str ≠ NULL ->
  glk_stream_close str result s = Ret tt s' \/
  (exists win w, win ≠ NULL /\ windows s !! win = Some w /\ win_str w = str /\
                 glk_window_close win result s = Ret tt s') ->
  (gli_currentstr s ≠ str -> gli_currentstr s' = gli_currentstr s) /\
  (gli_currentstr s = str ->
   gli_currentstr s' = NULL /\
   (forall ch, glk_put_char ch s' = Ret tt s') /\
   (forall text, glk_put_string text s' = Ret tt s')).
Proof.
  intros Hstr Hclose.
  assert (gli_currentstr s'
          = if decide (gli_currentstr s = str) then NULL else gli_currentstr s) as E.
  { destruct Hclose as [Hc | (win & w & Hwin & Hw & <- & Hc)].
    - exact (post_Ret _ _ _ _ _ _ Hc (glk_stream_close_current str result s Hstr)).
    - exact (post_Ret _ _ _ _ _ _ Hc
               (glk_window_close_current win result s w Hwin Hw Hstr)). }
  split.
  - intros Hne. now rewrite decide_False in E.
  - intros Heq. rewrite decide_True in E by assumption.
    split; [exact E |]. split.
    + intros ch. unfold glk_put_char. rewrite bind_get, E.
      pose proof (put_chars_null [ch] s') as Hn.
      cbn [gli_put_chars] in Hn. unfold bind in Hn.
      destruct (gli_put_char_to_stream NULL ch s') as [[] s2 | s2 |];
        [exact Hn | discriminate Hn | discriminate Hn].
    + intros text. unfold glk_put_string. rewrite bind_get, E.
      destruct text as [a |]; cbn [glk_put_string_stream]; [| reflexivity].
      apply put_chars_null.
Qed.

End Current.

(** *** Examples for the memory streams and the current stream *)

(** A memory stream of capacity 4 at the address 1000, opened with
    [filemode_WriteAppend]. *)
Definition memory_appending : State :=
  final_state
    (run [Call_stream_open_memory 1000 4 filemode_WriteAppend 0]
       (initial_state [] [] ∅)).

(** A memory stream of capacity 4 at the address 1000, for writing. *)
Definition memory_writing : State :=
  final_state
    (run [Call_stream_open_memory 1000 4 filemode_Write 0]
       (initial_state [] [] ∅)).

(** A window whose stream is the current stream. *)
Definition window_current : State :=
  final_state
    (run [Call_window_open 0 0 0 3 0; Call_set_window 1]
       (initial_state [] [] ∅)).

Lemma memory_stream_access_modes_witness :
  ((forall ch, glk_put_char_stream 1 ch memory_appending = Ret tt memory_appending) /\
   (forall text, glk_put_string_stream 1 text memory_appending = Ret tt memory_appending) /\
   (forall data len, Z.of_nat (length data) >= len ->
      glk_put_buffer_stream 1 (Some data) len memory_appending
      = Ret tt memory_appending)) /\
  glk_get_char_stream 1 memory_appending = Ret (-1) memory_appending.
Proof.
  destruct (memory_stream_access_modes 1000 4 filemode_WriteAppend 0
              (initial_state [] [] ∅) 1 memory_appending) as [Hw Hr].
  - vm_compute. reflexivity.
  - unfold NULL. lia.
  - split; [apply Hw | apply Hr]; vm_compute; discriminate.
Defined.

Lemma memory_stream_written_and_closed_witness :
  exists s2 s3,
    glk_put_buffer_stream 1 (Some hello) (Z.of_nat (length hello)) memory_writing
    = Ret tt s2 /\
    glk_stream_close 1 2000 s2 = Ret tt s3 /\
    results s3 !! 2000 = Some (Build_result 0 (wrap32 (Z.of_nat (length hello)))) /\
    mem s3 = write_bytes 1000 (take (Z.to_nat 4) hello) (mem (initial_state [] [] ∅)) /\
    stdout s3 = stdout (initial_state [] [] ∅) /\ streams s3 !! 1 = None.
Proof.
  apply (memory_stream_written_and_closed 1000 4 0 2000 hello
           (initial_state [] [] ∅) 1 memory_writing).
  - intros k. destruct (initial_state_well_formed [] [] ∅ k). eauto.
  - vm_compute. reflexivity.
  - unfold NULL. lia.
  - unfold NULL. lia.
  - lia.
  - unfold NULL. lia.
Defined.

Lemma closed_stream_not_current_witness :
  (gli_currentstr window_current ≠ 2 ->
   gli_currentstr (final_state (glk_stream_close 2 0 window_current))
   = gli_currentstr window_current) /\
  (gli_currentstr window_current = 2 ->
   gli_currentstr (final_state (glk_stream_close 2 0 window_current)) = NULL /\
   (forall ch,
      glk_put_char ch (final_state (glk_stream_close 2 0 window_current))
      = Ret tt (final_state (glk_stream_close 2 0 window_current))) /\
   (forall text,
      glk_put_string text (final_state (glk_stream_close 2 0 window_current))
      = Ret tt (final_state (glk_stream_close 2 0 window_current)))).
Proof.
  apply (closed_stream_not_current window_current
           (final_state (glk_stream_close 2 0 window_current)) 2 0).
  - unfold NULL. lia.
  - left. vm_compute. reflexivity.
Defined.

(** ** Unicode output

    [glk_put_char_uni] and the functions built on it: a character below
    0x80 is put as it is, any other as the bytes of its UTF-8 form. *)

(** [(char) v]: the byte stored for the [int] value [v]. *)
Definition to_char (v : Z) : ascii := ascii_of_N (Z.to_N (v mod 256)).

(** The part of [buf] that [glk_put_char_uni] fills for [ch >= 0x80]. *)
Definition utf8_buf (ch : Z) : list ascii :=
  if decide (ch < 0x800) then
    [to_char (Z.lor 0xC0 (Z.shiftr ch 6));
     to_char (Z.lor 0x80 (Z.land ch 0x3F))]
  else if decide (ch < 0x10000) then
    [to_char (Z.lor 0xE0 (Z.shiftr ch 12));
     to_char (Z.lor 0x80 (Z.land (Z.shiftr ch 6) 0x3F));
     to_char (Z.lor 0x80 (Z.land ch 0x3F))]
  else
    [to_char (Z.lor 0xF0 (Z.shiftr ch 18));
     to_char (Z.lor 0x80 (Z.land (Z.shiftr ch 12) 0x3F));
     to_char (Z.lor 0x80 (Z.land (Z.shiftr ch 6) 0x3F));
     to_char (Z.lor 0x80 (Z.land ch 0x3F))].

Section Unicode.
Context `{glk_h}.

(** [ch] is a [glui32]. *)
Definition glk_put_char_uni (ch : Z) : M unit :=
  if decide (ch < 0x80) then glk_put_char (to_char ch)
  else
    (* UTF-8 encode *)
    let buf := utf8_buf ch in
    glk_put_buffer (Some buf) (Z.of_nat (length buf)).

Fixpoint put_uni_loop (l : list Z) : M unit :=
  match l with
  | [] => ret tt
  | ch :: rest => glk_put_char_uni ch ;; put_uni_loop rest
  end.

(** The words of the array [a] before the first 0. *)
Fixpoint wstr (a : list Z) : list Z :=
  match a with
  | [] => []
  | c :: rest => if decide (c = 0) then [] else c :: wstr rest
  end.

(** [s] is the array the pointer leads to, [None] for a null pointer. *)
Definition glk_put_string_uni (s : option (list Z)) : M unit :=
  match s with
  | None => ret tt
  | Some a => put_uni_loop (wstr a)
  end.

(** [buf] is the array the pointer leads to; it holds [len] words at
    least (a read beyond it, or through a null pointer, has no defined
    result). *)
Definition glk_put_buffer_uni (buf : option (list Z)) (len : Z) : M unit :=
  match buf with
  | None => if decide (0 < len) then undef else ret tt
  | Some a =>
      if decide (Z.of_nat (length a) < len) then undef
      else put_uni_loop (take (Z.to_nat len) a)
  end.

Definition glk_put_char_stream_uni (str ch : Z) : M unit :=
  save <- get gli_currentstr ;;
  modify (put_gli_currentstr str) ;;
  glk_put_char_uni ch ;;
  modify (put_gli_currentstr save).

Definition glk_put_string_stream_uni (str : Z) (s : option (list Z)) : M unit :=
  save <- get gli_currentstr ;;
  modify (put_gli_currentstr str) ;;
  glk_put_string_uni s ;;
  modify (put_gli_currentstr save).

Definition glk_put_buffer_stream_uni (str : Z) (buf : option (list Z)) (len : Z) : M unit :=
  save <- get gli_currentstr ;;
  modify (put_gli_currentstr str) ;;
  glk_put_buffer_uni buf len ;;
  modify (put_gli_currentstr save).

End Unicode.

(** The bytes that go to the stream for [ch]. *)
Definition utf8_bytes (ch : Z) : list ascii :=
  if decide (ch < 0x80) then [to_char ch] else utf8_buf ch.

(** *** The bytes *)

Lemma lor_add a b n :
  0 <= n -> 0 <= b < 2 ^ n -> a mod 2 ^ n = 0 -> Z.lor a b = a + b.
Proof.
  intros Hn Hb Ha.
  assert (Z.land a b = 0) as Hland.
  { apply Z.bits_inj'. intros m Hm. rewrite Z.land_spec, Z.bits_0.
    destruct (Z.lt_ge_cases m n) as [Hlt | Hge].
    - replace (Z.testbit a m) with false; [reflexivity |].
      symmetry. rewrite <- (Z.mod_pow2_bits_low a n m) by lia.
      rewrite Ha. apply Z.bits_0.
    - replace (Z.testbit b m) with false; [apply andb_false_r |].
      symmetry. rewrite <- (Z.mod_small b (2 ^ n)) by lia.
      apply Z.mod_pow2_bits_high. lia. }
  rewrite <- Z.lxor_lor by exact Hland.
  symmetry. now apply Z.add_nocarry_lxor.
Qed.

Lemma land_63 x : Z.land x 0x3F = x mod 64.
Proof. change 0x3F with (Z.ones 6). now rewrite Z.land_ones by lia. Qed.

Lemma uchar_to_char v : 0 <= v < 256 -> uchar (to_char v) = v.
Proof.
  intros Hv. unfold to_char. rewrite Z.mod_small by lia.
  rewrite uchar_ascii_of_N by lia. lia.
Qed.

Lemma continuation x : uchar (to_char (Z.lor 0x80 (Z.land x 0x3F))) = 128 + x mod 64.
Proof.
  rewrite land_63.
  pose proof (Z.mod_pos_bound x 64 ltac:(lia)).
  rewrite (lor_add 128 (x mod 64) 6) by (reflexivity || lia).
  apply uchar_to_char. lia.
Qed.

Lemma lead a n m x :
  0 <= n -> m = 2 ^ n -> a mod m = 0 -> 0 <= x < m -> 0 <= a -> a + m <= 256 ->
  uchar (to_char (Z.lor a x)) = a + x.
Proof.
  intros Hn -> Ha Hx Hpos Hfit.
  rewrite (lor_add a x n) by assumption. apply uchar_to_char. lia.
Qed.

Ltac arith := first [reflexivity | lia | (Z.div_mod_to_equations; lia)].

(** X8: the bytes that [glk_put_char_uni] sends to the current stream
    for a character [ch] are its UTF-8 form: one byte, [ch] itself,
    below 0x80; a lead byte [0xC0 + ch / 64] and one continuation byte
    below 0x800; a lead byte [0xE0 + ch / 4096] and two continuation
    bytes below 0x10000; a lead byte [0xF0 + ch / 262144] and three
    continuation bytes below 0x200000; a continuation byte is 0x80 plus
    six bits of [ch].  Two characters below 0x200000 that differ have
    different bytes. *)
Theorem put_char_uni_utf8 `{glk_h} (ch : Z) (s : State) :
  0 <= ch < 0x200000 ->
  glk_put_char_uni ch s = gli_put_chars (gli_currentstr s) (utf8_bytes ch) s /\
  map uchar (utf8_bytes ch)
  = (if decide (ch < 0x80) then [ch]
     else if decide (ch < 0x800) then [0xC0 + ch / 64; 0x80 + ch mod 64]
     else if decide (ch < 0x10000) then
       [0xE0 + ch / 4096; 0x80 + ch / 64 mod 64; 0x80 + ch mod 64]
     else
       [0xF0 + ch / 262144; 0x80 + ch / 4096 mod 64; 0x80 + ch / 64 mod 64;
        0x80 + ch mod 64]) /\
  (forall ch', 0 <= ch' < 0x200000 -> utf8_bytes ch' = utf8_bytes ch -> ch' = ch).
Proof.
  assert (forall c, 0 <= c < 0x200000 ->
    map uchar (utf8_bytes c)
    = (if decide (c < 0x80) then [c]
       else if decide (c < 0x800) then [0xC0 + c / 64; 0x80 + c mod 64]
       else if decide (c < 0x10000) then
         [0xE0 + c / 4096; 0x80 + c / 64 mod 64; 0x80 + c mod 64]
       else
         [0xF0 + c / 262144; 0x80 + c / 4096 mod 64; 0x80 + c / 64 mod 64;
          0x80 + c mod 64])) as Hbytes.
  { intros c Hc. unfold utf8_bytes, utf8_buf.
    repeat case_decide; cbn [map]; rewrite ?continuation, ?Z.shiftr_div_pow2 by lia;
      change (2 ^ 6) with 64; change (2 ^ 12) with 4096; change (2 ^ 18) with 262144.
    - now rewrite uchar_to_char by lia.
    - rewrite (lead 0xC0 5 32) by arith. reflexivity.
    - rewrite (lead 0xE0 4 16) by arith. reflexivity.
    - rewrite (lead 0xF0 3 8) by arith. reflexivity. }
  intros Hch. split; [| split].
  - unfold glk_put_char_uni, utf8_bytes. case_decide.
    + unfold glk_put_char. rewrite bind_get. cbn [gli_put_chars].
      unfold bind. destruct (gli_put_char_to_stream _ _ s) as [[] ? | |]; reflexivity.
    + unfold glk_put_buffer. rewrite bind_get. cbn [glk_put_buffer_stream].
      rewrite decide_False by lia. now rewrite Nat2Z.id, firstn_all.
  - now apply Hbytes.
  - intros ch' Hch' E. apply (f_equal (map uchar)) in E.
    rewrite (Hbytes ch Hch), (Hbytes ch' Hch') in E.
    pose proof (Z.div_mod ch 64 ltac:(lia)).
    pose proof (Z.div_mod ch' 64 ltac:(lia)).
    pose proof (Z.div_mod (ch / 64) 64 ltac:(lia)).
    pose proof (Z.div_mod (ch' / 64) 64 ltac:(lia)).
    pose proof (Z.div_mod (ch / 4096) 64 ltac:(lia)).
    pose proof (Z.div_mod (ch' / 4096) 64 ltac:(lia)).
    rewrite !Z.div_div in * by lia.
    change (64 * 64) with 4096 in *. change (4096 * 64) with 262144 in *.
    repeat case_decide; try discriminate E; injection E; intros; lia.
Qed.

(** *** Unicode characters on a window *)

Section UnicodeFrames.
Context `{glk_h}.

Lemma length_utf8_bytes ch :
  length (utf8_bytes ch)
  = if decide (ch < 0x80) then 1%nat
    else if decide (ch < 0x800) then 2%nat
    else if decide (ch < 0x10000) then 3%nat else 4%nat.
Proof. unfold utf8_bytes, utf8_buf. repeat case_decide; reflexivity. Qed.

Lemma glk_put_char_uni_bytes ch s :
  glk_put_char_uni ch s = gli_put_chars (gli_currentstr s) (utf8_bytes ch) s.
Proof.
  unfold glk_put_char_uni, utf8_bytes. case_decide.
  - unfold glk_put_char. rewrite bind_get. cbn [gli_put_chars].
    unfold bind. destruct (gli_put_char_to_stream _ _ s) as [[] ? | |]; reflexivity.
  - unfold glk_put_buffer. rewrite bind_get. cbn [glk_put_buffer_stream].
    rewrite decide_False by lia. now rewrite Nat2Z.id, firstn_all.
Qed.

(** X9: a character put to a window by [glk_put_char_uni] (the window's
    stream is the current stream) or by [glk_put_char_stream_uni] goes
    out byte by byte: the call prints one text frame for each byte of
    the UTF-8 form of the character, in order, so one frame below 0x80
    and two, three or four frames, of one byte each, from there on.
    [glk_put_char_stream_uni] leaves the current stream as it was. *)
Theorem put_char_uni_window (s : State) (str id ch : Z) :
  window_stream s str id ->
  (length (utf8_bytes ch)
   = if decide (ch < 0x80) then 1%nat
     else if decide (ch < 0x800) then 2%nat
     else if decide (ch < 0x10000) then 3%nat else 4%nat) /\
  (gli_currentstr s = str ->
   exists s',
     glk_put_char_uni ch s = Ret tt s' /\
     stdout s' = stdout s ++ map (frame_text id) (utf8_bytes ch)) /\
  (exists s',
     glk_put_char_stream_uni str ch s = Ret tt s' /\
     stdout s' = stdout s ++ map (frame_text id) (utf8_bytes ch) /\
     gli_currentstr s' = gli_currentstr s).
Proof.
  intros Hstr. split; [apply length_utf8_bytes |]. split.
  - intros Hcur.
    destruct (put_chars_window str id (utf8_bytes ch) s Hstr) as (s' & E & O & _).
    exists s'. split; [| exact O]. now rewrite glk_put_char_uni_bytes, Hcur.
  - unfold glk_put_char_stream_uni. rewrite bind_get, bind_modify.
    destruct (put_chars_window str id (utf8_bytes ch) (put_gli_currentstr str s))
      as (s' & E & O & _).
    { destruct Hstr as (Hne & x & w & Hx). split; [exact Hne |].
      exists x, w. exact Hx. }
    assert (glk_put_char_uni ch (put_gli_currentstr str s) = Ret tt s') as E'
      by (rewrite glk_put_char_uni_bytes; exact E).
    rewrite (bind_Ret _ _ _ _ _ E').
    eexists. split; [reflexivity |]. state_simpl. split; [exact O | reflexivity].
Qed.

End UnicodeFrames.

(** ** Upper and lower case *)

(** The tables of [gli_initialize_tables] and their flag. *)
Record case_tables := Build_case_tables {
  tables_initialized : Z;
  char_tolower_table : list ascii;
  char_toupper_table : list ascii
}.

#[global] Instance case_tables_eq_dec : EqDecision case_tables.
Proof. solve_decision. Defined.

(** Static storage starts zeroed. *)
Definition case_tables_start : case_tables :=
  {| tables_initialized := 0;
     char_tolower_table := replicate 256 NUL;
     char_toupper_table := replicate 256 NUL |}.

Definition set_tolower (ix v : Z) (t : case_tables) : case_tables :=
  {| tables_initialized := tables_initialized t;
     char_tolower_table := <[Z.to_nat ix := to_char v]> (char_tolower_table t);
     char_toupper_table := char_toupper_table t |}.

Definition set_toupper (ix v : Z) (t : case_tables) : case_tables :=
  {| tables_initialized := tables_initialized t;
     char_tolower_table := char_tolower_table t;
     char_toupper_table := <[Z.to_nat ix := to_char v]> (char_toupper_table t) |}.

(** [for (int ix = from; ix <= to; ix++) body]. *)
Definition for_range {S} (from to : Z) (body : Z -> S -> S) (s : S) : S :=
  foldl (fun s ix => body ix s) s (seqZ from (to - from + 1)).

Definition gli_initialize_tables (t : case_tables) : case_tables :=
  if truthy (tables_initialized t) then t
  else
    let t := {| tables_initialized := 1;
                char_tolower_table := char_tolower_table t;
                char_toupper_table := char_toupper_table t |} in
    let t := for_range 0 255
               (fun ix t => set_tolower ix ix (set_toupper ix ix t)) t in
    let t := for_range 65 90
               (fun ix t => set_toupper (ix + (97 - 65)) ix
                              (set_tolower ix (ix + (97 - 65)) t)) t in
    (* Latin-1 characters *)
    for_range 0xC0 0xDE
      (fun ix t =>
         if decide (ix ≠ 0xD7) then
           set_toupper (ix + 0x20) ix (set_tolower ix (ix + 0x20) t)
         else t) t.

Definition glk_char_to_lower (ch : ascii) (t : case_tables) : ascii * case_tables :=
  let t := gli_initialize_tables t in
  (default NUL (char_tolower_table t !! Z.to_nat (uchar ch)), t).

Definition glk_char_to_upper (ch : ascii) (t : case_tables) : ascii * case_tables :=
  let t := gli_initialize_tables t in
  (default NUL (char_toupper_table t !! Z.to_nat (uchar ch)), t).

(** The tables once they are filled. *)
Definition case_tables_ready : case_tables :=
  Eval vm_compute in gli_initialize_tables case_tables_start.

(** The capital letters of Latin-1 and the small ones. *)
Definition is_capital (c : Z) : Prop :=
  (65 <= c <= 90) \/ (0xC0 <= c <= 0xDE /\ c ≠ 0xD7).
Definition is_small (c : Z) : Prop :=
  (97 <= c <= 122) \/ (0xE0 <= c <= 0xFE /\ c ≠ 0xF7).

#[global] Instance is_capital_dec c : Decision (is_capital c).
Proof. unfold is_capital. apply _. Defined.
#[global] Instance is_small_dec c : Decision (is_small c).
Proof. unfold is_small. apply _. Defined.

Lemma tables_filled t :
  t = case_tables_start \/ t = case_tables_ready ->
  gli_initialize_tables t = case_tables_ready.
Proof. intros [-> | ->]; vm_compute; reflexivity. Qed.

Definition entries_checked (n : nat) : bool :=
  let c := Z.of_nat n in
  bool_decide (default NUL (char_tolower_table case_tables_ready !! n)
               = to_char (if decide (is_capital c) then c + 32 else c)) &&
  bool_decide (default NUL (char_toupper_table case_tables_ready !! n)
               = to_char (if decide (is_small c) then c - 32 else c)).

Lemma entries_checked_all : forallb entries_checked (seq 0 256) = true.
Proof. vm_compute. reflexivity. Qed.

(** X10: [glk_char_to_lower] and [glk_char_to_upper], on the first call
    (which fills the tables) and on every later one, map the letters of
    Latin-1 and nothing else: [glk_char_to_lower] adds 32 to the capital
    letters A to Z and 0xC0 to 0xDE but for the multiplication sign
    0xD7, [glk_char_to_upper] takes 32 from the small letters a to z and
    0xE0 to 0xFE but for the division sign 0xF7, and every other
    character comes back as it is (so the sharp s 0xDF and the y with
    diaeresis 0xFF have no capital); after the first call the tables
    stay as they are. *)
Theorem char_case_latin1 (ch : ascii) (t : case_tables) :
  t = case_tables_start \/ t = case_tables_ready ->
  let c := uchar ch in
  glk_char_to_lower ch t
  = (to_char (if decide (is_capital c) then c + 32 else c), case_tables_ready) /\
  glk_char_to_upper ch t
  = (to_char (if decide (is_small c) then c - 32 else c), case_tables_ready).
Proof.
  intros Ht c.
  assert (entries_checked (nat_of_ascii ch) = true) as Hc.
  { assert (nat_of_ascii ch ∈ seq 0 256) as Hin.
    { apply elem_of_seq. pose proof (nat_ascii_bounded ch). lia. }
    apply list_elem_of_In in Hin.
    exact (proj1 (forallb_forall _ _) entries_checked_all _ Hin). }
  unfold entries_checked in Hc.
  replace (Z.of_nat (nat_of_ascii ch)) with c in Hc
    by (unfold c, uchar, nat_of_ascii; lia).
  apply andb_true_iff in Hc as [Hl Hu].
  apply bool_decide_eq_true in Hl, Hu.
  unfold glk_char_to_lower, glk_char_to_upper.
  rewrite (tables_filled t Ht).
  replace (Z.to_nat (uchar ch)) with (nat_of_ascii ch)
    by (unfold uchar, nat_of_ascii; lia).
  now rewrite Hl, Hu.
Qed.

Lemma char_case_latin1_witness :
  glk_char_to_lower "A"%char case_tables_start = ("a"%char, case_tables_ready) /\
  glk_char_to_upper "A"%char case_tables_start = ("A"%char, case_tables_ready).
Proof.
  destruct (char_case_latin1 "A"%char case_tables_start) as [Hl Hu].
  - now left.
  - split; [exact Hl | exact Hu].
Defined.

(** *** Case of a Unicode buffer

    The buffer is the array [buf] leads to; a step outside it has no
    defined result ([None]).  [len] and [numchars] are [glui32]s. *)

(** [for (i = from; i < numchars && i < len; i++)
      if (buf[i] >= lo && buf[i] <= hi) buf[i] = buf[i] + shift;]
    with [n] for the number of rounds. *)
Fixpoint shift_case_loop (lo hi shift : Z) (n i : nat) (buf : list Z) : option (list Z) :=
  match n with
  | O => Some buf
  | S n' =>
      match buf !! i with
      | None => None
      | Some c =>
          shift_case_loop lo hi shift n' (S i)
            (if decide (c >= lo ∧ c <= hi) then <[i := wrap32 (c + shift)]> buf
             else buf)
      end
  end.

Definition rounds (from len numchars : Z) : nat :=
  Z.to_nat (Z.min numchars len - from).

Definition glk_buffer_to_lower_case_uni (buf : list Z) (len numchars : Z)
  : option (list Z * Z) :=
  buf' ← shift_case_loop 65 90 (97 - 65) (rounds 0 len numchars) 0 buf;
  Some (buf', numchars).

Definition glk_buffer_to_upper_case_uni (buf : list Z) (len numchars : Z)
  : option (list Z * Z) :=
  buf' ← shift_case_loop 97 122 (- (97 - 65)) (rounds 0 len numchars) 0 buf;
  Some (buf', numchars).

Definition glk_buffer_to_title_case_uni (buf : list Z) (len numchars lowerrest : Z)
  : option (list Z * Z) :=
  buf1 ← (if decide (numchars > 0 ∧ len > 0) then
            shift_case_loop 97 122 (- (97 - 65)) 1 0 buf
          else Some buf);
  buf2 ← (if truthy lowerrest then
            shift_case_loop 65 90 (97 - 65) (rounds 1 len numchars) 1 buf1
          else Some buf1);
  Some (buf2, numchars).

(** What the functions do to one character. *)
Definition ascii_lower (c : Z) : Z := if decide (65 <= c <= 90) then c + 32 else c.
Definition ascii_upper (c : Z) : Z := if decide (97 <= c <= 122) then c - 32 else c.

Lemma shift_case_loop_spec lo hi shift (f : Z -> Z) n : forall i buf,
  (forall c, f c = if decide (c >= lo ∧ c <= hi) then wrap32 (c + shift) else c) ->
  (i + n <= length buf)%nat ->
  exists buf',
    shift_case_loop lo hi shift n i buf = Some buf' /\
    length buf' = length buf /\
    forall j, buf' !! j = if decide (i <= j < i + n)%nat then f <$> buf !! j
                          else buf !! j.
Proof.
  induction n as [| n IH]; intros i buf Hf Hlen.
  - exists buf. split; [reflexivity |]. split; [reflexivity |].
    intros j. rewrite decide_False by lia. reflexivity.
  - cbn [shift_case_loop].
    destruct (buf !! i) as [c |] eqn:Hc;
      [| apply lookup_ge_None in Hc; lia].
    set (buf1 := if decide (c >= lo ∧ c <= hi) then <[i := wrap32 (c + shift)]> buf
                 else buf).
    assert (length buf1 = length buf) as Hlen1
      by (subst buf1; case_decide; [apply length_insert | reflexivity]).
    assert (forall j, buf1 !! j = if decide (j = i) then Some (f c) else buf !! j)
      as Hbuf1.
    { intros j. subst buf1. rewrite (Hf c).
      destruct (decide (j = i)) as [-> | Hne].
      - case_decide; [apply list_lookup_insert_eq; lia | exact Hc].
      - case_decide; [now apply list_lookup_insert_ne | reflexivity]. }
    destruct (IH (S i) buf1 Hf ltac:(lia)) as (buf' & E & Hl & Hj).
    exists buf'. split; [exact E |]. split; [lia |].
    intros j. rewrite Hj, Hbuf1.
    destruct (decide (j = i)) as [-> | Hne].
    + rewrite decide_False, decide_True by lia. now rewrite Hc.
    + repeat case_decide; try lia; reflexivity.
Qed.

(** X11: the three functions that change the case of a Unicode buffer
    change the letters A to Z and a to z of ASCII only, among the first
    [min numchars len] characters, and return [numchars] as it was
    given, greater than [len] or not: [glk_buffer_to_lower_case_uni]
    puts these characters in lower case, [glk_buffer_to_upper_case_uni]
    in upper case, [glk_buffer_to_title_case_uni] the first of them in
    upper case and, when [lowerrest] is set, the others in lower case;
    the characters after them and the length of the buffer stay as they
    are.  A letter of Latin-1 outside ASCII, which [glk_char_to_lower]
    would change, stays as it is. *)
Theorem buffer_case_ascii (buf : list Z) (len numchars lowerrest : Z) :
  0 <= len -> 0 <= numchars -> Z.min numchars len <= Z.of_nat (length buf) ->
  let n := Z.to_nat (Z.min numchars len) in
  (exists low,
     glk_buffer_to_lower_case_uni buf len numchars = Some (low, numchars) /\
     length low = length buf /\
     forall j, low !! j = if decide (j < n)%nat then ascii_lower <$> buf !! j
                          else buf !! j) /\
  (exists up,
     glk_buffer_to_upper_case_uni buf len numchars = Some (up, numchars) /\
     length up = length buf /\
     forall j, up !! j = if decide (j < n)%nat then ascii_upper <$> buf !! j
                         else buf !! j) /\
  (exists title,
     glk_buffer_to_title_case_uni buf len numchars lowerrest = Some (title, numchars) /\
     length title = length buf /\
     forall j, title !! j
               = if decide (j = 0 ∧ 0 < n)%nat then ascii_upper <$> buf !! j
                 else if decide ((1 <= j < n)%nat ∧ lowerrest ≠ 0)
                      then ascii_lower <$> buf !! j
                      else buf !! j) /\
  (forall c, c < 65 \/ 122 < c -> ascii_lower c = c /\ ascii_upper c = c).
Proof.
  intros Hlen Hnum Hfit n.
  assert (forall c, ascii_lower c
                    = if decide (c >= 65 ∧ c <= 90) then wrap32 (c + (97 - 65)) else c)
    as Hlow.
  { intros c. unfold ascii_lower. repeat case_decide; try lia; try reflexivity.
    rewrite wrap32_small by lia. lia. }
  assert (forall c, ascii_upper c
                    = if decide (c >= 97 ∧ c <= 122) then wrap32 (c + - (97 - 65)) else c)
    as Hup.
  { intros c. unfold ascii_upper. repeat case_decide; try lia; try reflexivity.
    rewrite wrap32_small by lia. lia. }
  split; [| split; [| split]].
  - unfold glk_buffer_to_lower_case_uni, rounds. rewrite Z.sub_0_r. fold n.
    destruct (shift_case_loop_spec 65 90 (97 - 65) ascii_lower n 0 buf Hlow)
      as (low & E & Hl & Hj); [lia |].
    exists low. rewrite E. split; [reflexivity |]. split; [exact Hl |].
    intros j. rewrite Hj. repeat case_decide; try lia; reflexivity.
  - unfold glk_buffer_to_upper_case_uni, rounds. rewrite Z.sub_0_r. fold n.
    destruct (shift_case_loop_spec 97 122 (- (97 - 65)) ascii_upper n 0 buf Hup)
      as (up & E & Hl & Hj); [lia |].
    exists up. rewrite E. split; [reflexivity |]. split; [exact Hl |].
    intros j. rewrite Hj. repeat case_decide; try lia; reflexivity.
  - unfold glk_buffer_to_title_case_uni, rounds.
    assert (exists buf1,
      (if decide (numchars > 0 ∧ len > 0)
       then shift_case_loop 97 122 (- (97 - 65)) 1 0 buf else Some buf) = Some buf1 /\
      length buf1 = length buf /\
      forall j, buf1 !! j = if decide (j = 0 ∧ 0 < n)%nat
                            then ascii_upper <$> buf !! j else buf !! j)
      as (buf1 & E1 & Hl1 & Hj1).
    { case_decide as Hpos.
      - destruct (shift_case_loop_spec 97 122 (- (97 - 65)) ascii_upper 1 0 buf Hup)
          as (buf1 & E & Hl & Hj); [lia |].
        exists buf1. split; [exact E |]. split; [exact Hl |].
        intros j. rewrite Hj. repeat case_decide; try lia; reflexivity.
      - exists buf. split; [reflexivity |]. split; [reflexivity |].
        intros j. rewrite decide_False by lia. reflexivity. }
    rewrite E1. cbn [mbind option_bind].
    destruct (truthy lowerrest) eqn:Hrest.
    + assert (lowerrest ≠ 0) as Hne
        by (unfold truthy in Hrest; now apply bool_decide_eq_true in Hrest).
      destruct (decide (Z.min numchars len <= 1)) as [Hfew | Hmany].
      * replace (Z.to_nat (Z.min numchars len - 1)) with 0%nat by lia.
        cbn [shift_case_loop mbind option_bind].
        exists buf1. split; [reflexivity |]. split; [exact Hl1 |].
        intros j. rewrite Hj1.
        repeat case_decide; try lia; try reflexivity; tauto.
      * destruct (shift_case_loop_spec 65 90 (97 - 65) ascii_lower
                    (Z.to_nat (Z.min numchars len - 1)) 1 buf1 Hlow)
          as (buf2 & E2 & Hl2 & Hj2); [lia |].
        rewrite E2. cbn [mbind option_bind].
        exists buf2. split; [reflexivity |]. split; [lia |].
        intros j. rewrite Hj2, !Hj1.
        repeat case_decide; try lia; try reflexivity; tauto.
    + exists buf1. split; [reflexivity |]. split; [exact Hl1 |].
      assert (lowerrest = 0) as ->
        by (unfold truthy in Hrest; now apply bool_decide_eq_false, dec_stable in Hrest).
      intros j. rewrite Hj1.
      repeat case_decide; try lia; try reflexivity; tauto.
  - intros c Hc. unfold ascii_lower, ascii_upper.
    split; case_decide; lia || reflexivity.
Qed.

Lemma buffer_case_ascii_witness :
  (exists low,
     glk_buffer_to_lower_case_uni [72; 201; 91] 3 2 = Some (low, 2) /\
     length low = 3%nat /\
     forall j, low !! j = if decide (j < 2)%nat
                          then ascii_lower <$> [72; 201; 91] !! j
                          else [72; 201; 91] !! j) /\
  (exists up,
     glk_buffer_to_upper_case_uni [72; 201; 91] 3 2 = Some (up, 2) /\
     length up = 3%nat /\
     forall j, up !! j = if decide (j < 2)%nat
                         then ascii_upper <$> [72; 201; 91] !! j
                         else [72; 201; 91] !! j) /\
  (exists title,
     glk_buffer_to_title_case_uni [72; 201; 91] 3 2 1 = Some (title, 2) /\
     length title = 3%nat /\
     forall j, title !! j
               = if decide (j = 0 ∧ 0 < 2)%nat
                 then ascii_upper <$> [72; 201; 91] !! j
                 else if decide ((1 <= j < 2)%nat ∧ 1 ≠ 0)
                      then ascii_lower <$> [72; 201; 91] !! j
                      else [72; 201; 91] !! j) /\
  (forall c, c < 65 \/ 122 < c -> ascii_lower c = c /\ ascii_upper c = c).
Proof.
  apply (buffer_case_ascii [72; 201; 91] 3 2 1); simpl; lia.
Defined.

(** ** Reading a buffer and a line from a stream *)

Section ReadBuffer.
Context `{glk_h}.

(** [fread(buf, 1, len, file)]: the number of characters read. *)
Definition fread (buf len p : Z) : M Z :=
  f <- load_FILE p ;;
  content <- get (file_content f) ;;
  let data := take (Z.to_nat len) (drop (Z.to_nat (file_pos f)) content) in
  memcpy buf data ;;
  modify (fun s => put_files
            (<[p := Build_FILE (file_path f) (file_pos f + Z.of_nat (length data))
                      (file_append f)]> (files s)) s) ;;
  ret (Z.of_nat (length data)).

(** [fgets(buf, size, file)]: the line read, or [None] at the end of the
    file. *)
Definition fgets (buf size p : Z) : M (option (list ascii)) :=
  f <- load_FILE p ;;
  content <- get (file_content f) ;;
  match drop (Z.to_nat (file_pos f)) content with
  | [] => ret None
  | rest =>
      let '(l, _) := take_line (Z.to_nat (size - 1)) rest in
      memcpy buf (l ++ [NUL]) ;;
      modify (fun s => put_files
                (<[p := Build_FILE (file_path f) (file_pos f + Z.of_nat (length l))
                          (file_append f)]> (files s)) s) ;;
      ret (Some l)
  end.

(** [ch = str->buf[str->bufptr++]; buf[count++] = ch; str->readcount++;]
    for the stream [x] at [str]. *)
Definition copy_char (str : Z) (x : glk_stream_struct) (buf count : Z) : M ascii :=
  ch <- load_byte (str_buf x + str_bufptr x) ;;
  update_str str (set_str_bufptr (wrap32 (str_bufptr x + 1))) ;;
  store_byte (buf + count) ch ;;
  update_str str (set_str_readcount (wrap32 (str_readcount x + 1))) ;;
  ret ch.

(** [while (count < len && str->bufptr < str->buflen)], with [n] for
    [len - count]. *)
Fixpoint get_buffer_loop (n : nat) (str buf count : Z) : M Z :=
  match n with
  | O => ret count
  | S n' =>
      x <- load_str str ;;
      if decide (str_bufptr x < str_buflen x) then
        copy_char str x buf count ;;
        get_buffer_loop n' str buf (count + 1)
      else ret count
  end.

Definition glk_get_buffer_stream (str buf len : Z) : M Z :=
  if negb (truthy str) then ret 0
  else
    x <- load_str str ;;
    if negb (truthy (str_readable x)) || negb (truthy buf) then ret 0
    else if bool_decide (str_type x = 1) && truthy (str_buf x) then
      get_buffer_loop (Z.to_nat len) str buf 0
    else if bool_decide (str_type x = 2) && truthy (str_file x) then
      count <- fread buf len (str_file x) ;;
      update_str str (set_str_readcount (wrap32 (str_readcount x + count))) ;;
      ret count
    else ret 0.

(** [while (count < len - 1 && str->bufptr < str->buflen)], with [n]
    for [len - 1 - count]; the loop ends after a newline. *)
Fixpoint get_line_loop (n : nat) (str buf count : Z) : M Z :=
  match n with
  | O => ret count
  | S n' =>
      x <- load_str str ;;
      if decide (str_bufptr x < str_buflen x) then
        ch <- copy_char str x buf count ;;
        if decide (ch = newline) then ret (count + 1)
        else get_line_loop n' str buf (count + 1)
      else ret count
  end.

Definition glk_get_line_stream (str buf len : Z) : M Z :=
  if negb (truthy str) then ret 0
  else
    x <- load_str str ;;
    if negb (truthy (str_readable x)) || negb (truthy buf) || bool_decide (len = 0)
    then ret 0
    else
      count <-
        (if bool_decide (str_type x = 1) && truthy (str_buf x) then
           get_line_loop (Z.to_nat (len - 1)) str buf 0
         else if bool_decide (str_type x = 2) && truthy (str_file x) then
           r <- fgets buf len (str_file x) ;;
           match r with
           | Some l =>
               let count := Z.of_nat (length (cstr l)) in
               update_str str (set_str_readcount (wrap32 (str_readcount x + count))) ;;
               ret count
           | None => ret 0
           end
         else ret 0) ;;
      store_byte (buf + count) NUL ;;
      ret count.

(** The characters of the buffer of the stream [x] from its cursor on. *)
Definition stream_bytes (s : State) (x : glk_stream_struct) (k : nat) : list ascii :=
  map (fun i => default NUL (mem s !! (str_buf x + str_bufptr x + Z.of_nat i)))
      (seq 0 k).

(** The stream [x'] is the stream [x] after [k] characters were read. *)
Definition advanced (x x' : glk_stream_struct) (k : Z) : Prop :=
  str_bufptr x' = str_bufptr x + k /\
  str_readcount x' = wrap32 (str_readcount x + k) /\
  str_buf x' = str_buf x /\ str_buflen x' = str_buflen x /\
  str_type x' = str_type x /\ str_readable x' = str_readable x /\
  str_writecount x' = str_writecount x.

Lemma copy_char_run s str x buf count :
  streams s !! str = Some x -> str_bufptr x + 1 < 2 ^ 32 -> 0 <= str_bufptr x ->
  exists x1,
    copy_char str x buf count s
    = Ret (default NUL (mem s !! (str_buf x + str_bufptr x)))
          (put_streams (<[str := x1]> (streams s))
             (put_mem (<[buf + count := default NUL (mem s !! (str_buf x + str_bufptr x))]>
                         (mem s)) s)) /\
    advanced x x1 1.
Proof.
  intros Hx Hp Hp0. eexists. split.
  - unfold copy_char, load_byte. rewrite bind_get.
    rewrite (bind_Ret _ _ _ _ _ (update_str_Some _ _ _ _ Hx)).
    unfold store_byte. rewrite bind_modify.
    erewrite (bind_Ret (update_str str _));
      [| apply update_str_Some; state_simpl; apply lookup_insert_eq].
    unfold ret. state_simpl. rewrite insert_insert_eq. reflexivity.
  - unfold advanced. cbn. rewrite wrap32_small by lia. repeat split.
Qed.

Lemma advanced_0 x : 0 <= str_readcount x < 2 ^ 32 -> advanced x x 0.
Proof.
  intros Hr. unfold advanced. rewrite !Z.add_0_r, wrap32_small by lia.
  repeat split.
Qed.

Lemma advanced_step x x1 x' k :
  advanced x x1 1 -> advanced x1 x' k -> advanced x x' (1 + k).
Proof.
  intros (P1 & R1 & B1 & L1 & T1 & A1 & W1) (P2 & R2 & B2 & L2 & T2 & A2 & W2).
  unfold advanced. rewrite P2, R2, P1, R1, wrap32_add_l.
  repeat split; try congruence; try lia. f_equal. lia.
Qed.

Lemma stream_bytes_step s s1 x x1 a c k :
  advanced x x1 1 -> mem s1 = <[a := c]> (mem s) ->
  (a < str_buf x + str_bufptr x + 1 \/
   str_buf x + str_bufptr x + 1 + Z.of_nat k <= a) ->
  default NUL (mem s !! (str_buf x + str_bufptr x)) :: stream_bytes s1 x1 k
  = stream_bytes s x (S k).
Proof.
  intros (P1 & _ & B1 & _) Hm Ha. unfold stream_bytes. rewrite Hm.
  cbn [seq map]. rewrite Z.add_0_r. f_equal.
  rewrite <- seq_shift, map_map. apply map_ext_in. intros i Hi.
  apply in_seq in Hi. state_simpl. rewrite P1, B1.
  assert (a ≠ str_buf x + (str_bufptr x + 1) + Z.of_nat i) as Hne by lia.
  rewrite lookup_insert_ne by exact Hne. do 2 f_equal. lia.
Qed.

(** The loop of [glk_get_buffer_stream] on a memory stream: the
    characters left, [n] at most, are copied. *)
Lemma get_buffer_loop_memory str buf n : forall s x count,
  streams s !! str = Some x ->
  0 <= str_bufptr x <= str_buflen x -> str_buflen x < 2 ^ 32 ->
  0 <= str_readcount x < 2 ^ 32 ->
  (buf + count + Z.of_nat n <= str_buf x + str_bufptr x \/
   str_buf x + str_buflen x <= buf + count) ->
  let k := Z.min (Z.of_nat n) (str_buflen x - str_bufptr x) in
  exists s' x',
    get_buffer_loop n str buf count s = Ret (count + k) s' /\
    mem s' = write_bytes (buf + count) (stream_bytes s x (Z.to_nat k)) (mem s) /\
    streams s' !! str = Some x' /\ advanced x x' k /\
    stdout s' = stdout s /\ stdin s' = stdin s.
Proof.
  induction n as [| n IH]; intros s x count Hx Hp Hl Hr Hfree k.
  - exists s, x. subst k. rewrite Z.min_l by lia. rewrite Z.add_0_r.
    split; [reflexivity |]. split; [reflexivity |]. split; [exact Hx |].
    split; [now apply advanced_0 | now split].
  - cbn [get_buffer_loop].
    rewrite (bind_Ret _ _ _ _ _ (load_str_Some _ _ _ Hx)).
    case_decide as Hlt.
    + destruct (copy_char_run s str x buf count Hx ltac:(lia) ltac:(lia))
        as (x1 & E1 & Hadv1).
      rewrite (bind_Ret _ _ _ _ _ E1).
      pose proof Hadv1 as (P1 & R1 & B1 & L1 & _).
      match type of E1 with _ = Ret ?c ?s1 =>
        destruct (IH s1 x1 (count + 1)) as (s' & x' & E & M & Hx' & Hadv & O & I)
      end.
      * state_simpl. apply lookup_insert_eq.
      * lia.
      * lia.
      * rewrite R1. apply wrap32_range.
      * rewrite B1, P1, L1. lia.
      * rewrite P1, L1 in *.
        replace k with (1 + Z.min (Z.of_nat n) (str_buflen x - (str_bufptr x + 1)))
          by (subst k; lia).
        set (k' := Z.min (Z.of_nat n) (str_buflen x - (str_bufptr x + 1))) in *.
        exists s', x'. split; [| split; [| split; [| split]]].
        -- rewrite E. f_equal. lia.
        -- rewrite M. state_simpl.
           replace (Z.to_nat (1 + k')) with (S (Z.to_nat k')) by lia.
           match goal with
           | |- context [stream_bytes ?s1 x1 _] =>
               rewrite <- (stream_bytes_step s s1 x x1 (buf + count)
                             (default NUL (mem s !! (str_buf x + str_bufptr x)))
                             (Z.to_nat k') Hadv1 eq_refl) by lia
           end.
           cbn [write_bytes]. now rewrite Z.add_assoc.
        -- exact Hx'.
        -- now apply (advanced_step x x1).
        -- state_simpl. now split.
    + exists s, x. subst k. rewrite Z.min_r by lia.
      replace (str_buflen x - str_bufptr x) with 0 by lia. rewrite Z.add_0_r.
      split; [reflexivity |]. split; [reflexivity |]. split; [exact Hx |].
      split; [now apply advanced_0 | now split].
Qed.

(** X12: [glk_get_buffer_stream] on a memory stream that can be read
    copies to the caller's array (which lies outside the part of the
    buffer that is still to be read) the characters from the cursor on,
    [len] of them or as many as are left, and returns their number; the
    cursor moves on by this number and the read counter (a [glui32])
    grows by it, so that a read at the end of the buffer counts
    nothing.  Nothing is printed or read from the input. *)
Theorem get_buffer_memory (s : State) (str buf len : Z) (x : glk_stream_struct) :
  str ≠ NULL -> streams s !! str = Some x ->
  str_readable x ≠ 0 -> str_type x = 1 -> str_buf x ≠ NULL -> buf ≠ NULL ->
  0 <= str_bufptr x <= str_buflen x -> str_buflen x < 2 ^ 32 ->
  0 <= str_readcount x < 2 ^ 32 -> 0 <= len ->
  (buf + len <= str_buf x + str_bufptr x \/ str_buf x + str_buflen x <= buf) ->
  let k := Z.min len (str_buflen x - str_bufptr x) in
  exists s' x',
    glk_get_buffer_stream str buf len s = Ret k s' /\
    mem s' = write_bytes buf (stream_bytes s x (Z.to_nat k)) (mem s) /\
    streams s' !! str = Some x' /\
    str_bufptr x' = str_bufptr x + k /\
    str_readcount x' = wrap32 (str_readcount x + k) /\
    stdout s' = stdout s /\ stdin s' = stdin s.
Proof.
  intros Hstr Hx Hr Ht Hb Hbuf Hp Hl Hrc Hlen Hfree k.
  destruct (get_buffer_loop_memory str buf (Z.to_nat len) s x 0 Hx Hp Hl Hrc)
    as (s' & x' & E & M & Hx' & (P & R & _) & O & I).
  { rewrite Z2Nat.id by lia. lia. }
  rewrite Z2Nat.id, Z.add_0_r, Z.add_0_l in * by lia. fold k in E, M, P, R.
  exists s', x'. split; [| now repeat split].
  unfold glk_get_buffer_stream.
  rewrite (truthy_true _ Hstr). cbn [negb].
  rewrite (bind_Ret _ _ _ _ _ (load_str_Some _ _ _ Hx)).
  rewrite (truthy_true _ Hr), (truthy_true _ Hbuf). cbn [negb orb].
  rewrite bool_decide_eq_true_2 by exact Ht.
  rewrite (truthy_true _ Hb). cbn [andb]. exact E.
Qed.

Lemma write_bytes_app a l1 l2 m :
  write_bytes a (l1 ++ l2) m
  = write_bytes (a + Z.of_nat (length l1)) l2 (write_bytes a l1 m).
Proof.
  revert a m. induction l1 as [| c l1 IH]; intros a m; cbn [app write_bytes length].
  - now rewrite Z.add_0_r.
  - rewrite IH. f_equal. lia.
Qed.

(** The loop of [glk_get_line_stream] on a memory stream: the characters
    left are copied, [n] at most, through the first newline. *)
Lemma get_line_loop_memory str buf n : forall s x count,
  streams s !! str = Some x ->
  0 <= str_bufptr x <= str_buflen x -> str_buflen x < 2 ^ 32 ->
  0 <= str_readcount x < 2 ^ 32 ->
  (buf + count + Z.of_nat n <= str_buf x + str_bufptr x \/
   str_buf x + str_buflen x <= buf + count) ->
  let line := fst (take_line n (stream_bytes s x
                                  (Z.to_nat (str_buflen x - str_bufptr x)))) in
  exists s' x',
    get_line_loop n str buf count s = Ret (count + Z.of_nat (length line)) s' /\
    mem s' = write_bytes (buf + count) line (mem s) /\
    streams s' !! str = Some x' /\ advanced x x' (Z.of_nat (length line)) /\
    stdout s' = stdout s /\ stdin s' = stdin s.
Proof.
  induction n as [| n IH]; intros s x count Hx Hp Hl Hr Hfree line.
  - exists s, x. subst line. cbn [take_line fst length]. rewrite Z.add_0_r.
    split; [reflexivity |]. split; [reflexivity |]. split; [exact Hx |].
    split; [now apply advanced_0 | now split].
  - cbn [get_line_loop].
    rewrite (bind_Ret _ _ _ _ _ (load_str_Some _ _ _ Hx)).
    case_decide as Hlt.
    + destruct (copy_char_run s str x buf count Hx ltac:(lia) ltac:(lia))
        as (x1 & E1 & Hadv1).
      rewrite (bind_Ret _ _ _ _ _ E1).
      pose proof Hadv1 as (P1 & R1 & B1 & L1 & _).
      set (c := default NUL (mem s !! (str_buf x + str_bufptr x))) in *.
      match type of E1 with _ = Ret _ ?s1 =>
        assert (stream_bytes s x (Z.to_nat (str_buflen x - str_bufptr x))
                = c :: stream_bytes s1 x1 (Z.to_nat (str_buflen x1 - str_bufptr x1)))
          as Hbytes;
        [ replace (Z.to_nat (str_buflen x - str_bufptr x))
            with (S (Z.to_nat (str_buflen x1 - str_bufptr x1))) by lia;
          symmetry; apply (stream_bytes_step s s1 x x1 (buf + count) c _ Hadv1 eq_refl);
          lia
        | destruct (IH s1 x1 (count + 1)) as (s' & x' & E & M & Hx' & Hadv & O & I) ]
      end.
      * state_simpl. apply lookup_insert_eq.
      * lia.
      * lia.
      * rewrite R1. apply wrap32_range.
      * rewrite B1, P1, L1. lia.
      * subst line. rewrite Hbytes. cbn [take_line].
        case_decide as Hnl.
        -- cbn [fst length].
           eexists _, x1. split; [reflexivity |]. state_simpl.
           split; [reflexivity |]. split; [apply lookup_insert_eq |].
           split; [exact Hadv1 | now split].
        -- destruct (take_line n _) as [l r] eqn:Htl. cbn [fst length] in *.
           exists s', x'. split; [| split; [| split; [| split]]].
           ++ rewrite E. f_equal. lia.
           ++ rewrite M. state_simpl. cbn [write_bytes]. now rewrite Z.add_assoc.
           ++ exact Hx'.
           ++ replace (Z.of_nat (S (length l))) with (1 + Z.of_nat (length l)) by lia.
              now apply (advanced_step x x1).
           ++ state_simpl. now split.
    + exists s, x. subst line.
      replace (Z.to_nat (str_buflen x - str_bufptr x)) with 0%nat by lia.
      cbn. rewrite Z.add_0_r.
      split; [reflexivity |]. split; [reflexivity |]. split; [exact Hx |].
      split; [now apply advanced_0 | now split].
Qed.

(** X13: [glk_get_line_stream] on a memory stream that can be read, for
    an array of [len > 0] characters (which lies outside the part of the
    buffer still to be read), copies the characters from the cursor on,
    through the first newline, [len - 1] of them at most or as many as
    are left, puts a NUL after them and returns their number; the
    cursor and the read counter move on by this number.  With
    [len = 0] it returns 0 and stores nothing. *)
Theorem get_line_memory (s : State) (str buf len : Z) (x : glk_stream_struct) :
  str ≠ NULL -> streams s !! str = Some x ->
  str_readable x ≠ 0 -> str_type x = 1 -> str_buf x ≠ NULL -> buf ≠ NULL ->
  0 <= str_bufptr x <= str_buflen x -> str_buflen x < 2 ^ 32 ->
  0 <= str_readcount x < 2 ^ 32 -> 0 < len ->
  (buf + len <= str_buf x + str_bufptr x \/ str_buf x + str_buflen x <= buf) ->
  let line := fst (take_line (Z.to_nat (len - 1))
                     (stream_bytes s x (Z.to_nat (str_buflen x - str_bufptr x)))) in
  glk_get_line_stream str buf 0 s = Ret 0 s /\
  exists s' x',
    glk_get_line_stream str buf len s = Ret (Z.of_nat (length line)) s' /\
    mem s' = write_bytes buf (line ++ [NUL]) (mem s) /\
    streams s' !! str = Some x' /\
    str_bufptr x' = str_bufptr x + Z.of_nat (length line) /\
    str_readcount x' = wrap32 (str_readcount x + Z.of_nat (length line)) /\
    stdout s' = stdout s /\ stdin s' = stdin s.
Proof.
  intros Hstr Hx Hr Ht Hb Hbuf Hp Hl Hrc Hlen Hfree line.
  split.
  { unfold glk_get_line_stream.
    rewrite (truthy_true _ Hstr). cbn [negb].
    rewrite (bind_Ret _ _ _ _ _ (load_str_Some _ _ _ Hx)).
    rewrite bool_decide_eq_true_2 by reflexivity.
    now rewrite !orb_true_r. }
  destruct (get_line_loop_memory str buf (Z.to_nat (len - 1)) s x 0 Hx Hp Hl Hrc)
    as (s' & x' & E & M & Hx' & (P & R & _) & O & I).
  { rewrite Z2Nat.id by lia. lia. }
  rewrite Z.add_0_r, Z.add_0_l in *. fold line in E, M, P, R.
  eexists _, x'. split; [| split; [| split; [| split; [| split]]]].
  - unfold glk_get_line_stream.
    rewrite (truthy_true _ Hstr). cbn [negb].
    rewrite (bind_Ret _ _ _ _ _ (load_str_Some _ _ _ Hx)).
    rewrite (truthy_true _ Hr), (truthy_true _ Hbuf). cbn [negb orb].
    rewrite bool_decide_eq_false_2 by lia.
    rewrite bool_decide_eq_true_2 by exact Ht.
    rewrite (truthy_true _ Hb). cbn [andb].
    rewrite (bind_Ret _ _ _ _ _ E). unfold store_byte. rewrite bind_modify.
    reflexivity.
  - state_simpl. rewrite write_bytes_app, M. reflexivity.
  - state_simpl. exact Hx'.
  - exact P.
  - exact R.
  - state_simpl. now split.
Qed.

End ReadBuffer.

(** ** File streams *)

(** The files and the file references stay as they are. *)
Definition same_disk (s s' : State) : Prop :=
  fs s' = fs s /\ files s' = files s /\ filerefs s' = filerefs s.

#[global] Instance same_disk_keeps : Keeps same_disk anyhow.
Proof.
  split; unfold same_disk, anyhow; [intros s | intros s1 s2 s3 | trivial].
  - repeat split.
  - intros (-> & -> & ->) (-> & -> & ->). repeat split.
Qed.

Ltac same_disk_side := intros; unfold same_disk; state_simpl; repeat split.

Ltac same_disk_auto :=
  unfold update_win, new_win, free_win, update_str, new_str, free_str,
    store_result, store_byte;
  repeat (keeping_step same_disk_side).

Section FileStreams.
Context `{glk_h}.

Lemma post_fclose p s (Q : unit -> State -> Prop) X :
  (forall F, files s !! p = Some F -> Q tt (put_files (delete p (files s)) s)) ->
  post (fclose p s) Q X.
Proof.
  intros HQ. unfold fclose, bind, load_FILE.
  destruct (files s !! p) as [F |]; simpl; [now apply (HQ F) | exact I].
Qed.

Lemma fmode_flags_modes :
  fmode_flags filemode_Read = (1, 0) /\ fmode_flags filemode_Write = (0, 1) /\
  fmode_flags filemode_ReadWrite = (1, 1) /\
  fmode_flags filemode_WriteAppend = (0, 0).
Proof.
  pose proof (NoDup_distinct _ filemode_labels) as L. simpl in L.
  unfold fmode_flags.
  repeat split; repeat case_decide; try reflexivity; intuition congruence.
Qed.

Lemma same_disk_gli_stream_new t r w rock :
  keeping same_disk anyhow (gli_stream_new t r w rock).
Proof. unfold gli_stream_new. same_disk_auto. Qed.

(** The stream that [glk_stream_open_file] makes, its file and the
    disk. *)
Lemma glk_stream_open_file_fields fileref fmode rock s f :
  fileref ≠ NULL -> filerefs s !! fileref = Some f ->
  post (glk_stream_open_file fileref fmode rock s)
    (fun str s' =>
       str ≠ NULL ->
       filerefs s' = filerefs s /\
       (fmode = filemode_Write \/ fmode = filemode_Read \/
        fmode = filemode_ReadWrite \/ fmode = filemode_WriteAppend) /\
       (fmode = filemode_Write -> fs s' = <[fref_filename f := []]> (fs s)) /\
       (fmode = filemode_Read ->
        fs s' = fs s /\ is_Some (fs s !! fref_filename f)) /\
       exists x,
         streams s' !! str = Some x /\ str_type x = 2 /\ str_file x ≠ NULL /\
         str_readable x
         = (if decide (fmode = filemode_Read ∨ fmode = filemode_ReadWrite)
            then 1 else 0) /\
         str_writable x = (if decide (fmode = filemode_Read) then 0 else 1) /\
         str_readcount x = 0 /\ str_writecount x = 0 /\
         (fmode = filemode_Write \/ fmode = filemode_Read ->
          files s' !! str_file x = Some (Build_FILE (fref_filename f) 0 false)))
    (fun _ => True).
Proof.
  intros Hne Hf. unfold glk_stream_open_file.
  rewrite (truthy_true _ Hne). cbn [negb].
  apply post_bind, post_load_fref. intros f' Hf'.
  assert (f' = f) as -> by congruence.
  pose proof (NoDup_distinct _ filemode_labels) as L. simpl in L.
  assert (forall modestr r w,
    r = (if decide (fmode = filemode_Read ∨ fmode = filemode_ReadWrite)
         then 1 else 0) ->
    w = (if decide (fmode = filemode_Read) then 0 else 1) ->
    (fmode = filemode_Write \/ fmode = filemode_Read \/
     fmode = filemode_ReadWrite \/ fmode = filemode_WriteAppend) ->
    (fmode = filemode_Write -> hd NUL modestr = "w"%char) ->
    (fmode = filemode_Read -> hd NUL modestr = "r"%char) ->
    post
      ((file <- fopen (fref_filename f) modestr ;;
        if negb (truthy file) then ret NULL
        else
          str <- gli_stream_new 2 r w rock ;;
          if negb (truthy str) then fclose file ;; ret NULL
          else update_str str (set_str_file file) ;; ret str) s)
      (fun str s' =>
         str ≠ NULL ->
         filerefs s' = filerefs s /\
         (fmode = filemode_Write \/ fmode = filemode_Read \/
          fmode = filemode_ReadWrite \/ fmode = filemode_WriteAppend) /\
         (fmode = filemode_Write -> fs s' = <[fref_filename f := []]> (fs s)) /\
         (fmode = filemode_Read ->
          fs s' = fs s /\ is_Some (fs s !! fref_filename f)) /\
         exists x,
           streams s' !! str = Some x /\ str_type x = 2 /\ str_file x ≠ NULL /\
           str_readable x
           = (if decide (fmode = filemode_Read ∨ fmode = filemode_ReadWrite)
              then 1 else 0) /\
           str_writable x = (if decide (fmode = filemode_Read) then 0 else 1) /\
           str_readcount x = 0 /\ str_writecount x = 0 /\
           (fmode = filemode_Write \/ fmode = filemode_Read ->
            files s' !! str_file x = Some (Build_FILE (fref_filename f) 0 false)))
      (fun _ => True)) as Hopen.
  { intros modestr r w Hrf Hwf Hmode Hw Hr.
    apply post_bind.
    assert (post (fopen (fref_filename f) modestr s)
              (fun file s1 =>
                 file ≠ NULL ->
                 filerefs s1 = filerefs s /\
                 (fmode = filemode_Write -> fs s1 = <[fref_filename f := []]> (fs s)) /\
                 (fmode = filemode_Read ->
                  fs s1 = fs s /\ is_Some (fs s !! fref_filename f)) /\
                 (fmode = filemode_Write \/ fmode = filemode_Read ->
                  files s1 !! file = Some (Build_FILE (fref_filename f) 0 false)))
              (fun _ => True)) as Hfopen.
    { unfold fopen, new_FILE. wp_step. wp_step. state_simpl.
      destruct (decide (hd NUL modestr = "r"%char)) as [Hm1 | Hm1];
        [| destruct (decide (hd NUL modestr = "w"%char)) as [Hm2 | Hm2];
           [| destruct (decide (hd NUL modestr = "a"%char)) as [Hm3 | Hm3]]].
      - assert (fmode ≠ filemode_Write) as Hnw
          by (intros Hw'; specialize (Hw Hw'); rewrite Hm1 in Hw; discriminate Hw).
        destruct (fs s !! fref_filename f) as [content |] eqn:Hc.
        + wp_step. wp_step; state_simpl.
          * rewrite truthy_NULL. wp_step. intros Hn. now contradiction Hn.
          * destruct (truthy (heap_next s)); [| wp_step; intros Hn; now contradiction Hn].
            do 3 (wp_step; state_simpl). intros _.
            split; [reflexivity |]. split; [tauto |].
            split; [intros _; split; [reflexivity | eauto] |].
            intros _. apply lookup_insert_eq.
        + wp_step. intros Hn. now contradiction Hn.
      - assert (fmode ≠ filemode_Read) as Hnr
          by (intros Hr'; specialize (Hr Hr'); rewrite Hm2 in Hr; discriminate Hr).
        do 3 (wp_step; state_simpl). wp_step; state_simpl.
        * rewrite truthy_NULL. wp_step. intros Hn. now contradiction Hn.
        * destruct (truthy (heap_next s)); [| wp_step; intros Hn; now contradiction Hn].
          do 3 (wp_step; state_simpl). intros _.
          split; [reflexivity |]. split; [intros _; reflexivity |].
          split; [tauto |]. intros _. apply lookup_insert_eq.
      - assert (fmode ≠ filemode_Write) as Hnw
          by (intros Hw'; apply Hm2; now apply Hw).
        assert (fmode ≠ filemode_Read) as Hnr
          by (intros Hr'; apply Hm1; now apply Hr).
        do 3 (wp_step; state_simpl). wp_step; state_simpl.
        * rewrite truthy_NULL. wp_step. intros Hn. now contradiction Hn.
        * destruct (truthy (heap_next s)); [| wp_step; intros Hn; now contradiction Hn].
          do 3 (wp_step; state_simpl). intros _.
          split; [reflexivity |]. repeat split; tauto.
      - wp_step. intros Hn. now contradiction Hn. }
    eapply post_mono; [exact Hfopen | cbv beta | intros; exact I].
    intros file s1 Hs1.
    destruct (truthy file) eqn:Hfile; cbn [negb];
      [| apply post_ret; intros Hn; now contradiction Hn].
    assert (file ≠ NULL) as Hfne by (intros ->; now rewrite truthy_NULL in Hfile).
    destruct (Hs1 Hfne) as (Efr & Efw & Efrd & Efile). clear Hs1.
    apply post_bind.
    eapply post_mono;
      [ apply post_and;
          [ apply (gli_stream_new_fields 2 r w rock s1)
          | apply (same_disk_gli_stream_new 2 r w rock s1) ]
      | cbv beta | intros; exact I ].
    intros str s2 ((_ & _ & _ & _ & _ & _ & Hx) & (Efs2 & Efiles2 & Efr2)).
    destruct (truthy str) eqn:Hstr; cbn [negb].
    2:{ apply post_bind, post_fclose. intros F HF. apply post_ret.
        intros Hn. now contradiction Hn. }
    assert (str ≠ NULL) as Hsne by (intros ->; now rewrite truthy_NULL in Hstr).
    destruct (Hx Hsne) as (x & Hx2 & Ht & Hrd & Hwr & _ & _ & _ & _ & _ & _ & Hrc & Hwc).
    apply post_bind, post_update_str. intros x' Hx'. state_simpl.
    assert (x' = x) as -> by congruence.
    apply post_ret. intros _. state_simpl.
    split; [congruence |]. split; [exact Hmode |].
    split; [intros Hm; rewrite Efs2; now apply Efw |].
    split; [intros Hm; rewrite Efs2; now apply Efrd |].
    eexists. rewrite lookup_insert_eq. split; [reflexivity |]. cbn.
    rewrite <- Hrf, <- Hwf.
    repeat (split; [assumption |]). intros Hm. rewrite Efiles2. now apply Efile. }
  destruct (decide (fmode = filemode_Write)) as [-> | Nw].
  { apply (Hopen _ 0 1); [| | tauto | | ].
    - rewrite decide_False; [reflexivity | intuition congruence].
    - rewrite decide_False; [reflexivity | intuition congruence].
    - intros _. destruct (truthy (fref_textmode f)); reflexivity.
    - intros E. exfalso. intuition congruence. }
  destruct (decide (fmode = filemode_Read)) as [-> | Nr].
  { apply (Hopen _ 1 0); [| | tauto | | ].
    - rewrite decide_True; [reflexivity | now left].
    - reflexivity.
    - intros E. exfalso. intuition congruence.
    - intros _. destruct (truthy (fref_textmode f)); reflexivity. }
  destruct (decide (fmode = filemode_ReadWrite)) as [-> | Nrw].
  { apply (Hopen _ 1 1); [| | tauto | | ].
    - rewrite decide_True; [reflexivity | now right].
    - reflexivity.
    - intros E. exfalso. intuition congruence.
    - intros E. exfalso. intuition congruence. }
  destruct (decide (fmode = filemode_WriteAppend)) as [-> | Na].
  { apply (Hopen _ 0 1); [| | tauto | | ].
    - rewrite decide_False; [reflexivity | intuition congruence].
    - reflexivity.
    - intros E. exfalso. intuition congruence.
    - intros E. exfalso. intuition congruence. }
  apply post_ret. intros Hn. now contradiction Hn.
Qed.

Lemma fputc_run c p s F content :
  files s !! p = Some F -> file_append F = false ->
  fs s !! file_path F = Some content -> file_pos F = Z.of_nat (length content) ->
  fputc c p s
  = Ret tt
      (put_files (<[p := Build_FILE (file_path F)
                           (Z.of_nat (length content) + 1) false]> (files s))
         (put_fs (<[file_path F := content ++ [c]]> (fs s)) s)).
Proof.
  intros HF Happ Hc Hpos. unfold fputc, bind, load_FILE. rewrite HF.
  unfold get, file_content. rewrite Hc, Happ. cbn [default].
  rewrite Hpos, Nat2Z.id. unfold write_at, id. rewrite decide_False by lia.
  rewrite Nat.sub_diag. cbn [replicate app]. unfold modify. state_simpl.
  reflexivity.
Qed.

(** One character goes to the end of the file of a stream. *)
Lemma put_char_file s str x F content ch :
  str ≠ NULL -> streams s !! str = Some x ->
  str_writable x ≠ 0 -> str_type x = 2 -> str_file x ≠ NULL ->
  files s !! str_file x = Some F -> file_append F = false ->
  fs s !! file_path F = Some content -> file_pos F = Z.of_nat (length content) ->
  gli_put_char_to_stream str ch s
  = Ret tt
      (put_files (<[str_file x := Build_FILE (file_path F)
                                    (Z.of_nat (length content) + 1) false]> (files s))
         (put_fs (<[file_path F := content ++ [ch]]> (fs s))
            (put_streams
               (<[str := set_str_writecount (wrap32 (str_writecount x + 1)) x]>
                  (streams s)) s))).
Proof.
  intros Hstr Hx Hw Ht Hfile HF Happ Hc Hpos.
  unfold gli_put_char_to_stream.
  rewrite (truthy_true _ Hstr). cbn [negb].
  rewrite (bind_Ret _ _ _ _ _ (load_str_Some _ _ _ Hx)).
  rewrite (truthy_true _ Hw). cbn [negb].
  rewrite (bind_Ret _ _ _ _ _ (update_str_Some _ _ _ _ Hx)).
  rewrite Ht. rewrite !bool_decide_eq_false_2 by lia. cbn [andb].
  rewrite bool_decide_eq_true_2 by reflexivity.
  rewrite (truthy_true _ Hfile). cbn [andb].
  match goal with
  | |- fputc _ _ ?s1 = _ =>
      rewrite (fputc_run ch (str_file x) s1 F content) by (state_simpl; assumption)
  end.
  reflexivity.
Qed.

Lemma put_chars_file str data : forall s x F content,
  str ≠ NULL -> streams s !! str = Some x ->
  str_writable x ≠ 0 -> str_type x = 2 -> str_file x ≠ NULL ->
  0 <= str_writecount x < 2 ^ 32 ->
  files s !! str_file x = Some F -> file_append F = false ->
  fs s !! file_path F = Some content -> file_pos F = Z.of_nat (length content) ->
  exists s' x' F',
    gli_put_chars str data s = Ret tt s' /\
    streams s' !! str = Some x' /\
    str_writecount x' = wrap32 (str_writecount x + Z.of_nat (length data)) /\
    str_file x' = str_file x /\ str_prev x' = str_prev x /\ str_next x' = str_next x /\
    files s' !! str_file x = Some F' /\ file_path F' = file_path F /\
    fs s' = <[file_path F := content ++ data]> (fs s) /\
    filerefs s' = filerefs s /\ stdout s' = stdout s.
Proof.
  induction data as [| ch data IH];
    intros s x F content Hstr Hx Hw Ht Hfile Hwc HF Happ Hc Hpos.
  - exists s, x, F. split; [reflexivity |]. cbn [length].
    rewrite Z.add_0_r, app_nil_r, wrap32_small by lia.
    repeat (split; [reflexivity || assumption |]).
    split; [| now split]. symmetry. now apply insert_id.
  - pose proof (put_char_file s str x F content ch Hstr Hx Hw Ht Hfile HF Happ Hc Hpos)
      as E1.
    match type of E1 with _ = Ret tt ?s1 =>
      destruct (IH s1 (set_str_writecount (wrap32 (str_writecount x + 1)) x)
                  (Build_FILE (file_path F) (Z.of_nat (length content) + 1) false)
                  (content ++ [ch]))
        as (s' & x' & F' & E & Hx' & Hwc' & Hf' & Hp' & Hn' & HF' & Hpath' & Hfs' & Hfr' & Ho')
    end; try assumption.
    + state_simpl. apply lookup_insert_eq.
    + cbn. apply wrap32_range.
    + state_simpl. cbn. apply lookup_insert_eq.
    + reflexivity.
    + state_simpl. cbn. apply lookup_insert_eq.
    + cbn. rewrite length_app. cbn. lia.
    + exists s', x', F'. split; [| split; [exact Hx' |]].
      * cbn [gli_put_chars]. now rewrite (bind_Ret _ _ _ _ _ E1).
      * cbn in *. state_simpl.
        split; [rewrite Hwc', wrap32_add_l; f_equal; lia |].
        repeat (split; [assumption |]).
        split; [| now split].
        rewrite Hfs', insert_insert_eq, <- app_assoc. reflexivity.
Qed.

(** A stream with a file is closed. *)
Lemma glk_stream_close_file s l str x F :
  str ≠ NULL -> dll (streams s) (gli_streamlist s) l ->
  streams s !! str = Some x -> str_file x ≠ NULL ->
  files s !! str_file x = Some F ->
  exists s',
    glk_stream_close str NULL s = Ret tt s' /\
    fs s' = fs s /\ filerefs s' = filerefs s /\ stdout s' = stdout s /\
    streams s' !! str = None.
Proof.
  intros Hstr Hdll Hx Hfile HF.
  assert (returns (glk_stream_close str NULL s)
            (fun _ s' =>
               fs s' = fs s /\ filerefs s' = filerefs s /\ stdout s' = stdout s /\
               streams s' !! str = None)) as Hr.
  { unfold glk_stream_close.
    rewrite (truthy_true _ Hstr). cbn [negb].
    apply returns_bind. eapply returns_load_str; [exact Hx |].
    rewrite truthy_NULL, (truthy_true _ Hfile). cbn [when].
    apply returns_bind, returns_ret.
    apply returns_bind, returns_bind.
    unfold fclose. apply returns_bind. unfold load_FILE. rewrite HF. cbn [returns].
    apply returns_modify.
    eapply returns_update_str; [state_simpl; exact Hx |]. state_simpl.
    apply returns_bind, returns_get. state_simpl.
    assert (dll (<[str := set_str_file NULL x]> (streams s)) (gli_streamlist s) l)
      as Hdll1 by (eapply dll_update; eauto).
    assert (forall (h' : gmap Z glk_stream_struct) head' l1 l2,
      l = l1 ++ str :: l2 -> dll h' head' (l1 ++ l2) -> h' !! str = None) as Hgone.
    { intros h' head' l1 l2 Hl Hdll'.
      apply eq_None_not_Some. intros Hlive.
      apply (proj2 (proj2 Hdll')) in Hlive.
      destruct Hdll as (_ & Hnd & _). rewrite Hl in Hnd.
      apply NoDup_app in Hnd as (_ & Hdisj & Hnd2).
      apply NoDup_cons in Hnd2 as [Hnot _].
      apply elem_of_app in Hlive as [Hin | Hin];
        [apply (Hdisj _ Hin); left | contradiction]. }
    destruct (bool_decide (gli_currentstr s = str)); cbn [when];
      (apply returns_bind; [apply returns_modify || apply returns_ret]);
      (eapply (stream_unlink_returns _ l str (set_str_file NULL x));
       [state_simpl; exact Hdll1 | state_simpl; apply lookup_insert_eq |]);
      intros h' l1 l2 Hl Hdll'; state_simpl;
      (split; [reflexivity |]); (split; [reflexivity |]);
      (split; [reflexivity |]); exact (Hgone _ _ _ _ Hl Hdll'). }
  apply returns_Ret in Hr as ([] & s' & E & Hs'). eauto.
Qed.

(** Characters are read from the file of a stream. *)
Lemma get_chars_file str n : forall s x F content,
  str ≠ NULL -> streams s !! str = Some x ->
  str_readable x ≠ 0 -> str_type x = 2 -> str_file x ≠ NULL ->
  files s !! str_file x = Some F -> fs s !! file_path F = Some content ->
  0 <= file_pos F -> file_pos F + Z.of_nat n <= Z.of_nat (length content) ->
  exists s' x' F',
    get_chars n str s
    = Ret (map uchar (take n (drop (Z.to_nat (file_pos F)) content))) s' /\
    streams s' !! str = Some x' /\
    str_readable x' = str_readable x /\ str_type x' = 2 /\
    str_file x' = str_file x /\
    files s' !! str_file x = Some F' /\ file_path F' = file_path F /\
    file_pos F' = file_pos F + Z.of_nat n /\ fs s' = fs s.
Proof.
  induction n as [| n IH]; intros s x F content Hstr Hx Hr Ht Hfile HF Hc Hp Hn.
  - exists s, x, F. cbn [get_chars take map]. rewrite Z.add_0_r.
    repeat (split; [reflexivity || assumption |]). reflexivity.
  - destruct (content !! Z.to_nat (file_pos F)) as [c |] eqn:Hlook;
      [| apply lookup_ge_None in Hlook; lia].
    assert (glk_get_char_stream str s
            = Ret (uchar c)
                (put_files (<[str_file x := Build_FILE (file_path F) (file_pos F + 1)
                                              (file_append F)]> (files s))
                   (put_streams
                      (<[str := set_str_readcount (wrap32 (str_readcount x + 1)) x]>
                         (streams s)) s))) as E1.
    { unfold glk_get_char_stream.
      rewrite (truthy_true _ Hstr). cbn [negb].
      rewrite (bind_Ret _ _ _ _ _ (load_str_Some _ _ _ Hx)).
      rewrite (truthy_true _ Hr). cbn [negb].
      rewrite (bind_Ret _ _ _ _ _ (update_str_Some _ _ _ _ Hx)).
      rewrite Ht. rewrite bool_decide_eq_false_2 by lia. cbn [andb].
      rewrite bool_decide_eq_true_2 by reflexivity.
      rewrite (truthy_true _ Hfile). cbn [andb].
      unfold fgetc, bind, load_FILE. state_simpl. rewrite HF.
      unfold get, file_content. state_simpl. rewrite Hc. cbn [default]. unfold id.
      rewrite Hlook. unfold modify, ret. state_simpl. reflexivity. }
    match type of E1 with _ = Ret _ ?s1 =>
      destruct (IH s1 (set_str_readcount (wrap32 (str_readcount x + 1)) x)
                  (Build_FILE (file_path F) (file_pos F + 1) (file_append F)) content)
        as (s' & x' & F' & E & Hx' & Hr' & Ht' & Hf' & HF' & Hpath' & Hpos' & Hfs')
    end; try assumption.
    + state_simpl. apply lookup_insert_eq.
    + state_simpl. cbn. apply lookup_insert_eq.
    + cbn. lia.
    + cbn. lia.
    + exists s', x', F'. cbn in *. state_simpl.
      split; [| repeat (split; [assumption |]); split; [lia | assumption]].
      cbn [get_chars].
      rewrite (bind_Ret _ _ _ _ _ E1), (bind_Ret _ _ _ _ _ E). unfold ret.
      f_equal.
      rewrite (drop_S _ c _ Hlook). cbn [take map].
      replace (Z.to_nat (file_pos F + 1)) with (S (Z.to_nat (file_pos F))) by lia.
      reflexivity.
Qed.

Lemma get_char_file_end s str x F content :
  str ≠ NULL -> streams s !! str = Some x ->
  str_readable x ≠ 0 -> str_type x = 2 -> str_file x ≠ NULL ->
  files s !! str_file x = Some F -> fs s !! file_path F = Some content ->
  Z.of_nat (length content) <= file_pos F ->
  exists s', glk_get_char_stream str s = Ret (-1) s'.
Proof.
  intros Hstr Hx Hr Ht Hfile HF Hc Hp. eexists.
  unfold glk_get_char_stream.
  rewrite (truthy_true _ Hstr). cbn [negb].
  rewrite (bind_Ret _ _ _ _ _ (load_str_Some _ _ _ Hx)).
  rewrite (truthy_true _ Hr). cbn [negb].
  rewrite (bind_Ret _ _ _ _ _ (update_str_Some _ _ _ _ Hx)).
  rewrite Ht. rewrite bool_decide_eq_false_2 by lia. cbn [andb].
  rewrite bool_decide_eq_true_2 by reflexivity.
  rewrite (truthy_true _ Hfile). cbn [andb].
  unfold fgetc, bind, load_FILE. state_simpl. rewrite HF.
  unfold get, file_content. state_simpl. rewrite Hc. cbn [default]. unfold id.
  rewrite (proj2 (lookup_ge_None _ _)) by lia. reflexivity.
Qed.

(** X14: a file is written and read back.  A stream is opened with
    [filemode_Write] on the file of a file reference, [data] is put to
    it and it is closed: the calls return and the file holds [data] and
    nothing else, whatever it held before; a stream opened afterwards
    with [filemode_Read] on the same file reference yields the
    characters of [data], in order, and then -1. *)
Theorem file_stream_round_trip (s : State) (fref rock : Z)
    (f : glk_fileref_struct) (data : list ascii) (str1 : Z) (s1 : State) :
  well_formed s -> fref ≠ NULL -> filerefs s !! fref = Some f ->
  glk_stream_open_file fref filemode_Write rock s = Ret str1 s1 -> str1 ≠ NULL ->
  exists s2 s3,
    glk_put_buffer_stream str1 (Some data) (Z.of_nat (length data)) s1 = Ret tt s2 /\
    glk_stream_close str1 NULL s2 = Ret tt s3 /\
    fs s3 = <[fref_filename f := data]> (fs s) /\
    forall rock' str2 s4,
      glk_stream_open_file fref filemode_Read rock' s3 = Ret str2 s4 -> str2 ≠ NULL ->
      exists s5 s6,
        get_chars (length data) str2 s4 = Ret (map uchar data) s5 /\
        glk_get_char_stream str2 s5 = Ret (-1) s6.
Proof.
  intros Hwf Hfref Hf Hopen Hstr1.
  pose proof (NoDup_distinct _ filemode_labels) as L. simpl in L.
  destruct (Hwf Stream) as [Hfresh [l Hl]].
  pose proof (post_Ret _ _ _ _ _ _ Hopen
                (glk_stream_open_file_fields fref filemode_Write rock s f Hfref Hf))
    as Hfields. cbv beta in Hfields.
  destruct (Hfields Hstr1)
    as (Efr1 & _ & Efs1 & _ & x1 & Hx1 & Ht1 & Hfile1 & _ & Hw1 & _ & Hwc1 & HF1).
  clear Hfields. specialize (Efs1 eq_refl). specialize (HF1 (or_introl eq_refl)).
  rewrite decide_False in Hw1 by intuition congruence.
  pose proof (post_Ret _ _ _ _ _ _ Hopen
                (glk_stream_open_file_chained fref filemode_Write rock s l Hl Hfresh))
    as Hl1. cbv beta in Hl1.
  assert (exists l1, chained Stream s1 l1) as [l1 Hl1']
    by (destruct Hl1 as [? | [q ?]]; eauto).
  clear Hl1.
  destruct (put_chars_file str1 data s1 x1
              (Build_FILE (fref_filename f) 0 false) [])
    as (s2 & x2 & F2 & E2 & Hx2 & _ & Hf2 & _ & _ & HF2 & _ & Efs2 & Efr2 & _);
    try assumption; try reflexivity; try lia.
  { cbn. rewrite Efs1. apply lookup_insert_eq. }
  pose proof (stable_gli_put_chars Stream str1 data s1) as Hst.
  rewrite E2 in Hst. simpl in Hst.
  pose proof (chained_stable _ _ _ _ Hst Hl1') as Hl2. cbn [chained] in Hl2.
  destruct (glk_stream_close_file s2 l1 str1 x2 F2 Hstr1 Hl2 Hx2)
    as (s3 & E3 & Efs3 & Efr3 & _ & _).
  { now rewrite Hf2. }
  { now rewrite Hf2. }
  assert (fs s3 = <[fref_filename f := data]> (fs s)) as Efs.
  { rewrite Efs3, Efs2, Efs1. cbn. now rewrite insert_insert_eq. }
  exists s2, s3. split; [| split; [exact E3 | split; [exact Efs |]]].
  { cbn [glk_put_buffer_stream]. rewrite decide_False by lia.
    now rewrite Nat2Z.id, firstn_all. }
  intros rock' str2 s4 Hopen2 Hstr2.
  assert (filerefs s3 !! fref = Some f) as Hf3 by (rewrite Efr3, Efr2, Efr1; exact Hf).
  pose proof (post_Ret _ _ _ _ _ _ Hopen2
                (glk_stream_open_file_fields fref filemode_Read rock' s3 f Hfref Hf3))
    as Hfields. cbv beta in Hfields.
  destruct (Hfields Hstr2)
    as (_ & _ & _ & Efs4 & x4 & Hx4 & Ht4 & Hfile4 & Hr4 & _ & _ & _ & HF4).
  clear Hfields. destruct (Efs4 eq_refl) as [Efs4' _].
  specialize (HF4 (or_intror eq_refl)).
  rewrite decide_True in Hr4 by now left.
  assert (fs s4 !! fref_filename f = Some data) as Hc4
    by (rewrite Efs4', Efs; apply lookup_insert_eq).
  destruct (get_chars_file str2 (length data) s4 x4
              (Build_FILE (fref_filename f) 0 false) data)
    as (s5 & x5 & F5 & E5 & Hx5 & Hr5 & Ht5 & Hf5 & HF5 & Hpath5 & Hpos5 & Efs5);
    try assumption; try (cbn; first [assumption | lia]).
  cbn in E5, Hpath5, Hpos5. rewrite drop_0, firstn_all in E5.
  destruct (get_char_file_end s5 str2 x5 F5 data) as [s6 E6];
    try assumption; try lia; try (now rewrite Hf5).
  { rewrite Hpath5, Efs5. exact Hc4. }
  exists s5, s6. now split.
Qed.

Lemma fopen_read_missing path mode s :
  hd NUL mode = "r"%char -> fs s !! path = None -> fopen path mode s = Ret NULL s.
Proof.
  intros Hm Hc. unfold fopen. rewrite bind_get, Hc, Hm.
  rewrite decide_True by reflexivity. reflexivity.
Qed.

(** X15: once [glk_fileref_delete_file] has removed the file of a file
    reference, [glk_fileref_does_file_exist] returns 0 for it and
    [glk_stream_open_file] with [filemode_Read] returns no stream, and
    neither changes anything; before, when the file was there and no
    allocation fails, [glk_fileref_does_file_exist] returned 1 and left
    the disk as it was. *)
Theorem deleted_file_is_gone (s : State) (fref rock : Z) (f : glk_fileref_struct) :
  fref ≠ NULL -> filerefs s !! fref = Some f ->
  (heap_script s = [] -> 1 <= heap_next s -> is_Some (fs s !! fref_filename f) ->
   exists s', glk_fileref_does_file_exist fref s = Ret 1 s' /\ fs s' = fs s) /\
  exists s1,
    glk_fileref_delete_file fref s = Ret tt s1 /\
    fs s1 = delete (fref_filename f) (fs s) /\
    glk_fileref_does_file_exist fref s1 = Ret 0 s1 /\
    glk_stream_open_file fref filemode_Read rock s1 = Ret NULL s1.
Proof.
  intros Hfref Hf. split.
  - intros Hscript Hnext [content Hc].
    unfold glk_fileref_does_file_exist.
    rewrite (truthy_true _ Hfref). cbn [negb].
    rewrite (bind_Ret _ _ _ _ _ (load_fref_Some _ _ _ Hf)).
    unfold fopen. rewrite bind_assoc, bind_get, Hc.
    change (hd NUL (lit "r")) with "r"%char.
    rewrite decide_True by reflexivity.
    unfold new_FILE. rewrite !bind_assoc.
    unfold bind at 1. unfold malloc. rewrite Hscript.
    rewrite (truthy_true (heap_next s)) by (unfold NULL; lia).
    rewrite bind_assoc, bind_modify, bind_ret.
    rewrite (truthy_true (heap_next s)) by (unfold NULL; lia).
    unfold fclose, bind, load_FILE. state_simpl. rewrite lookup_insert_eq.
    eexists. split; [reflexivity |]. reflexivity.
  - set (s1 := put_fs (delete (fref_filename f) (fs s)) s).
    assert (filerefs s1 !! fref = Some f) as Hf1 by exact Hf.
    exists s1. split; [| split; [| split]].
    + unfold glk_fileref_delete_file.
      rewrite (truthy_true _ Hfref). cbn [negb].
      rewrite (bind_Ret _ _ _ _ _ (load_fref_Some _ _ _ Hf)). reflexivity.
    + reflexivity.
    + unfold glk_fileref_does_file_exist.
      rewrite (truthy_true _ Hfref). cbn [negb].
      rewrite (bind_Ret _ _ _ _ _ (load_fref_Some _ _ _ Hf1)).
      rewrite (bind_Ret _ _ _ _ _
                 (fopen_read_missing (fref_filename f) (lit "r") s1 eq_refl
                    (lookup_delete_eq _ _))).
      rewrite truthy_NULL. reflexivity.
    + pose proof (NoDup_distinct _ filemode_labels) as L. simpl in L.
      unfold glk_stream_open_file.
      rewrite (truthy_true _ Hfref). cbn [negb].
      rewrite (bind_Ret _ _ _ _ _ (load_fref_Some _ _ _ Hf1)).
      rewrite decide_False by intuition congruence.
      rewrite decide_True by reflexivity.
      erewrite (bind_Ret (fopen _ _) _ s1);
        [| apply fopen_read_missing;
           [destruct (truthy (fref_textmode f)); reflexivity
           | apply lookup_delete_eq]].
      rewrite truthy_NULL. reflexivity.
Qed.

End FileStreams.

(** ** The calls that print and the calls that read *)

(** The calls that can print a frame. *)
Definition prints (c : call) : bool :=
  match c with
  | Call_exit | Call_window_open _ _ _ _ _ | Call_window_clear _
  | Call_put_char _ | Call_put_char_stream _ _
  | Call_put_string _ | Call_put_string_stream _ _
  | Call_put_buffer _ _ | Call_put_buffer_stream _ _ _
  | Call_fileref_create_by_prompt _ _ _ | Call_select _ => true
  | _ => false
  end.

(** The calls that can read from the standard input. *)
Definition reads (c : call) : bool :=
  match c with
  | Call_fileref_create_by_prompt _ _ _ | Call_select _ => true
  | _ => false
  end.

(** Nothing is read from the standard input. *)
Definition same_input (s s' : State) : Prop := stdin s' = stdin s.

#[global] Instance same_input_keeps : Keeps same_input anyhow.
Proof.
  split; unfold same_input, anyhow; [reflexivity | congruence | trivial].
Qed.

Ltac same_input_side := intros; unfold same_input; state_simpl; reflexivity.

Ltac same_input_auto :=
  unfold json_flush, json_reset, json_append, fopen, new_FILE, fclose, fputc,
    fgetc, fseek, ftell, print_line, update_win, new_win, free_win, update_str,
    new_str, free_str, update_fref, new_fref, free_fref, store_result,
    store_byte, store_word, update_event, load_byte;
  repeat (keeping_step same_input_side).

Section Quiet.
Context `{glk_h}.

Lemma same_input_json_escape_loop text :
  keeping same_input anyhow (json_escape_loop text).
Proof.
  induction text as [| c text IH]; simpl; unfold json_escape_char;
    same_input_auto.
Qed.

Lemma same_input_put_char str ch :
  keeping same_input anyhow (gli_put_char_to_stream str ch).
Proof.
  pose proof same_input_json_escape_loop.
  unfold gli_put_char_to_stream, json_append_escaped_string. same_input_auto.
Qed.

Lemma same_input_put_chars str text :
  keeping same_input anyhow (gli_put_chars str text).
Proof.
  pose proof same_input_put_char.
  induction text as [| ch text IH]; simpl; same_input_auto.
Qed.

Lemma same_input_exit_process : keeping same_input anyhow exit_process.
Proof. intros s. exact I. Qed.

Lemma same_input_exec c : reads c = false -> keeping same_input anyhow (exec c).
Proof.
  intros Hc.
  pose proof same_input_put_char. pose proof same_input_put_chars.
  pose proof same_input_exit_process.
  destruct c; try discriminate Hc; clear Hc;
    cbn [exec]; unfold void, glk_exit, glk_gestalt, glk_gestalt_ext,
      glk_window_open, glk_window_close,
      glk_window_iterate, glk_window_clear, glk_window_get_stream,
      glk_window_set_echo_stream, glk_set_window, glk_stream_open_file,
      glk_stream_open_memory, glk_stream_open_memory_uni, glk_stream_close,
      glk_stream_iterate,
      glk_stream_set_position, glk_stream_get_position, glk_stream_set_current,
      glk_put_char, glk_put_char_stream, glk_put_string, glk_put_string_stream,
      glk_put_buffer, glk_put_buffer_stream, glk_get_char_stream,
      glk_fileref_create_temp, glk_fileref_create_by_name,
      glk_fileref_create_from_fileref,
      glk_fileref_destroy, glk_fileref_iterate, glk_fileref_delete_file,
      glk_fileref_does_file_exist, glk_select_poll, glk_request_line_event,
      glk_request_char_event, glk_cancel_line_event, glk_cancel_char_event,
      glk_request_char_event_uni, glk_request_line_event_uni,
      gli_stream_open_window, gli_stream_new, gli_fileref_new;
    same_input_auto.
Qed.

Lemma silent_exec c : prints c = false -> silent (exec c).
Proof.
  intros Hc.
  destruct c; try discriminate Hc; clear Hc;
    cbn [exec]; unfold void, glk_gestalt, glk_stream_set_current;
    silent_auto.
Qed.

(** X16: but for the calls that put characters, open or clear a window,
    wait for input ([glk_select]), ask for a file name
    ([glk_fileref_create_by_prompt]) or end the process ([glk_exit]), no
    call prints anything or ends the process; and but for [glk_select]
    and [glk_fileref_create_by_prompt], no call takes anything from the
    standard input. *)
Theorem quiet_calls (c : call) (s : State) :
  post (exec c s)
    (fun _ s' =>
       (prints c = false -> stdout s' = stdout s) /\
       (reads c = false -> stdin s' = stdin s))
    (fun _ => prints c = true).
Proof.
  pose proof (silent_exec c) as Hs. pose proof (same_input_exec c) as Hi.
  destruct (prints c) eqn:Hp; destruct (reads c) eqn:Hr;
    try specialize (Hs eq_refl s); try specialize (Hi eq_refl s);
    destruct (exec c s) as [r s' | s' |]; simpl in *;
    try exact I; try reflexivity; try contradiction;
    split; intros; congruence || assumption.
Qed.

End Quiet.

(** ** Unicode requests *)

(** The Unicode requests of [w] are requests of [w']. *)
Definition uni_kept (w w' : glk_window_struct) : Prop :=
  (win_char_request_uni w ≠ 0 -> win_char_request_uni w' ≠ 0) /\
  (win_line_request_uni w ≠ 0 -> win_line_request_uni w' ≠ 0).

(** Every window of [s'] is a window of [s], and has the Unicode
    requests it had. *)
Definition kept_from (s s' : State) : Prop :=
  forall p w', windows s' !! p = Some w' ->
    exists w, windows s !! p = Some w /\ uni_kept w w'.

(** Every window of [s] is a window of [s'], and has the Unicode
    requests it had. *)
Definition kept_to (s s' : State) : Prop :=
  forall p w, windows s !! p = Some w ->
    exists w', windows s' !! p = Some w' /\ uni_kept w w'.

Lemma uni_kept_refl w : uni_kept w w.
Proof. split; auto. Qed.

Lemma uni_kept_trans w1 w2 w3 : uni_kept w1 w2 -> uni_kept w2 w3 -> uni_kept w1 w3.
Proof. intros [A1 B1] [A2 B2]. split; auto. Qed.

#[global] Instance kept_from_keeps : Keeps kept_from anyhow.
Proof.
  split; unfold kept_from, anyhow; [intros s | intros s1 s2 s3 | trivial].
  - intros p w' Hw. exists w'. split; [exact Hw | apply uni_kept_refl].
  - intros H1 H2 p w3 Hw3. destruct (H2 p w3 Hw3) as (w2 & Hw2 & K2).
    destruct (H1 p w2 Hw2) as (w1 & Hw1 & K1).
    exists w1. split; [exact Hw1 | now apply (uni_kept_trans w1 w2)].
Qed.

#[global] Instance kept_to_keeps : Keeps kept_to anyhow.
Proof.
  split; unfold kept_to, anyhow; [intros s | intros s1 s2 s3 | trivial].
  - intros p w Hw. exists w. split; [exact Hw | apply uni_kept_refl].
  - intros H1 H2 p w1 Hw1. destruct (H1 p w1 Hw1) as (w2 & Hw2 & K1).
    destruct (H2 p w2 Hw2) as (w3 & Hw3 & K2).
    exists w3. split; [exact Hw3 | now apply (uni_kept_trans w1 w2)].
Qed.

Ltac kept_side :=
  intros; unfold kept_from, kept_to; state_simpl;
  intros ? ? ?; eexists; split; [eassumption | apply uni_kept_refl].

Ltac kept_auto :=
  unfold json_append_escaped_string, json_flush, json_reset, json_append, fopen,
    new_FILE, fclose, fputc, fgetc, fseek, ftell, print_line, update_str,
    new_str, free_str, update_fref, new_fref, free_fref, store_result,
    store_byte, store_word, update_event, load_byte;
  repeat (keeping_step kept_side).

Section UnicodeRequests.
Context `{glk_h}.

Lemma kept_from_update_win p f :
  (forall w, win_char_request_uni (f w) ≠ 0 \/
             win_char_request_uni (f w) = win_char_request_uni w) ->
  (forall w, win_line_request_uni (f w) ≠ 0 \/
             win_line_request_uni (f w) = win_line_request_uni w) ->
  keeping kept_from anyhow (update_win p f).
Proof.
  intros Hc Hl s. apply post_update_win. intros w Hw.
  unfold kept_from. state_simpl. intros q w' Hq.
  destruct (decide (q = p)) as [-> | Hne].
  - rewrite lookup_insert_eq in Hq. injection Hq as <-.
    exists w. split; [exact Hw |].
    split; [destruct (Hc w) as [? | ->] | destruct (Hl w) as [? | ->]]; auto.
  - rewrite lookup_insert_ne in Hq by congruence.
    exists w'. split; [exact Hq | apply uni_kept_refl].
Qed.

Lemma kept_to_update_win p f :
  (forall w, win_char_request_uni (f w) ≠ 0 \/
             win_char_request_uni (f w) = win_char_request_uni w) ->
  (forall w, win_line_request_uni (f w) ≠ 0 \/
             win_line_request_uni (f w) = win_line_request_uni w) ->
  keeping kept_to anyhow (update_win p f).
Proof.
  intros Hc Hl s. apply post_update_win. intros w Hw.
  unfold kept_to. state_simpl. intros q w0 Hq.
  destruct (decide (q = p)) as [-> | Hne].
  - exists (f w). rewrite lookup_insert_eq. split; [reflexivity |].
    assert (w0 = w) as -> by congruence.
    split; [destruct (Hc w) as [? | ->] | destruct (Hl w) as [? | ->]]; auto.
  - exists w0. rewrite lookup_insert_ne by congruence.
    split; [exact Hq | apply uni_kept_refl].
Qed.

Lemma kept_from_free_win p : keeping kept_from anyhow (free_win p).
Proof.
  intros s. apply post_free_win. intros w Hw.
  unfold kept_from. state_simpl. intros q w' Hq.
  apply lookup_delete_Some in Hq as [_ Hq].
  exists w'. split; [exact Hq | apply uni_kept_refl].
Qed.

End UnicodeRequests.

#[export] Hint Extern 1 (keeping kept_from _ (update_win _ _)) =>
  apply kept_from_update_win; intros;
  first [right; reflexivity | left; cbn; lia] : keeping.
#[export] Hint Extern 1 (keeping kept_to _ (update_win _ _)) =>
  apply kept_to_update_win; intros;
  first [right; reflexivity | left; cbn; lia] : keeping.
#[export] Hint Resolve kept_from_free_win : keeping.

Section UnicodeRequestsCalls.
Context `{glk_h}.

Lemma kept_from_json_escape_loop text :
  keeping kept_from anyhow (json_escape_loop text).
Proof.
  induction text as [| c text IH]; simpl; unfold json_escape_char; kept_auto.
Qed.

Lemma kept_to_json_escape_loop text :
  keeping kept_to anyhow (json_escape_loop text).
Proof.
  induction text as [| c text IH]; simpl; unfold json_escape_char; kept_auto.
Qed.

Lemma kept_from_put_char str ch :
  keeping kept_from anyhow (gli_put_char_to_stream str ch).
Proof.
  pose proof kept_from_json_escape_loop.
  unfold gli_put_char_to_stream. kept_auto.
Qed.

Lemma kept_from_put_chars str text :
  keeping kept_from anyhow (gli_put_chars str text).
Proof.
  pose proof kept_from_put_char.
  induction text as [| ch text IH]; simpl; kept_auto.
Qed.

Lemma kept_from_select_scan fuel : forall win,
  keeping kept_from anyhow (select_scan fuel win).
Proof. induction fuel as [| fuel IH]; intros win; simpl; kept_auto. Qed.

Lemma kept_from_exit_process : keeping kept_from anyhow exit_process.
Proof. intros s. exact I. Qed.

Lemma kept_from_store_byte a c : keeping kept_from anyhow (store_byte a c).
Proof. unfold store_byte. kept_auto. Qed.

(** No call but [glk_window_open] makes a window, and no call takes a
    Unicode request from a window. *)
Lemma kept_from_exec c :
  is_create Window c = false -> keeping kept_from anyhow (exec c).
Proof.
  intros Hc.
  pose proof kept_from_json_escape_loop.
  pose proof kept_from_put_char. pose proof kept_from_put_chars.
  pose proof kept_from_select_scan. pose proof kept_from_exit_process.
  pose proof kept_from_store_byte.
  destruct c; try discriminate Hc; clear Hc;
    cbn [exec]; unfold void, glk_exit, glk_gestalt, glk_gestalt_ext,
      glk_window_close,
      glk_window_iterate, glk_window_clear, glk_window_get_stream,
      glk_window_set_echo_stream, glk_set_window, glk_stream_open_file,
      glk_stream_open_memory, glk_stream_open_memory_uni, glk_stream_close,
      glk_stream_iterate,
      glk_stream_set_position, glk_stream_get_position, glk_stream_set_current,
      glk_put_char, glk_put_char_stream, glk_put_string, glk_put_string_stream,
      glk_put_buffer, glk_put_buffer_stream, glk_get_char_stream,
      glk_fileref_create_temp, glk_fileref_create_by_name,
      glk_fileref_create_by_prompt, glk_fileref_create_from_fileref,
      glk_fileref_destroy, glk_fileref_iterate, glk_fileref_delete_file,
      glk_fileref_does_file_exist, glk_select, glk_select_poll,
      glk_request_line_event,
      glk_request_char_event, glk_cancel_line_event, glk_cancel_char_event,
      glk_request_char_event_uni, glk_request_line_event_uni,
      gli_stream_open_window, gli_stream_new, gli_fileref_new;
    kept_auto.
Qed.

Lemma kept_to_window_open split method size wintype rock s :
  fresh Window s ->
  post (glk_window_open split method size wintype rock s)
    (fun _ s' => kept_to s s') (fun _ => True).
Proof.
  intros [Hnext Hfresh].
  assert (windows s !! heap_next s = None) as Hnone.
  { apply eq_None_not_Some. intros [x Hx].
    specialize (Hfresh (heap_next s)). cbn [ids] in Hfresh.
    rewrite lookup_fmap, Hx in Hfresh. specialize (Hfresh ltac:(eauto)). lia. }
  assert (forall s1 : State,
            windows s1 = windows s \/
            (exists v, windows s1 = <[heap_next s := v]> (windows s)) ->
            kept_to s s1) as Hhere.
  { intros s1 Hs1 p w Hw. exists w. split; [| apply uni_kept_refl].
    destruct Hs1 as [-> | [v ->]]; [exact Hw |].
    rewrite lookup_insert_ne by congruence. exact Hw. }
  unfold glk_window_open. apply post_bind, post_malloc; intros script.
  - rewrite truthy_NULL. cbn [negb]. apply post_ret, Hhere. now left.
  - destruct (truthy (heap_next s)); cbn [negb];
      [| apply post_ret, Hhere; now left].
    apply post_bind, post_get. apply post_bind, post_modify.
    apply post_bind. unfold new_win at 1. apply post_modify.
    match goal with
    | |- post (?m ?s1) _ _ =>
        apply (post_keeping kept_to anyhow m s1);
        [ unfold gli_stream_open_window, gli_stream_new; solve [kept_auto]
        | | intros ? _; exact I ]
    end.
    intros _ s' Hk. eapply (R_trans (R := kept_to)); [| exact Hk].
    apply Hhere. right. state_simpl. eauto.
Qed.

(** A window that is live no more stays so: its address is not used
    again. *)
Lemma exec_dead_windows c s :
  fresh Window s ->
  post (exec c s)
    (fun _ s' =>
       heap_next s <= heap_next s' /\ fresh Window s' /\
       forall p, p < heap_next s -> windows s !! p = None -> windows s' !! p = None)
    (fun _ => True).
Proof.
  intros Hfresh.
  eapply post_mono; [apply (exec_effect Window c s Hfresh) | cbv beta | intros; exact I].
  intros r s' Hstep.
  destruct (step_live _ _ _ _ _ Hfresh Hstep) as [Hfresh' _].
  assert (heap_next s <= heap_next s' /\
          forall p, p < heap_next s -> ids Window s !! p = None ->
                    ids Window s' !! p = None) as [Hheap Hdead].
  { unfold step_ok in Hstep.
    destruct (change_of Window c s r s') as [| q | q].
    - destruct Hstep as [(-> & _ & ?) | (_ & -> & _ & ?)]; split; auto.
    - destruct Hstep as (Hq & -> & _). split; [lia |].
      intros p Hp Hnone. rewrite lookup_insert_ne by lia. exact Hnone.
    - destruct Hstep as (_ & -> & _ & ?). split; [assumption |].
      intros p Hp Hnone. apply lookup_delete_None. now right. }
  split; [exact Hheap |]. split; [exact Hfresh' |].
  intros p Hp Hnone. specialize (Hdead p Hp). cbn [ids] in Hdead.
  rewrite !lookup_fmap in Hdead. rewrite Hnone in Hdead.
  specialize (Hdead eq_refl).
  destruct (windows s' !! p); [discriminate Hdead | reflexivity].
Qed.

(** The windows of the state [s'] that were made before the state [s]
    are windows of [s], with the Unicode requests they had. *)
Definition requests_kept (s s' : State) : Prop :=
  heap_next s <= heap_next s' /\ fresh Window s' /\
  forall p w', p < heap_next s -> windows s' !! p = Some w' ->
    exists w, windows s !! p = Some w /\ uni_kept w w'.

Lemma exec_requests_kept c s :
  fresh Window s ->
  post (exec c s) (fun _ s' => requests_kept s s') (fun _ => True).
Proof.
  intros Hfresh.
  pose proof (exec_dead_windows c s Hfresh) as Hdead.
  destruct (is_create Window c) eqn:Hc.
  - destruct c; try discriminate Hc. cbn [exec] in *.
    pose proof (kept_to_window_open split method size wintype rock s Hfresh) as Hk.
    destruct (glk_window_open split method size wintype rock s) as [r s' | s' |];
      simpl in *; [| exact I | exact I].
    destruct Hdead as (Hheap & Hfresh' & Hdead).
    split; [exact Hheap |]. split; [exact Hfresh' |].
    intros p w' Hp Hw'.
    destruct (windows s !! p) as [w |] eqn:Hw.
    + destruct (Hk p w Hw) as (w'' & Hw'' & K).
      exists w. split; [reflexivity |]. congruence.
    + rewrite (Hdead p Hp Hw) in Hw'. discriminate Hw'.
  - pose proof (kept_from_exec c Hc s) as Hk.
    destruct (exec c s) as [r s' | s' |]; simpl in *; [| exact I | exact I].
    destruct Hdead as (Hheap & Hfresh' & _).
    split; [exact Hheap |]. split; [exact Hfresh' |].
    intros p w' _ Hw'. exact (Hk p w' Hw').
Qed.

Lemma run_requests_kept cs : forall s,
  fresh Window s ->
  post (run cs s) (fun _ s' => requests_kept s s') (fun _ => True).
Proof.
  induction cs as [| c cs IH]; intros s Hfresh; simpl.
  - split; [lia |]. split; [exact Hfresh |].
    intros p w' _ Hw'. exists w'. split; [exact Hw' | apply uni_kept_refl].
  - apply post_bind.
    eapply post_mono; [apply (exec_requests_kept c s Hfresh) | cbv beta | intros; exact I].
    intros r s1 (Hheap1 & Hfresh1 & Hk1). apply post_bind.
    eapply post_mono; [apply (IH s1 Hfresh1) | cbv beta | intros; exact I].
    intros rs s2 (Hheap2 & Hfresh2 & Hk2).
    split; [lia |]. split; [exact Hfresh2 |].
    intros p w2 Hp Hw2.
    destruct (Hk2 p w2 ltac:(lia) Hw2) as (w1 & Hw1 & K2).
    destruct (Hk1 p w1 Hp Hw1) as (w & Hw & K1).
    exists w. split; [exact Hw | now apply (uni_kept_trans w w1)].
Qed.

(** X17: a Unicode request is never taken back: when
    [glk_request_char_event_uni] or [glk_request_line_event_uni] has set
    the request of a window, the window has it for as long as it lives,
    whatever the calls that follow: neither [glk_cancel_char_event] nor
    [glk_cancel_line_event] nor [glk_select] clears it. *)
Theorem unicode_request_stays (cs : list call) (s : State) :
  fresh Window s ->
  post (run cs s)
    (fun _ s' =>
       forall p w w',
         windows s !! p = Some w -> windows s' !! p = Some w' ->
         (win_char_request_uni w ≠ 0 -> win_char_request_uni w' ≠ 0) /\
         (win_line_request_uni w ≠ 0 -> win_line_request_uni w' ≠ 0))
    (fun _ => True).
Proof.
  intros Hfresh.
  eapply post_mono; [apply (run_requests_kept cs s Hfresh) | cbv beta | intros; exact I].
  intros rs s' (_ & _ & Hk) p w w' Hw Hw'.
  assert (p < heap_next s) as Hp.
  { apply (proj2 Hfresh). cbn [ids]. rewrite lookup_fmap, Hw. eauto. }
  destruct (Hk p w' Hp Hw') as (w0 & Hw0 & K).
  assert (w0 = w) as -> by congruence. exact K.
Qed.

End UnicodeRequestsCalls.

(** ** Unicode memory streams

    [glk_stream_open_memory_uni] keeps the caller's array in [buf_uni];
    the functions that put and get characters look at [buf] only, which
    [gli_stream_new] has zeroed. *)

Section UnicodeMemory.
Context `{glk_h}.

(** The stream that [glk_stream_open_memory_uni] makes. *)
Lemma glk_stream_open_memory_uni_fields buf buflen fmode rock s :
  post (glk_stream_open_memory_uni buf buflen fmode rock s)
    (fun str s' =>
       mem s' = mem s /\ stdout s' = stdout s /\ stdin s' = stdin s /\
       (str ≠ NULL ->
        exists x, streams s' !! str = Some x /\
          str_type x = 1 /\ str_buf x = NULL /\ str_buf_uni x = buf /\
          str_buflen x = buflen /\ str_bufptr x = 0 /\
          str_readcount x = 0 /\ str_writecount x = 0))
    (fun _ => True).
Proof.
  unfold glk_stream_open_memory_uni.
  destruct (fmode_flags fmode) as [r w].
  apply post_bind.
  eapply post_mono; [apply gli_stream_new_fields | cbv beta | intros; exact I].
  intros str s1 (Em & _ & Eo & Ei & _ & _ & Hx).
  destruct (truthy str) eqn:Hstr; cbn [negb].
  2:{ apply post_ret. do 3 (split; [assumption |]). intros Hne. now contradiction Hne. }
  destruct Hx as (x & Hx & Ht & _ & _ & _ & Hb & _ & _ & _ & _ & Hrc & Hwc).
  { intros ->. now rewrite truthy_NULL in Hstr. }
  apply post_bind, post_update_str. intros x1 Hx1. state_simpl.
  assert (x1 = x) as -> by congruence.
  apply post_bind, post_update_str. state_simpl. intros x2 Hx2.
  rewrite lookup_insert_eq in Hx2. injection Hx2 as <-.
  apply post_bind, post_update_str. state_simpl. intros x3 Hx3.
  rewrite lookup_insert_eq in Hx3. injection Hx3 as <-.
  apply post_bind, post_update_str. state_simpl. intros x4 Hx4.
  rewrite lookup_insert_eq in Hx4. injection Hx4 as <-.
  apply post_ret. state_simpl.
  do 3 (split; [assumption |]). intros _.
  eexists. rewrite lookup_insert_eq. split; [reflexivity |].
  cbn. repeat split; assumption.
Qed.

(** A memory stream without a buffer counts what is put to it and
    stores nothing. *)
Lemma put_char_detached s str x ch :
  str ≠ NULL -> streams s !! str = Some x ->
  str_writable x ≠ 0 -> str_type x = 1 -> str_buf x = NULL ->
  gli_put_char_to_stream str ch s
  = Ret tt (put_streams
              (<[str := set_str_writecount (wrap32 (str_writecount x + 1)) x]>
                 (streams s)) s).
Proof.
  intros Hstr Hx Hw Ht Hb.
  unfold gli_put_char_to_stream.
  rewrite (truthy_true str) by assumption. cbn [negb].
  rewrite (bind_Ret _ _ _ _ _ (load_str_Some _ _ _ Hx)).
  rewrite (truthy_true (str_writable x)) by assumption. cbn [negb].
  rewrite (bind_Ret _ _ _ _ _ (update_str_Some _ _ _ _ Hx)).
  rewrite Ht, Hb, truthy_NULL.
  rewrite !bool_decide_eq_false_2 by lia. cbn [andb].
  rewrite bool_decide_eq_true_2 by reflexivity. cbn [andb].
  rewrite bool_decide_eq_false_2 by lia. reflexivity.
Qed.

Lemma set_writecount_again x w1 w2 :
  set_str_writecount w2 (set_str_writecount w1 x) = set_str_writecount w2 x.
Proof. destruct x; reflexivity. Qed.

Lemma set_writecount_id x : set_str_writecount (str_writecount x) x = x.
Proof. destruct x; reflexivity. Qed.

Lemma put_chars_detached str data : forall s x,
  str ≠ NULL -> streams s !! str = Some x ->
  str_writable x ≠ 0 -> str_type x = 1 -> str_buf x = NULL ->
  0 <= str_writecount x < 2 ^ 32 ->
  exists s',
    gli_put_chars str data s = Ret tt s' /\
    mem s' = mem s /\ stdout s' = stdout s /\
    streams s'
    = <[str := set_str_writecount
                 (wrap32 (str_writecount x + Z.of_nat (length data))) x]>
        (streams s).
Proof.
  induction data as [| c data IH]; intros s x Hstr Hx Hw Ht Hb Hc.
  - exists s. simpl. repeat split.
    rewrite Z.add_0_r, wrap32_small, set_writecount_id by lia.
    symmetry. now apply insert_id.
  - pose proof (put_char_detached s str x c Hstr Hx Hw Ht Hb) as E1.
    set (x1 := set_str_writecount _ x) in E1.
    set (s1 := put_streams _ s) in E1.
    destruct (IH s1 x1) as (s2 & E2 & M2 & O2 & S2); try assumption.
    + subst s1. state_simpl. apply lookup_insert_eq.
    + subst x1. simpl. apply wrap32_range.
    + exists s2. split; [| split; [| split]].
      * simpl. now rewrite (bind_Ret _ _ _ _ _ E1).
      * rewrite M2. reflexivity.
      * rewrite O2. reflexivity.
      * rewrite S2. subst s1. state_simpl. rewrite insert_insert_eq. f_equal.
        subst x1. rewrite set_writecount_again. simpl.
        rewrite wrap32_add_l.
        change (length (c :: data)) with (S (length data)).
        f_equal. f_equal. lia.
Qed.

Lemma get_char_detached s str x :
  str ≠ NULL -> streams s !! str = Some x -> str_type x = 1 -> str_buf x = NULL ->
  exists s', glk_get_char_stream str s = Ret (-1) s' /\
             mem s' = mem s /\ stdout s' = stdout s /\ stdin s' = stdin s.
Proof.
  intros Hstr Hx Ht Hb.
  unfold glk_get_char_stream.
  rewrite (truthy_true _ Hstr). cbn [negb].
  rewrite (bind_Ret _ _ _ _ _ (load_str_Some _ _ _ Hx)).
  destruct (truthy (str_readable x)); cbn [negb].
  - rewrite (bind_Ret _ _ _ _ _ (update_str_Some _ _ _ _ Hx)).
    rewrite Ht, Hb, truthy_NULL.
    rewrite bool_decide_eq_true_2 by reflexivity. cbn [andb].
    rewrite bool_decide_eq_false_2 by lia. cbn [andb].
    eexists. split; [reflexivity |]. state_simpl. repeat split.
  - exists s. repeat split.
Qed.

Lemma get_buffer_detached s str x buf len :
  streams s !! str = Some x -> str_type x = 1 -> str_buf x = NULL ->
  glk_get_buffer_stream str buf len s = Ret 0 s.
Proof.
  intros Hx Ht Hb.
  unfold glk_get_buffer_stream.
  destruct (truthy str); cbn [negb]; [| reflexivity].
  rewrite (bind_Ret _ _ _ _ _ (load_str_Some _ _ _ Hx)).
  destruct (negb (truthy (str_readable x)) || negb (truthy buf)); [reflexivity |].
  rewrite Ht, Hb, truthy_NULL.
  rewrite bool_decide_eq_true_2 by reflexivity. cbn [andb].
  rewrite bool_decide_eq_false_2 by lia. reflexivity.
Qed.

(** X18: a stream opened by [glk_stream_open_memory_uni] is not bound to
    the caller's array: whatever is put to it with
    [glk_put_buffer_stream], the call returns and stores nothing, in the
    array or elsewhere, and prints nothing; the cursor stays at 0 and
    only the write counter, when the mode allows writing, counts the
    characters (a [glui32]).  Nothing can be read back:
    [glk_get_buffer_stream] returns 0 and changes nothing, and
    [glk_get_char_stream] returns -1 and stores nothing. *)
Theorem unicode_memory_stream_detached (buf buflen fmode rock : Z) (s : State)
    (str : Z) (s1 : State) (data : list ascii) :
  glk_stream_open_memory_uni buf buflen fmode rock s = Ret str s1 -> str ≠ NULL ->
  exists s2 x2,
    glk_put_buffer_stream str (Some data) (Z.of_nat (length data)) s1 = Ret tt s2 /\
    mem s2 = mem s /\ stdout s2 = stdout s /\
    streams s2 !! str = Some x2 /\ str_bufptr x2 = 0 /\
    str_writecount x2
    = (if decide (str_writable x2 = 0) then 0
       else wrap32 (Z.of_nat (length data))) /\
    (forall b len, glk_get_buffer_stream str b len s2 = Ret 0 s2) /\
    exists s3, glk_get_char_stream str s2 = Ret (-1) s3 /\ mem s3 = mem s.
Proof.
  intros Hopen Hstr.
  pose proof (post_Ret _ _ _ _ _ _ Hopen
                (glk_stream_open_memory_uni_fields buf buflen fmode rock s))
    as (Em & Eo & _ & Hx).
  destruct (Hx Hstr) as (x & Hx1 & Ht & Hb & _ & _ & Hp & _ & Hwc). clear Hx.
  assert (exists s2 x2,
            gli_put_chars str data s1 = Ret tt s2 /\
            mem s2 = mem s1 /\ stdout s2 = stdout s1 /\
            streams s2 !! str = Some x2 /\ str_type x2 = 1 /\ str_buf x2 = NULL /\
            str_bufptr x2 = 0 /\
            str_writecount x2
            = (if decide (str_writable x2 = 0) then 0
               else wrap32 (Z.of_nat (length data))))
    as (s2 & x2 & E2 & M2 & O2 & Hx2 & Ht2 & Hb2 & Hp2 & Hwc2).
  { destruct (decide (str_writable x = 0)) as [Hw | Hw].
    - exists s1, x. rewrite (put_chars_not_writable str x data s1 Hx1 Hw).
      rewrite decide_True by assumption. repeat split; assumption.
    - destruct (put_chars_detached str data s1 x) as (s2 & E2 & M2 & O2 & S2);
        try assumption; [lia |].
      exists s2. eexists. split; [exact E2 |]. split; [exact M2 |].
      split; [exact O2 |]. rewrite S2, lookup_insert_eq.
      split; [reflexivity |]. cbn.
      rewrite decide_False by assumption. rewrite Hwc.
      repeat split; assumption. }
  exists s2, x2.
  split.
  { unfold glk_put_buffer_stream. rewrite decide_False by lia.
    rewrite Nat2Z.id, firstn_all. exact E2. }
  split; [congruence |]. split; [congruence |].
  split; [exact Hx2 |]. split; [exact Hp2 |]. split; [exact Hwc2 |].
  split.
  - intros b len. now apply (get_buffer_detached s2 str x2).
  - destruct (get_char_detached s2 str x2 Hstr Hx2 Ht2 Hb2) as (s3 & E3 & M3 & _).
    exists s3. split; [exact E3 | congruence].
Qed.

End UnicodeMemory.

(** *** Examples for the Unicode output, the buffers and the files *)

Definition fileref_of (s : State) (p : Z) : glk_fileref_struct :=
  default (Build_fileref 0 0 0 [] 0 0 0 0) (filerefs s !! p).

(** A memory stream of capacity 4 at the address 1000 that holds a line
    and one more character, with the cursor at the start. *)
Definition memory_filled : State :=
  final_state
    (run [Call_stream_open_memory 1000 4 filemode_ReadWrite 0;
          Call_put_buffer_stream 1 (Some (lit "hi" ++ [newline] ++ lit "!")) 4;
          Call_stream_set_position 1 0 seekmode_Start]
       (initial_state [] [] ∅)).

(** A file reference for the file "save", at the address 1. *)
Definition file_named : State :=
  final_state
    (run [Call_fileref_create_by_name 0 (Some (lit "save")) 0]
       (initial_state [] [] ∅)).

(** The file is open for writing: the stream is at the address 4. *)
Definition file_opened : State :=
  final_state (glk_stream_open_file 1 filemode_Write 0 file_named).

Lemma well_formed_after cs input s :
  (exists rs, run cs (initial_state input [] ∅) = Ret rs s) -> well_formed s.
Proof.
  intros [rs E]. exact (post_Ret _ _ _ _ _ _ E (lists_kept_run cs input [] ∅)).
Qed.

Lemma put_char_uni_utf8_witness :
  glk_put_char_uni 0x20AC opened_once
  = gli_put_chars (gli_currentstr opened_once) (utf8_bytes 0x20AC) opened_once /\
  map uchar (utf8_bytes 0x20AC)
  = (if decide (0x20AC < 0x80) then [0x20AC]
     else if decide (0x20AC < 0x800) then [0xC0 + 0x20AC / 64; 0x80 + 0x20AC mod 64]
     else if decide (0x20AC < 0x10000) then
       [0xE0 + 0x20AC / 4096; 0x80 + 0x20AC / 64 mod 64; 0x80 + 0x20AC mod 64]
     else
       [0xF0 + 0x20AC / 262144; 0x80 + 0x20AC / 4096 mod 64;
        0x80 + 0x20AC / 64 mod 64; 0x80 + 0x20AC mod 64]) /\
  (forall ch', 0 <= ch' < 0x200000 -> utf8_bytes ch' = utf8_bytes 0x20AC ->
     ch' = 0x20AC).
Proof. apply (put_char_uni_utf8 0x20AC opened_once). lia. Defined.

Lemma put_char_uni_window_witness :
  (length (utf8_bytes 0x20AC)
   = if decide (0x20AC < 0x80) then 1%nat
     else if decide (0x20AC < 0x800) then 2%nat
     else if decide (0x20AC < 0x10000) then 3%nat else 4%nat) /\
  (gli_currentstr window_current = 2 ->
   exists s',
     glk_put_char_uni 0x20AC window_current = Ret tt s' /\
     stdout s' = stdout window_current ++ map (frame_text 1) (utf8_bytes 0x20AC)) /\
  (exists s',
     glk_put_char_stream_uni 2 0x20AC window_current = Ret tt s' /\
     stdout s' = stdout window_current ++ map (frame_text 1) (utf8_bytes 0x20AC) /\
     gli_currentstr s' = gli_currentstr window_current).
Proof.
  apply (put_char_uni_window window_current 2 1 0x20AC).
  split; [unfold NULL; lia |].
  exists (stream_of window_current 2), (window_of window_current 1).
  split; [vm_compute; reflexivity |].
  split; [vm_compute; discriminate |].
  split; [vm_compute; reflexivity |].
  split; [vm_compute; discriminate |].
  split; vm_compute; reflexivity.
Defined.

Lemma get_buffer_memory_witness :
  let x := stream_of memory_filled 1 in
  let k := Z.min 3 (str_buflen x - str_bufptr x) in
  exists s' x',
    glk_get_buffer_stream 1 2000 3 memory_filled = Ret k s' /\
    mem s' = write_bytes 2000 (stream_bytes memory_filled x (Z.to_nat k))
               (mem memory_filled) /\
    streams s' !! 1 = Some x' /\
    str_bufptr x' = str_bufptr x + k /\
    str_readcount x' = wrap32 (str_readcount x + k) /\
    stdout s' = stdout memory_filled /\ stdin s' = stdin memory_filled.
Proof.
  apply (get_buffer_memory memory_filled 1 2000 3 (stream_of memory_filled 1));
    try (vm_compute; first [reflexivity | discriminate]);
    try (unfold NULL; lia); vm_compute; intuition discriminate.
Defined.

Lemma get_line_memory_witness :
  let x := stream_of memory_filled 1 in
  let line := fst (take_line (Z.to_nat (4 - 1))
                     (stream_bytes memory_filled x
                        (Z.to_nat (str_buflen x - str_bufptr x)))) in
  glk_get_line_stream 1 2000 0 memory_filled = Ret 0 memory_filled /\
  exists s' x',
    glk_get_line_stream 1 2000 4 memory_filled = Ret (Z.of_nat (length line)) s' /\
    mem s' = write_bytes 2000 (line ++ [NUL]) (mem memory_filled) /\
    streams s' !! 1 = Some x' /\
    str_bufptr x' = str_bufptr x + Z.of_nat (length line) /\
    str_readcount x' = wrap32 (str_readcount x + Z.of_nat (length line)) /\
    stdout s' = stdout memory_filled /\ stdin s' = stdin memory_filled.
Proof.
  apply (get_line_memory memory_filled 1 2000 4 (stream_of memory_filled 1));
    try (vm_compute; first [reflexivity | discriminate]);
    try (unfold NULL; lia); vm_compute; intuition discriminate.
Defined.

Lemma file_stream_round_trip_witness :
  exists s2 s3,
    glk_put_buffer_stream 4 (Some hello) (Z.of_nat (length hello)) file_opened
    = Ret tt s2 /\
    glk_stream_close 4 NULL s2 = Ret tt s3 /\
    fs s3 = <[fref_filename (fileref_of file_named 1) := hello]> (fs file_named) /\
    forall rock' str2 s4,
      glk_stream_open_file 1 filemode_Read rock' s3 = Ret str2 s4 -> str2 ≠ NULL ->
      exists s5 s6,
        get_chars (length hello) str2 s4 = Ret (map uchar hello) s5 /\
        glk_get_char_stream str2 s5 = Ret (-1) s6.
Proof.
  apply (file_stream_round_trip file_named 1 0 (fileref_of file_named 1) hello 4
           file_opened).
  - apply (well_formed_after [Call_fileref_create_by_name 0 (Some (lit "save")) 0] []).
    eexists. vm_compute. reflexivity.
  - unfold NULL. lia.
  - vm_compute. reflexivity.
  - vm_compute. reflexivity.
  - unfold NULL. lia.
Defined.

Lemma deleted_file_is_gone_witness :
  (heap_script file_opened = [] -> 1 <= heap_next file_opened ->
   is_Some (fs file_opened !! fref_filename (fileref_of file_opened 1)) ->
   exists s', glk_fileref_does_file_exist 1 file_opened = Ret 1 s' /\
              fs s' = fs file_opened) /\
  exists s1,
    glk_fileref_delete_file 1 file_opened = Ret tt s1 /\
    fs s1 = delete (fref_filename (fileref_of file_opened 1)) (fs file_opened) /\
    glk_fileref_does_file_exist 1 s1 = Ret 0 s1 /\
    glk_stream_open_file 1 filemode_Read 0 s1 = Ret NULL s1.
Proof.
  apply (deleted_file_is_gone file_opened 1 0 (fileref_of file_opened 1)).
  - unfold NULL. lia.
  - vm_compute. reflexivity.
Defined.

Lemma unicode_request_stays_witness :
  fresh Window waiting_for_uni /\
  post (run [Call_cancel_char_event 1; Call_select 2000] waiting_for_uni)
    (fun _ s' =>
       forall p w w',
         windows waiting_for_uni !! p = Some w -> windows s' !! p = Some w' ->
         (win_char_request_uni w ≠ 0 -> win_char_request_uni w' ≠ 0) /\
         (win_line_request_uni w ≠ 0 -> win_line_request_uni w' ≠ 0))
    (fun _ => True).
Proof.
  assert (fresh Window waiting_for_uni) as Hfresh.
  { apply (well_formed_after
             [Call_window_open 0 0 0 3 0; Call_request_char_event_uni 1] hello).
    eexists. vm_compute. reflexivity. }
  split; [exact Hfresh |]. apply unicode_request_stays. exact Hfresh.
Defined.

(** A Unicode memory stream on an array of 4 words at the address 1000,
    open for writing: the stream is at the address 1. *)
Definition unicode_opened : State :=
  final_state
    (glk_stream_open_memory_uni 1000 4 filemode_Write 0 (initial_state [] [] ∅)).

Lemma unicode_memory_stream_detached_witness :
  exists s2 x2,
    glk_put_buffer_stream 1 (Some hello) (Z.of_nat (length hello)) unicode_opened
    = Ret tt s2 /\
    mem s2 = mem (initial_state [] [] ∅) /\
    stdout s2 = stdout (initial_state [] [] ∅) /\
    streams s2 !! 1 = Some x2 /\ str_bufptr x2 = 0 /\
    str_writecount x2
    = (if decide (str_writable x2 = 0) then 0
       else wrap32 (Z.of_nat (length hello))) /\
    (forall b len, glk_get_buffer_stream 1 b len s2 = Ret 0 s2) /\
    exists s3, glk_get_char_stream 1 s2 = Ret (-1) s3 /\
               mem s3 = mem (initial_state [] [] ∅).
Proof.
  apply (unicode_memory_stream_detached 1000 4 filemode_Write 0
           (initial_state [] [] ∅) 1 unicode_opened hello).
  - vm_compute. reflexivity.
  - unfold NULL. lia.
Defined.
